(* ===== verification/_CoqProject ===== *)
-Q . S2P
Prelude.v
GoMap.v
Strconv.v
Values.v
Messages.v
Parse.v
JsonText.v
WireText.v
Pretty.v
Methods.v
Schema.v
Convert.v
Validator.v
Builder.v
Describe.v
Actor.v
StreamingClient.v
Http.v
Http1.v
Auth.v
Session.v
Servers.v
TypeWrap.v
Texts.v
Utils.v
Clients.v
Listen.v
Links.v
Provenance.v
Transports.v
Delivery.v
Network.v
Progress.v
ErrorTexts.v
Service.v
Fifo.v
Flags.v
Cli.v
Programs.v
