(* ===== verification/Prelude.v ===== *)
(** * jsoff: a verification library for the JSON-RPC 2.0 library

    jsoff is a Go library for JSON-RPC 2.0: the root package has the messages
    and their wire format, the package schema describes and validates their
    parameters and results, the package net routes requests to handlers and
    connects peers over HTTP, WebSocket, HTTP/2, TCP and vsock.  This
    development models the core of the three packages as executable
    definitions and proves what they promise to each other and to users.

    ** How the parts work together

    A transport reads the bytes of a message; [ParseBytes] turns them into a
    message; a server wraps a request in an [RPCRequest] and feeds it to an
    actor; [Feed] looks the method up in the actor and in its children,
    validates the message with the schema of the handler, calls the handler
    and wraps what it returns into a response; [MessageBytes] writes the
    response.  A client sends requests, keeps them in a table of pending
    requests and hands the responses it reads to the calls that wait.

    ** Files

    - [Prelude]: outcomes of Go calls (return or panic), results with errors,
      computations that thread a state, change a world or need not end;
      lemmas on lists and strings; the hint database [jsoff].
    - [GoMap]: Go maps with string keys, as lists of entries in the order a
      [range] visits them, and equality up to that order.
    - [Strconv]: the parts of strconv and encoding/json names in use: integers
      of 64 bits, float64 as [spec_float] with correct rounding, letter case.
    - [Values]: the values an [any] holds, JSON trees and the two directions
      of encoding/json between them; Go errors and their chains of causes.
    - [Messages]: types.go, errors.go, messageimpl.go, messagefactory.go and
      the encoding half of messagemarshal.go.
    - [Parse]: parse.go and the decoding half of messagemarshal.go.
    - [JsonText], [WireText]: the scanner and the printer of encoding/json and
      the byte-level round trips of messages.
    - [Pretty]: EncodePretty of messageimpl.go.
    - [Methods]: validators.go.
    - [Schema]: schema/types.go and, of schema/schema.go, the constructors and
      the methods Type, Equal and Map.
    - [Convert]: schema/convert.go.
    - [Validator]: schema/validator.go and the Scan methods of
      schema/schema.go.
    - [Builder]: schema/builder.go.
    - [Describe]: no code of its own; that SchemaToString and BuildBytes undo
      each other.
    - [Actor]: net/request.go, with the schema package behind the class
      [SchemaOps] and its laws [SchemaLaws], which [Validator] discharges.
    - [StreamingClient]: net/streaming_client.go as a step relation.
    - [Http]: the part of net/http in use, headers and errors as responses.
    - [Http1]: net/http1_server.go and net/http1_client.go.
    - [Auth]: net/auth_handler.go.
    - [Session]: net/tcp_server.go, net/vsock_server.go, net/ws_server.go,
      net/http2_server.go and net/http2_session.go, one step relation.
    - [Servers]: the instances of [Session], and what net/http2_server.go and
      net/gateway_handler.go do with a request before a session starts.
    - [TypeWrap]: net/typewrap.go, over a model of the reflect types it uses,
      and the setters WithSchemaJson and WithSchemaYaml of net/request.go.
    - [Texts]: the texts of the library's own errors, with the verbs of fmt they
      use, and the fields of log entries (Error and Log of the root package,
      the schema package and net/).
    - [ErrorTexts]: no code of its own; that JSON carries the texts of validation
      errors.
    - [Utils]: utils.go.
    - [Clients]: net/client_factory.go, net/client_util.go and the transports of
      net/ws_client.go, net/http2_client.go, net/tcp_client.go and
      net/vsock_client.go.
    - [Listen]: Start, Stop and the accept loops of net/tcp_server.go and
      net/vsock_server.go with all sessions of a server on one actor; the
      constructors and the handlers of net/http1_server.go, net/ws_server.go,
      net/http2_server.go and net/gateway_handler.go; net/server_utils.go.
    - [Links]: for each transport, what one end of a connection reads of the
      texts that the other has written.
    - [Transports]: the interface Transport as a class with laws, the four
      transports as instances, and the streaming client over the interface.
    - [Provenance], [Delivery], [Network]: no code of their own; a streaming
      client and the sessions it has, one after another, on connections of any
      of the four kinds, with the texts between them: where messages come from,
      and where requests go.
    - [Progress], [Service]: no code of their own; that calls return, of any
      actor that returns, and of actors with handlers in good order.
    - [Fifo]: the actor of examples/fifo/main.go.
    - [Flags]: the package flag as the tools use it, with the integers of strconv
      in any base.
    - [Cli]: the command-line tools of cli/, from the values of their flags.
    - [Programs]: the main functions of the tools and of the example, from the
      arguments of the command line.

    Definitions have the names of the source; where a name is taken by several
    types, the type comes first ([ListSchema_Scan] is [ListSchema.Scan]).

    ** What is shown

    - Messages: the functions of the package make well-formed messages only
      ([made_ok]), on which the accessors are total for the right kinds
      ([must_accessors]) and ReplaceId, Clone, ToMessage and the factory do what
      they say.  The parser never panics and classifies every input
      ([DecodeMessage_spec]); parsing a text undoes writing it
      ([ParseBytes_MessageString]), also for any number of messages on one
      connection ([stream_transfer]), and for the indented text that the tools
      print ([EncodePretty_parses]).  Requests with one cache key have the same
      method and the same parameters as JSON ([CacheKey_inj]).
    - Schemas: the validator refines a declarative acceptance relation
      ([Validate_spec]) and is insensitive to the order of map entries
      ([Validate_eqv]); Equal decides equality up to that order
      ([Equal_spec]); building ends and makes well-formed schemas
      ([Build_spec]); describing and building are inverse
      ([BuildBytes_SchemaToString]).
    - Actors: every request gets one answer with its own id, whatever handlers
      do ([Feed_serves]); schemas guard handlers ([Feed_validates]); errors and
      panics become the documented error messages
      ([recoverCallHandler_spec]); registration, look-up, catalogue and closing
      agree with each other; a handler gets the schema that a JSON text
      describes ([WithSchemaJson_described]).
    - Streaming client: in every interleaving a call gets at most one message,
      the one with its id ([calls_get_own_answers]), and an answer that is
      pending is delivered ([answer_delivered]).
    - Servers: an HTTP/1 request through client and server is a call of the
      actor ([Http1_request_Feed]); a session answers each request once
      ([session_answers]), in order when handlers do not run in goroutines
      ([session_in_order]); a handler behind authorization runs only for
      requests that are allowed ([Auth_ServeHTTP_spec]); a typed handler gets
      arguments of the types it declares ([wrapTyped_calls]).
    - Client and server together: in every interleaving of both sides, of reads
      and writes of the bytes between them, of failures and of new connections
      after them, a call returns a time-out or what the actor answered to its
      own request ([call_gets_answer]); and from any state with a connection, a
      first or a later one, while nothing fails it returns, within a number of
      steps that is known, when the handlers of the actor are in good order
      ([service_answers], by [calls_return]).
    - Listening: however the sessions of a server, its accept loops and Stop
      interleave, each session answers its own requests ([server_sessions]);
      after Stop no connection is accepted and Start returns ([Stop_stops]); a
      gateway serves all protocols with one actor ([gateway_one_actor]).
    - Transports: the flag of the client model is what the transports return
      ([transport_Connect_refines], [transport_Close_refines]), and the loops do
      not panic unless something happens between test and use ([rounds_safe]).
    - Utilities: integers are guessed exactly within 64 bits
      ([GuessJson_integers]); big integers and lists of parameters survive the
      trip ([Bigint_roundtrip], [decode_fields_typed]).
    - Tools and example: subscribers of the example hear of what is pushed
      ([fifo_push_spec]), unless one of them does not read ([fifo_push_blocks]);
      the watcher ends after its limit of attempts ([watcher_gives_up]) and
      connects again after a loss ([watcher_reconnects]); a benchmark ends with
      the times of all its calls ([benchmark_ends]), and its figures lie between
      the extremes ([RunCallBenchmark_spec]); flags are read wherever they stand
      before the arguments ([flag_Parse_reads]), and the program for calls
      prints the answer to the request its command line describes
      ([call_program_prints]).
    - Where the code does not do what it seems to mean, a theorem states what it
      does: [Clone_wraps_params], [IdNotNull_result_gap],
      [Build_guesses_properties], [GetSchema_not_enforced],
      [duplicate_ids_race], [stale_timer], [one_waiter_wakes],
      [cancelled_loop_closes_successor], [trace_id_lost],
      [bearer_without_token_panics], [session_mute], [ws_session_crash],
      [null_interface_param_panics], [guessed_infinity], [fifo_pop_last],
      [close_under_send_loop], [accept_error_ends_server],
      [closed_session_subscribed], [standard_error_texts].

    ** Recursion and fuel

    Three components recurse on something that is not a part of their argument.
    The builder recurses on maps it has extended; [Build] gives it one more than
    the depth of the description, and [Build_spec] shows that this is always
    enough.  The functions on actors recurse along children, which may form
    cycles; [None] stands for a recursion that does not end within the fuel, and
    on heaps without cycles ([acyclic]) every theorem says that some amount of
    fuel, and any larger one, gives the result.  The lexer of JSON texts has the
    length of the text as its fuel, since every token takes a byte or more.  All
    other recursions are structural.  The place of the 95th percentile in a
    benchmark is shown to be in range for up to [max_times] = 1000 calls, by
    evaluation.

    ** Parameters

    The package mapstructure is the class [MapDecoder] with its documented
    behaviour [MapDecoderOk], and for typed handlers the record [Mapstructure]
    with [mapstructure_laws]; the packages for JWT and for the LRU cache are
    a function and a class with laws in [Auth]; the decoder of YAML is a
    function; handlers of users are arbitrary functions on an
    arbitrary world; what a network, a clock or a file gives is an argument of
    the definitions and of the labels of the step relations.

    ** What is not modelled

    Sockets, TLS and the protocols of net/http, gorilla/websocket and x/net, the
    h2c wrapper and the WebSocket upgrade among them, which are parameters; what
    log entries and messages on the standard error do once they are made, and
    the messages of the package flag; the clock and the sources of random
    numbers, whose values are arguments; the main function of the example past
    its flags, which starts a server.  A context is present by its end only, as
    an action that is possible at any time.  In [Network], when a connection
    ends, what its session on the server still does is an action of other users
    of the actor, and each round of a client's loop is one action.  Data races
    on fields that the source accesses without a lock are outside the model, but
    for the pointers of a transport ([close_under_send_loop]); so is memory
    shared between messages: values are immutable here, and the code treats the
    values it passes on as such. *)

From stdpp Require Export prelude strings pretty.
From stdpp Require Import options.

(** ** Outcomes of Go calls

    A Go call either returns or panics.  [outcome P A] is the result of a call
    that returns an [A] or panics with a value of type [P]. *)

Inductive outcome (P A : Type) : Type :=
  | Ret (a : A)
  | Panic (p : P).
Arguments Ret {_ _} _.
Arguments Panic {_ _} _.

Declare Scope jsoff_scope.
Delimit Scope jsoff_scope with jsoff.
Open Scope jsoff_scope.

Definition outcome_bind {P A B} (f : A → outcome P B) (x : outcome P A) : outcome P B :=
  match x with
  | Ret a => f a
  | Panic p => Panic p
  end.

#[export] Instance outcome_mret {P} : MRet (outcome P) := λ A a, Ret a.
#[export] Instance outcome_mbind {P} : MBind (outcome P) := λ A B f x, outcome_bind f x.
#[export] Instance outcome_fmap {P} : FMap (outcome P) :=
  λ A B f x, outcome_bind (λ a, Ret (f a)) x.

#[export] Instance Ret_inj {P A} : Inj (=) (=) (@Ret P A).
Proof. by intros ?? [= ->]. Qed.

#[export] Instance outcome_eq_dec `{EqDecision P, EqDecision A} : EqDecision (outcome P A).
Proof. solve_decision. Defined.

Lemma outcome_bind_Ret {P A B} (f : A → outcome P B) (x : outcome P A) b :
  x ≫= f = Ret b ↔ ∃ a, x = Ret a ∧ f a = Ret b.
Proof. destruct x; naive_solver. Qed.

Lemma outcome_bind_assoc {P A B C} (f : A → outcome P B) (g : B → outcome P C) x :
  (x ≫= f) ≫= g = x ≫= (λ a, f a ≫= g).
Proof. by destruct x. Qed.

(** [returns Q x]: the call returns, with a value that satisfies [Q]. *)
Definition returns {P A} (Q : A → Prop) (x : outcome P A) : Prop := ∃ a, x = Ret a ∧ Q a.

Lemma returns_Ret {P A} (Q : A → Prop) a : Q a → returns Q (Ret a : outcome P A).
Proof. by eexists. Qed.

Lemma returns_bind {P A B} (Q : A → Prop) (R : B → Prop) (f : A → outcome P B) x :
  returns Q x → (∀ a, Q a → returns R (f a)) → returns R (x ≫= f).
Proof. intros (a & -> & Ha) Hf. by apply Hf. Qed.

Lemma returns_impl {P A} (Q R : A → Prop) (x : outcome P A) :
  returns Q x → (∀ a, Q a → R a) → returns R x.
Proof. intros (a & -> & Ha) HR. exists a. auto. Qed.

(** A Go call that returns a value and an error gives the one or the other:
    [inr a] for [(a, nil)], [inl e] for [(_, e)] with a non-nil error. *)
#[export] Instance sum_mret {E} : MRet (sum E) := λ A a, inr a.
#[export] Instance sum_mbind {E} : MBind (sum E) :=
  λ A B f x, match x with inl e => inl e | inr a => f a end.

Lemma sum_bind_inr {E A B} (f : A → E + B) (x : E + A) b :
  x ≫= f = inr b ↔ ∃ a, x = inr a ∧ f a = inr b.
Proof. destruct x; naive_solver. Qed.

(** ** State passing on top of outcomes

    [stateT S P A] is a computation that threads a mutable state of type [S]
    (the fields of a Go object reached through a pointer receiver) and may
    panic. *)

Definition stateT (S P A : Type) : Type := S → outcome P (A * S).

#[export] Instance stateT_mret {S P} : MRet (stateT S P) := λ A a s, Ret (a, s).
#[export] Instance stateT_mbind {S P} : MBind (stateT S P) :=
  λ A B f m s, outcome_bind (λ p, f p.1 p.2) (m s).

Lemma stateT_bind_Ret {S P A B} (f : A → stateT S P B) (m : stateT S P A) s a s' :
  m s = Ret (a, s') → (m ≫= f) s = f a s'.
Proof. intros E. unfold mbind, stateT_mbind. by rewrite E. Qed.

(** ** Calls that may not return

    [comp P A] is a call through a cyclic structure, computed with fuel:
    [None] when the fuel runs out, which stands for a recursion that need not
    end.  [act W P A] also changes a world of type [W], and keeps the changes
    made before a panic, as a recovered panic does. *)

Definition comp (P A : Type) : Type := option (outcome P A).

#[export] Instance comp_mret {P} : MRet (comp P) := λ A a, Some (Ret a).
#[export] Instance comp_mbind {P} : MBind (comp P) := λ A B f m,
  match m with
  | Some (Ret a) => f a
  | Some (Panic p) => Some (Panic p)
  | None => None
  end.

Definition act (W P A : Type) : Type := W → option (outcome P A * W).

#[export] Instance act_mret {W P} : MRet (act W P) := λ A a w, Some (Ret a, w).
#[export] Instance act_mbind {W P} : MBind (act W P) := λ A B f m w,
  match m w with
  | Some (Ret a, w) => f a w
  | Some (Panic p, w) => Some (Panic p, w)
  | None => None
  end.

Definition act_of_outcome {W P A} (x : outcome P A) : act W P A := λ w, Some (x, w).
Definition act_of_comp {W P A} (x : comp P A) : act W P A :=
  λ w, match x with Some r => Some (r, w) | None => None end.

Lemma act_bind_Ret {W P A B} (f : A → act W P B) (m : act W P A) w a w' :
  m w = Some (Ret a, w') → (m ≫= f) w = f a w'.
Proof. intros E. unfold mbind, act_mbind. by rewrite E. Qed.

Lemma act_bind_Panic {W P A B} (f : A → act W P B) (m : act W P A) w p w' :
  m w = Some (Panic p, w') → (m ≫= f) w = Some (Panic p, w').
Proof. intros E. unfold mbind, act_mbind. by rewrite E. Qed.

(** ** Options, booleans and lists *)

Lemma bool_iff (b : bool) : b = true ↔ Is_true b.
Proof. destruct b; naive_solver. Qed.

Lemma andb_true_intro_iff b1 b2 : b1 && b2 = true ↔ b1 = true ∧ b2 = true.
Proof. destruct b1, b2; naive_solver. Qed.

(** Disjunction and conjunction of a predicate along a list, as recursive
    functions: they can be used inside a structural recursion whose argument
    contains the list. *)
Section list_quant.
Context {A : Type} (P : A → Prop).

Fixpoint list_any (l : list A) : Prop :=
  match l with [] => False | x :: l => P x ∨ list_any l end.

Fixpoint list_all (l : list A) : Prop :=
  match l with [] => True | x :: l => P x ∧ list_all l end.

Lemma list_any_Exists l : list_any l ↔ Exists P l.
Proof. induction l; simpl; [by rewrite Exists_nil|rewrite Exists_cons; naive_solver]. Qed.

Lemma list_all_Forall l : list_all l ↔ Forall P l.
Proof. induction l; simpl; [naive_solver|rewrite Forall_cons; naive_solver]. Qed.

Lemma list_all_elem_of l : list_all l ↔ ∀ x, x ∈ l → P x.
Proof. rewrite list_all_Forall. apply Forall_forall. Qed.
End list_quant.

(** ** Strings

    A Go string is a sequence of bytes, as is Rocq's [string]. *)

Fixpoint string_forallb (p : Ascii.ascii → bool) (s : string) : bool :=
  match s with
  | EmptyString => true
  | String c s => p c && string_forallb p s
  end.

Lemma string_app_nil_r (s : string) : s +:+ "" = s.
Proof. induction s as [|c s IH]; [done|]. exact (f_equal (String c) IH). Qed.

Lemma string_app_assoc (s1 s2 s3 : string) : (s1 +:+ s2) +:+ s3 = s1 +:+ s2 +:+ s3.
Proof. induction s1 as [|c s1 IH]; [done|]. exact (f_equal (String c) IH). Qed.

#[export] Instance string_cons_inj c : Inj (=) (=) (String c).
Proof. by intros ?? [= ->]. Qed.

(** ** Automation *)

(** Case analysis on every [match] of the goal, closing what is immediate. *)
Ltac case_all := repeat (case_match; simplify_eq/=; try done).

(** Prove a closed decidable proposition by evaluating its decision. *)
Ltac eval_decide := first [done | apply (bool_decide_unpack _); vm_compute; done].

(** Split boolean conjunctions in hypotheses and goal. *)
Ltac split_andb :=
  repeat match goal with
  | H : _ && _ = true |- _ => apply andb_true_intro_iff in H as [? ?]
  | |- _ && _ = true => apply andb_true_intro_iff; split
  end.

Create HintDb jsoff.
#[export] Hint Resolve string_app_nil_r returns_Ret returns_bind : jsoff.
