(* ===== verification/GoMap.v ===== *)
(** * Go maps with string keys

    A Go [map[string]V] is represented by the list of its entries, in the
    order in which one [range] over it visits them: Go leaves that order
    unspecified, so every theorem about a function that ranges over a map
    holds for each order.  A map in the sense of Go has each key once
    ([map_ok]). *)

From S2P Require Import Prelude.
From stdpp Require Import sorting.
From stdpp Require Import options.

Abbreviation gomap V := (list (string * V)).

Section ops.
Context {V : Type}.

(** [m[k]], with the second result of the comma-ok form as the option. *)
Fixpoint map_get (k : string) (m : gomap V) : option V :=
  match m with
  | [] => None
  | (k', v) :: m => if decide (k = k') then Some v else map_get k m
  end.

(** [m[k] = v] *)
Fixpoint map_set (k : string) (v : V) (m : gomap V) : gomap V :=
  match m with
  | [] => [(k, v)]
  | (k', v') :: m => if decide (k = k') then (k, v) :: m else (k', v') :: map_set k v m
  end.

(** [delete(m, k)] *)
Definition map_del (k : string) (m : gomap V) : gomap V :=
  filter (λ kv : string * V, kv.1 ≠ k) m.

Definition map_keys (m : gomap V) : list string := m.*1.

Definition map_ok (m : gomap V) : Prop := NoDup (map_keys m).

#[global] Instance map_ok_dec m : Decision (map_ok m).
Proof. unfold map_ok. apply _. Defined.

Lemma map_get_Some_elem k v m : map_get k m = Some v → (k, v) ∈ m.
Proof.
  induction m as [|[k' v'] m IH]; simpl; [done|].
  case_decide; intros [=]; subst; [by left|right; auto].
Qed.

Lemma map_get_elem k v m : map_ok m → (k, v) ∈ m → map_get k m = Some v.
Proof.
  unfold map_ok, map_keys.
  induction m as [|[k' v'] m IH]; simpl; [by rewrite elem_of_nil|].
  rewrite NoDup_cons, elem_of_cons. intros [Hk Hm] [[= -> ->]|Hin].
  - by rewrite decide_True.
  - rewrite decide_False; [by apply IH|].
    intros ->. apply Hk, list_elem_of_fmap. by exists (k', v).
Qed.

Lemma map_get_Some k v m : map_ok m → map_get k m = Some v ↔ (k, v) ∈ m.
Proof. split; auto using map_get_Some_elem, map_get_elem. Qed.

Lemma map_get_None k m : map_get k m = None ↔ k ∉ map_keys m.
Proof.
  unfold map_keys. induction m as [|[k' v'] m IH]; simpl; [set_solver|].
  case_decide; set_solver.
Qed.

Lemma map_get_is_Some k m : is_Some (map_get k m) ↔ k ∈ map_keys m.
Proof.
  rewrite <- not_eq_None_Some, map_get_None.
  split; [by intros ?%dec_stable|by intros ? ?].
Qed.

Lemma map_get_set_eq k v m : map_get k (map_set k v m) = Some v.
Proof.
  induction m as [|[k' v'] m IH]; simpl; [by rewrite decide_True|].
  case_decide; simpl; [by rewrite decide_True|by rewrite decide_False].
Qed.

Lemma map_get_set_ne k k' v m : k ≠ k' → map_get k (map_set k' v m) = map_get k m.
Proof.
  intros Hne. induction m as [|[k2 v2] m IH]; simpl; [by rewrite decide_False|].
  case_decide; subst; simpl; [by rewrite !decide_False by done|].
  by case_decide; [|apply IH].
Qed.

Lemma map_keys_set_elem k k' v m : k ∈ map_keys (map_set k' v m) ↔ k = k' ∨ k ∈ map_keys m.
Proof.
  rewrite <- !map_get_is_Some. destruct (decide (k = k')) as [->|].
  - rewrite map_get_set_eq. naive_solver.
  - rewrite map_get_set_ne by done. naive_solver.
Qed.

Lemma map_set_ok k v m : map_ok m → map_ok (map_set k v m).
Proof.
  unfold map_ok. induction m as [|[k' v'] m IH]; simpl.
  - intros _. apply NoDup_singleton.
  - rewrite NoDup_cons. intros [Hk Hm]. case_decide as Hkk; simpl; subst.
    + by apply NoDup_cons.
    + apply NoDup_cons; split; [|by apply IH].
      intros [->|?]%map_keys_set_elem; [by apply Hkk|by apply Hk].
Qed.

Lemma map_get_del_eq k m : map_get k (map_del k m) = None.
Proof.
  apply map_get_None. unfold map_del, map_keys. intros ([k' v] & -> & Hin)%list_elem_of_fmap.
  by apply list_elem_of_filter in Hin as [? _].
Qed.

Lemma map_get_del_ne k k' m : k ≠ k' → map_get k (map_del k' m) = map_get k m.
Proof.
  intros Hne. unfold map_del. induction m as [|[k2 v2] m IH]; [done|].
  rewrite filter_cons. cbn [fst map_get]. repeat case_decide; subst; simpl; try done.
  - by rewrite decide_True.
  - by rewrite decide_False.
Qed.

Lemma map_set_fresh k v m : map_get k m = None → map_set k v m = m ++ [(k, v)].
Proof.
  induction m as [|[k' v'] m IH]; simpl; [done|].
  case_decide; [done|]. intros Hm. by rewrite IH.
Qed.

(** Two representations of the same map: the order of the entries is the
    only difference. *)
Lemma map_get_perm k m1 m2 : map_ok m1 → m1 ≡ₚ m2 → map_get k m1 = map_get k m2.
Proof.
  intros Hok Hp. assert (map_ok m2) as Hok2.
  { unfold map_ok, map_keys in *. by rewrite <- Hp. }
  apply option_eq; intros v. rewrite !map_get_Some by done. by rewrite Hp.
Qed.

Lemma map_ok_perm m1 m2 : m1 ≡ₚ m2 → map_ok m1 → map_ok m2.
Proof. unfold map_ok, map_keys. by intros ->. Qed.

Lemma map_ext_perm m1 m2 :
  map_ok m1 → map_ok m2 → (∀ k, map_get k m1 = map_get k m2) → m1 ≡ₚ m2.
Proof.
  intros H1 H2 Heq. apply NoDup_Permutation.
  - by eapply NoDup_fmap_1.
  - by eapply NoDup_fmap_1.
  - intros [k v]. by rewrite <- !map_get_Some, Heq by done.
Qed.
End ops.

Lemma map_set_Forall {V} (P : string * V → Prop) k v m :
  P (k, v) → Forall P m → Forall P (map_set k v m).
Proof.
  intros Hv. induction 1 as [|[k' v'] m Hp Hm IH]; simpl; [by repeat constructor|].
  case_decide; by constructor.
Qed.

Lemma map_get_fmap {V W} (f : V → W) k (m : gomap V) :
  map_get k ((λ kv, (kv.1, f kv.2)) <$> m) = f <$> map_get k m.
Proof. induction m as [|[k' v] m IH]; simpl; [done|]. by case_decide. Qed.

Lemma map_keys_fmap {V W} (f : V → W) (m : gomap V) :
  map_keys ((λ kv, (kv.1, f kv.2)) <$> m) = map_keys m.
Proof. unfold map_keys. rewrite <- list_fmap_compose. by apply list_fmap_ext. Qed.

(** ** Sorting by key, the order in which encoding/json writes a map *)

Definition key_le {V} (p q : string * V) : Prop := String.le p.1 q.1.

#[export] Instance key_le_dec {V} : RelDecision (@key_le V).
Proof. intros p q. unfold key_le. apply _. Defined.

Section sort.
Context {V : Type}.

Fixpoint sort_insert (p : string * V) (m : gomap V) : gomap V :=
  match m with
  | [] => [p]
  | q :: m => if decide (key_le p q) then p :: q :: m else q :: sort_insert p m
  end.

Fixpoint map_sort (m : gomap V) : gomap V :=
  match m with
  | [] => []
  | p :: m => sort_insert p (map_sort m)
  end.

Lemma sort_insert_perm p m : sort_insert p m ≡ₚ p :: m.
Proof.
  induction m as [|q m IH]; simpl; [done|]. case_decide; [done|].
  rewrite IH. apply Permutation_swap.
Qed.

Lemma map_sort_perm m : map_sort m ≡ₚ m.
Proof. induction m as [|p m IH]; simpl; [done|]. by rewrite sort_insert_perm, IH. Qed.

Lemma sort_insert_sorted p m :
  StronglySorted key_le m → StronglySorted key_le (sort_insert p m).
Proof.
  induction m as [|q m IH]; simpl; [by repeat constructor|].
  intros [Hm Hq]%StronglySorted_inv. case_decide as Hpq.
  - constructor; [by constructor|]. constructor; [done|].
    eapply Forall_impl; [done|]. intros r Hr. unfold key_le in *. by etrans.
  - constructor; [by apply IH|].
    rewrite sort_insert_perm. constructor; [|done].
    unfold key_le in *. by destruct (total String.le p.1 q.1).
Qed.

Lemma map_sort_sorted m : StronglySorted key_le (map_sort m).
Proof. induction m; simpl; [constructor|by apply sort_insert_sorted]. Qed.

Lemma map_sort_ok m : map_ok m → map_ok (map_sort m).
Proof. apply map_ok_perm. symmetry. apply map_sort_perm. Qed.

Lemma map_get_sort k m : map_ok m → map_get k (map_sort m) = map_get k m.
Proof. intros Hm. symmetry. apply map_get_perm; [done|]. symmetry. apply map_sort_perm. Qed.

(** Two representations of one map have one sorted form. *)
Lemma map_sort_canonical m1 m2 : map_ok m1 → m1 ≡ₚ m2 → map_sort m1 = map_sort m2.
Proof.
  intros Hok Hp. apply (StronglySorted_unique_strong key_le).
  - intros [k1 v1] [k2 v2] H1 H2 Hle1 Hle2. unfold key_le in *; simpl in *.
    assert (k1 = k2) as -> by (by apply (anti_symm String.le)). f_equal.
    rewrite map_sort_perm in H1. rewrite map_sort_perm, <- Hp in H2.
    apply map_get_elem in H1, H2; [|done..]. congruence.
  - apply map_sort_sorted.
  - apply map_sort_sorted.
  - by rewrite !map_sort_perm.
Qed.
End sort.

(** Sorting looks at the keys only. *)
Lemma map_sort_fmap {V W} (f : V → W) (m : gomap V) :
  map_sort ((λ kv, (kv.1, f kv.2)) <$> m) = (λ kv, (kv.1, f kv.2)) <$> map_sort m.
Proof.
  assert (∀ p (m : gomap V), sort_insert (p.1, f p.2) ((λ kv, (kv.1, f kv.2)) <$> m)
    = (λ kv, (kv.1, f kv.2)) <$> sort_insert p m) as Hins.
  { intros p m'. induction m' as [|q m' IH]; simpl; [done|].
    change (key_le (p.1, f p.2) (q.1, f q.2)) with (key_le p q).
    case_decide; [done|]. exact (f_equal _ IH). }
  induction m as [|p m IH]; [done|]. rewrite fmap_cons. cbn [map_sort].
  rewrite IH. apply Hins.
Qed.

#[export] Hint Resolve map_set_ok map_sort_ok map_sort_perm map_sort_sorted : jsoff.
#[export] Hint Rewrite @map_get_set_eq @map_keys_fmap : jsoff.
