(* ===== verification/Strconv.v ===== *)
(** * Numbers and text: the parts of strconv, unicode/utf8 and encoding/json
      names that the library relies on

    [ParseInt] and [ParseFloat] follow strconv's grammar and error cases;
    float64 values are [spec_float]s of precision 53 and emax 1024, and a
    decimal is converted by one correctly rounded operation on the exact
    value. *)

From Stdlib Require Import SpecFloat Ascii.
From S2P Require Import Prelude.
From stdpp Require Import options.
Local Open Scope Z_scope.

(** ** Characters *)

Definition code (c : ascii) : N := N_of_ascii c.

Definition in_range (lo hi : N) (c : ascii) : bool :=
  N.leb lo (code c) && N.leb (code c) hi.

Definition is_digit : ascii → bool := in_range 48 57.
Definition is_upper : ascii → bool := in_range 65 90.
Definition is_lower : ascii → bool := in_range 97 122.

Definition to_lower (c : ascii) : ascii :=
  if is_upper c then ascii_of_N (code c + 32) else c.

Definition digit_val (c : ascii) : Z := Z.of_N (code c) - 48.

Definition is_hex_letter (c : ascii) : bool := in_range 97 102 (to_lower c).

(** ** 64-bit integers *)

Definition min_int64 : Z := - 2 ^ 63.
Definition max_int64 : Z := 2 ^ 63 - 1.

Definition is_int64 (z : Z) : bool := (min_int64 <=? z) && (z <=? max_int64).

(** [digits_value acc s]: the decimal value of [s] after the digits already
    accumulated in [acc]; [None] when a byte is not a digit. *)
Fixpoint digits_value (acc : Z) (s : string) : option Z :=
  match s with
  | EmptyString => Some acc
  | String c s => if is_digit c then digits_value (acc * 10 + digit_val c) s else None
  end.

Definition ParseUint (s : string) : option Z :=
  match s with EmptyString => None | _ => digits_value 0 s end.

(** [strconv.ParseInt(s, 10, 64)]; [None] stands for every error. *)
Definition ParseInt (s : string) : option Z :=
  let '(neg, rest) :=
    match s with
    | String "+" r => (false, r)
    | String "-" r => (true, r)
    | _ => (false, s)
    end%char in
  un ← ParseUint rest;
  let n := if (neg : bool) then - un else un in
  if is_int64 n then Some n else None.

(** [strconv.Itoa], and the text of [%d]. *)
Definition Itoa (z : Z) : string := pretty z.

(** [fmt.Sprintf("[%d]", i)] *)
Definition index_path (i : nat) : string := "[" +:+ Itoa (Z.of_nat i) +:+ "]".

(** ** float64 *)

Abbreviation float64 := spec_float.

Definition prec64 : Z := 53.
Definition emax64 : Z := 1024.

Definition float_zero : float64 := S754_zero false.

(** [float64(n)] for an integer [n]. *)
Definition float_of_Z (n : Z) : float64 := binary_normalize prec64 emax64 n 0 false.

(** Go's [==], [<] and [<=] on float64. *)
Definition float_eqb : float64 → float64 → bool := SFeqb.
Definition float_ltb : float64 → float64 → bool := SFltb.
Definition float_leb : float64 → float64 → bool := SFleb.

#[export] Instance spec_float_eq_dec : EqDecision spec_float.
Proof. solve_decision. Defined.

(** The two zeros are equal numbers. *)
Definition float_norm (f : float64) : float64 :=
  match f with S754_zero _ => S754_zero false | _ => f end.

Definition float_is_inf (f : float64) : bool :=
  match f with S754_infinity _ => true | _ => false end.

(** The float64 nearest to [(-1)^neg * mant * 10^exp], where [mant] has
    [nd] digits.  The two early exits are those of strconv's decimal
    conversion. *)
Definition decimal_to_float (neg : bool) (mant exp nd : Z) : float64 :=
  if mant =? 0 then S754_zero neg
  else if 310 <? nd + exp then S754_infinity neg
  else if nd + exp <? -330 then S754_zero neg
  else if 0 <=? exp then
    binary_normalize prec64 emax64 ((if neg then -1 else 1) * mant * 10 ^ exp) 0 neg
  else
    SFdiv prec64 emax64 (S754_finite neg (Z.to_pos mant) 0)
      (S754_finite false (Z.to_pos (10 ^ (- exp))) 0).

Definition hex_to_float (neg : bool) (mant exp : Z) : float64 :=
  binary_normalize prec64 emax64 ((if neg then -1 else 1) * mant) exp neg.

(** State of the mantissa loop of strconv's readFloat: value, number of
    digits after leading zeros, number of digits after the point, and the
    flags [sawdot], [sawdigits] and [underscores]. *)
Record mantissa := Mantissa {
  mt_value : Z; mt_nd : Z; mt_frac : Z;
  mt_dot : bool; mt_digits : bool; mt_underscores : bool }.

Definition mantissa0 : mantissa := Mantissa 0 0 0 false false false.

Definition mantissa_digit (base d : Z) (m : mantissa) : mantissa :=
  {| mt_value := mt_value m * base + d;
     mt_nd := if (d =? 0) && (mt_nd m =? 0) then 0 else mt_nd m + 1;
     mt_frac := if mt_dot m then mt_frac m + 1 else mt_frac m;
     mt_dot := mt_dot m; mt_digits := true; mt_underscores := mt_underscores m |}.

Fixpoint read_mantissa (hex : bool) (m : mantissa) (s : string) : mantissa * string :=
  match s with
  | EmptyString => (m, s)
  | String c r =>
      if (c =? "_")%char then
        read_mantissa hex (Mantissa (mt_value m) (mt_nd m) (mt_frac m) (mt_dot m) (mt_digits m) true) r
      else if (c =? ".")%char then
        if mt_dot m then (m, s)
        else read_mantissa hex (Mantissa (mt_value m) (mt_nd m) 0 true (mt_digits m) (mt_underscores m)) r
      else if is_digit c then
        read_mantissa hex (mantissa_digit (if hex then 16 else 10) (digit_val c) m) r
      else if hex && is_hex_letter c then
        read_mantissa hex (mantissa_digit 16 (Z.of_N (code (to_lower c)) - 87) m) r
      else (m, s)
  end.

(** The digits of an exponent; the value saturates as strconv's does. *)
Fixpoint read_exp_digits (e : Z) (us : bool) (s : string) : Z * bool * string :=
  match s with
  | EmptyString => (e, us, s)
  | String c r =>
      if (c =? "_")%char then read_exp_digits e true r
      else if is_digit c then
        read_exp_digits (if e <? 10000 then e * 10 + digit_val c else e) us r
      else (e, us, s)
  end.

Definition read_exponent (s : string) : option (Z * bool * string) :=
  let '(sign, r) :=
    match s with
    | String "+" r => (1, r)
    | String "-" r => (-1, r)
    | _ => (1, s)
    end%char in
  match r with
  | String c _ =>
      if is_digit c then
        let '(e, us, r') := read_exp_digits 0 false r in Some (sign * e, us, r')
      else None
  | EmptyString => None
  end.

(** strconv's underscoreOK, after the sign and the base prefix. *)
Fixpoint underscore_ok (hex : bool) (prev : ascii) (s : string) : bool :=
  match s with
  | EmptyString => negb (prev =? "_")%char
  | String c r =>
      if is_digit c || (hex && is_hex_letter c) then underscore_ok hex "0" r
      else if (c =? "_")%char then (prev =? "0")%char && underscore_ok hex "_" r
      else negb (prev =? "_")%char && underscore_ok hex "!" r
  end.

Definition strip_sign (s : string) : bool * string :=
  match s with
  | String "+" r => (false, r)
  | String "-" r => (true, r)
  | _ => (false, s)
  end%char.

Fixpoint lower_string (s : string) : string :=
  match s with EmptyString => "" | String c r => String (to_lower c) (lower_string r) end.

(** strconv's special: infinities and NaN, in any letter case. *)
Definition special_float (s : string) : option float64 :=
  let '(neg, r) := strip_sign s in
  let r := lower_string r in
  if bool_decide (r = "inf" ∨ r = "infinity") then Some (S754_infinity neg)
  else if bool_decide (lower_string s = "nan") then Some S754_nan
  else None.

(** [strconv.ParseFloat(s, 64)]: the value, and whether the error is nil.
    On a syntax error the value is 0, on a range error an infinity. *)
Definition ParseFloat (s : string) : float64 * bool :=
  match special_float s with
  | Some f => (f, true)
  | None =>
      let '(neg, r) := strip_sign s in
      let '(hex, r) :=
        match r with
        | String "0" (String x ((String _ _) as r')) =>
            if (to_lower x =? "x")%char then (true, r') else (false, r)
        | _ => (false, r)
        end%char in
      let '(m, r1) := read_mantissa hex mantissa0 r in
      let done e us :=
        if (mt_underscores m || us) && negb (underscore_ok hex (if hex then "0" else "^") r)
        then (float_zero, false)
        else
          let f := if hex : bool then hex_to_float neg (mt_value m) (e - 4 * mt_frac m)
                   else decimal_to_float neg (mt_value m) (e - mt_frac m) (mt_nd m) in
          (f, negb (float_is_inf f)) in
      if negb (mt_digits m) then (float_zero, false) else
      match r1 with
      | EmptyString => if hex : bool then (float_zero, false) else done 0 false
      | String c r2 =>
          if (to_lower c =? (if hex : bool then "p" else "e"))%char then
            match read_exponent r2 with
            | Some (e, us, EmptyString) => done e us
            | _ => (float_zero, false)
            end
          else (float_zero, false)
      end
  end.

(** ** Printing float64

    strconv's shortest formatting: the shortest decimal that rounds to the
    float64, and the closest of those.  [num/den] is the exact value. *)

Definition float_num (m : positive) (e : Z) : Z := Zpos m * 2 ^ Z.max e 0.
Definition float_den (e : Z) : Z := 2 ^ Z.max (- e) 0.

(** [num/den < 10^k] *)
Definition below_pow10 (num den k : Z) : bool :=
  if 0 <=? k then num <? den * 10 ^ k else num * 10 ^ (- k) <? den.

(** The [k] with [10^(k-1) <= num/den < 10^k]. *)
Definition decimal_point (num den : Z) : Z :=
  let k0 := (Z.log2 num - Z.log2 den) * 30103 / 100000 in
  match List.find (below_pow10 num den) [k0 - 1; k0; k0 + 1; k0 + 2] with
  | Some k => k
  | None => k0 + 3
  end.

(** The decimal of [n] digits for [num/den < 10^k], when one reads back. *)
Definition try_digits (f : float64) (num den k n : Z) : option Z :=
  let e := k - n in
  let a := if 0 <=? e then num else num * 10 ^ (- e) in
  let b := if 0 <=? e then den * 10 ^ e else den in
  let down := a / b in
  let r := a mod b in
  let reads d := float_eqb (decimal_to_float false d e n) f in
  let up_first := (b <? 2 * r) || ((2 * r =? b) && Z.odd down) in
  if reads down && reads (down + 1) then Some (if up_first then down + 1 else down)
  else if reads down then Some down
  else if reads (down + 1) then Some (down + 1)
  else None.

(** The shortest decimal [(d, n)]: the value is [d * 10^(k-n)]. *)
Fixpoint shortest_from (fuel : nat) (f : float64) (num den k n : Z) : Z * Z :=
  match fuel with
  | O => (num / den, k)
  | S fuel =>
      match try_digits f num den k n with
      | Some d => (d, n)
      | None => shortest_from fuel f num den k (n + 1)
      end
  end.

Fixpoint strip_zeros (fuel : nat) (d : Z) : Z :=
  match fuel with
  | O => d
  | S fuel => if (d =? 0) || negb (d mod 10 =? 0) then d else strip_zeros fuel (d / 10)
  end.

Definition zeros (n : Z) : string := String.concat "" (replicate (Z.to_nat n) "0").

Definition exponent_text (x : Z) : string :=
  if x <? 0 then "e-" +:+ Itoa (- x) else "e+" +:+ Itoa x.

(** The shortest digits and the place of the decimal point among them. *)
Definition float_decimal (m : positive) (e : Z) : string * Z :=
  let num := float_num m e in
  let den := float_den e in
  let k := decimal_point num den in
  let '(d, n) := shortest_from 17 (S754_finite false m e) num den k 1 in
  (Itoa (strip_zeros 20 d), k + Z.of_nat (String.length (Itoa d)) - n).

(** Digits with the point in its place. *)
Definition fixed_text (txt : string) (dp : Z) : string :=
  let nd := Z.of_nat (String.length txt) in
  if dp <=? 0 then "0." +:+ zeros (- dp) +:+ txt
  else if nd <=? dp then txt +:+ zeros (dp - nd)
  else String.substring 0 (Z.to_nat dp) txt +:+ "."
         +:+ String.substring (Z.to_nat dp) (Z.to_nat (nd - dp)) txt.

(** One digit before the point, and an exponent. *)
Definition scientific_text (txt exponent : string) : string :=
  match txt with
  | String c r => String c ((if bool_decide (r = "") then "" else "." +:+ r) +:+ exponent)
  | EmptyString => ""
  end.

(** The text of [%g] and of [%v]: the exponent has two digits at least. *)
Definition FormatG (f : float64) : string :=
  match f with
  | S754_zero neg => if neg then "-0" else "0"
  | S754_infinity neg => if neg then "-Inf" else "+Inf"
  | S754_nan => "NaN"
  | S754_finite neg m e =>
      let '(txt, dp) := float_decimal m e in
      let x := dp - 1 in
      let exponent :=
        (if x <? 0 then "e-" else "e+") +:+ (if Z.abs x <? 10 then "0" else "") +:+ Itoa (Z.abs x) in
      (if neg then "-" else "") +:+
      (if (x <? -4) || (6 <=? x) then scientific_text txt exponent else fixed_text txt dp)
  end.

(** encoding/json's text of a finite float64 ([None] for NaN and
    infinities, which it refuses). *)
Definition FormatFloat (f : float64) : option string :=
  match f with
  | S754_zero neg => Some (if neg then "-0" else "0")
  | S754_infinity _ | S754_nan => None
  | S754_finite neg m e =>
      let '(txt, dp) := float_decimal m e in
      let body :=
        if (dp <? -5) || (21 <? dp) then scientific_text txt (exponent_text (dp - 1)) else fixed_text txt dp in
      Some ((if neg then "-" else "") +:+ body)
  end.

(** ** The text of JSON numbers *)

Fixpoint skip_digits (s : string) : string :=
  match s with
  | EmptyString => s
  | String c r => if is_digit c then skip_digits r else s
  end.

(** encoding/json's isValidNumber. *)
Definition isValidNumber (s : string) : bool :=
  let s1 := match s with String "-" r => r | _ => s end%char in
  match s1 with
  | EmptyString => false
  | String c r =>
      let s2 := if (c =? "0")%char then Some r
                else if is_digit c then Some (skip_digits r) else None in
      match s2 with
      | None => false
      | Some s2 =>
          let s3 := match s2 with
                    | String "." (String d r) => if is_digit d then skip_digits r else s2
                    | _ => s2
                    end%char in
          match s3 with
          | EmptyString => true
          | String e (String x y as r) =>
              if (to_lower e =? "e")%char then
                if (x =? "+")%char || (x =? "-")%char then
                  match y with
                  | EmptyString => false
                  | _ => bool_decide (skip_digits y = "")
                  end
                else bool_decide (skip_digits r = "")
              else false
          | _ => false
          end
      end
  end.

(** ** UTF-8 *)

Definition is_cont : ascii → bool := in_range 128 191.

(** Number of bytes of the valid UTF-8 sequence at the head of [s]
    (0 when the first byte does not start one), as in unicode/utf8. *)
Definition rune_len (s : string) : nat :=
  match s with
  | EmptyString => 0
  | String b0 r =>
      if in_range 0 127 b0 then 1
      else match r with
      | EmptyString => 0
      | String b1 r =>
          if in_range 194 223 b0 then (if is_cont b1 then 2 else 0)
          else match r with
          | EmptyString => 0
          | String b2 r =>
              if in_range 224 239 b0 then
                let ok1 := if (code b0 =? 224)%N then in_range 160 191 b1
                           else if (code b0 =? 237)%N then in_range 128 159 b1
                           else is_cont b1 in
                if ok1 && is_cont b2 then 3 else 0
              else match r with
              | EmptyString => 0
              | String b3 _ =>
                  if in_range 240 244 b0 then
                    let ok1 := if (code b0 =? 240)%N then in_range 144 191 b1
                               else if (code b0 =? 244)%N then in_range 128 143 b1
                               else is_cont b1 in
                    if ok1 && is_cont b2 && is_cont b3 then 4 else 0
                  else 0
              end
          end
      end
  end%nat.

(** U+FFFD in UTF-8. *)
Definition replacement : string :=
  String (ascii_of_N 239) (String (ascii_of_N 191) (String (ascii_of_N 189) "")).

(** [skip] bytes of the current rune are still to be copied. *)
Fixpoint coerce_from (skip : nat) (s : string) : string :=
  match s with
  | EmptyString => ""
  | String c r =>
      match skip with
      | S k => String c (coerce_from k r)
      | O => match rune_len s with
             | O => replacement +:+ coerce_from 0 r
             | S k => String c (coerce_from k r)
             end
      end
  end.

(** The text encoding/json writes for a Go string: every byte that is not
    part of valid UTF-8 becomes U+FFFD. *)
Definition coerceUTF8 (s : string) : string := coerce_from 0 s.

Definition utf8_ok (s : string) : bool := bool_decide (coerceUTF8 s = s).

(** encoding/json's foldName, which compares the keys of an object with the
    names of struct fields: ASCII case is ignored, U+017F folds to S and
    U+212A to K. *)
Fixpoint foldName (s : string) : string :=
  match s with
  | EmptyString => ""
  | String a (String b ((String c r) as r1) as r0) =>
      if (code a =? 226)%N && (code b =? 132)%N && (code c =? 170)%N then String "k" (foldName r)
      else if (code a =? 197)%N && (code b =? 191)%N then String "s" (foldName r1)
      else String (to_lower a) (foldName r0)
  | String a (String b EmptyString as r0) =>
      if (code a =? 197)%N && (code b =? 191)%N then String "s" ""
      else String (to_lower a) (foldName r0)
  | String a EmptyString => String (to_lower a) ""
  end.

(** ** Facts *)

Lemma is_int64_spec z : is_int64 z = true ↔ min_int64 ≤ z ≤ max_int64.
Proof. unfold is_int64. rewrite andb_true_iff, !Z.leb_le. done. Qed.

Lemma ParseInt_range s z : ParseInt s = Some z → min_int64 ≤ z ≤ max_int64.
Proof.
  unfold ParseInt. intros H. case_match. apply bind_Some in H as (u & _ & Hu).
  destruct (is_int64 _) eqn:E; simplify_eq. by apply is_int64_spec.
Qed.

Lemma pretty_N_char_digit x :
  (x < 10)%N → is_digit (pretty_N_char x) = true ∧ digit_val (pretty_N_char x) = Z.of_N x.
Proof.
  intros Hx. assert (x = 0 ∨ x = 1 ∨ x = 2 ∨ x = 3 ∨ x = 4 ∨ x = 5 ∨ x = 6 ∨ x = 7
    ∨ x = 8 ∨ x = 9)%N as Hc by lia.
  destruct_or! Hc; by subst.
Qed.

Lemma digits_value_pretty_go x s acc :
  ∃ k, 0 ≤ k ∧ digits_value acc (pretty_N_go x s) = digits_value (acc * 10 ^ k + Z.of_N x) s.
Proof.
  revert s acc. induction (N.lt_wf_0 x) as [x _ IH]. intros s acc.
  destruct (decide (x = 0)%N) as [->|Hx].
  { exists 0. rewrite pretty_N_go_0. split; [lia|]. f_equal. lia. }
  rewrite pretty_N_go_step by lia.
  destruct (IH (x `div` 10)%N (N.div_lt x 10 ltac:(lia) ltac:(lia))
    (String (pretty_N_char (x `mod` 10)) s) acc) as (k & Hk & ->).
  exists (k + 1). split; [lia|]. cbn [digits_value].
  destruct (pretty_N_char_digit (x `mod` 10)) as [-> ->]; [by apply N.mod_lt|].
  f_equal. rewrite Z.pow_add_r by lia.
  pose proof (N.div_mod x 10 ltac:(done)) as Hdm.
  assert (Z.of_N x = 10 * Z.of_N (x `div` 10) + Z.of_N (x `mod` 10)) by lia. nia.
Qed.

Lemma pretty_N_nonempty x : pretty_N x ≠ "".
Proof.
  unfold pretty_N. case_decide as Hx; [done|]. rewrite pretty_N_go_step by lia.
  assert (∀ y c s, pretty_N_go y (String c s) ≠ "") as Hgo; [|apply Hgo].
  intros y. induction (N.lt_wf_0 y) as [y _ IH]. intros c s.
  destruct (decide (y = 0)%N) as [->|]; [by rewrite pretty_N_go_0|].
  rewrite pretty_N_go_step by lia. apply IH, N.div_lt; lia.
Qed.

Lemma ParseUint_pretty_N x : ParseUint (pretty_N x) = Some (Z.of_N x).
Proof.
  assert (digits_value 0 (pretty_N x) = Some (Z.of_N x)) as H.
  { unfold pretty_N. case_decide as Hx; [by subst|].
    by destruct (digits_value_pretty_go x "" 0) as (k & _ & ->). }
  unfold ParseUint. pose proof (pretty_N_nonempty x). by destruct (pretty_N x).
Qed.

Lemma ParseUint_head_digit s u :
  ParseUint s = Some u → ∃ c r, s = String c r ∧ is_digit c = true.
Proof.
  destruct s as [|c r]; simpl; [done|]. intros H. exists c, r.
  by destruct (is_digit c).
Qed.

Lemma ParseInt_unsigned s u :
  ParseUint s = Some u → ParseInt s = if is_int64 u then Some u else None.
Proof.
  intros Hs. destruct (ParseUint_head_digit _ _ Hs) as (c & r & -> & Hc).
  unfold ParseInt. destruct (ascii_dec c "+") as [->|Hp]; [done|].
  destruct (ascii_dec c "-") as [->|Hm]; [done|].
  replace (match String c r with
    | String "+" r => (false, r) | String "-" r => (true, r)
    | _ => (false, String c r) end%char) with (false, String c r).
  - by rewrite Hs.
  - destruct c as [[] [] [] [] [] [] [] []]; done.
Qed.

(** [strconv.ParseInt] reads back what [strconv.Itoa] printed, if it fits. *)
Lemma ParseInt_Itoa_cases z : ParseInt (Itoa z) = if is_int64 z then Some z else None.
Proof.
  destruct z as [|p|p]; [done|..].
  - apply ParseInt_unsigned, (ParseUint_pretty_N (Npos p)).
  - assert (Itoa (Zneg p) = String "-" (pretty_N (Npos p))) as -> by done.
    unfold ParseInt. by rewrite ParseUint_pretty_N.
Qed.

Lemma ParseInt_Itoa z : is_int64 z = true → ParseInt (Itoa z) = Some z.
Proof. intros Hz. by rewrite ParseInt_Itoa_cases, Hz. Qed.

Lemma coerceUTF8_ok s : utf8_ok s = true → coerceUTF8 s = s.
Proof. apply bool_decide_eq_true. Qed.

#[export] Hint Resolve ParseInt_range ParseInt_Itoa coerceUTF8_ok : jsoff.

Example floats_as_text :
  FormatG (float_of_Z 1500000) = "1.5e+06" ∧ FormatG (float_of_Z 100000) = "100000" ∧
  FormatG (ParseFloat "0.00012").1 = "0.00012" ∧ FormatG (ParseFloat "-0.000012").1 = "-1.2e-05" ∧
  FormatG (ParseFloat "2.5").1 = "2.5" ∧ FormatG (S754_infinity false) = "+Inf".
Proof. by vm_compute. Qed.
