(* ===== verification/Values.v ===== *)
(** * Dynamic values, JSON trees and errors

    [any] is the Go type [any] restricted to the dynamic types the library
    inspects; [json] is a JSON text up to layout and escapes.  [Marshal] and
    [json_value] are the two directions of encoding/json between them, with
    the decoder in UseNumber mode as every caller in the library sets it. *)

From S2P Require Import Prelude GoMap Strconv.
From stdpp Require Import options.

(** ** Values *)

#[local] Unset Elimination Schemes.

Inductive any : Type :=
  | ANil
  | ABool (b : bool)
  | AInt (z : Z)                      (** int *)
  | AInt64 (z : Z)                    (** int64 *)
  | AFloat (f : float64)              (** float64 *)
  | ANumber (s : string)              (** json.Number, a string type *)
  | AString (s : string)
  | AList (l : list any)              (** []any *)
  | AMap (m : gomap any)              (** map[string]any *)
  | AMapList (l : list (gomap any))   (** []map[string]any *)
  | AStrList (l : list string)        (** []string *)
  | AAnyMap (m : list (any * any))    (** map[any]any, made by yaml *)
  | AFunc.                            (** a func or chan: no JSON form *)

#[local] Set Elimination Schemes.

Section any_ind.
Variable P : any → Prop.
Hypothesis Hnil : P ANil.
Hypothesis Hbool : ∀ b, P (ABool b).
Hypothesis Hint : ∀ z, P (AInt z).
Hypothesis Hint64 : ∀ z, P (AInt64 z).
Hypothesis Hfloat : ∀ f, P (AFloat f).
Hypothesis Hnum : ∀ s, P (ANumber s).
Hypothesis Hstr : ∀ s, P (AString s).
Hypothesis Hlist : ∀ l, Forall P l → P (AList l).
Hypothesis Hmap : ∀ m, Forall (λ kv, P kv.2) m → P (AMap m).
Hypothesis Hmaps : ∀ l, Forall (Forall (λ kv : string * any, P kv.2)) l → P (AMapList l).
Hypothesis Hstrs : ∀ l, P (AStrList l).
Hypothesis Hanymap : ∀ m, Forall (λ kv, P kv.1 ∧ P kv.2) m → P (AAnyMap m).
Hypothesis Hfunc : P AFunc.

Fixpoint any_ind (v : any) : P v :=
  let entries := fix entries (m : gomap any) : Forall (λ kv, P kv.2) m :=
    match m with
    | [] => Forall_nil_2 _
    | kv :: m => Forall_cons_2 _ kv m (any_ind kv.2) (entries m)
    end in
  match v with
  | ANil => Hnil
  | ABool b => Hbool b
  | AInt z => Hint z
  | AInt64 z => Hint64 z
  | AFloat f => Hfloat f
  | ANumber s => Hnum s
  | AString s => Hstr s
  | AList l => Hlist l ((fix go l : Forall P l := match l with
      | [] => Forall_nil_2 _
      | x :: l => Forall_cons_2 _ x l (any_ind x) (go l)
      end) l)
  | AMap m => Hmap m (entries m)
  | AMapList l => Hmaps l ((fix go l : Forall (Forall (λ kv : string * any, P kv.2)) l := match l with
      | [] => Forall_nil_2 _
      | m :: l => Forall_cons_2 _ m l (entries m) (go l)
      end) l)
  | AStrList l => Hstrs l
  | AAnyMap m => Hanymap m ((fix go m : Forall (λ kv, P kv.1 ∧ P kv.2) m := match m with
      | [] => Forall_nil_2 _
      | kv :: m => Forall_cons_2 _ kv m (conj (any_ind kv.1) (any_ind kv.2)) (go m)
      end) m)
  | AFunc => Hfunc
  end.
End any_ind.

(** ** JSON trees

    A number keeps its text, an object its members in the order of the text,
    with repetitions. *)

#[local] Unset Elimination Schemes.

Inductive json : Type :=
  | JNull
  | JBool (b : bool)
  | JNum (s : string)
  | JStr (s : string)
  | JArr (l : list json)
  | JObj (m : list (string * json)).

#[local] Set Elimination Schemes.

Section json_ind.
Variable P : json → Prop.
Hypothesis Hnull : P JNull.
Hypothesis Hbool : ∀ b, P (JBool b).
Hypothesis Hnum : ∀ s, P (JNum s).
Hypothesis Hstr : ∀ s, P (JStr s).
Hypothesis Harr : ∀ l, Forall P l → P (JArr l).
Hypothesis Hobj : ∀ m, Forall (λ kv, P kv.2) m → P (JObj m).

Fixpoint json_ind (j : json) : P j :=
  match j with
  | JNull => Hnull
  | JBool b => Hbool b
  | JNum s => Hnum s
  | JStr s => Hstr s
  | JArr l => Harr l ((fix go l : Forall P l := match l with
      | [] => Forall_nil_2 _
      | x :: l => Forall_cons_2 _ x l (json_ind x) (go l)
      end) l)
  | JObj m => Hobj m ((fix go m : Forall (λ kv, P kv.2) m := match m with
      | [] => Forall_nil_2 _
      | kv :: m => Forall_cons_2 _ kv m (json_ind kv.2) (go m)
      end) m)
  end.
End json_ind.

(** ** Errors and panics *)

(** [jsoff.RPCError] *)
Record RPCError := mkRPCError {
  RPCError_Code : Z;
  RPCError_Message : string;
  RPCError_Data : any }.

(** http.Header: a list of values for each name. *)
Abbreviation http_header := (gomap (list string)).

(** The parts of http.Response an error carries. *)
Record http_response := HttpResponse {
  StatusCode : Z;
  RespHeader : http_header }.

(** Values of the Go interface [error].  [ErrorJson] and [ErrorString] stand
    for errors the library only passes on or prints; [ErrorWithMessage] is
    errors.Wrap, whose cause errors.As reaches. *)
Inductive error : Type :=
  | ErrorString (msg : string)
  | ErrorJson (msg : string)
  | ErrorEOF
  | ErrorDecode (errmsg : string)                      (** *decodeErrorT *)
  | ErrorRPC (e : RPCError)                            (** *RPCError *)
  | ErrorPosition (paths : list string) (hint : string) (** *jsoffschema.ErrorPos *)
  | ErrorWrapped (resp : http_response) (body : string) (** *WrappedResponse *)
  | ErrorSimple (code : Z) (body : string)             (** *SimpleResponse *)
  | ErrorRuntime (msg : string)                        (** runtime.Error *)
  | ErrorWithMessage (msg : string) (cause : error).

(** What a call of the builtin [panic] was given: a value that implements
    [error], or any other value. *)
Inductive panic : Type :=
  | PanicError (e : error)
  | PanicValue (msg : string).

Abbreviation result := (outcome panic).

(** A nil pointer dereference, or a method call on a nil interface. *)
Definition nil_deref : panic := PanicError (ErrorRuntime "nil pointer dereference").
Definition out_of_range : panic := PanicError (ErrorRuntime "index out of range").

(** ** Go values to JSON: json.Marshal *)

Section marshal.
Context (Marshal : any → option json).

Fixpoint marshal_list (l : list any) : option (list json) :=
  match l with
  | [] => Some []
  | x :: l => j ← Marshal x; js ← marshal_list l; Some (j :: js)
  end.

Fixpoint marshal_entries (m : gomap any) : option (list (string * json)) :=
  match m with
  | [] => Some []
  | (k, x) :: m => j ← Marshal x; js ← marshal_entries m; Some ((k, j) :: js)
  end.

Fixpoint marshal_maps (l : list (gomap any)) : option (list json) :=
  match l with
  | [] => Some []
  | m :: l =>
      js ← marshal_entries m; rest ← marshal_maps l;
      Some (JObj (prod_map coerceUTF8 id <$> map_sort js) :: rest)
  end.
End marshal.

(** The entries of a map are written in the order of their keys.  [None]
    stands for an error: an unsupported type or value, or a json.Number that
    is not a number. *)
Fixpoint Marshal (v : any) : option json :=
  match v with
  | ANil => Some JNull
  | ABool b => Some (JBool b)
  | AInt z | AInt64 z => Some (JNum (Itoa z))
  | AFloat f => JNum <$> FormatFloat f
  | ANumber s =>
      if bool_decide (s = "") then Some (JNum "0")
      else if isValidNumber s then Some (JNum s) else None
  | AString s => Some (JStr (coerceUTF8 s))
  | AList l => JArr <$> marshal_list Marshal l
  | AMap m =>
      js ← marshal_entries Marshal m;
      Some (JObj (prod_map coerceUTF8 id <$> map_sort js))
  | AMapList l => JArr <$> marshal_maps Marshal l
  | AStrList l => Some (JArr (JStr ∘ coerceUTF8 <$> l))
  | AAnyMap _ | AFunc => None
  end.

(** ** JSON to Go values: Decode into an [any], with UseNumber *)

Section decode.
Context (json_value : json → any).

(** A repeated key overwrites the earlier value. *)
Fixpoint decode_members (acc : gomap any) (m : list (string * json)) : gomap any :=
  match m with
  | [] => acc
  | (k, j) :: m => decode_members (map_set k (json_value j) acc) m
  end.
End decode.

Fixpoint json_value (j : json) : any :=
  match j with
  | JNull => ANil
  | JBool b => ABool b
  | JNum s => ANumber s
  | JStr s => AString s
  | JArr l => AList (json_value <$> l)
  | JObj m => AMap (decode_members json_value [] m)
  end.

(** ** Values up to the order of map entries

    [any_ok]: every map inside the value has each key once, as Go maps do.
    [any_norm] sorts the entries of every map; two values are the same Go
    value when their normal forms are equal. *)

Fixpoint any_ok (v : any) : Prop :=
  match v with
  | AList l => list_all any_ok l
  | AMap m => map_ok m ∧ list_all (λ kv, any_ok kv.2) m
  | AMapList l => list_all (λ m, map_ok m ∧ list_all (λ kv : string * any, any_ok kv.2) m) l
  | _ => True
  end.

Fixpoint any_norm (v : any) : any :=
  match v with
  | AList l => AList (any_norm <$> l)
  | AMap m => AMap (map_sort ((λ kv, (kv.1, any_norm kv.2)) <$> m))
  | AMapList l => AMapList ((λ m, map_sort ((λ kv : string * any, (kv.1, any_norm kv.2)) <$> m)) <$> l)
  | _ => v
  end.

Definition any_eqv (v1 v2 : any) : Prop := any_norm v1 = any_norm v2.

#[export] Instance any_eqv_equiv : Equivalence any_eqv.
Proof. split; unfold any_eqv; red; congruence. Qed.

Lemma any_norm_get k (m : gomap any) :
  map_ok m →
  map_get k (map_sort ((λ kv, (kv.1, any_norm kv.2)) <$> m)) = any_norm <$> map_get k m.
Proof.
  intros Hm. rewrite map_get_sort; [apply map_get_fmap|].
  unfold map_ok. by rewrite map_keys_fmap.
Qed.

(** Reordering the entries of a map gives an equivalent value. *)
Lemma any_eqv_map_perm (m1 m2 : gomap any) :
  map_ok m1 → m1 ≡ₚ m2 → any_eqv (AMap m1) (AMap m2).
Proof.
  intros Hok Hp. unfold any_eqv; simpl. f_equal. apply map_sort_canonical.
  - unfold map_ok. by rewrite map_keys_fmap.
  - by rewrite Hp.
Qed.

Lemma any_eqv_list (l1 l2 : list any) : Forall2 any_eqv l1 l2 → any_eqv (AList l1) (AList l2).
Proof.
  intros H. unfold any_eqv; simpl. f_equal. by induction H; [done|]; f_equal/=.
Qed.

(** ** Values that JSON carries unchanged

    [any_wire]: what a decoder can produce, with text that encoding/json
    writes as it is. *)

Fixpoint any_wire (v : any) : Prop :=
  match v with
  | ANil | ABool _ => True
  | ANumber s => isValidNumber s = true
  | AString s => utf8_ok s = true
  | AList l => list_all any_wire l
  | AMap m => map_ok m ∧ list_all (λ kv, utf8_ok kv.1 = true ∧ any_wire kv.2) m
  | _ => False
  end.

Lemma marshal_list_spec (l : list any) :
  Forall (λ v, ∃ j, Marshal v = Some j ∧ json_value j = any_norm v) l →
  ∃ js, marshal_list Marshal l = Some js ∧ json_value <$> js = any_norm <$> l.
Proof.
  induction 1 as [|v l (j & Hj & Hn) _ (js & Hjs & Hns)]; [by exists []|].
  exists (j :: js). cbn [marshal_list]. rewrite Hj, Hjs. split; [done|].
  by rewrite !fmap_cons, Hn, Hns.
Qed.

Lemma marshal_entries_spec (m : gomap any) :
  Forall (λ kv : string * any, ∃ j, Marshal kv.2 = Some j ∧ json_value j = any_norm kv.2) m →
  ∃ js, marshal_entries Marshal m = Some js ∧ map_keys js = map_keys m ∧
    (λ kv, (kv.1, json_value kv.2)) <$> js = (λ kv, (kv.1, any_norm kv.2)) <$> m.
Proof.
  induction 1 as [|[k v] m (j & Hj & Hn) _ (js & Hjs & Hk & Hns)]; [by exists []|].
  exists ((k, j) :: js). cbn [marshal_entries]. simpl in Hj. rewrite Hj, Hjs.
  split_and!; [done|..]; unfold map_keys in *.
  - by rewrite !fmap_cons, Hk.
  - rewrite !fmap_cons, Hns. by simpl in *; rewrite Hn.
Qed.

Lemma decode_members_fresh acc (m : list (string * json)) :
  NoDup (map_keys acc ++ map_keys m) →
  decode_members json_value acc m = acc ++ ((λ kv, (kv.1, json_value kv.2)) <$> m).
Proof.
  revert acc. induction m as [|[k j] m IH]; intros acc Hnd; simpl.
  { by rewrite app_nil_r. }
  rewrite map_set_fresh, IH, <- app_assoc; [done|..].
  - unfold map_keys in *. rewrite fmap_app, <- app_assoc. done.
  - apply map_get_None. unfold map_keys in *. intros Hin.
    apply NoDup_app in Hnd as (_ & Hd & _). apply (Hd k Hin). simpl. by left.
Qed.

Lemma coerce_entries {V} (m : gomap V) :
  Forall (λ k, utf8_ok k = true) (map_keys m) → prod_map coerceUTF8 id <$> m = m.
Proof.
  unfold map_keys. induction m as [|[k v] m IH]; [done|].
  rewrite !fmap_cons, Forall_cons. intros [Hk Hm]. rewrite IH by done.
  unfold prod_map; simpl in *. by rewrite coerceUTF8_ok.
Qed.

(** Marshalling a wire value and decoding the text gives the value back, up
    to the order of map entries. *)
Lemma Marshal_wire v : any_wire v → ∃ j, Marshal v = Some j ∧ json_value j = any_norm v.
Proof.
  induction v as [|b|z|z|f|s|s|l IH|m IH|l _|l|m _|] using any_ind; simpl; try done; intros Hw.
  - by exists JNull.
  - by exists (JBool b).
  - exists (JNum s). rewrite Hw. case_bool_decide; [by subst|done].
  - exists (JStr s). by rewrite coerceUTF8_ok.
  - rewrite list_all_Forall in Hw.
    destruct (marshal_list_spec l) as (js & -> & Hjs).
    { eapply Forall_impl; [apply Forall_and; split; [exact IH|exact Hw]|].
      intros v [IHv Hv]. exact (IHv Hv). }
    exists (JArr js). simpl. by rewrite Hjs.
  - destruct Hw as [Hok Hw]. rewrite list_all_Forall in Hw.
    destruct (marshal_entries_spec m) as (js & -> & Hk & Hjs).
    { eapply Forall_impl; [apply Forall_and; split; [exact IH|exact Hw]|].
      intros kv [IHv [_ Hv]]. exact (IHv Hv). }
    assert (map_ok js) as Hokjs by (by unfold map_ok; rewrite Hk).
    eexists; split; [done|]. rewrite coerce_entries; simpl.
    + rewrite decode_members_fresh; simpl; [|by apply map_sort_ok].
      by rewrite <- map_sort_fmap, Hjs.
    + unfold map_keys. rewrite map_sort_perm. unfold map_keys in Hk. rewrite Hk.
      apply Forall_fmap. eapply Forall_impl; [done|]. by intros ? [].
Qed.
