(* ===== verification/Messages.v ===== *)
(** * Messages: types.go, errors.go, messageimpl.go, messagefactory.go

    The four message kinds, their constructors and accessors, the templates
    they are marshalled through, and the factory that forbids null ids.
    Methods that a Go type lacks by panicking return a [Panic] here.

    A [[]any] held by a message is a list: the constructors never leave a nil
    slice in [Params].  The [http.Header] of a response is an option, nil
    being [None]. *)

From S2P Require Import Prelude GoMap Strconv Values.
From stdpp Require Import options.

(** ** types.go *)

Definition MKRequest : Z := 0.
Definition MKNotify : Z := 1.
Definition MKResult : Z := 2.
Definition MKError : Z := 3.

Record MessageOptions := mkMessageOptions { IdNotNull : bool }.

Record BaseMessage := mkBase { kind : Z; traceId : string }.

Record RequestMessage := mkRequest {
  req_base : BaseMessage;
  req_Id : any;
  req_Method : string;
  req_Params : list any;
  req_paramsAreList : bool }.

Record NotifyMessage := mkNotify {
  ntf_base : BaseMessage;
  ntf_Method : string;
  ntf_Params : list any;
  ntf_paramsAreList : bool }.

Record ResultMessage := mkResult {
  res_base : BaseMessage;
  res_Id : any;
  res_Result : any;
  res_responseHeader : option http_header }.

Record ErrorMessage := mkError {
  err_base : BaseMessage;
  err_Id : any;
  err_Error : option RPCError;   (** a pointer, which may be nil *)
  err_responseHeader : option http_header }.

(** The interface [Message], by the dynamic type of its value. *)
Inductive Message : Type :=
  | MRequest (m : RequestMessage)
  | MNotify (m : NotifyMessage)
  | MResult (m : ResultMessage)
  | MError (m : ErrorMessage).

(** ** errors.go *)

Definition ErrServerError := mkRPCError 100 "server error" ANil.
Definition ErrMethodNotFound := mkRPCError (-32601) "method not found" ANil.
Definition ErrEmptyMethod := mkRPCError (-32601) "empty method" ANil.
Definition ErrParseMessage := mkRPCError (-32700) "parse error" ANil.
Definition ErrInvalidRequest := mkRPCError (-32600) "invalid request" ANil.
Definition ErrInternalError := mkRPCError (-32603) "internal error" ANil.
Definition ErrMessageType := mkRPCError 105 "wrong message type" ANil.
Definition ErrTimeout := mkRPCError 200 "request timeout" ANil.
Definition ErrBadResource := mkRPCError 201 "bad resource" ANil.
Definition ErrLiveExit := mkRPCError 202 "live exit" ANil.
Definition ErrNotAllowed := mkRPCError 406 "type not allowed" ANil.
Definition ErrAuthFailed := mkRPCError 401 "auth failed" ANil.
Definition ErrInvalidSchema := mkRPCError (-32633) "invalid schema" ANil.

Definition ParamsError (message : string) : RPCError := mkRPCError (-32602) message ANil.

(** ** messageimpl.go *)

Definition RPCError_WithData (e : RPCError) (data : any) : RPCError :=
  mkRPCError (RPCError_Code e) (RPCError_Message e) data.

Definition NewErrMsgType (additional : string) : RPCError :=
  mkRPCError (RPCError_Code ErrMessageType) ("wrong message type " +:+ additional) (ABool false).

Definition panic_msg_type (method : string) : panic :=
  PanicError (ErrorRPC (NewErrMsgType method)).

Definition base_of (msg : Message) : BaseMessage :=
  match msg with
  | MRequest m => req_base m
  | MNotify m => ntf_base m
  | MResult m => res_base m
  | MError m => err_base m
  end.

Definition IsRequest (msg : Message) : bool := (kind (base_of msg) =? MKRequest)%Z.
Definition IsNotify (msg : Message) : bool := (kind (base_of msg) =? MKNotify)%Z.
Definition IsResponse (msg : Message) : bool := IsRequest msg || IsNotify msg.
Definition IsResult (msg : Message) : bool := (kind (base_of msg) =? MKResult)%Z.
Definition IsError (msg : Message) : bool := (kind (base_of msg) =? MKError)%Z.
Definition IsResultOrError (msg : Message) : bool := IsResult msg || IsError msg.

Definition TraceId (msg : Message) : string := traceId (base_of msg).

Definition BaseMessage_SetTraceId (t : string) (b : BaseMessage) : BaseMessage :=
  mkBase (kind b) t.

Definition req_SetTraceId (t : string) (m : RequestMessage) : RequestMessage :=
  mkRequest (BaseMessage_SetTraceId t (req_base m)) (req_Id m) (req_Method m)
    (req_Params m) (req_paramsAreList m).

Definition ntf_SetTraceId (t : string) (m : NotifyMessage) : NotifyMessage :=
  mkNotify (BaseMessage_SetTraceId t (ntf_base m)) (ntf_Method m) (ntf_Params m)
    (ntf_paramsAreList m).

Definition res_SetTraceId (t : string) (m : ResultMessage) : ResultMessage :=
  mkResult (BaseMessage_SetTraceId t (res_base m)) (res_Id m) (res_Result m)
    (res_responseHeader m).

Definition err_SetTraceId (t : string) (m : ErrorMessage) : ErrorMessage :=
  mkError (BaseMessage_SetTraceId t (err_base m)) (err_Id m) (err_Error m)
    (err_responseHeader m).

Definition SetTraceId (t : string) (msg : Message) : Message :=
  match msg with
  | MRequest m => MRequest (req_SetTraceId t m)
  | MNotify m => MNotify (ntf_SetTraceId t m)
  | MResult m => MResult (res_SetTraceId t m)
  | MError m => MError (err_SetTraceId t m)
  end.

(** *** Constructors *)

(** The [Params] and [paramsAreList] a constructor derives from [params]. *)
Definition init_params (params : any) : list any * bool :=
  match params with
  | ANil => ([], true)
  | AList arr => (arr, true)
  | _ => ([params], false)
  end.

Definition NewRequestMessage (id : any) (method : string) (params : any) : result RequestMessage :=
  if bool_decide (method = "") then Panic (PanicError (ErrorRPC ErrEmptyMethod))
  else
    let '(ps, islist) := init_params params in
    Ret (mkRequest (mkBase MKRequest "") id method ps islist).

Definition NewNotifyMessage (method : string) (params : any) : result NotifyMessage :=
  if bool_decide (method = "") then Panic (PanicError (ErrorRPC ErrEmptyMethod))
  else
    let '(ps, islist) := init_params params in
    Ret (mkNotify (mkBase MKNotify "") method ps islist).

Definition Clone (msg : RequestMessage) (newId : any) : result RequestMessage :=
  newReq ← NewRequestMessage newId (req_Method msg) (AList (req_Params msg));
  Ret (req_SetTraceId (traceId (req_base msg)) newReq).

Definition rawResultMessage (id result : any) (responseHeader : option http_header) : ResultMessage :=
  mkResult (mkBase MKResult "") id result responseHeader.

Definition rawErrorMessage (id : any) (errbody : option RPCError)
    (responseHeader : option http_header) : ErrorMessage :=
  mkError (mkBase MKError "") id errbody responseHeader.

(** *** Must methods *)

Definition MustId (msg : Message) : result any :=
  match msg with
  | MRequest m => Ret (req_Id m)
  | MNotify _ => Panic (panic_msg_type "MustId")
  | MResult m => Ret (res_Id m)
  | MError m => Ret (err_Id m)
  end.

Definition MustMethod (msg : Message) : result string :=
  match msg with
  | MRequest m => Ret (req_Method m)
  | MNotify m => Ret (ntf_Method m)
  | MResult _ | MError _ => Panic (panic_msg_type "MustMethod")
  end.

Definition MustParams (msg : Message) : result (list any) :=
  match msg with
  | MRequest m => Ret (req_Params m)
  | MNotify m => Ret (ntf_Params m)
  | MResult _ | MError _ => Panic (panic_msg_type "MustParams")
  end.

Definition MustResult (msg : Message) : result any :=
  match msg with
  | MResult m => Ret (res_Result m)
  | MRequest _ | MNotify _ | MError _ => Panic (panic_msg_type "MustResult")
  end.

Definition MustError (msg : Message) : result (option RPCError) :=
  match msg with
  | MError m => Ret (err_Error m)
  | MRequest _ | MNotify _ | MResult _ => Panic (panic_msg_type "MustError")
  end.

Definition ReplaceId (msg : Message) (newId : any) : result Message :=
  match msg with
  | MRequest m => MRequest <$> Clone m newId
  | MNotify _ => Panic (panic_msg_type "ReplaceId")
  | MResult m =>
      let resmsg := rawResultMessage newId (res_Result m) (res_responseHeader m) in
      Ret (MResult (res_SetTraceId (traceId (res_base m)) resmsg))
  | MError m =>
      let errmsg := rawErrorMessage newId (err_Error m) (err_responseHeader m) in
      Ret (MError (err_SetTraceId (traceId (err_base m)) errmsg))
  end.

(** *** Responses to a message; [None] is a nil [reqmsg] *)

Definition NewResultMessage (reqmsg : option Message) (res : any) : result ResultMessage :=
  match reqmsg with
  | None => Ret (rawResultMessage ANil res None)
  | Some reqmsg =>
      id ← MustId reqmsg;
      Ret (res_SetTraceId (TraceId reqmsg) (rawResultMessage id res None))
  end.

Definition NewErrorMessage (reqmsg : option Message) (errbody : option RPCError) : result ErrorMessage :=
  match reqmsg with
  | None => Ret (rawErrorMessage ANil errbody None)
  | Some reqmsg =>
      id ← MustId reqmsg;
      Ret (err_SetTraceId (TraceId reqmsg) (rawErrorMessage id errbody None))
  end.

Definition NewErrorMessageFromId (reqId : any) (traceId : string) (errbody : option RPCError) : ErrorMessage :=
  err_SetTraceId traceId (rawErrorMessage reqId errbody None).

Definition RPCErrorMessage (reqmsg : option Message) (code : Z) (message : string) (data : any)
    : result ErrorMessage :=
  NewErrorMessage reqmsg (Some (mkRPCError code message data)).

Definition RPCErrorMessageFromId (reqId : any) (traceId : string) (code : Z) (message : string)
    (data : any) : ErrorMessage :=
  NewErrorMessageFromId reqId traceId (Some (mkRPCError code message data)).

Definition ToMessage (e : RPCError) (reqmsg : RequestMessage) : result ErrorMessage :=
  RPCErrorMessage (Some (MRequest reqmsg)) (RPCError_Code e) (RPCError_Message e) (RPCError_Data e).

Definition ToMessageFromId (e : RPCError) (reqId : any) (traceId : string) : ErrorMessage :=
  RPCErrorMessageFromId reqId traceId (RPCError_Code e) (RPCError_Message e) (RPCError_Data e).

(** *** Response headers *)

Definition HasResponseHeader (msg : Message) : bool :=
  match msg with
  | MResult m => bool_decide (is_Some (res_responseHeader m))
  | MError m => bool_decide (is_Some (err_responseHeader m))
  | MRequest _ | MNotify _ => false
  end.

(** The header, and the message after the lazy initialisation. *)
Definition res_ResponseHeader (m : ResultMessage) : http_header * ResultMessage :=
  match res_responseHeader m with
  | Some h => (h, m)
  | None => ([], mkResult (res_base m) (res_Id m) (res_Result m) (Some []))
  end.

Definition err_ResponseHeader (m : ErrorMessage) : http_header * ErrorMessage :=
  match err_responseHeader m with
  | Some h => (h, m)
  | None => ([], mkError (err_base m) (err_Id m) (err_Error m) (Some []))
  end.

(** ** messagemarshal.go: templates *)

Record msgIdT := mkMsgId { Value : any; isSet : bool }.

Record templateRequest := mkTemplateRequest {
  trq_Jsonrpc : string; trq_Method : string; trq_Id : msgIdT; trq_Params : any; trq_TraceId : string }.

Record templateNotify := mkTemplateNotify {
  tnt_Jsonrpc : string; tnt_Method : string; tnt_Params : any; tnt_TraceId : string }.

Record templateResult := mkTemplateResult {
  trs_Jsonrpc : string; trs_Id : msgIdT; trs_Result : any; trs_TraceId : string }.

Record templateError := mkTemplateError {
  ter_Jsonrpc : string; ter_Id : msgIdT; ter_Error : option RPCError; ter_TraceId : string }.

Inductive template : Type :=
  | TRequest (t : templateRequest)
  | TNotify (t : templateNotify)
  | TResult (t : templateResult)
  | TError (t : templateError).

(** [msgIdT.MarshalJSON] *)
Definition msgIdT_MarshalJSON (mt : msgIdT) : option json :=
  match Value mt with
  | ANil => if isSet mt then Some JNull else Marshal (Value mt)
  | _ => Marshal (Value mt)
  end.

(** The [params] a template carries: the list, or the single value that was
    not given as a list. *)
Definition template_params (params : list any) (paramsAreList : bool) : any :=
  match params with
  | [] => AList params
  | p0 :: _ => if paramsAreList then AList params else p0
  end.

Definition Interface (msg : Message) : template :=
  match msg with
  | MRequest m =>
      TRequest (mkTemplateRequest "2.0" (req_Method m) (mkMsgId (req_Id m) true)
        (template_params (req_Params m) (req_paramsAreList m)) (traceId (req_base m)))
  | MNotify m =>
      TNotify (mkTemplateNotify "2.0" (ntf_Method m)
        (template_params (ntf_Params m) (ntf_paramsAreList m)) (traceId (ntf_base m)))
  | MResult m =>
      TResult (mkTemplateResult "2.0" (mkMsgId (res_Id m) true) (res_Result m) (traceId (res_base m)))
  | MError m =>
      TError (mkTemplateError "2.0" (mkMsgId (err_Id m) true) (err_Error m) (traceId (err_base m)))
  end.

(** The json encoding of a string field. *)
Definition field_string (name s : string) : list (string * json) := [(name, JStr (coerceUTF8 s))].

(** A field tagged [omitempty]. *)
Definition field_omitempty (name s : string) : list (string * json) :=
  if bool_decide (s = "") then [] else field_string name s.

(** [RPCError] as a struct: [data] is left out when nil. *)
Definition RPCError_json (e : RPCError) : option json :=
  data ← match RPCError_Data e with
         | ANil => Some []
         | d => j ← Marshal d; Some [("data", j)]
         end;
  Some (JObj ([("code", JNum (Itoa (RPCError_Code e)))]
              ++ field_string "message" (RPCError_Message e) ++ data)).

Definition error_pointer_json (e : option RPCError) : option json :=
  match e with None => Some JNull | Some e => RPCError_json e end.

(** json.Marshal of a template, fields in the order of the struct. *)
Definition template_json (t : template) : option json :=
  match t with
  | TRequest t =>
      id ← msgIdT_MarshalJSON (trq_Id t);
      params ← Marshal (trq_Params t);
      Some (JObj (field_string "jsonrpc" (trq_Jsonrpc t) ++ field_string "method" (trq_Method t)
        ++ [("id", id); ("params", params)] ++ field_omitempty "traceid" (trq_TraceId t)))
  | TNotify t =>
      params ← Marshal (tnt_Params t);
      Some (JObj (field_string "jsonrpc" (tnt_Jsonrpc t) ++ field_string "method" (tnt_Method t)
        ++ [("params", params)] ++ field_omitempty "traceid" (tnt_TraceId t)))
  | TResult t =>
      id ← msgIdT_MarshalJSON (trs_Id t);
      res ← Marshal (trs_Result t);
      Some (JObj (field_string "jsonrpc" (trs_Jsonrpc t)
        ++ [("id", id); ("result", res)] ++ field_omitempty "traceid" (trs_TraceId t)))
  | TError t =>
      id ← msgIdT_MarshalJSON (ter_Id t);
      e ← error_pointer_json (ter_Error t);
      Some (JObj (field_string "jsonrpc" (ter_Jsonrpc t)
        ++ [("id", id); ("error", e)] ++ field_omitempty "traceid" (ter_TraceId t)))
  end.

(** [MessageBytes]; [None] is a marshalling error. *)
Definition MessageBytes (msg : Message) : option json := template_json (Interface msg).

Definition MustMessageBytes (msg : Message) : result json :=
  match MessageBytes msg with
  | Some j => Ret j
  | None => Panic (PanicError (ErrorJson "unsupported value"))
  end.

(** ** [MessageMap]

    The struct is turned into a map by the mapstructure package, which is not
    part of the repository: a client gives its decoder as an instance of
    [MapDecoder].  [MapDecoderOk] is what its documentation promises for a
    template: one entry per exported field under the name of the [json] tag,
    a nested struct becoming a map, and no other entries. *)

Class MapDecoder := DecodeInterface : template → error + gomap any.

Definition template_id (t : template) : option any :=
  match t with
  | TRequest t => Some (Value (trq_Id t))
  | TNotify _ => None
  | TResult t => Some (Value (trs_Id t))
  | TError t => Some (Value (ter_Id t))
  end.

Definition template_field (t : template) (name : string) : option any :=
  match t with
  | TRequest t => if bool_decide (name = "params") then Some (trq_Params t)
                  else if bool_decide (name = "method") then Some (AString (trq_Method t)) else None
  | TNotify t => if bool_decide (name = "params") then Some (tnt_Params t)
                 else if bool_decide (name = "method") then Some (AString (tnt_Method t)) else None
  | TResult t => if bool_decide (name = "result") then Some (trs_Result t) else None
  | TError _ => None
  end.

Class MapDecoderOk `{MapDecoder} : Prop := {
  DecodeInterface_id t : ∃ m, DecodeInterface t = inr m ∧
    map_get "id" m = (λ v, AMap [("Value", v)]) <$> template_id t;
  DecodeInterface_field t name v m : DecodeInterface t = inr m →
    template_field t name = Some v → map_get name m = Some v;
  DecodeInterface_no_field t name m : DecodeInterface t = inr m →
    name ∈ ["method"; "params"; "result"] → template_field t name = None → map_get name m = None }.

Section MessageMap.
Context `{MapDecoder}.

Definition MessageMap (msg : Message) : error + gomap any :=
  match DecodeInterface (Interface msg) with
  | inl err => inl err
  | inr m =>
      match map_get "id" m with
      | Some (AMap vObj) =>
          match map_get "Value" vObj with
          | Some msgId => inr (map_set "id" msgId m)
          | None => inr m
          end
      | _ => inr m
      end
  end.
End MessageMap.

(** ** messagefactory.go *)

Record MessageFactory := mkFactory { factory_opts : MessageOptions }.

Definition NewMessageFactory (options : list MessageOptions) : MessageFactory :=
  match options with
  | [] => mkFactory (mkMessageOptions false)
  | o :: _ => mkFactory o
  end.

Definition any_is_nil (v : any) : bool := match v with ANil => true | _ => false end.

Definition Factory_NewRequest (f : MessageFactory) (id : any) (method : string) (params : any)
    : result RequestMessage :=
  if IdNotNull (factory_opts f) && any_is_nil id then
    Panic (PanicValue "Request id cannot be null")
  else NewRequestMessage id method params.

Definition Factory_NewNotify (f : MessageFactory) (method : string) (params : any)
    : result NotifyMessage :=
  NewNotifyMessage method params.

(** [reqmsg == nil || reqmsg.MustId() == nil] *)
Definition reqmsg_id_is_nil (reqmsg : option Message) : result bool :=
  match reqmsg with
  | None => Ret true
  | Some m => id ← MustId m; Ret (any_is_nil id)
  end.

Definition Factory_NewResult (f : MessageFactory) (reqmsg : option Message) (res : any)
    : result ResultMessage :=
  if IdNotNull (factory_opts f) then
    bad ← reqmsg_id_is_nil reqmsg;
    if bad : bool then Panic (PanicValue "Result id cannot be null")
    else NewResultMessage reqmsg res
  else NewResultMessage reqmsg res.

Definition Factory_NewError (f : MessageFactory) (reqmsg : option Message) (errbody : option RPCError)
    : result ErrorMessage :=
  if IdNotNull (factory_opts f) then
    bad ← reqmsg_id_is_nil reqmsg;
    if bad : bool then Panic (PanicValue "Error id cannot be null")
    else NewErrorMessage reqmsg errbody
  else NewErrorMessage reqmsg errbody.

(** ** Well-formed messages *)

Definition is_ret {A} (x : result A) : bool := match x with Ret _ => true | Panic _ => false end.

(** A single parameter that is neither nil nor a list is the only case in
    which the parameters are not a list. *)
Definition params_shape (params : list any) (islist : bool) : Prop :=
  islist = true ∨ ∃ p, params = [p] ∧ p ≠ ANil ∧ ∀ l, p ≠ AList l.

Definition message_ok (msg : Message) : Prop :=
  match msg with
  | MRequest m => kind (req_base m) = MKRequest ∧ req_Method m ≠ "" ∧
      params_shape (req_Params m) (req_paramsAreList m)
  | MNotify m => kind (ntf_base m) = MKNotify ∧ ntf_Method m ≠ "" ∧
      params_shape (ntf_Params m) (ntf_paramsAreList m)
  | MResult m => kind (res_base m) = MKResult
  | MError m => kind (err_base m) = MKError
  end.

(** The messages a client of the package can make with its functions. *)
Inductive made : Message → Prop :=
  | made_request id method params m :
      NewRequestMessage id method params = Ret m → made (MRequest m)
  | made_notify method params m : NewNotifyMessage method params = Ret m → made (MNotify m)
  | made_result reqmsg res m : NewResultMessage reqmsg res = Ret m → made (MResult m)
  | made_error reqmsg e m : NewErrorMessage reqmsg e = Ret m → made (MError m)
  | made_error_from_id id t e : made (MError (NewErrorMessageFromId id t e))
  | made_clone m id m' : made (MRequest m) → Clone m id = Ret m' → made (MRequest m')
  | made_replace m id m' : made m → ReplaceId m id = Ret m' → made m'
  | made_trace m t : made m → made (SetTraceId t m).

Lemma init_params_shape params ps islist :
  init_params params = (ps, islist) → params_shape ps islist.
Proof.
  unfold params_shape. destruct params; simpl; intros [= <- <-]; try (by left); right;
    eexists; split_and!; naive_solver.
Qed.

Lemma NewRequestMessage_Ret id method params m :
  NewRequestMessage id method params = Ret m ↔
  method ≠ "" ∧ m = mkRequest (mkBase MKRequest "") id method (init_params params).1 (init_params params).2.
Proof.
  unfold NewRequestMessage. case_bool_decide; [naive_solver|].
  destruct (init_params params) as [ps il]; simpl. naive_solver.
Qed.

Lemma NewNotifyMessage_Ret method params m :
  NewNotifyMessage method params = Ret m ↔
  method ≠ "" ∧ m = mkNotify (mkBase MKNotify "") method (init_params params).1 (init_params params).2.
Proof.
  unfold NewNotifyMessage. case_bool_decide; [naive_solver|].
  destruct (init_params params) as [ps il]; simpl. naive_solver.
Qed.

Lemma Clone_Ret msg newId :
  req_Method msg ≠ "" →
  Clone msg newId = Ret (mkRequest (mkBase MKRequest (traceId (req_base msg))) newId
    (req_Method msg) (req_Params msg) true).
Proof. intros Hm. unfold Clone, NewRequestMessage. by rewrite bool_decide_false. Qed.

Lemma Clone_inv msg newId m :
  Clone msg newId = Ret m → req_Method msg ≠ "" ∧
    m = mkRequest (mkBase MKRequest (traceId (req_base msg))) newId (req_Method msg) (req_Params msg) true.
Proof.
  intros H. assert (req_Method msg ≠ "") as Hm.
  { intros E. unfold Clone, NewRequestMessage in H. by rewrite E in H. }
  rewrite Clone_Ret in H by done. naive_solver.
Qed.

Lemma init_params_ok params :
  params_shape (init_params params).1 (init_params params).2.
Proof. eapply init_params_shape, surjective_pairing. Qed.

#[export] Hint Resolve init_params_ok : jsoff.

Lemma SetTraceId_ok t msg : message_ok msg → message_ok (SetTraceId t msg).
Proof. by destruct msg. Qed.

Lemma ReplaceId_ok msg id msg' : message_ok msg → ReplaceId msg id = Ret msg' → message_ok msg'.
Proof.
  destruct msg as [m| |m|m]; simpl; [|by intros; simplify_eq/=..].
  intros (_ & Hm & _) H. rewrite Clone_Ret in H by done. simplify_eq/=.
  split_and!; [done..|by left].
Qed.

(** ** Properties of messages *)

(** C25. Every message made with the functions of the package is well formed:
    its kind tag is the one of its dynamic type, requests and notifications
    have a method, and only a single non-list parameter is kept outside a
    list. *)
Theorem made_ok msg : made msg → message_ok msg.
Proof.
  induction 1 as [id method params m H|method params m H|[r|] res m H|[r|] e m H|id t e
    |m id m' _ IH H|m id m' _ IH H|m t _ IH].
  - apply NewRequestMessage_Ret in H as [? ->]. split_and!; simpl; auto with jsoff.
  - apply NewNotifyMessage_Ret in H as [? ->]. split_and!; simpl; auto with jsoff.
  - apply outcome_bind_Ret in H as (? & _ & H). by simplify_eq/=.
  - by simplify_eq/=.
  - apply outcome_bind_Ret in H as (? & _ & H). by simplify_eq/=.
  - by simplify_eq/=.
  - done.
  - eapply (ReplaceId_ok (MRequest m) id); [done|]. simpl. by rewrite H.
  - by eapply ReplaceId_ok.
  - by apply SetTraceId_ok.
Qed.

Lemma made_ok_witness :
  let m := mkRequest (mkBase MKRequest "") (AInt 1) "echo" [AString "hi"] false in
  made (MRequest m) ∧ message_ok (MRequest m).
Proof.
  assert (made (MRequest (mkRequest (mkBase MKRequest "") (AInt 1) "echo" [AString "hi"] false)))
    as Hm by (by apply (made_request (AInt 1) "echo" (AString "hi"))).
  split; [exact Hm|exact (made_ok _ Hm)].
Defined.

(** On a well-formed message exactly one of the four kind tests holds, and
    each Must accessor returns for exactly the kinds the [IsXX] test names
    and panics for the others. *)
Theorem must_accessors msg :
  message_ok msg →
  (IsRequest msg, IsNotify msg, IsResult msg, IsError msg) ∈
    [(true, false, false, false); (false, true, false, false);
     (false, false, true, false); (false, false, false, true)] ∧
  is_ret (MustId msg) = negb (IsNotify msg) ∧
  is_ret (MustMethod msg) = IsResponse msg ∧
  is_ret (MustParams msg) = IsResponse msg ∧
  is_ret (MustResult msg) = IsResult msg ∧
  is_ret (MustError msg) = IsError msg ∧
  IsResultOrError msg = negb (IsResponse msg).
Proof.
  unfold IsResponse, IsResultOrError, IsRequest, IsNotify, IsResult, IsError.
  rewrite !elem_of_cons, elem_of_nil.
  destruct msg as [m|m|m|m]; simpl;
    [intros (-> & _)|intros (-> & _)|intros ->|intros ->]; naive_solver.
Qed.

Lemma must_accessors_witness :
  is_ret (MustResult (MError (ToMessageFromId ErrTimeout (AInt 3) "t"))) = false.
Proof.
  pose proof (must_accessors (MError (ToMessageFromId ErrTimeout (AInt 3) "t")) eq_refl)
    as (_ & _ & _ & _ & H & _).
  exact H.
Defined.

(** The part of a message other than its id and its parameter shape. *)
Definition same_payload (m1 m2 : Message) : Prop :=
  match m1, m2 with
  | MRequest a, MRequest b => req_Method a = req_Method b ∧ req_Params a = req_Params b
  | MResult a, MResult b =>
      res_Result a = res_Result b ∧ res_responseHeader a = res_responseHeader b
  | MError a, MError b =>
      err_Error a = err_Error b ∧ err_responseHeader a = err_responseHeader b
  | _, _ => False
  end.

(** [ReplaceId] panics on a notification; on any other well-formed message
    it returns a message of the same kind that carries the new id and keeps
    the trace id, the method and parameters, the result or the error. *)
Theorem ReplaceId_spec msg id :
  message_ok msg →
  match msg with
  | MNotify _ => ReplaceId msg id = Panic (panic_msg_type "ReplaceId")
  | _ => ∃ msg', ReplaceId msg id = Ret msg' ∧ MustId msg' = Ret id ∧
      TraceId msg' = TraceId msg ∧ kind (base_of msg') = kind (base_of msg) ∧
      same_payload msg msg'
  end.
Proof.
  destruct msg as [m|m|m|m]; simpl; [|done| |].
  - intros (Hk & Hm & _). rewrite Clone_Ret by done. eexists; split_and!; done.
  - intros Hk. eexists; split_and!; done.
  - intros Hk. eexists; split_and!; done.
Qed.

Lemma ReplaceId_spec_witness :
  ∃ msg', ReplaceId (MResult (rawResultMessage (AInt 1) (AString "r") None)) (AInt 2) = Ret msg' ∧
    MustId msg' = Ret (AInt 2).
Proof.
  destruct (ReplaceId_spec (MResult (rawResultMessage (AInt 1) (AString "r") None)) (AInt 2) eq_refl)
    as (msg' & H1 & H2 & _).
  exists msg'. exact (conj H1 H2).
Defined.

(** [Clone] makes the parameters of a request a list: a request whose
    single parameter was not given as a list (an object, say) is sent with
    that parameter itself as [params], its clone with a list of one element,
    which is a different JSON value for the receiver. *)
Theorem Clone_wraps_params m newId m' :
  message_ok (MRequest m) → req_paramsAreList m = false → Clone m newId = Ret m' →
  ∃ p, req_Params m = [p] ∧
    (∃ t, Interface (MRequest m) = TRequest t ∧ trq_Params t = p) ∧
    (∃ t', Interface (MRequest m') = TRequest t' ∧ trq_Params t' = AList [p]) ∧
    p ≠ AList [p].
Proof.
  intros (_ & Hm & [Hl|(p & Hp & _ & Hnl)]) Hf HC; [congruence|].
  apply Clone_inv in HC as [_ ->]. exists p. split_and!; [done|..|apply Hnl].
  - eexists; split; [done|]. simpl. by rewrite Hp, Hf.
  - eexists; split; [done|]. simpl. by rewrite Hp.
Qed.

Lemma Clone_wraps_params_witness :
  let m := mkRequest (mkBase MKRequest "") (AInt 1) "echo" [AMap [("a", AInt 1)]] false in
  AMap [("a", AInt 1)] ≠ AList [AMap [("a", AInt 1)]].
Proof.
  destruct (Clone_wraps_params
    (mkRequest (mkBase MKRequest "") (AInt 1) "echo" [AMap [("a", AInt 1)]] false) (AInt 2)
    (mkRequest (mkBase MKRequest "") (AInt 2) "echo" [AMap [("a", AInt 1)]] true))
    as (p & [= <-] & _ & _ & Hne).
  - split_and!; [done..|]. right. eexists; split_and!; done.
  - done.
  - done.
  - exact Hne.
Defined.

(** An RPC error turned into the response of a request carries the id and
    the trace id of the request and the code, message and data of the error,
    and its kind is error. *)
Theorem ToMessage_spec e req :
  ∃ m, ToMessage e req = Ret m ∧ err_Id m = req_Id req ∧
    traceId (err_base m) = traceId (req_base req) ∧ err_Error m = Some e ∧ IsError (MError m) = true.
Proof. destruct e. eexists; split_and!; done. Qed.

(** A factory with [IdNotNull] never makes a request, result or error with
    a null id: the construction panics instead, and otherwise the message has
    the id it was asked for. *)
Theorem Factory_ids_not_null f id method params reqmsg res e :
  IdNotNull (factory_opts f) = true →
  (∀ m, Factory_NewRequest f id method params = Ret m → req_Id m = id ∧ id ≠ ANil) ∧
  (∀ m, Factory_NewResult f reqmsg res = Ret m → res_Id m ≠ ANil) ∧
  (∀ m, Factory_NewError f reqmsg e = Ret m → err_Id m ≠ ANil).
Proof.
  unfold Factory_NewRequest, Factory_NewResult, Factory_NewError. intros ->. split_and!; intros m.
  - simpl. destruct id; simpl; [naive_solver|..];
      intros [_ ->]%NewRequestMessage_Ret; done.
  - destruct reqmsg as [r|]; simpl; [|naive_solver].
    destruct (MustId r) as [i|]; simpl; [|done]. destruct i; simpl; naive_solver.
  - destruct reqmsg as [r|]; simpl; [|naive_solver].
    destruct (MustId r) as [i|]; simpl; [|done]. destruct i; simpl; naive_solver.
Qed.

Lemma Factory_ids_not_null_witness :
  req_Id (mkRequest (mkBase MKRequest "") (AInt 800) "bbb" [] true) = AInt 800.
Proof.
  destruct (Factory_ids_not_null (mkFactory (mkMessageOptions true)) (AInt 800) "bbb" ANil None ANil None
    eq_refl) as (H & _ & _).
  exact (proj1 (H (mkRequest (mkBase MKRequest "") (AInt 800) "bbb" [] true) eq_refl)).
Defined.

(** ** The maps messages are validated as *)

Section MessageMap_lemmas.
Context `{MapDecoderOk}.

Lemma MessageMap_inr msg : ∃ m, MessageMap msg = inr m.
Proof using Type*.
  unfold MessageMap. destruct (DecodeInterface_id (Interface msg)) as (m & -> & _).
  repeat case_match; eauto.
Qed.

Lemma MessageMap_id msg m :
  MessageMap msg = inr m → map_get "id" m = template_id (Interface msg).
Proof using Type*.
  unfold MessageMap. destruct (DecodeInterface_id (Interface msg)) as (m' & -> & Hid).
  rewrite Hid. destruct (template_id (Interface msg)); intros [= <-]; [|done].
  by rewrite map_get_set_eq.
Qed.

Lemma MessageMap_field msg m name v :
  MessageMap msg = inr m → name ≠ "id" → template_field (Interface msg) name = Some v →
  map_get name m = Some v.
Proof using Type*.
  unfold MessageMap. destruct (DecodeInterface_id (Interface msg)) as (m' & Hm' & Hid).
  rewrite Hm', Hid. intros Hm Hne Hv. pose proof (DecodeInterface_field _ _ _ _ Hm' Hv) as Hget.
  destruct (template_id (Interface msg)); injection Hm as <-; [|done].
  by rewrite map_get_set_ne.
Qed.
Lemma MessageMap_no_field msg m name :
  MessageMap msg = inr m → name ∈ ["method"; "params"; "result"] → template_field (Interface msg) name = None →
  map_get name m = None.
Proof using Type*.
  intros Hm Hname Hf. assert (name ≠ "id") as Hid by (intros ->; set_solver). revert Hm. unfold MessageMap.
  destruct (DecodeInterface_id (Interface msg)) as (m' & Hm' & _). rewrite Hm'.
  pose proof (DecodeInterface_no_field _ _ _ Hm' Hname Hf) as Hn.
  destruct (map_get "id" m') as [[]|]; try (by intros [= <-]).
  destruct (map_get "Value" _); [|by intros [= <-]]. intros [= <-]. by rewrite map_get_set_ne.
Qed.
End MessageMap_lemmas.

(** With a struct decoder that does what mapstructure documents,
    [MessageMap] succeeds, holds the bare id of a message that has one (not
    the wrapper struct) and holds its method, parameters or result unchanged. *)
Theorem MessageMap_spec `{MapDecoderOk} msg :
  ∃ m, MessageMap msg = inr m ∧
    map_get "id" m = template_id (Interface msg) ∧
    ∀ name v, name ≠ "id" → template_field (Interface msg) name = Some v → map_get name m = Some v.
Proof.
  destruct (MessageMap_inr msg) as [m Hm]. exists m.
  eauto using MessageMap_id, MessageMap_field.
Qed.

(** A struct decoder with the documented behaviour. *)
Definition struct_entries (t : template) : gomap any :=
  match t with
  | TRequest t => [("jsonrpc", AString (trq_Jsonrpc t)); ("method", AString (trq_Method t));
      ("id", AMap [("Value", Value (trq_Id t))]); ("params", trq_Params t);
      ("traceid", AString (trq_TraceId t))]
  | TNotify t => [("jsonrpc", AString (tnt_Jsonrpc t)); ("method", AString (tnt_Method t));
      ("params", tnt_Params t); ("traceid", AString (tnt_TraceId t))]
  | TResult t => [("jsonrpc", AString (trs_Jsonrpc t)); ("id", AMap [("Value", Value (trs_Id t))]);
      ("result", trs_Result t); ("traceid", AString (trs_TraceId t))]
  | TError t => [("jsonrpc", AString (ter_Jsonrpc t)); ("id", AMap [("Value", Value (ter_Id t))]);
      ("traceid", AString (ter_TraceId t))]
  end.

Definition struct_decoder : MapDecoder := λ t, inr (struct_entries t).

Lemma struct_decoder_ok : @MapDecoderOk struct_decoder.
Proof.
  split.
  - intros t. eexists; split; [done|]. by destruct t.
  - intros t name v m [= <-]. destruct t; simpl; intros Hf;
      repeat case_bool_decide; by simplify_eq/=.
  - intros t name m [= <-] Hin. rewrite !elem_of_cons in Hin.
    destruct Hin as [->|[->|[->|[]%elem_of_nil]]]; by destruct t.
Qed.

Lemma MessageMap_spec_witness :
  ∃ m, @MessageMap struct_decoder (MResult (rawResultMessage (AInt 101) (AString "x") None)) = inr m ∧
    map_get "id" m = Some (AInt 101).
Proof.
  destruct (@MessageMap_spec struct_decoder struct_decoder_ok
    (MResult (rawResultMessage (AInt 101) (AString "x") None))) as (m & H1 & H2 & _).
  exists m. exact (conj H1 H2).
Defined.
