(* ===== verification/Parse.v ===== *)
(** * Parsing messages: parse.go and the decoding half of messagemarshal.go

    A [json.Decoder] is the list of what its scanner finds next: the JSON
    values of the input in order, and the point where the input stops being
    JSON.  Struct decoding follows encoding/json: keys match field names up
    to letter case, later members overwrite earlier ones, null leaves a string
    field alone and makes a pointer nil, and a value of the wrong type makes
    the whole decoding fail. *)

From S2P Require Import Prelude GoMap Strconv Values Messages.
From stdpp Require Import options.

(** ** Decoders *)

Inductive scan_event : Type :=
  | ScanValue (j : json)
  | ScanSyntaxError.

Abbreviation decoder := (list scan_event).

Definition unmarshal_error : error := ErrorJson "cannot unmarshal".

(** [decoder.Decode]: a syntax error stays, the end of the input is io.EOF. *)
Definition decoder_Decode (d : decoder) : (error + json) * decoder :=
  match d with
  | [] => (inl ErrorEOF, [])
  | ScanValue j :: d' => (inr j, d')
  | ScanSyntaxError :: _ => (inl (ErrorJson "invalid character"), d)
  end.

(** ** [msgIdT.UnmarshalJSON] *)

Definition msgIdT_UnmarshalJSON (j : json) : error + msgIdT :=
  match j with
  | JNull => inr (mkMsgId ANil true)
  | JNum s =>
      match ParseInt s with
      | Some intv => inr (mkMsgId (AInt intv) true)
      | None => inl unmarshal_error
      end
  | JStr strv => inr (mkMsgId (AString strv) true)
  | JBool _ | JArr _ | JObj _ => inl unmarshal_error
  end.

(** ** [msgUnion] *)

Record msgUnion := mkUnion {
  un_IdSt : msgIdT;
  un_Result : option json;   (** *json.RawMessage *)
  un_Error : option json;
  un_Params : option json;
  un_Method : string;
  un_TraceId : string }.

Definition union_zero : msgUnion := mkUnion (mkMsgId ANil false) None None None "" "".

Definition raw_pointer (j : json) : option json :=
  match j with JNull => None | _ => Some j end.

Definition string_field (old : string) (j : json) : error + string :=
  match j with
  | JStr s => inr s
  | JNull => inr old
  | _ => inl unmarshal_error
  end.

Definition union_member (un : msgUnion) (key : string) (j : json) : error + msgUnion :=
  let name := foldName key in
  let '(mkUnion i r e p m t) := un in
  if bool_decide (name = "id") then
    match msgIdT_UnmarshalJSON j with inl err => inl err | inr i => inr (mkUnion i r e p m t) end
  else if bool_decide (name = "result") then inr (mkUnion i (raw_pointer j) e p m t)
  else if bool_decide (name = "error") then inr (mkUnion i r (raw_pointer j) p m t)
  else if bool_decide (name = "params") then inr (mkUnion i r e (raw_pointer j) m t)
  else if bool_decide (name = "method") then
    match string_field m j with inl err => inl err | inr m => inr (mkUnion i r e p m t) end
  else if bool_decide (name = "traceid") then
    match string_field t j with inl err => inl err | inr t => inr (mkUnion i r e p m t) end
  else inr un.

Fixpoint union_members (un : msgUnion) (ms : list (string * json)) : error + msgUnion :=
  match ms with
  | [] => inr un
  | (k, j) :: ms =>
      match union_member un k j with
      | inl err => inl err
      | inr un => union_members un ms
      end
  end.

Definition decode_union (j : json) : error + msgUnion :=
  match j with
  | JObj ms => union_members union_zero ms
  | JNull => inr union_zero
  | _ => inl unmarshal_error
  end.

(** ** The error object *)

Definition rpcerror_zero : RPCError := mkRPCError 0 "" ANil.

Definition rpcerror_member (e : RPCError) (key : string) (j : json) : error + RPCError :=
  let name := foldName key in
  let '(mkRPCError c m d) := e in
  if bool_decide (name = "code") then
    match j with
    | JNum s => match ParseInt s with
                | Some n => inr (mkRPCError n m d)
                | None => inl unmarshal_error
                end
    | JNull => inr e
    | _ => inl unmarshal_error
    end
  else if bool_decide (name = "message") then
    match string_field m j with inl err => inl err | inr m => inr (mkRPCError c m d) end
  else if bool_decide (name = "data") then inr (mkRPCError c m (json_value j))
  else inr e.

Fixpoint rpcerror_members (e : RPCError) (ms : list (string * json)) : error + RPCError :=
  match ms with
  | [] => inr e
  | (k, j) :: ms =>
      match rpcerror_member e k j with
      | inl err => inl err
      | inr e => rpcerror_members e ms
      end
  end.

Definition decode_rpcerror (j : json) : error + RPCError :=
  match j with
  | JObj ms => rpcerror_members rpcerror_zero ms
  | JNull => inr rpcerror_zero
  | _ => inl unmarshal_error
  end.

(** ** parse.go *)

Definition errdecode (errmsg : string) : error := ErrorDecode errmsg.

(** The parameters, and whether they were written as a list. *)
Definition decodeParams (un : msgUnion) : error + (list any * bool) :=
  match un_Params un with
  | None => inl (errdecode "no params field")
  | Some (JArr l) => inr (json_value <$> l, true)
  | Some JNull => inr ([], true)
  | Some j => inr ([json_value j], false)
  end.

Definition options_or_default (options : list MessageOptions) : MessageOptions :=
  match options with [] => mkMessageOptions false | o :: _ => o end.

(** The message a decoded [msgUnion] stands for. *)
Definition union_message (un : msgUnion) (opts : MessageOptions) : result (error + Message) :=
  match un_Error un, un_Result un with
  | Some _, Some _ => Ret (inl (errdecode "result and error cannot co exist"))
  | Some rawerr, None =>
      match decode_rpcerror rawerr with
      | inl err => Ret (inl err)
      | inr errbody =>
          if isSet (un_IdSt un) then
            Ret (inr (MError (err_SetTraceId (un_TraceId un)
              (rawErrorMessage (Value (un_IdSt un)) (Some errbody) None))))
          else Ret (inl (errdecode "no message id"))
      end
  | None, Some rawres =>
      let res := json_value rawres in
      if isSet (un_IdSt un) then
        if any_is_nil (Value (un_IdSt un)) && IdNotNull opts then
          Ret (inl (errdecode "Result.id cannot be null"))
        else
          Ret (inr (MResult (res_SetTraceId (un_TraceId un)
            (rawResultMessage (Value (un_IdSt un)) res None))))
      else
        Ret (inr (MResult (res_SetTraceId (un_TraceId un) (rawResultMessage ANil res None))))
  | None, None =>
      if negb (bool_decide (un_Method un = "")) then
        match decodeParams un with
        | inl err => Ret (inl err)
        | inr (params, islist) =>
            if isSet (un_IdSt un) then
              if any_is_nil (Value (un_IdSt un)) && IdNotNull opts then
                Ret (inl (errdecode "Request.id cannot be null"))
              else
                m ← NewRequestMessage (Value (un_IdSt un)) (un_Method un) (AList params);
                Ret (inr (MRequest (req_SetTraceId (un_TraceId un)
                  (mkRequest (req_base m) (req_Id m) (req_Method m) (req_Params m) islist))))
            else
              m ← NewNotifyMessage (un_Method un) (AList params);
              Ret (inr (MNotify (ntf_SetTraceId (un_TraceId un)
                (mkNotify (ntf_base m) (ntf_Method m) (ntf_Params m) islist))))
        end
      else if isSet (un_IdSt un) then
        Ret (inr (MResult (res_SetTraceId (un_TraceId un)
          (rawResultMessage (Value (un_IdSt un)) ANil None))))
      else Ret (inl (errdecode "not a jsonrpc message"))
  end.

(** [DecodeMessage] returns the message or error, and the decoder after the
    value it consumed. *)
Definition DecodeMessage (d : decoder) (options : list MessageOptions)
    : result ((error + Message) * decoder) :=
  let opts := options_or_default options in
  let '(r, d') := decoder_Decode d in
  match r with
  | inl err => Ret (inl err, d')
  | inr j =>
      match decode_union j with
      | inl err => Ret (inl err, d')
      | inr un => m ← union_message un opts; Ret (m, d')
      end
  end.

(** [ParseBytes]: one value is decoded, whatever follows it is ignored. *)
Definition ParseBytes (data : decoder) (options : list MessageOptions) : result (error + Message) :=
  r ← DecodeMessage data options; Ret r.1.

Definition Factory_Parse (f : MessageFactory) (data : decoder) : result (error + Message) :=
  ParseBytes data [factory_opts f].

Definition Factory_Decode (f : MessageFactory) (d : decoder) : result ((error + Message) * decoder) :=
  DecodeMessage d [factory_opts f].

(** ** Decoding the members the templates write *)

Lemma member_jsonrpc un j : union_member un "jsonrpc" j = inr un.
Proof. by destruct un. Qed.

Lemma member_id un j :
  union_member un "id" j =
  match msgIdT_UnmarshalJSON j with
  | inl err => inl err
  | inr i => inr (mkUnion i (un_Result un) (un_Error un) (un_Params un) (un_Method un) (un_TraceId un))
  end.
Proof. by destruct un. Qed.

Lemma member_result un j :
  union_member un "result" j =
  inr (mkUnion (un_IdSt un) (raw_pointer j) (un_Error un) (un_Params un) (un_Method un) (un_TraceId un)).
Proof. by destruct un. Qed.

Lemma member_error un j :
  union_member un "error" j =
  inr (mkUnion (un_IdSt un) (un_Result un) (raw_pointer j) (un_Params un) (un_Method un) (un_TraceId un)).
Proof. by destruct un. Qed.

Lemma member_params un j :
  union_member un "params" j =
  inr (mkUnion (un_IdSt un) (un_Result un) (un_Error un) (raw_pointer j) (un_Method un) (un_TraceId un)).
Proof. by destruct un. Qed.

Lemma member_method un s :
  union_member un "method" (JStr s) =
  inr (mkUnion (un_IdSt un) (un_Result un) (un_Error un) (un_Params un) s (un_TraceId un)).
Proof. by destruct un. Qed.

Lemma member_traceid un t :
  utf8_ok t = true → un_TraceId un = "" →
  union_members un (field_omitempty "traceid" t) =
  inr (mkUnion (un_IdSt un) (un_Result un) (un_Error un) (un_Params un) (un_Method un) t).
Proof.
  intros Ht Hun. unfold field_omitempty, field_string. rewrite coerceUTF8_ok by done.
  destruct un; simpl in *. case_bool_decide; by subst.
Qed.

(** Decode the members of a literal object one by one. *)
Ltac decode_members_step :=
  first [rewrite member_jsonrpc | rewrite member_id | rewrite member_result
        | rewrite member_error | rewrite member_params | rewrite member_method];
  cbn [union_members union_zero un_IdSt un_Result un_Error un_Params un_Method un_TraceId].

Lemma field_string_ok name s : utf8_ok s = true → field_string name s = [(name, JStr s)].
Proof. intros Hs. unfold field_string. by rewrite coerceUTF8_ok. Qed.

(** The unions the four templates decode to. *)
Section template_unions.
Context (ji jp jr je : json) (i : msgIdT) (mt t : string).
Hypothesis Hi : msgIdT_UnmarshalJSON ji = inr i.
Hypothesis Hmt : utf8_ok mt = true.
Hypothesis Ht : utf8_ok t = true.

Lemma union_request :
  decode_union (JObj (field_string "jsonrpc" "2.0" ++ field_string "method" mt
    ++ [("id", ji); ("params", jp)] ++ field_omitempty "traceid" t)) =
  inr (mkUnion i None None (raw_pointer jp) mt t).
Proof using Hi Hmt Ht.
  rewrite !field_string_ok by done. unfold decode_union. cbn [app union_members].
  do 3 decode_members_step. rewrite Hi. decode_members_step. by apply member_traceid.
Qed.

Lemma union_notify :
  decode_union (JObj (field_string "jsonrpc" "2.0" ++ field_string "method" mt
    ++ [("params", jp)] ++ field_omitempty "traceid" t)) =
  inr (mkUnion (mkMsgId ANil false) None None (raw_pointer jp) mt t).
Proof using Hmt Ht.
  rewrite !field_string_ok by done. unfold decode_union. cbn [app union_members].
  do 3 decode_members_step. by apply member_traceid.
Qed.

Lemma union_result :
  decode_union (JObj (field_string "jsonrpc" "2.0"
    ++ [("id", ji); ("result", jr)] ++ field_omitempty "traceid" t)) =
  inr (mkUnion i (raw_pointer jr) None None "" t).
Proof using Hi Ht.
  rewrite !field_string_ok by done. unfold decode_union. cbn [app union_members].
  do 2 decode_members_step. rewrite Hi. decode_members_step. by apply member_traceid.
Qed.

Lemma union_error :
  decode_union (JObj (field_string "jsonrpc" "2.0"
    ++ [("id", ji); ("error", je)] ++ field_omitempty "traceid" t)) =
  inr (mkUnion i None (raw_pointer je) None "" t).
Proof using Hi Ht.
  rewrite !field_string_ok by done. unfold decode_union. cbn [app union_members].
  do 2 decode_members_step. rewrite Hi. decode_members_step. by apply member_traceid.
Qed.
End template_unions.

(** ** Messages that the wire carries unchanged *)

Definition wire_id (id : any) : Prop :=
  match id with
  | ANil => True
  | AInt z => is_int64 z = true
  | AString s => utf8_ok s = true
  | _ => False
  end.

Definition wire_error (e : RPCError) : Prop :=
  is_int64 (RPCError_Code e) = true ∧ utf8_ok (RPCError_Message e) = true ∧
  any_wire (RPCError_Data e).

Definition message_wire (msg : Message) : Prop :=
  message_ok msg ∧ utf8_ok (TraceId msg) = true ∧
  match msg with
  | MRequest m => wire_id (req_Id m) ∧ utf8_ok (req_Method m) = true ∧ any_wire (AList (req_Params m))
  | MNotify m => utf8_ok (ntf_Method m) = true ∧ any_wire (AList (ntf_Params m))
  | MResult m => wire_id (res_Id m) ∧ any_wire (res_Result m)
  | MError m => wire_id (err_Id m) ∧ ∃ e, err_Error m = Some e ∧ wire_error e
  end.

Definition error_norm (e : RPCError) : RPCError :=
  mkRPCError (RPCError_Code e) (RPCError_Message e) (any_norm (RPCError_Data e)).

(** The message up to the order of map entries, without the response header,
    which is not part of the JSON. *)
Definition message_norm (msg : Message) : Message :=
  match msg with
  | MRequest m => MRequest (mkRequest (req_base m) (req_Id m) (req_Method m)
      (any_norm <$> req_Params m) (req_paramsAreList m))
  | MNotify m => MNotify (mkNotify (ntf_base m) (ntf_Method m)
      (any_norm <$> ntf_Params m) (ntf_paramsAreList m))
  | MResult m => MResult (mkResult (res_base m) (res_Id m) (any_norm (res_Result m)) None)
  | MError m => MError (mkError (err_base m) (err_Id m) (error_norm <$> err_Error m) None)
  end.

(** The id a message is answered with, if it has one. *)
Definition id_of (msg : Message) : option any :=
  match MustId msg with Ret id => Some id | Panic _ => None end.

Lemma wire_id_roundtrip id :
  wire_id id →
  ∃ j, msgIdT_MarshalJSON (mkMsgId id true) = Some j ∧
    msgIdT_UnmarshalJSON j = inr (mkMsgId id true).
Proof.
  destruct id as [| |z| | | |s| | | | | |]; simpl; try done; intros H.
  - by exists JNull.
  - eexists; split; [done|]. unfold msgIdT_UnmarshalJSON. by rewrite ParseInt_Itoa.
  - eexists; split; [done|]. simpl. by rewrite coerceUTF8_ok.
Qed.

Lemma any_norm_list_inv v l : any_norm v = AList l → ∃ l', v = AList l'.
Proof. destruct v; simpl; intros [=]; eauto. Qed.

Lemma any_norm_nil_inv v : any_norm v = ANil → v = ANil.
Proof. by destruct v. Qed.

Lemma list_params_roundtrip (params : list any) :
  any_wire (AList params) →
  ∃ j, Marshal (AList params) = Some j ∧
    ∀ i r e m t, decodeParams (mkUnion i r e (raw_pointer j) m t) = inr (any_norm <$> params, true).
Proof.
  intros Hw. destruct (Marshal_wire _ Hw) as (j & Hj & Hv). exists j. split; [done|].
  intros i r e m t. destruct j; try done. injection Hv as Hv.
  unfold decodeParams; cbn [un_Params raw_pointer]. by rewrite Hv.
Qed.

(** The parameters come back with their shape. *)
Lemma params_roundtrip (params : list any) islist :
  any_wire (AList params) → params_shape params islist →
  ∃ j, Marshal (template_params params islist) = Some j ∧
    ∀ i r e m t, decodeParams (mkUnion i r e (raw_pointer j) m t)
      = inr (any_norm <$> params, islist).
Proof.
  intros Hw [->|(p & -> & Hnil & Hnl)].
  { assert (template_params params true = AList params) as -> by (by destruct params).
    by apply list_params_roundtrip. }
  destruct islist; [by apply (list_params_roundtrip [p])|].
  destruct Hw as [Hw _]. destruct (Marshal_wire p Hw) as (j & Hj & Hv).
  exists j. split; [done|]. intros i r e m t.
  assert (j ≠ JNull) as Hj1.
  { intros ->. apply Hnil. by apply any_norm_nil_inv. }
  assert (∀ l, j ≠ JArr l) as Hj2.
  { intros l ->. symmetry in Hv. apply any_norm_list_inv in Hv as [l' ->]. by apply (Hnl l'). }
  unfold decodeParams; cbn [un_Params]. rewrite list_fmap_singleton, <- Hv.
  destruct j; try done. by destruct (Hj2 l).
Qed.

Lemma rpcerror_members_code_message c m ds :
  is_int64 c = true →
  rpcerror_members rpcerror_zero ([("code", JNum (Itoa c)); ("message", JStr m)] ++ ds) =
  rpcerror_members (mkRPCError c m ANil) ds.
Proof. intros Hc. cbn. by rewrite ParseInt_Itoa. Qed.

Lemma wire_error_roundtrip e :
  wire_error e → ∃ ms, RPCError_json e = Some (JObj ms) ∧ decode_rpcerror (JObj ms) = inr (error_norm e).
Proof.
  destruct e as [c m d]. unfold wire_error, error_norm; simpl. intros (Hc & Hm & Hd).
  destruct (Marshal_wire d Hd) as (j & Hj & Hv).
  assert (RPCError_json (mkRPCError c m d) = Some (JObj ([("code", JNum (Itoa c)); ("message", JStr m)]
    ++ match d with ANil => [] | _ => [("data", j)] end))) as ->.
  { unfold RPCError_json, field_string.
    cbn [RPCError_Code RPCError_Message RPCError_Data]. rewrite coerceUTF8_ok by done.
    destruct d; [done|..]; by rewrite Hj. }
  eexists; split; [done|]. unfold decode_rpcerror.
  rewrite rpcerror_members_code_message by done. rewrite <- Hv.
  destruct d; try done. by simplify_eq/=.
Qed.

Lemma decode_members_app un un' ms1 ms2 :
  union_members un ms1 = inr un' → union_members un (ms1 ++ ms2) = union_members un' ms2.
Proof.
  revert un. induction ms1 as [|[k j] ms1 IH]; intros un; simpl; [by intros [= ->]|].
  destruct (union_member un k j); [done|]. apply IH.
Qed.

(** One value, decoded under [opts]. *)
Definition decode_value (j : json) (opts : MessageOptions) : result (error + Message) :=
  match decode_union j with
  | inl err => Ret (inl err)
  | inr un => union_message un opts
  end.

Lemma DecodeMessage_value j rest opts m :
  decode_value j (options_or_default opts) = Ret m → DecodeMessage (ScanValue j :: rest) opts = Ret (m, rest).
Proof.
  unfold DecodeMessage, decode_value. simpl. destruct (decode_union j) as [err|un]; [by intros [= <-]|].
  by intros ->.
Qed.

Lemma ParseBytes_value j rest opts : ParseBytes (ScanValue j :: rest) [opts] = decode_value j opts.
Proof.
  unfold ParseBytes, DecodeMessage, decode_value; simpl.
  destruct (decode_union j) as [|un]; [done|]. by destruct (union_message un opts).
Qed.

Definition opts_allow (opts : MessageOptions) (id : any) : Prop :=
  IdNotNull opts = false ∨ id ≠ ANil.

Lemma opts_allow_eq opts id : opts_allow opts id → any_is_nil id && IdNotNull opts = false.
Proof. intros [->|H]; [apply andb_false_r|by destruct id]. Qed.

Lemma request_roundtrip m opts :
  message_wire (MRequest m) → opts_allow opts (req_Id m) →
  ∃ j, MessageBytes (MRequest m) = Some j ∧
    decode_value j opts = Ret (inr (message_norm (MRequest m))).
Proof.
  destruct m as [[k t] id mt ps il]. intros ((Hk & Hm & Hsh) & Ht & Hid & Hmt & Hps) Ho.
  simpl in Hk, Hm, Hsh, Hid, Hmt, Ho; subst.
  destruct (wire_id_roundtrip id Hid) as (ji & Hji & Hdi).
  destruct (params_roundtrip ps il Hps Hsh) as (jp & Hjp & Hdp).
  exists (JObj (field_string "jsonrpc" "2.0" ++ field_string "method" mt
    ++ [("id", ji); ("params", jp)] ++ field_omitempty "traceid" t)).
  split; [by unfold MessageBytes; cbn; rewrite Hji; cbn; rewrite Hjp|].
  unfold decode_value. rewrite (union_request ji jp (mkMsgId id true) mt t) by done.
  unfold union_message; cbn [un_Error un_Result un_Method un_IdSt isSet Value].
  rewrite bool_decide_false by done. cbn [negb]. rewrite Hdp, opts_allow_eq by done.
  unfold NewRequestMessage. by rewrite bool_decide_false.
Qed.

Lemma notify_roundtrip m opts :
  message_wire (MNotify m) →
  ∃ j, MessageBytes (MNotify m) = Some j ∧
    decode_value j opts = Ret (inr (message_norm (MNotify m))).
Proof.
  destruct m as [[k t] mt ps il]. intros ((Hk & Hm & Hsh) & Ht & Hmt & Hps).
  simpl in Hk, Hm, Hsh, Hmt; subst.
  destruct (params_roundtrip ps il Hps Hsh) as (jp & Hjp & Hdp).
  exists (JObj (field_string "jsonrpc" "2.0" ++ field_string "method" mt
    ++ [("params", jp)] ++ field_omitempty "traceid" t)).
  split; [by unfold MessageBytes; cbn; rewrite Hjp|].
  unfold decode_value. rewrite (union_notify jp mt t) by done.
  unfold union_message; cbn [un_Error un_Result un_Method un_IdSt isSet Value].
  rewrite bool_decide_false by done. cbn [negb]. rewrite Hdp.
  unfold NewNotifyMessage. by rewrite bool_decide_false.
Qed.

Lemma result_roundtrip m opts :
  message_wire (MResult m) → opts_allow opts (res_Id m) →
  ∃ j, MessageBytes (MResult m) = Some j ∧
    decode_value j opts = Ret (inr (message_norm (MResult m))).
Proof.
  destruct m as [[k t] id r h]. intros (Hk & Ht & Hid & Hr) Ho.
  simpl in Hk, Hid, Hr, Ho; subst.
  destruct (wire_id_roundtrip id Hid) as (ji & Hji & Hdi).
  destruct (Marshal_wire r Hr) as (jr & Hjr & Hdr).
  exists (JObj (field_string "jsonrpc" "2.0"
    ++ [("id", ji); ("result", jr)] ++ field_omitempty "traceid" t)).
  split; [by unfold MessageBytes; cbn; rewrite Hji; cbn; rewrite Hjr|].
  unfold decode_value. rewrite (union_result ji jr (mkMsgId id true) t) by done.
  unfold union_message; cbn [un_Error un_Result un_Method un_IdSt isSet Value].
  cbn [message_norm res_base res_Id res_Result]. rewrite <- Hdr, opts_allow_eq by done.
  by destruct jr.
Qed.

Lemma error_roundtrip m opts :
  message_wire (MError m) →
  ∃ j, MessageBytes (MError m) = Some j ∧
    decode_value j opts = Ret (inr (message_norm (MError m))).
Proof.
  destruct m as [[k t] id e h]. intros (Hk & Ht & Hid & (e' & He1 & He)).
  simpl in Hk, Hid, He1; subst.
  destruct (wire_id_roundtrip id Hid) as (ji & Hji & Hdi).
  destruct (wire_error_roundtrip e' He) as (ms & Hms & Hde).
  exists (JObj (field_string "jsonrpc" "2.0"
    ++ [("id", ji); ("error", JObj ms)] ++ field_omitempty "traceid" t)).
  split; [by unfold MessageBytes; cbn -[RPCError_json]; rewrite Hji; cbn -[RPCError_json]; rewrite Hms|].
  unfold decode_value. rewrite (union_error ji (JObj ms) (mkMsgId id true) t) by done.
  unfold union_message; cbn [un_Error un_Result un_Method un_IdSt isSet Value raw_pointer].
  by rewrite Hde.
Qed.

(** ** Properties of the parser *)

(** A message of any kind, without a null id where it is not allowed. *)
Lemma message_roundtrip msg opts :
  message_wire msg → opts_allow opts (default (AInt 0) (id_of msg)) →
  ∃ j, MessageBytes msg = Some j ∧ decode_value j opts = Ret (inr (message_norm msg)).
Proof.
  intros Hw Ho. destruct msg.
  - by apply request_roundtrip.
  - by apply notify_roundtrip.
  - by apply result_roundtrip.
  - by apply error_roundtrip.
Qed.

Lemma ParseBytes_default j rest :
  ParseBytes (ScanValue j :: rest) [] = decode_value j (mkMessageOptions false).
Proof. exact (ParseBytes_value j rest (mkMessageOptions false)). Qed.

Lemma message_roundtrip_default msg rest :
  message_wire msg →
  ∃ j, MessageBytes msg = Some j ∧ ParseBytes (ScanValue j :: rest) [] = Ret (inr (message_norm msg)).
Proof.
  intros Hw. destruct (message_roundtrip msg (mkMessageOptions false) Hw) as (j & Hj & Hd); [by left|].
  exists j. by rewrite ParseBytes_default.
Qed.

(** Wire round trip over trees: a well-formed message whose id, texts, parameters,
    result and error data are JSON values is marshalled without error, and
    parsing the bytes, whatever follows them, gives the message back up to the
    order of map entries (its response header is not sent).  With [IdNotNull]
    the id must not be null. *)
Theorem ParseBytes_MessageBytes msg opts rest :
  message_wire msg → opts_allow opts (default (AInt 0) (id_of msg)) →
  ∃ j, MessageBytes msg = Some j ∧
    ParseBytes (ScanValue j :: rest) [opts] = Ret (inr (message_norm msg)).
Proof.
  intros Hw Ho. setoid_rewrite ParseBytes_value. by apply message_roundtrip.
Qed.

Definition sample_request : Message :=
  MRequest (mkRequest (mkBase MKRequest "tr1") (AInt 100) "abc::add"
    [AMap [("what", AString "hello"); ("n", ANumber "3.5")]] false).

Lemma sample_request_wire : message_wire sample_request.
Proof.
  split; [split; [done|split; [done|right]]|].
  { eexists; split_and!; done. }
  split; [done|]. split; [done|]. split; [done|]. split; [|done].
  split; [by apply (bool_decide_unpack _)|by repeat split].
Qed.

Lemma ParseBytes_MessageBytes_witness :
  ∃ j, MessageBytes sample_request = Some j ∧
    ParseBytes [ScanValue j] [mkMessageOptions true] = Ret (inr (message_norm sample_request)).
Proof.
  apply (ParseBytes_MessageBytes sample_request (mkMessageOptions true) []).
  - exact sample_request_wire.
  - right. done.
Defined.

(** The ids [msgIdT] can hold after decoding. *)
Definition decoded_id (id : any) : Prop :=
  match id with
  | ANil | AString _ => True
  | AInt z => is_int64 z = true
  | _ => False
  end.

Lemma UnmarshalJSON_decoded j i : msgIdT_UnmarshalJSON j = inr i → isSet i = true ∧ decoded_id (Value i).
Proof.
  destruct j as [| |s|s| |]; simpl; try done; [by intros [= <-]| |by intros [= <-]].
  destruct (ParseInt s) as [z|] eqn:Hz; [|done]. intros [= <-]. split; [done|].
  by apply is_int64_spec, (ParseInt_range s).
Qed.

Definition union_ok (un : msgUnion) : Prop :=
  decoded_id (Value (un_IdSt un)) ∧ un_Params un ≠ Some JNull.

Lemma raw_pointer_not_null j : raw_pointer j ≠ Some JNull.
Proof. by destruct j. Qed.

Lemma union_member_ok un k j un' : union_ok un → union_member un k j = inr un' → union_ok un'.
Proof.
  destruct un as [i r e p m t]. intros [Hi Hp]. unfold union_member.
  repeat case_bool_decide.
  - destruct (msgIdT_UnmarshalJSON j) as [|i'] eqn:Ei; [done|]. intros [= <-].
    by apply UnmarshalJSON_decoded in Ei as [_ ?].
  - by intros [= <-].
  - by intros [= <-].
  - intros [= <-]. split; [done|]. apply raw_pointer_not_null.
  - destruct (string_field m j); [done|]. by intros [= <-].
  - destruct (string_field t j); [done|]. by intros [= <-].
  - by intros [= <-].
Qed.

Lemma decode_union_ok j un : decode_union j = inr un → union_ok un.
Proof.
  assert (union_ok union_zero) as H0 by done.
  destruct j as [| | | | |ms]; simpl; try done; [by intros [= <-]|].
  revert H0. generalize union_zero. induction ms as [|[k j] ms IH]; intros un0 H0; simpl.
  { by intros [= <-]. }
  destruct (union_member un0 k j) eqn:E; [done|]. apply IH. by eapply union_member_ok.
Qed.

Lemma json_value_list_inv j l : json_value j = AList l → ∃ js, j = JArr js.
Proof. destruct j; simpl; try done; eauto. Qed.

Lemma json_value_nil_inv j : json_value j = ANil → j = JNull.
Proof. by destruct j. Qed.

Lemma decodeParams_shape un ps il :
  union_ok un → decodeParams un = inr (ps, il) → params_shape ps il.
Proof.
  intros [_ Hp]. unfold decodeParams, params_shape.
  destruct (un_Params un) as [j|]; [|done]. destruct j; intros [= <- <-];
    first [by left | right; eexists; split_and!; [done|done|by intros]].
Qed.

(** The message of a union: well formed, with the decoded id, and of the kind
    its fields say. *)
Record union_result_ok (un : msgUnion) (opts : MessageOptions) (msg : Message) : Prop := {
  uro_ok : message_ok msg;
  uro_trace : TraceId msg = un_TraceId un;
  uro_error : IsError msg = bool_decide (is_Some (un_Error un));
  uro_response :
    IsResponse msg = bool_decide (un_Error un = None ∧ un_Result un = None ∧ un_Method un ≠ "");
  uro_request : IsRequest msg = IsResponse msg && isSet (un_IdSt un);
  uro_id : IsNotify msg = false →
    MustId msg = Ret (if isSet (un_IdSt un) then Value (un_IdSt un) else ANil);
  uro_not_null : IdNotNull opts = true → IsRequest msg = true → Value (un_IdSt un) ≠ ANil }.

(** The fields of [union_result_ok] for a message just built: each test is
    decided by what the union holds. *)
Ltac union_fields :=
  split; simpl;
  repeat match goal with E : _ = _ |- _ => rewrite E end; try done;
  first [ by rewrite bool_decide_true by naive_solver
        | by rewrite bool_decide_false by (by intros []) 
        | by rewrite bool_decide_false by naive_solver
        | naive_solver ].

Lemma union_message_call un opts ps il :
  union_ok un → un_Error un = None → un_Result un = None → un_Method un ≠ "" →
  decodeParams un = inr (ps, il) →
  ∃ r, union_message un opts = Ret r ∧ ∀ msg, r = inr msg → union_result_ok un opts msg.
Proof.
  intros Hun He Hr Hm Hp. pose proof (decodeParams_shape _ _ _ Hun Hp) as Hsh.
  unfold union_message. rewrite He, Hr, bool_decide_false by done. cbn [negb]. rewrite Hp.
  unfold NewRequestMessage, NewNotifyMessage. rewrite bool_decide_false by done. cbn.
  destruct (isSet (un_IdSt un)) eqn:Hs.
  - destruct (any_is_nil _ && _) eqn:Hn; eexists; (split; [done|]); [done|].
    intros msg [= <-]. assert (IdNotNull opts = true → Value (un_IdSt un) ≠ ANil) as Hnn.
    { intros Ho Hv. by rewrite Ho, Hv in Hn. }
    clear Hn. union_fields.
  - eexists; split; [done|]. intros msg [= <-]. union_fields.
Qed.

Lemma union_message_spec un opts :
  union_ok un →
  ∃ r, union_message un opts = Ret r ∧ ∀ msg, r = inr msg → union_result_ok un opts msg.
Proof.
  intros Hun. destruct (un_Error un) as [e|] eqn:He, (un_Result un) as [rs|] eqn:Hr.
  - unfold union_message. rewrite He, Hr. by eexists.
  - unfold union_message. rewrite He, Hr. destruct (decode_rpcerror e); [by eexists|].
    destruct (isSet (un_IdSt un)) eqn:Hs; eexists; (split; [done|]); [|done].
    intros msg [= <-]. union_fields.
  - unfold union_message. rewrite He, Hr. cbn.
    destruct (isSet (un_IdSt un)) eqn:Hs; [destruct (any_is_nil _ && _)|];
      eexists; (split; [done|]); try done; intros msg [= <-]; union_fields.
  - destruct (decide (un_Method un = "")) as [Hm|Hm].
    + unfold union_message. rewrite He, Hr, bool_decide_true by done. cbn [negb].
      destruct (isSet (un_IdSt un)) eqn:Hs; [|by eexists].
      eexists; split; [done|]. intros msg [= <-]. union_fields.
    + destruct (decodeParams un) as [err|[ps il]] eqn:Hp; [|by eapply union_message_call].
      unfold union_message. rewrite He, Hr, bool_decide_false by done. cbn [negb]. rewrite Hp. by eexists.
Qed.

(** Decoding never panics. *)
Lemma DecodeMessage_total d options : ∃ r d', DecodeMessage d options = Ret (r, d').
Proof.
  unfold DecodeMessage. destruct d as [|[j|] d']; simpl; [by eexists _, _| |by eexists _, _].
  destruct (decode_union j) as [err|un] eqn:Hj; [by eexists _, _|].
  destruct (union_message_spec un (options_or_default options) (decode_union_ok _ _ Hj)) as (r & -> & _).
  by eexists _, _.
Qed.

(** C21. The parser never panics, on any input and under any options: it
    returns an error or a message.  A message is well formed, has the id the
    input holds (null when a response has none), is an error exactly when the
    input has a non-null [error], a request or notification exactly when it
    has neither [error] nor [result] but a method, and a request exactly when
    an [id] member is present; with [IdNotNull] a request id is not null.
    The decoder has consumed exactly the value parsed. *)
Theorem DecodeMessage_spec d options :
  ∃ r d', DecodeMessage d options = Ret (r, d') ∧
    ∀ msg, r = inr msg → ∃ j un,
      d = ScanValue j :: d' ∧ decode_union j = inr un ∧
      decoded_id (Value (un_IdSt un)) ∧ union_result_ok un (options_or_default options) msg.
Proof.
  unfold DecodeMessage. destruct d as [|[j|] d']; simpl; [by eexists _, _| |by eexists _, _].
  destruct (decode_union j) as [err|un] eqn:Hj; [by eexists _, _|].
  pose proof (decode_union_ok _ _ Hj) as Hun.
  destruct (union_message_spec un (options_or_default options) Hun) as (r & -> & Hr); cbn.
  eexists _, _; split; [done|]. intros msg ->. exists j, un. split_and!; [done|done|apply Hun|].
  by apply Hr.
Qed.

(** The null-id check of the parser covers requests and results that
    write [id: null], but not a result without an [id] member or with a null
    result: under [IdNotNull] these are accepted with a null id, although a
    factory with the same option refuses to make a result with one. *)
Theorem IdNotNull_result_gap r res :
  r ≠ JNull →
  let opts := mkMessageOptions true in
  (∃ m, ParseBytes [ScanValue (JObj [("result", r)])] [opts] = Ret (inr (MResult m)) ∧ res_Id m = ANil) ∧
  (∃ m, ParseBytes [ScanValue (JObj [("id", JNull)])] [opts] = Ret (inr (MResult m)) ∧ res_Id m = ANil) ∧
  ParseBytes [ScanValue (JObj [("id", JNull); ("result", r)])] [opts]
    = Ret (inl (errdecode "Result.id cannot be null")) ∧
  Factory_NewResult (mkFactory opts) None res = Panic (PanicValue "Result id cannot be null").
Proof.
  intros Hr opts. split_and!; [..|done].
  - eexists. rewrite ParseBytes_value. unfold decode_value, decode_union. cbn [union_members].
    rewrite member_result. destruct r; done.
  - eexists. split; [reflexivity|done].
  - rewrite ParseBytes_value. unfold decode_value, decode_union. cbn [union_members].
    rewrite member_id. cbn [msgIdT_UnmarshalJSON]. rewrite member_result. by destruct r.
Qed.

Lemma IdNotNull_result_gap_witness :
  ∃ m, ParseBytes [ScanValue (JObj [("result", JNum "1")])] [mkMessageOptions true]
    = Ret (inr (MResult m)) ∧ res_Id m = ANil.
Proof. exact (proj1 (IdNotNull_result_gap (JNum "1") ANil ltac:(discriminate))). Defined.
