(* ===== verification/JsonText.v ===== *)
(** * JSON text: the parts of encoding/json between trees and bytes

    [json_text] is the compact text json.Marshal writes for a tree.
    [scan_text] is what a json.Decoder finds in a text: its values one after
    the other, and the point where the text stops being JSON.  The scanner is a
    lexer and a stack machine on tokens; the stack holds the arrays and
    objects that are open, at most [maxNestingDepth] of them.

    A decoder reads back every text that json.Marshal wrote ([scan_json_text]);
    WireText.v concludes that messages make the round trip over bytes. *)

From Stdlib Require Import Ascii.
From S2P Require Import Prelude GoMap Strconv Values Messages Parse.
From stdpp Require Import options.
#[local] Open Scope N_scope.

(** ** Characters *)

Definition chr (n : N) : ascii := ascii_of_N n.
Definition is_chr (n : N) (c : ascii) : bool := code c =? n.
Definition quote_char : ascii := chr 34.
Definition quote_text : string := String quote_char "".

Definition is_space (c : ascii) : bool :=
  is_chr 32 c || is_chr 9 c || is_chr 10 c || is_chr 13 c.

Definition hex_digit (n : N) : ascii := if n <? 10 then chr (48 + n) else chr (87 + n).

Definition hex_val (c : ascii) : option N :=
  if is_digit c then Some (code c - 48)
  else if is_hex_letter c then Some (code (to_lower c) - 87)
  else None.

Definition hex4 (c1 c2 c3 c4 : ascii) : option N :=
  d1 ← hex_val c1; d2 ← hex_val c2; d3 ← hex_val c3; d4 ← hex_val c4;
  Some (((d1 * 16 + d2) * 16 + d3) * 16 + d4).

(** [utf8.EncodeRune] of a code point that is not a surrogate. *)
Definition encode_rune (r : N) : string :=
  if r <? 128 then String (chr r) ""
  else if r <? 2048 then String (chr (192 + r / 64)) (String (chr (128 + r mod 64)) "")
  else if r <? 65536 then
    String (chr (224 + r / 4096)) (String (chr (128 + r / 64 mod 64)) (String (chr (128 + r mod 64)) ""))
  else
    String (chr (240 + r / 262144)) (String (chr (128 + r / 4096 mod 64))
      (String (chr (128 + r / 64 mod 64)) (String (chr (128 + r mod 64)) ""))).

(** ** Strings *)

(** The escapes that json.Marshal writes (with the HTML characters and the
    line separators U+2028 and U+2029). *)
Definition escape_char (c : ascii) : string :=
  if is_chr 34 c || is_chr 92 c then String (chr 92) (String c "")
  else if is_chr 10 c then String (chr 92) "n"
  else if is_chr 13 c then String (chr 92) "r"
  else if is_chr 9 c then String (chr 92) "t"
  else if (code c <? 32) || is_chr 60 c || is_chr 62 c || is_chr 38 c then
    String (chr 92) ("u00" +:+ String (hex_digit (code c / 16)) (String (hex_digit (code c mod 16)) ""))
  else String c "".

Fixpoint escape (s : string) : string :=
  match s with
  | EmptyString => ""
  | String c r =>
      match r with
      | String c1 (String c2 r2) =>
          if is_chr 226 c && is_chr 128 c1 && (is_chr 168 c2 || is_chr 169 c2) then
            String (chr 92) ("u202" +:+ String (if is_chr 168 c2 then "8"%char else "9"%char) (escape r2))
          else escape_char c +:+ escape r
      | _ => escape_char c +:+ escape r
      end
  end.

(** The text of a Go string. *)
Definition quote (s : string) : string := quote_text +:+ escape s +:+ quote_text.

(** The text up to the closing quote, as it stands, and what follows it. *)
Fixpoint string_body (s : string) : option (string * string) :=
  match s with
  | EmptyString => None
  | String c r =>
      if is_chr 34 c then Some ("", r)
      else if is_chr 92 c then
        match r with
        | String e r =>
            if is_chr 117 e then
              match r with
              | String h1 (String h2 (String h3 (String h4 r))) =>
                  _ ← hex4 h1 h2 h3 h4;
                  p ← string_body r;
                  Some (String c (String e (String h1 (String h2 (String h3 (String h4 p.1))))), p.2)
              | _ => None
              end
            else if bool_decide (code e ∈ [34; 92; 47; 98; 102; 110; 114; 116]) then
              p ← string_body r; Some (String c (String e p.1), p.2)
            else None
        | EmptyString => None
        end
      else if code c <? 32 then None
      else p ← string_body r; Some (String c p.1, p.2)
  end.

Definition is_high (r : N) : bool := (55296 <=? r) && (r <? 56320).
Definition is_low (r : N) : bool := (56320 <=? r) && (r <? 57344).

(** The character a one-letter escape stands for. *)
Definition simple_escape (e : ascii) : ascii :=
  if is_chr 98 e then chr 8
  else if is_chr 102 e then chr 12
  else if is_chr 110 e then chr 10
  else if is_chr 114 e then chr 13
  else if is_chr 116 e then chr 9
  else e.

(** The escapes of a string body replaced: pairs of surrogates are joined, a
    surrogate alone becomes U+FFFD. *)
Fixpoint unescape (s : string) : string :=
  match s with
  | EmptyString => ""
  | String c r =>
      if is_chr 92 c then
        match r with
        | EmptyString => ""
        | String e r =>
            if is_chr 117 e then
              match r with
              | String h1 (String h2 (String h3 (String h4 r))) =>
                  let rune := default 0 (hex4 h1 h2 h3 h4) in
                  match r with
                  | String b (String u (String g1 (String g2 (String g3 (String g4 r2))))) =>
                      let low := default 0 (hex4 g1 g2 g3 g4) in
                      if is_high rune && is_chr 92 b && is_chr 117 u && is_low low then
                        encode_rune ((rune - 55296) * 1024 + (low - 56320) + 65536) +:+ unescape r2
                      else (if is_high rune || is_low rune then replacement else encode_rune rune)
                             +:+ unescape r
                  | _ => (if is_high rune || is_low rune then replacement else encode_rune rune)
                           +:+ unescape r
                  end
              | _ => ""
              end
            else String (simple_escape e) (unescape r)
        end
      else String c (unescape r)
  end.

(** ** Numbers *)

Fixpoint span_digits (s : string) : string * string :=
  match s with
  | EmptyString => ("", s)
  | String c r => if is_digit c then let '(d, r) := span_digits r in (String c d, r) else ("", s)
  end.

Definition read_int (s : string) : option (string * string) :=
  match s with
  | EmptyString => None
  | String c r =>
      if is_chr 48 c then Some (String c "", r)
      else if is_digit c then Some (span_digits s) else None
  end.

(** One or more digits after [pre]. *)
Definition read_digits (pre s : string) : option (string * string) :=
  let '(d, r) := span_digits s in
  if bool_decide (d = "") then None else Some (pre +:+ d, r).

Definition read_frac (s : string) : option (string * string) :=
  match s with
  | String c r => if is_chr 46 c then read_digits (String c "") r else Some ("", s)
  | EmptyString => Some ("", s)
  end.

Definition read_exp (s : string) : option (string * string) :=
  match s with
  | String c r =>
      if is_chr 101 c || is_chr 69 c then
        match r with
        | String x r' => if is_chr 43 x || is_chr 45 x then read_digits (String c (String x "")) r'
                         else read_digits (String c "") r
        | EmptyString => None
        end
      else Some ("", s)
  | EmptyString => Some ("", s)
  end.

(** The longest number at the head of a text; [None] if it ends too early. *)
Definition read_number (s : string) : option (string * string) :=
  let '(sign, s) := match s with
                    | String c r => if is_chr 45 c then (String c "", r) else ("", s)
                    | EmptyString => ("", s)
                    end in
  i ← read_int s;
  f ← read_frac i.2;
  e ← read_exp f.2;
  Some (sign +:+ i.1 +:+ f.1 +:+ e.1, e.2).

(** ** Tokens *)

Inductive token : Type :=
  | TOpenArr | TCloseArr | TOpenObj | TCloseObj | TColon | TComma
  | TStr (s : string)
  | TAtom (j : json)      (** a number, true, false or null *)
  | TBad.                 (** an error *)

Fixpoint strip_prefix (p s : string) : option string :=
  match p, s with
  | EmptyString, _ => Some s
  | String a p, String c s => if ascii_dec a c then strip_prefix p s else None
  | _, EmptyString => None
  end.

Definition lex_token (s : string) : option (token * string) :=
  match s with
  | EmptyString => None
  | String c r =>
      if is_chr 91 c then Some (TOpenArr, r)
      else if is_chr 93 c then Some (TCloseArr, r)
      else if is_chr 123 c then Some (TOpenObj, r)
      else if is_chr 125 c then Some (TCloseObj, r)
      else if is_chr 58 c then Some (TColon, r)
      else if is_chr 44 c then Some (TComma, r)
      else if is_chr 34 c then p ← string_body r; Some (TStr (unescape (coerceUTF8 p.1)), p.2)
      else if is_chr 116 c then r ← strip_prefix "rue" r; Some (TAtom (JBool true), r)
      else if is_chr 102 c then r ← strip_prefix "alse" r; Some (TAtom (JBool false), r)
      else if is_chr 110 c then r ← strip_prefix "ull" r; Some (TAtom JNull, r)
      else p ← read_number s; Some (TAtom (JNum p.1), p.2)
  end.

(** Every token takes at least one byte: the length of the text is enough fuel. *)
Fixpoint lex_from (fuel : nat) (s : string) : list token :=
  match fuel, s with
  | S fuel, String c r =>
      if is_space c then lex_from fuel r
      else match lex_token s with
           | Some (t, r) => t :: lex_from fuel r
           | None => [TBad]
           end
  | _, _ => []
  end.

Definition lex (s : string) : list token := lex_from (String.length s) s.

(** ** The stack machine *)

Definition maxNestingDepth : nat := 10000.

Inductive frame : Type :=
  | FArr (l : list json)
  | FObj (m : list (string * json)) (key : string).

(** What may come next; [MFirst] right after an opening bracket. *)
Inductive mode : Type := MValue | MFirst | MKey | MFirstKey | MColon | MAfter.

(** A value is complete: the state after it, or a value of the stream. *)
Definition deliver (j : json) (st : list frame) : json + (list frame * mode) :=
  match st with
  | [] => inl j
  | FArr l :: st => inr (FArr (l ++ [j]) :: st, MAfter)
  | FObj m key :: st => inr (FObj (m ++ [(key, j)]) key :: st, MAfter)
  end.

Definition open_frame (f : frame) (m : mode) (st : list frame)
    : option (json + (list frame * mode)) :=
  if (length st <? maxNestingDepth)%nat then Some (inr (f :: st, m)) else None.

Definition parse_token (st : list frame) (m : mode) (t : token)
    : option (json + (list frame * mode)) :=
  match m, t, st with
  | (MValue | MFirst), TOpenArr, _ => open_frame (FArr []) MFirst st
  | (MValue | MFirst), TOpenObj, _ => open_frame (FObj [] "") MFirstKey st
  | (MValue | MFirst), TStr s, _ => Some (deliver (JStr s) st)
  | (MValue | MFirst), TAtom j, _ => Some (deliver j st)
  | (MFirst | MAfter), TCloseArr, FArr l :: st => Some (deliver (JArr l) st)
  | (MFirstKey | MAfter), TCloseObj, FObj ms _ :: st => Some (deliver (JObj ms) st)
  | (MFirstKey | MKey), TStr s, FObj ms _ :: st => Some (inr (FObj ms s :: st, MColon))
  | MColon, TColon, _ => Some (inr (st, MValue))
  | MAfter, TComma, FArr _ :: _ => Some (inr (st, MValue))
  | MAfter, TComma, FObj _ _ :: _ => Some (inr (st, MKey))
  | _, _, _ => None
  end.

Fixpoint parse_tokens (st : list frame) (m : mode) (ts : list token) : decoder :=
  match ts with
  | [] => match st, m with [], MValue => [] | _, _ => [ScanSyntaxError] end
  | t :: ts =>
      match parse_token st m t with
      | None => [ScanSyntaxError]
      | Some (inl j) => ScanValue j :: parse_tokens [] MValue ts
      | Some (inr (st, m)) => parse_tokens st m ts
      end
  end.

(** What [json.NewDecoder] finds in a text. *)
Definition scan_text (s : string) : decoder := parse_tokens [] MValue (lex s).

(** ** The text of a tree *)

Fixpoint comma_sep (l : list string) : string :=
  match l with
  | [] => ""
  | [x] => x
  | x :: l => x +:+ "," +:+ comma_sep l
  end.

Fixpoint json_text (j : json) : string :=
  match j with
  | JNull => "null"
  | JBool true => "true"
  | JBool false => "false"
  | JNum s => s
  | JStr s => quote s
  | JArr l => "[" +:+ comma_sep (json_text <$> l) +:+ "]"
  | JObj m => "{" +:+ comma_sep ((λ kv, quote kv.1 +:+ ":" +:+ json_text kv.2) <$> m) +:+ "}"
  end.

(** [MessageString]; it panics as MustMessageBytes does. *)
Definition MessageString (msg : Message) : result string :=
  j ← MustMessageBytes msg; Ret (json_text j).

Example text_of_a_tree :
  scan_text " [1, -2.5e+3 ,{} , [true,null]]x" =
    [ScanValue (JArr [JNum "1"; JNum "-2.5e+3"; JObj []; JArr [JBool true; JNull]]); ScanSyntaxError].
Proof. by vm_compute. Qed.

(** ** Strings are read back *)

Lemma ascii_sweep (P : ascii → bool) : forallb P (map ascii_of_nat (seq 0 256)) = true → ∀ c, P c = true.
Proof.
  intros HP c. rewrite forallb_forall in HP. apply HP, in_map_iff. exists (nat_of_ascii c).
  split; [apply ascii_nat_embedding|]. apply in_seq. pose proof (nat_ascii_bounded c). lia.
Qed.

Lemma string_app_cons c (p t : string) : String c p +:+ t = String c (p +:+ t).
Proof. done. Qed.

Lemma string_length_app (p t : string) : String.length (p +:+ t) = (String.length p + String.length t)%nat.
Proof. induction p as [|c p IH]; [done|]. rewrite string_app_cons. simpl. by rewrite IH. Qed.

(** [rune p]: the bytes [p] are one character in UTF-8. *)
Definition rune (p : string) : Prop :=
  p ≠ "" ∧ ∀ t, rune_len (p +:+ t) = String.length p.

Inductive utf8 : string → Prop :=
  | utf8_nil : utf8 ""
  | utf8_rune p r : rune p → utf8 r → utf8 (p +:+ r).

Lemma coerce_skip p t : coerce_from (String.length p) (p +:+ t) = p +:+ coerce_from 0 t.
Proof. induction p as [|c p IH]; [done|]. rewrite !string_app_cons. cbn. by rewrite IH. Qed.

Lemma coerce_rune p t : rune p → coerceUTF8 (p +:+ t) = p +:+ coerceUTF8 t.
Proof.
  intros [Hp Hr]. specialize (Hr t). unfold coerceUTF8. destruct p as [|c p]; [done|].
  rewrite !string_app_cons in *. cbn [coerce_from]. rewrite Hr. cbn [String.length].
  by rewrite coerce_skip.
Qed.

Lemma rune_len_split s :
  rune_len s ≠ 0%nat → ∃ p t, s = p +:+ t ∧ rune p ∧ (String.length p ≤ 4)%nat.
Proof.
  destruct s as [|b0 r]; [done|]. unfold rune. cbn [rune_len]. destruct (in_range 0 127 b0) eqn:H0.
  { intros _. exists (String b0 ""), r. split_and!; [done|done| |simpl; lia]. intros t.
    rewrite !string_app_cons. cbn. by rewrite H0. }
  destruct r as [|b1 r]; [done|]. destruct (in_range 194 223 b0) eqn:H1.
  { destruct (is_cont b1) eqn:Hb1; [|done]. intros _. exists (String b0 (String b1 "")), r.
    split_and!; [done|done| |simpl; lia]. intros t. rewrite !string_app_cons. cbn. by rewrite H0, H1, Hb1. }
  destruct r as [|b2 r]; [done|]. destruct (in_range 224 239 b0) eqn:H2.
  { destruct (_ && is_cont b2) eqn:Hb2; [|done]. intros _. exists (String b0 (String b1 (String b2 ""))), r.
    split_and!; [done|done| |simpl; lia]. intros t. rewrite !string_app_cons. cbn. by rewrite H0, H1, H2, Hb2. }
  destruct r as [|b3 r]; [done|]. destruct (in_range 240 244 b0) eqn:H3; [|done].
  destruct (_ && is_cont b2 && is_cont b3) eqn:Hb3; [|done]. intros _.
  exists (String b0 (String b1 (String b2 (String b3 "")))), r.
  split_and!; [done|done| |simpl; lia]. intros t. rewrite !string_app_cons. cbn. by rewrite H0, H1, H2, H3, Hb3.
Qed.

Lemma coerce_length k s : (String.length s ≤ String.length (coerce_from k s))%nat.
Proof.
  revert k. induction s as [|c s IH]; intros k; [done|]. cbn [coerce_from].
  destruct k as [|k]; [|simpl; specialize (IH k); lia].
  destruct (rune_len (String c s)) as [|k]; [|simpl; specialize (IH k); lia].
  specialize (IH 0%nat). rewrite string_length_app. simpl. lia.
Qed.

Lemma utf8_ok_utf8 s : utf8_ok s = true → utf8 s.
Proof.
  intros Hs%coerceUTF8_ok. remember (String.length s) as n eqn:Hn. revert s Hs Hn.
  induction (lt_wf n) as [n _ IH]. intros s Hs ->. destruct s as [|c s]; [constructor|].
  destruct (decide (rune_len (String c s) = 0%nat)) as [H0|H0].
  - unfold coerceUTF8 in Hs. cbn [coerce_from] in Hs. rewrite H0 in Hs.
    apply (f_equal String.length) in Hs. rewrite string_length_app in Hs.
    pose proof (coerce_length 0 s). simpl in Hs. lia.
  - destruct (rune_len_split _ H0) as (p & t & Heq & Hp & _). rewrite Heq in *. constructor; [done|].
    rewrite coerce_rune in Hs by done. apply (IH (String.length t)); [|by apply (inj (String.append p))|done].
    rewrite string_length_app. destruct Hp as [Hp _]. destruct p; [done|]. simpl. lia.
Qed.

(** The bytes [q] stand for [p] inside a string, whatever follows. *)
Record stands_for (q p : string) : Prop := {
  stands_body t : string_body (q +:+ t) = (r ← string_body t; Some (q +:+ r.1, r.2));
  stands_text t : unescape (q +:+ t) = p +:+ unescape t;
  stands_bytes t : coerceUTF8 (q +:+ t) = q +:+ coerceUTF8 t }.

Lemma rune_ascii c : code c <? 128 = true → rune (String c "").
Proof.
  intros Hc. split; [done|]. intros t. rewrite string_app_cons. cbn [rune_len].
  assert (in_range 0 127 c = true) as ->; [|done]. unfold in_range.
  apply N.ltb_lt in Hc. rewrite andb_true_iff, !N.leb_le. lia.
Qed.

Lemma coerce_ascii p t :
  string_forallb (λ c, code c <? 128) p = true → coerceUTF8 (p +:+ t) = p +:+ coerceUTF8 t.
Proof.
  induction p as [|c p IH]; [done|]. cbn [string_forallb]. intros [Hc Hp]%andb_true_intro_iff.
  change (String c p +:+ t) with (String c "" +:+ (p +:+ t)).
  rewrite coerce_rune by by apply rune_ascii. by rewrite IH.
Qed.

Lemma unescape_u h1 h2 h3 h4 r t :
  hex4 h1 h2 h3 h4 = Some r → is_high r || is_low r = false →
  unescape (String (chr 92) ("u" +:+ String h1 (String h2 (String h3 (String h4 t)))))
    = encode_rune r +:+ unescape t.
Proof.
  intros Hr [Hh Hl]%orb_false_iff.
  change ("u" +:+ ?x) with (String "u" x). cbn [unescape].
  change (is_chr 92 (chr 92)) with true. change (is_chr 117 "u") with true. cbv iota.
  rewrite Hr. cbn [from_option id]. rewrite Hh, Hl. by do 6 (destruct t as [|? t]; [done|]).
Qed.

Lemma body_u h1 h2 h3 h4 t :
  is_Some (hex4 h1 h2 h3 h4) →
  string_body (String (chr 92) ("u" +:+ String h1 (String h2 (String h3 (String h4 t)))))
    = (r ← string_body t;
       Some (String (chr 92) ("u" +:+ String h1 (String h2 (String h3 (String h4 r.1)))), r.2)).
Proof.
  intros [r Hr]. change ("u" +:+ ?x) with (String "u" x). cbn [string_body].
  change (is_chr 34 (chr 92)) with false. change (is_chr 92 (chr 92)) with true.
  change (is_chr 117 "u") with true. cbv iota. by rewrite Hr.
Qed.

Lemma stands_u h1 h2 h3 h4 r :
  hex4 h1 h2 h3 h4 = Some r → is_high r || is_low r = false →
  string_forallb (λ c, code c <? 128) (String h1 (String h2 (String h3 (String h4 "")))) = true →
  stands_for (String (chr 92) ("u" +:+ String h1 (String h2 (String h3 (String h4 ""))))) (encode_rune r).
Proof.
  intros Hr Hs Hasc. split; intros t.
  - by apply body_u.
  - by apply unescape_u.
  - by apply coerce_ascii.
Qed.

(** An escape of one letter. *)
Lemma stands_letter e c :
  bool_decide (code e ∈ [34; 92; 47; 98; 102; 110; 114; 116]) && (code e <? 128) && negb (is_chr 117 e) = true →
  simple_escape e = c → stands_for (String (chr 92) (String e "")) (String c "").
Proof.
  intros [[He Ha]%andb_true_intro_iff Hu]%andb_true_intro_iff Hc. apply negb_true_iff in Hu.
  split; intros t.
  - rewrite !string_app_cons. change ("" +:+ t) with t. cbn [string_body]. change (is_chr 34 (chr 92))
      with false.
    change (is_chr 92 (chr 92)) with true. cbv iota. rewrite Hu, He. by destruct (string_body t) as [[]|].
  - rewrite !string_app_cons. change ("" +:+ t) with t. cbn [unescape].
    change (is_chr 92 (chr 92)) with true. cbv iota. by rewrite Hu, Hc.
  - apply coerce_ascii. cbn. by rewrite Ha.
Qed.

(** A byte that is written as it is. *)
Definition plain (c : ascii) : bool := negb (is_chr 34 c || is_chr 92 c || (code c <? 32)).

Lemma plain_body c t :
  plain c = true → string_body (String c t) = (r ← string_body t; Some (String c r.1, r.2)).
Proof.
  intros Hc. apply negb_true_iff in Hc. apply orb_false_iff in Hc as [[H1 H2]%orb_false_iff H3].
  cbn [string_body]. by rewrite H1, H2, H3.
Qed.

Lemma plain_text c t : plain c = true → unescape (String c t) = String c (unescape t).
Proof.
  intros Hc. apply negb_true_iff in Hc. apply orb_false_iff in Hc as [[H1 H2]%orb_false_iff H3].
  cbn [unescape]. by rewrite H2.
Qed.

Lemma stands_plain p : rune p → string_forallb plain p = true → stands_for p p.
Proof.
  intros Hp Hplain. split.
  - clear Hp. induction p as [|c p IH]; intros t.
    { change ("" +:+ t) with t. by destruct (string_body t) as [[]|]. }
    cbn [string_forallb] in Hplain. apply andb_true_intro_iff in Hplain as [Hc Hp].
    rewrite string_app_cons, plain_body, IH by done. by destruct (string_body t) as [[]|].
  - clear Hp. induction p as [|c p IH]; intros t; [done|].
    cbn [string_forallb] in Hplain. apply andb_true_intro_iff in Hplain as [Hc Hp].
    by rewrite !string_app_cons, plain_text, IH.
  - intros t. by apply coerce_rune.
Qed.

Lemma is_chr_eq n c : is_chr n c = true → c = chr n.
Proof. unfold is_chr. intros <-%N.eqb_eq. unfold chr, code. by rewrite ascii_N_embedding. Qed.

(** The hexadecimal escape of an ASCII character. *)
Definition hex_escape_ok (c : ascii) : bool :=
  let hi := hex_digit (code c / 16) in
  let lo := hex_digit (code c mod 16) in
  bool_decide (hex4 "0" "0" hi lo = Some (code c)) && negb (is_high (code c) || is_low (code c)) &&
  string_forallb (λ c, code c <? 128) (String "0" (String "0" (String hi (String lo "")))) &&
  bool_decide (encode_rune (code c) = String c "").

Lemma hex_escapes c : code c <? 128 = true → hex_escape_ok c = true.
Proof.
  intros Hc. pose proof (ascii_sweep (λ c, negb (code c <? 128) || hex_escape_ok c)) as Hall.
  specialize (Hall ltac:(by vm_compute) c). cbv beta in Hall. by rewrite Hc in Hall.
Qed.

(** The escape of an ASCII character stands for it. *)
Lemma stands_escape_char c : code c <? 128 = true → stands_for (escape_char c) (String c "").
Proof.
  intros Hc. unfold escape_char.
  destruct (is_chr 34 c || is_chr 92 c) eqn:H1.
  { apply orb_true_iff in H1 as [H1|H1]; apply is_chr_eq in H1 as ->; by apply stands_letter. }
  destruct (is_chr 10 c) eqn:H2; [apply is_chr_eq in H2 as ->; by apply (stands_letter "n")|].
  destruct (is_chr 13 c) eqn:H3; [apply is_chr_eq in H3 as ->; by apply (stands_letter "r")|].
  destruct (is_chr 9 c) eqn:H4; [apply is_chr_eq in H4 as ->; by apply (stands_letter "t")|].
  destruct ((code c <? 32) || _ || _ || _) eqn:H5.
  - pose proof (hex_escapes c Hc) as Hx. unfold hex_escape_ok in Hx. split_andb.
    rewrite bool_decide_eq_true, negb_true_iff in *.
    match goal with H : encode_rune _ = _ |- _ => rewrite <- H end. by apply (stands_u "0" "0").
  - apply stands_plain; [by apply rune_ascii|]. cbn [string_forallb].
    apply orb_false_iff in H5 as [[[H5 _]%orb_false_iff _]%orb_false_iff _].
    unfold plain. by rewrite H1, H5.
Qed.

Lemma escape_cons c r : is_chr 226 c = false → escape (String c r) = escape_char c +:+ escape r.
Proof. intros Hc. cbn [escape]. rewrite Hc. by destruct r as [|c1 [|c2 r]]. Qed.

Lemma high_plain c : 128 <= code c → plain c = true ∧ escape_char c = String c "".
Proof.
  intros Hc. pose proof (ascii_sweep (λ c,
    (code c <? 128) || plain c && bool_decide (escape_char c = String c "")))
    as Hall. specialize (Hall ltac:(by vm_compute) c). cbv beta in Hall.
  apply N.ltb_ge in Hc. rewrite Hc in Hall. apply andb_true_intro_iff in Hall as [Hp He].
  by apply bool_decide_eq_true in He.
Qed.

(** A byte inside a character that is not its first. *)
Lemma escape_high c r : 128 <= code c → code c ≠ 226 → escape (String c r) = String c (escape r).
Proof.
  intros Hc Hn. rewrite escape_cons by by apply N.eqb_neq. by rewrite (proj2 (high_plain c Hc)).
Qed.

Lemma in_range_le lo hi c : in_range lo hi c = true ↔ lo <= code c <= hi.
Proof. unfold in_range. by rewrite andb_true_iff, !N.leb_le. Qed.

(** A character is one ASCII byte, or a first byte and continuation bytes; the
    line separators have three bytes, of which the first is 226. *)
Lemma rune_shape p :
  rune p →
  (∃ c, p = String c "" ∧ code c <? 128 = true) ∨
  (∃ b q, p = String b q ∧ 128 <= code b ∧ string_forallb is_cont q = true ∧
    (code b = 226 → ∃ b1 b2, q = String b1 (String b2 ""))).
Proof.
  intros [Hp Hr]. specialize (Hr ""). rewrite string_app_nil_r in Hr.
  destruct p as [|b0 p]; [done|]. cbn [rune_len String.length] in Hr.
  destruct (in_range 0 127 b0) eqn:H0.
  { injection Hr as Hr. destruct p; [|done]. left. exists b0. apply in_range_le in H0.
    split; [done|]. apply N.ltb_lt. lia. }
  assert (128 <= code b0) as Hb0.
  { destruct (N.lt_ge_cases (code b0) 128) as [Hlt|]; [|done].
    assert (in_range 0 127 b0 = true) as H1 by (apply in_range_le; lia). congruence. }
  right. exists b0, p. split; [done|]. split; [done|].
  destruct p as [|b1 p]; [done|]. destruct (in_range 194 223 b0) eqn:H1.
  { destruct (is_cont b1) eqn:Hb1; [|done]. injection Hr as Hr. destruct p; [|done].
    apply in_range_le in H1. cbn. rewrite Hb1. split; [done|lia]. }
  destruct p as [|b2 p]; [done|]. destruct (in_range 224 239 b0) eqn:H2.
  { destruct (_ && is_cont b2) eqn:Hb2; [|done]. injection Hr as Hr. destruct p; [|done].
    apply andb_true_intro_iff in Hb2 as [Hb1 Hb2]. split; [|intros _; by exists b1, b2]. cbn. rewrite Hb2.
    rewrite !andb_true_r. unfold is_cont. apply in_range_le. clear -Hb1.
    repeat case_match; apply in_range_le in Hb1; lia. }
  destruct p as [|b3 p]; [done|]. destruct (in_range 240 244 b0) eqn:H3; [|done].
  destruct (_ && is_cont b2 && is_cont b3) eqn:Hb3; [|done]. injection Hr as Hr. destruct p; [|done].
  apply in_range_le in H3. split_andb. cbn. split; [|lia].
  repeat (match goal with H : is_cont _ = true |- _ => rewrite H; clear H end). rewrite !andb_true_r.
  unfold is_cont. apply in_range_le.
  match goal with H : (if _ then _ else _) = true |- _ => rename H into Hb1 end. clear -Hb1.
  repeat case_match; apply in_range_le in Hb1; lia.
Qed.

Lemma escape_conts q r : string_forallb is_cont q = true → escape (q +:+ r) = q +:+ escape r.
Proof.
  induction q as [|c q IH]; [done|]. cbn [string_forallb]. intros [Hc%in_range_le Hq]%andb_true_intro_iff.
  rewrite !string_app_cons, escape_high by lia. by rewrite IH.
Qed.

Lemma plain_conts b q : 128 <= code b → string_forallb is_cont q = true →
  string_forallb plain (String b q) = true.
Proof.
  intros Hb Hq. cbn [string_forallb]. rewrite (proj1 (high_plain b Hb)). cbn [andb].
  induction q as [|c q IH]; [done|]. cbn [string_forallb] in *. apply andb_true_intro_iff in Hq as [Hc Hq].
  apply in_range_le in Hc. rewrite (proj1 (high_plain c ltac:(lia))). by apply IH.
Qed.

(** The escape of a line separator. *)
Lemma stands_separator c :
  is_chr 168 c || is_chr 169 c = true →
  stands_for (String (chr 92) ("u202" +:+ String (if is_chr 168 c then "8" else "9")%char ""))
    (String (chr 226) (String (chr 128) (String c ""))).
Proof.
  intros [H|H]%orb_true_iff; apply is_chr_eq in H as ->.
  - by apply (stands_u "2" "0" "2" "8" 8232).
  - by apply (stands_u "2" "0" "2" "9" 8233).
Qed.

Lemma escape_three c c1 c2 r :
  escape (String c (String c1 (String c2 r))) =
    if is_chr 226 c && is_chr 128 c1 && (is_chr 168 c2 || is_chr 169 c2) then
      String (chr 92) ("u202" +:+ String (if is_chr 168 c2 then "8"%char else "9"%char) (escape r))
    else escape_char c +:+ escape (String c1 (String c2 r)).
Proof. done. Qed.

Lemma escape_rune p : rune p → ∃ q, stands_for q p ∧ ∀ r, escape (p +:+ r) = q +:+ escape r.
Proof.
  intros Hp. destruct (rune_shape p Hp) as [(c & -> & Hc)|(b & q & -> & Hb & Hq & H226)].
  { exists (escape_char c). split; [by apply stands_escape_char|]. intros r. apply escape_cons.
    apply N.eqb_neq. apply N.ltb_lt in Hc. lia. }
  pose proof (stands_plain _ Hp (plain_conts b q Hb Hq)) as Hplain.
  destruct (decide (code b = 226)) as [Hb226|Hb226]; cycle 1.
  { exists (String b q). split; [done|]. intros r. rewrite !string_app_cons, escape_high by done.
    by rewrite escape_conts. }
  destruct (H226 Hb226) as (b1 & b2 & ->).
  assert (is_chr 226 b = true) as Hbt by by apply N.eqb_eq.
  destruct (is_chr 226 b && is_chr 128 b1 && (is_chr 168 b2 || is_chr 169 b2)) eqn:Hsep.
  - pose proof Hsep as Hsep'. apply andb_true_intro_iff in Hsep' as [[H0 H1]%andb_true_intro_iff H2].
    apply is_chr_eq in H0 as ->, H1 as ->.
    eexists. split; [by apply stands_separator|]. intros r. by rewrite !string_app_cons, escape_three, Hsep.
  - exists (String b (String b1 (String b2 ""))). split; [done|]. intros r.
    change (String b (String b1 (String b2 "")) +:+ r) with (String b (String b1 (String b2 r))).
    rewrite escape_three, Hsep, (proj2 (high_plain b Hb)).
    change (String b1 (String b2 r)) with (String b1 (String b2 "") +:+ r). rewrite escape_conts by done.
    done.
Qed.

(** What json.Marshal writes for a text in UTF-8 is read back. *)
Lemma escape_back s t :
  utf8 s →
  string_body (escape s +:+ quote_text +:+ t) = Some (escape s, t) ∧
  coerceUTF8 (escape s) = escape s ∧ unescape (escape s) = s.
Proof.
  induction 1 as [|p r Hp _ (IH1 & IH2 & IH3)]; [done|].
  destruct (escape_rune p Hp) as (q & [Hbody Htext Hbytes] & ->).
  split_and!.
  - by rewrite string_app_assoc, Hbody, IH1.
  - by rewrite Hbytes, IH2.
  - by rewrite Htext, IH3.
Qed.

(** ** Numbers are read back *)

Definition starts_with (p : ascii → bool) (s : string) : bool :=
  match s with EmptyString => false | String c _ => p c end.

Definition number_char (c : ascii) : bool := is_digit c || is_chr 46 c || is_chr 101 c || is_chr 69 c.

Abbreviation digits := (string_forallb is_digit).

Lemma skip_digits_split s : ∃ d, s = d +:+ skip_digits s ∧ digits d = true.
Proof.
  induction s as [|c s (d & Hs & Hd)]; [by exists ""|]. cbn [skip_digits].
  destruct (is_digit c) eqn:Hc; [|by exists ""]. exists (String c d). rewrite string_app_cons, <- Hs.
  split; [done|]. cbn. by rewrite Hc.
Qed.

Lemma skip_digits_all s : skip_digits s = "" → digits s = true.
Proof.
  intros Hs. destruct (skip_digits_split s) as (d & Heq & Hd). rewrite Hs, string_app_nil_r in Heq.
  by subst.
Qed.

Lemma span_digits_app d r :
  digits d = true → starts_with is_digit r = false → span_digits (d +:+ r) = (d, r).
Proof.
  intros Hd Hr. induction d as [|c d IH].
  - change ("" +:+ r) with r. destruct r as [|c r]; [done|]. cbn in *. by rewrite Hr.
  - cbn [string_forallb] in Hd. apply andb_true_intro_iff in Hd as [Hc Hd].
    rewrite string_app_cons. cbn [span_digits]. by rewrite Hc, IH.
Qed.

Lemma read_digits_app pre d r :
  digits d = true → d ≠ "" → starts_with is_digit r = false →
  read_digits pre (d +:+ r) = Some (pre +:+ d, r).
Proof. intros Hd Hne Hr. unfold read_digits. rewrite span_digits_app by done. by rewrite bool_decide_false. Qed.

(** The parts of a number. *)
Definition int_part (i : string) : Prop :=
  i = "0" ∨ ∃ c d, i = String c d ∧ is_chr 48 c = false ∧ digits i = true.
Definition frac_part (f : string) : Prop := f = "" ∨ ∃ d, f = "." +:+ d ∧ digits d = true ∧ d ≠ "".
Definition exp_part (e : string) : Prop :=
  e = "" ∨ ∃ c sign d, e = String c (sign +:+ d) ∧ is_chr 101 c || is_chr 69 c = true ∧
    (sign = "" ∨ sign = "+" ∨ sign = "-") ∧ digits d = true ∧ d ≠ "".

Lemma read_int_app i r : int_part i → starts_with is_digit r = false → read_int (i +:+ r) = Some (i, r).
Proof.
  intros [->|(c & d & -> & Hc & Hd)] Hr; [done|]. unfold read_int. rewrite string_app_cons at 1.
  rewrite Hc. pose proof Hd as Hd'. cbn [string_forallb] in Hd'.
  apply andb_true_intro_iff in Hd' as [Hd' _]. rewrite Hd'. by rewrite span_digits_app.
Qed.

Lemma read_frac_app f r :
  frac_part f → starts_with is_digit r = false → (f = "" → starts_with (is_chr 46) r = false) →
  read_frac (f +:+ r) = Some (f, r).
Proof.
  intros [->|(d & -> & Hd & Hne)] Hr Hdot.
  - change ("" +:+ r) with r. destruct r as [|c r]; [done|]. specialize (Hdot eq_refl). cbn in *.
    by rewrite Hdot.
  - rewrite string_app_assoc. change ("." +:+ ?x) with (String "." x). cbn [read_frac].
    change (is_chr 46 ".") with true. cbv iota. by rewrite read_digits_app.
Qed.

Lemma read_exp_app e r :
  exp_part e → starts_with is_digit r = false →
  (e = "" → starts_with (λ c, is_chr 101 c || is_chr 69 c) r = false) → read_exp (e +:+ r) = Some (e, r).
Proof.
  intros [->|(c & sign & d & -> & Hc & Hsign & Hd & Hne)] Hr Hexp.
  - change ("" +:+ r) with r. destruct r as [|c r]; [done|]. specialize (Hexp eq_refl). cbn in *.
    by rewrite Hexp.
  - rewrite string_app_cons, string_app_assoc. cbn [read_exp]. rewrite Hc.
    destruct Hsign as [->|[->| ->]].
    + change ("" +:+ ?x) with x. destruct d as [|x d]; [done|]. rewrite string_app_cons.
      assert (is_chr 43 x || is_chr 45 x = false) as ->.
      { cbn [string_forallb] in Hd. apply andb_true_intro_iff in Hd as [Hx%in_range_le _].
        unfold is_chr. apply orb_false_iff. rewrite !N.eqb_neq. lia. }
      rewrite <- string_app_cons. by rewrite read_digits_app.
    + change ("+" +:+ ?x) with (String "+" x). cbn. by rewrite read_digits_app.
    + change ("-" +:+ ?x) with (String "-" x). cbn. by rewrite read_digits_app.
Qed.

Lemma valid_exp s3 :
  match s3 with
  | EmptyString => true
  | String e (String x y as r) =>
      if (to_lower e =? "e")%char then
        if (x =? "+")%char || (x =? "-")%char then
          match y with
          | EmptyString => false
          | _ => bool_decide (skip_digits y = "")
          end
        else bool_decide (skip_digits r = "")
      else false
  | _ => false
  end = true → exp_part s3.
Proof.
  destruct s3 as [|e [|x y]]; [by left|done|]. destruct (to_lower e =? "e")%char eqn:He; [|done].
  assert (is_chr 101 e || is_chr 69 e = true) as He'.
  { pose proof (ascii_sweep (λ e, negb (to_lower e =? "e")%char || (is_chr 101 e || is_chr 69 e)))
      as Hall. specialize (Hall ltac:(by vm_compute) e). cbv beta in Hall. by rewrite He in Hall. }
  intros H. right. destruct ((x =? "+")%char || (x =? "-")%char) eqn:Hx.
  - destruct y as [|c y]; [done|]. apply bool_decide_eq_true, skip_digits_all in H.
    exists e, (String x ""), (String c y). split_and!; [done|done| |done|done].
    right. apply orb_true_iff in Hx as [Hx|Hx]; apply Ascii.eqb_eq in Hx as ->; [by left|by right].
  - apply bool_decide_eq_true, skip_digits_all in H. exists e, "", (String x y). split_and!; auto.
Qed.

Definition number_parts (s i f e : string) : Prop :=
  s = i +:+ f +:+ e ∧ starts_with is_digit i = true ∧ int_part i ∧ frac_part f ∧ exp_part e.

Lemma valid_frac s2 :
  exp_part (match s2 with
            | String "." (String d r) => if is_digit d then skip_digits r else s2
            | _ => s2
            end%char) →
  ∃ f e, s2 = f +:+ e ∧ frac_part f ∧ exp_part e.
Proof.
  destruct s2 as [|c r]; [by exists "", ""; repeat split; left|].
  destruct (ascii_dec c ".") as [->|Hc].
  - destruct r as [|d r]; [by intros He; exists "", "."; repeat split; [left|]|].
    destruct (is_digit d) eqn:Hd; [|by intros He; exists "", (String "." (String d r)); repeat split; [left|]].
    intros He. destruct (skip_digits_split r) as (ds & Hr & Hds).
    exists ("." +:+ String d ds), (skip_digits r). split_and!; [|right; exists (String d ds)|done].
    + rewrite Hr at 1. done.
    + cbn. by rewrite Hd, Hds.
  - intros He. exists "", (String c r). split_and!; [done|by left|].
    by destruct c as [[] [] [] [] [] [] [] []].
Qed.

Lemma valid_unsigned s1 :
  isValidNumber s1 = true → starts_with (is_chr 45) s1 = false → ∃ i f e, number_parts s1 i f e.
Proof.
  destruct s1 as [|c r]; [done|]. intros Hv Hc. cbn in Hc.
  assert (∃ s2, (c = "0"%char ∧ s2 = r ∨ is_chr 48 c = false ∧ is_digit c = true ∧ s2 = skip_digits r) ∧
    ∃ f e, s2 = f +:+ e ∧ frac_part f ∧ exp_part e) as (s2 & Hi & f & e & Hs2 & Hf & He).
  { unfold isValidNumber in Hv.
    replace (match String c r with String "-" r => r | _ => String c r end%char) with (String c r) in Hv
      by (by destruct c as [[] [] [] [] [] [] [] []]).
    destruct (c =? "0")%char eqn:H0; [|destruct (is_digit c) eqn:Hd; [|done]].
    - exists r. split; [left; by apply Ascii.eqb_eq in H0|]. by apply valid_frac, valid_exp.
    - exists (skip_digits r). split; [right|by apply valid_frac, valid_exp]. split; [|done].
      apply Ascii.eqb_neq in H0. destruct (is_chr 48 c) eqn:H48; [|done]. by apply is_chr_eq in H48. }
  destruct Hi as [[-> ->]|(H48 & Hd & ->)].
  - exists "0", f, e. rewrite Hs2. repeat split; [by left|done|done].
  - destruct (skip_digits_split r) as (ds & Hr & Hds). exists (String c ds), f, e.
    split; [by rewrite Hr, Hs2|]. split; [done|]. split; [|done]. right. exists c, ds.
    split_and!; [done|done|]. cbn. by rewrite Hd, Hds.
Qed.

(** The number ends where it should. *)
Definition number_end (r : string) : bool := negb (starts_with number_char r).

Lemma number_end_spec r :
  number_end r = true →
  starts_with is_digit r = false ∧ starts_with (is_chr 46) r = false ∧
  starts_with (λ c, is_chr 101 c || is_chr 69 c) r = false.
Proof.
  destruct r as [|c r]; [done|]. unfold number_end, number_char. cbn.
  rewrite negb_true_iff, !orb_false_iff. naive_solver.
Qed.

Lemma exp_end e r :
  exp_part e → number_end r = true →
  starts_with is_digit (e +:+ r) = false ∧ starts_with (is_chr 46) (e +:+ r) = false.
Proof.
  intros [->|(c & sign & d & -> & Hc & _)] (Hr1 & Hr2 & _)%number_end_spec; [done|].
  rewrite string_app_cons. cbn. apply orb_true_iff in Hc as [Hc|Hc]; by apply is_chr_eq in Hc as ->.
Qed.

Lemma frac_end f e r :
  frac_part f → exp_part e → number_end r = true → starts_with is_digit (f +:+ e +:+ r) = false.
Proof.
  intros [->|(d & -> & _)] He Hr; [|done]. exact (proj1 (exp_end e r He Hr)).
Qed.

Lemma read_unsigned i f e r :
  int_part i → frac_part f → exp_part e → number_end r = true →
  (p ← read_int (i +:+ f +:+ e +:+ r); q ← read_frac p.2; s ← read_exp q.2;
   Some (p.1 +:+ q.1 +:+ s.1, s.2)) = Some (i +:+ f +:+ e, r).
Proof.
  intros Hi Hf He Hr. pose proof (exp_end e r He Hr) as [He1 He2].
  rewrite read_int_app by (done || by apply frac_end). cbn [mbind option_bind fst snd].
  rewrite read_frac_app by done. cbn [mbind option_bind fst snd].
  rewrite read_exp_app; [done|done|by apply number_end_spec|by intros _; apply number_end_spec].
Qed.

(** A sign and an unsigned number. *)
Lemma valid_sign n :
  isValidNumber n = true →
  ∃ sign u, n = sign +:+ u ∧ isValidNumber u = true ∧ starts_with (is_chr 45) u = false ∧
    (sign = "" ∨ sign = "-").
Proof.
  intros Hv. destruct n as [|c n]; [done|]. destruct (is_chr 45 c) eqn:Hc; cycle 1.
  { exists "", (String c n). split_and!; [done|done|done|by left]. }
  apply is_chr_eq in Hc as ->. exists "-", n.
  assert (starts_with (is_chr 45) n = false) as Hn.
  { destruct n as [|d n]; [done|]. cbn. destruct (is_chr 45 d) eqn:Hd; [|done].
    by apply is_chr_eq in Hd as ->. }
  split_and!; [done| |done|by right]. revert Hv. unfold isValidNumber. destruct n as [|d n]; [done|].
  cbn in Hn. by destruct d as [[] [] [] [] [] [] [] []].
Qed.

Lemma read_number_app n r : isValidNumber n = true → number_end r = true → read_number (n +:+ r) = Some (n, r).
Proof.
  intros Hv Hr. destruct (valid_sign n Hv) as (sign & u & -> & Hu & Hm & Hsign).
  destruct (valid_unsigned u Hu Hm) as (i & f & e & -> & Hi0 & Hi & Hf & He).
  pose proof (read_unsigned i f e r Hi Hf He Hr) as Hread. rewrite !string_app_assoc.
  assert (read_number (sign +:+ i +:+ f +:+ e +:+ r) =
    (p ← read_int (i +:+ f +:+ e +:+ r); q ← read_frac p.2; s ← read_exp q.2;
     Some (sign +:+ p.1 +:+ q.1 +:+ s.1, s.2))) as ->.
  { unfold read_number. destruct Hsign as [->| ->]; [|done].
    change ("" +:+ i +:+ f +:+ e +:+ r) with (i +:+ f +:+ e +:+ r).
    destruct i as [|c i]; [done|]. rewrite string_app_cons. rewrite string_app_cons in Hm. cbn in Hm.
    by rewrite Hm. }
  revert Hread. destruct (read_int _) as [p|]; [|done]. cbn [mbind option_bind].
  destruct (read_frac p.2) as [q|]; [|done]. cbn [mbind option_bind].
  destruct (read_exp q.2) as [s|]; [|done]. cbn [mbind option_bind]. by intros [= -> ->].
Qed.

(** ** The lexer *)

Abbreviation size := String.length.

Lemma span_digits_size s : (size (span_digits s).2 ≤ size s)%nat.
Proof.
  induction s as [|c s IH]; [done|]. cbn. destruct (is_digit c); [|done].
  destruct (span_digits s). simpl in *. lia.
Qed.

Lemma read_digits_size pre s p : read_digits pre s = Some p → (size p.2 ≤ size s)%nat.
Proof.
  unfold read_digits. pose proof (span_digits_size s). destruct (span_digits s) as [d r].
  case_bool_decide; [done|]. by intros [= <-].
Qed.

Lemma read_int_size s p : read_int s = Some p → (size p.2 < size s)%nat.
Proof.
  destruct s as [|c s]; [done|]. cbn [read_int]. destruct (is_chr 48 c); [intros [= <-]; simpl; lia|].
  destruct (is_digit c) eqn:Hc; [|done]. cbn [span_digits]. rewrite Hc.
  pose proof (span_digits_size s). destruct (span_digits s). intros [= <-]. simpl in *. lia.
Qed.

Lemma read_frac_size s p : read_frac s = Some p → (size p.2 ≤ size s)%nat.
Proof.
  destruct s as [|c s]; [by intros [= <-]|]. cbn [read_frac]. destruct (is_chr 46 c); [|by intros [= <-]].
  intros Hp%read_digits_size. simpl. lia.
Qed.

Lemma read_exp_size s p : read_exp s = Some p → (size p.2 ≤ size s)%nat.
Proof.
  destruct s as [|c s]; [by intros [= <-]|]. cbn [read_exp].
  destruct (is_chr 101 c || is_chr 69 c); [|by intros [= <-]]. destruct s as [|x s]; [done|].
  destruct (is_chr 43 x || is_chr 45 x); intros Hp%read_digits_size; simpl in *; lia.
Qed.

Lemma read_number_size s p : read_number s = Some p → (size p.2 < size s)%nat.
Proof.
  unfold read_number.
  assert (∀ sign u, (size u ≤ size s)%nat →
    (i ← read_int u; f ← read_frac i.2; e ← read_exp f.2; Some (sign +:+ i.1 +:+ f.1 +:+ e.1, e.2)) = Some p →
    (size p.2 < size s)%nat) as Hu.
  { intros sign u Hu (i & Hi%read_int_size & (f & Hf%read_frac_size & (e & He%read_exp_size & [= <-])
      %bind_Some)%bind_Some)%bind_Some. simpl. lia. }
  destruct s as [|c s]; [by apply Hu|]. destruct (is_chr 45 c); apply Hu; simpl; lia.
Qed.

Lemma string_body_size s p : string_body s = Some p → (size p.2 < size s)%nat.
Proof.
  revert p. remember (size s) as n eqn:Hn. revert s Hn. induction (lt_wf n) as [n _ IH]. intros s -> p.
  assert (∀ t q, (size t < size s)%nat → string_body t = Some q → (size q.2 < size s)%nat) as Hrec.
  { intros t q Ht Hq. pose proof (IH (size t) Ht t eq_refl q Hq). lia. }
  destruct s as [|c s]; [done|]. cbn [string_body].
  destruct (is_chr 34 c); [intros [= <-]; simpl; lia|].
  destruct (is_chr 92 c); cycle 1.
  { destruct (code c <? 32); [done|]. intros (q & Hq & [= <-])%bind_Some. apply (Hrec s q); [simpl; lia|done]. }
  destruct s as [|e s]; [done|]. destruct (is_chr 117 e); cycle 1.
  { destruct (bool_decide _); [|done]. intros (q & Hq & [= <-])%bind_Some. apply (Hrec s q); [simpl;
      lia|done]. }
  destruct s as [|h1 [|h2 [|h3 [|h4 s]]]]; try done.
  intros (v & _ & (q & Hq & [= <-])%bind_Some)%bind_Some. apply (Hrec s q); [simpl; lia|done].
Qed.

Lemma strip_prefix_size p s r : strip_prefix p s = Some r → (size r ≤ size s)%nat.
Proof.
  revert s. induction p as [|a p IH]; intros s; [by intros [= <-]|]. destruct s as [|c s]; [done|].
  cbn. destruct (ascii_dec a c); [|done]. intros Hr%IH. lia.
Qed.

Lemma lex_token_size s t r : lex_token s = Some (t, r) → (size r < size s)%nat.
Proof.
  destruct s as [|c s]; [done|]. cbn [lex_token].
  repeat match goal with
  | |- (if is_chr _ c then Some _ else _) = _ → _ =>
      destruct (is_chr _ c); [intros [= <- <-]; simpl; lia|]
  end.
  destruct (is_chr 34 c).
  { intros (q & Hq%string_body_size & [= <- <-])%bind_Some. simpl. lia. }
  repeat match goal with
  | |- (if is_chr _ c then _ else _) = _ → _ =>
      destruct (is_chr _ c); [intros (q & Hq%strip_prefix_size & [= <- <-])%bind_Some; simpl; lia|]
  end.
  by intros (q & Hq%read_number_size & [= <- <-])%bind_Some.
Qed.

Lemma lex_from_enough f s : (size s ≤ f)%nat → lex_from f s = lex s.
Proof.
  unfold lex. remember (size s) as n eqn:Hn. revert f s Hn. induction (lt_wf n) as [n _ IH].
  intros f s -> Hf. destruct s as [|c s]; [by destruct f|]. destruct f as [|f]; [simpl in Hf; lia|].
  simpl in Hf. cbn [lex_from size]. destruct (is_space c).
  { apply (IH (size s)); simpl; lia. }
  destruct (lex_token (String c s)) as [[t r]|] eqn:Ht; [|done]. apply lex_token_size in Ht. simpl in Ht.
  f_equal. rewrite (IH (size r) ltac:(simpl; lia) f r) by lia.
  by rewrite (IH (size r) ltac:(simpl; lia) (size s) r) by lia.
Qed.

(** The lexer reads one token after the other. *)
Lemma lex_step s t r : starts_with is_space s = false → lex_token s = Some (t, r) → lex s = t :: lex r.
Proof.
  intros Hs Ht. destruct s as [|c s]; [done|]. cbn in Hs. unfold lex at 1. cbn [size lex_from].
  rewrite Hs, Ht. apply lex_token_size in Ht. rewrite lex_from_enough; [done|]. simpl in Ht. lia.
Qed.

Lemma lex_space c s : is_space c = true → lex (String c s) = lex s.
Proof. intros Hc. unfold lex at 1. cbn [size lex_from]. by rewrite Hc. Qed.

Lemma starts_with_app (P : ascii → bool) p r : p ≠ "" → starts_with P (p +:+ r) = starts_with P p.
Proof. by destruct p. Qed.

Lemma lex_quote s r : utf8_ok s = true → lex (quote s +:+ r) = TStr s :: lex r.
Proof.
  intros Hs%utf8_ok_utf8. apply lex_step; [done|]. unfold quote. rewrite !string_app_assoc.
  change (quote_text +:+ escape s +:+ quote_text +:+ r)
    with (String quote_char (escape s +:+ quote_text +:+ r)).
  cbn [lex_token]. change (is_chr 34 quote_char) with true. cbn -[string_body quote_text].
  destruct (escape_back s r Hs) as (-> & H2 & H3). cbn [mbind option_bind fst snd]. by rewrite H2, H3.
Qed.

(** The first character of a number starts no other token. *)
Lemma number_head n :
  isValidNumber n = true → ∃ c s, n = String c s ∧ is_digit c || is_chr 45 c = true.
Proof.
  intros Hv. destruct (valid_sign n Hv) as (sign & u & -> & Hu & Hm & [->| ->]); [|by eexists _, u].
  destruct (valid_unsigned u Hu Hm) as (i & f & e & -> & Hi0 & _). destruct i as [|c i]; [done|].
  exists c, (i +:+ f +:+ e). split; [done|]. cbn in Hi0. by rewrite Hi0.
Qed.

Lemma number_head_chars c :
  is_digit c || is_chr 45 c = true →
  is_space c = false ∧ is_chr 91 c = false ∧ is_chr 93 c = false ∧ is_chr 123 c = false ∧
  is_chr 125 c = false ∧ is_chr 58 c = false ∧ is_chr 44 c = false ∧ is_chr 34 c = false ∧
  is_chr 116 c = false ∧ is_chr 102 c = false ∧ is_chr 110 c = false.
Proof.
  intros Hc. pose proof (ascii_sweep (λ c, negb (is_digit c || is_chr 45 c) ||
    negb (is_space c || is_chr 91 c || is_chr 93 c || is_chr 123 c || is_chr 125 c || is_chr 58 c ||
      is_chr 44 c || is_chr 34 c || is_chr 116 c || is_chr 102 c || is_chr 110 c))
    ltac:(by vm_compute) c) as Hall.
  cbv beta in Hall. rewrite Hc in Hall. cbn [negb orb] in Hall. rewrite negb_true_iff, !orb_false_iff in Hall.
  tauto.
Qed.

Lemma lex_number n r : isValidNumber n = true → number_end r = true → lex (n +:+ r) = TAtom (JNum n) :: lex r.
Proof.
  intros Hv Hr. pose proof (read_number_app n r Hv Hr) as Hn.
  destruct (number_head n Hv) as (c & s & -> & Hc).
  destruct (number_head_chars c Hc) as (H0 & H1 & H2 & H3 & H4 & H5 & H6 & H7 & H8 & H9 & H10).
  apply lex_step; [done|]. rewrite string_app_cons in *. cbn [lex_token].
  by rewrite H1, H2, H3, H4, H5, H6, H7, H8, H9, H10, Hn.
Qed.

(** ** Trees are read back *)

(** A tree whose numbers are numbers and whose texts are UTF-8. *)
Fixpoint json_ok (j : json) : Prop :=
  match j with
  | JNull | JBool _ => True
  | JNum s => isValidNumber s = true
  | JStr s => utf8_ok s = true
  | JArr l => list_all json_ok l
  | JObj m => list_all (λ kv, utf8_ok kv.1 = true ∧ json_ok kv.2) m
  end.

Fixpoint json_depth (j : json) : nat :=
  match j with
  | JArr l => S (list_max (json_depth <$> l))
  | JObj m => S (list_max ((λ kv, json_depth kv.2) <$> m))
  | _ => 0
  end%nat.

Definition parse_text (st : list frame) (m : mode) (s : string) : decoder := parse_tokens st m (lex s).

(** What follows a complete value. *)
Definition delivered (j : json) (st : list frame) (rest : string) : decoder :=
  match deliver j st with
  | inl j => ScanValue j :: scan_text rest
  | inr (st, m) => parse_text st m rest
  end.

Definition value_mode (m : mode) : Prop := m = MValue ∨ m = MFirst.

(** The tree is read back wherever a value may stand. *)
Definition reads_back (j : json) : Prop := ∀ st m rest,
  value_mode m → (length st + json_depth j ≤ maxNestingDepth)%nat →
  (∀ s, j = JNum s → number_end rest = true) →
  parse_text st m (json_text j +:+ rest) = delivered j st rest.

Lemma parse_delivers j t st m s rest :
  value_mode m → lex s = t :: lex rest → t = TAtom j ∨ (∃ x, t = TStr x ∧ j = JStr x) →
  parse_text st m s = delivered j st rest.
Proof.
  intros Hm Hs Ht. unfold parse_text. rewrite Hs. unfold delivered. cbn [parse_tokens].
  replace (parse_token st m t) with (Some (deliver j st)).
  - by destruct (deliver j st) as [|[]].
  - destruct Ht as [->|(x & -> & ->)], Hm as [->| ->]; done.
Qed.

(** One token of the text. *)
Lemma parse_step st m s t rest :
  starts_with is_space s = false → lex_token s = Some (t, rest) →
  parse_text st m s =
    match parse_token st m t with
    | None => [ScanSyntaxError]
    | Some (inl j) => ScanValue j :: scan_text rest
    | Some (inr (st, m)) => parse_text st m rest
    end.
Proof. intros Hs Ht. unfold parse_text. by rewrite (lex_step _ _ _ Hs Ht). Qed.

Lemma parse_close st m s t rest j :
  starts_with is_space s = false → lex_token s = Some (t, rest) →
  parse_token st m t = Some (deliver j (tail st)) → parse_text st m s = delivered j (tail st) rest.
Proof.
  intros Hs Ht Hp. rewrite (parse_step _ _ _ _ _ Hs Ht), Hp. unfold delivered.
  by destruct (deliver j _) as [|[]].
Qed.

Definition fits (st : list frame) (j : json) : Prop :=
  reads_back j ∧ (S (length st) + json_depth j ≤ maxNestingDepth)%nat.

Lemma items_read_back l st acc m rest :
  l ≠ [] → Forall (fits st) l → value_mode m →
  parse_text (FArr acc :: st) m (comma_sep (json_text <$> l) +:+ "]" +:+ rest) =
    delivered (JArr (acc ++ l)) st rest.
Proof.
  intros Hne Hl. revert acc m Hne. induction Hl as [|j l [Hj Hd] Hl IH]; intros acc m Hne Hm; [done|].
  rewrite fmap_cons. destruct l as [|j' l].
  - cbn [fmap list_fmap comma_sep]. rewrite Hj by done. unfold delivered at 1. cbn [deliver].
    by rewrite (parse_close _ _ _ TCloseArr rest (JArr (acc ++ [j]))).
  - change (comma_sep (json_text j :: (json_text <$> j' :: l)))
      with (json_text j +:+ "," +:+ comma_sep (json_text <$> j' :: l)).
    rewrite !string_app_assoc, Hj by done. unfold delivered at 1. cbn [deliver].
    rewrite (parse_step _ _ _ TComma (comma_sep (json_text <$> j' :: l) +:+ "]" +:+ rest)) by done.
    cbn [parse_token]. rewrite IH by (done || by left). by rewrite <- app_assoc.
Qed.

Definition member_text (kv : string * json) : string := quote kv.1 +:+ ":" +:+ json_text kv.2.

Lemma member_reads_back kv st acc key m rest :
  m = MFirstKey ∨ m = MKey → utf8_ok kv.1 = true → fits st kv.2 →
  (∀ s, kv.2 = JNum s → number_end rest = true) →
  parse_text (FObj acc key :: st) m (member_text kv +:+ rest) =
    parse_text (FObj (acc ++ [kv]) kv.1 :: st) MAfter rest.
Proof.
  intros Hm Hk [Hj Hd] Hrest. destruct kv as [k j]. unfold member_text. cbn [fst snd] in *.
  rewrite !string_app_assoc. unfold parse_text at 1. rewrite lex_quote by done. cbn [parse_tokens].
  assert (parse_token (FObj acc key :: st) m (TStr k) = Some (inr (FObj acc k :: st, MColon))) as ->
    by (by destruct Hm as [->| ->]).
  fold (parse_text (FObj acc k :: st) MColon (":" +:+ json_text j +:+ rest)).
  rewrite (parse_step _ _ _ TColon (json_text j +:+ rest)) by done. cbn [parse_token].
  by rewrite Hj by (done || by left).
Qed.

Lemma members_read_back ms st acc key m rest :
  ms ≠ [] → Forall (λ kv : string * json, utf8_ok kv.1 = true ∧ fits st kv.2) ms →
  m = MFirstKey ∨ m = MKey →
  parse_text (FObj acc key :: st) m (comma_sep (member_text <$> ms) +:+ "}" +:+ rest) =
    delivered (JObj (acc ++ ms)) st rest.
Proof.
  intros Hne Hl. revert acc key m Hne. induction Hl as [|kv ms [Hk Hj] Hms IH]; intros acc key m Hne Hm;
    [done|].
  rewrite fmap_cons. destruct ms as [|kv' ms].
  - cbn [fmap list_fmap comma_sep]. rewrite member_reads_back by done.
    by rewrite (parse_close _ _ _ TCloseObj rest (JObj (acc ++ [kv]))).
  - change (comma_sep (member_text kv :: (member_text <$> kv' :: ms)))
      with (member_text kv +:+ "," +:+ comma_sep (member_text <$> kv' :: ms)).
    rewrite !string_app_assoc, member_reads_back by done.
    rewrite (parse_step _ _ _ TComma (comma_sep (member_text <$> kv' :: ms) +:+ "}" +:+ rest)) by done.
    cbn [parse_token]. rewrite IH by (done || by right). by rewrite <- app_assoc.
Qed.

Lemma depth_fits {A} (d : A → nat) (P : A → Prop) (Q : A → Prop) n (l : list A) :
  Forall (λ x, Q x → P x) l → Forall Q l → (S (list_max (d <$> l)) ≤ n)%nat →
  Forall (λ x, Q x ∧ P x ∧ (S (d x) ≤ n)%nat) l.
Proof.
  intros HP HQ Hd. assert (Forall (λ x, (S (d x) ≤ n)%nat) l) as Hl.
  { assert (list_max (d <$> l) ≤ pred n)%nat as Hm by lia. apply list_max_le, Forall_fmap in Hm.
    eapply Forall_impl; [exact Hm|]. simpl. lia. }
  rewrite Forall_forall in *. naive_solver.
Qed.

Lemma tree_reads_back j : json_ok j → reads_back j.
Proof.
  induction j as [|b|s|s|l IH|ms IH] using json_ind; cbn [json_ok]; intros Hok st m rest Hm Hd Hn;
    cbn [json_depth] in Hd.
  - eapply parse_delivers; [done|by apply lex_step|by left].
  - destruct b; (eapply parse_delivers; [done|by apply lex_step|by left]).
  - eapply parse_delivers; [done|apply lex_number; [done|by eapply Hn]|by left].
  - eapply parse_delivers; [done|by apply lex_quote|]. right. by exists s.
  - cbn [json_text]. rewrite !string_app_assoc.
    rewrite (parse_step _ _ _ TOpenArr (comma_sep (json_text <$> l) +:+ "]" +:+ rest)) by done.
    assert (parse_token st m TOpenArr = Some (inr (FArr [] :: st, MFirst))) as ->.
    { destruct Hm as [->| ->]; cbn [parse_token]; unfold open_frame;
        rewrite (proj2 (Nat.ltb_lt _ _)) by lia; done. }
    destruct l as [|j l]; [by apply (parse_close (FArr [] :: st) _ _ TCloseArr)|].
    rewrite items_read_back; [done|done| |by right]. apply list_all_Forall in Hok.
    eapply Forall_impl; [apply (depth_fits json_depth reads_back json_ok (maxNestingDepth - length st));
      [done..|lia]|].
    simpl. intros x (_ & Hx & Hdx). split; [done|]. lia.
  - cbn [json_text]. rewrite !string_app_assoc. fold member_text.
    rewrite (parse_step _ _ _ TOpenObj (comma_sep (member_text <$> ms) +:+ "}" +:+ rest)) by done.
    assert (parse_token st m TOpenObj = Some (inr (FObj [] "" :: st, MFirstKey))) as ->.
    { destruct Hm as [->| ->]; cbn [parse_token]; unfold open_frame;
        rewrite (proj2 (Nat.ltb_lt _ _)) by lia; done. }
    destruct ms as [|kv ms]; [by apply (parse_close (FObj [] "" :: st) _ _ TCloseObj)|].
    rewrite members_read_back; [done|done| |by left]. apply list_all_Forall in Hok.
    eapply Forall_impl;
      [apply (depth_fits (λ kv, json_depth kv.2) (λ kv : string * json, reads_back kv.2)
         (λ kv, utf8_ok kv.1 = true ∧ json_ok kv.2) (maxNestingDepth - length st)); [|done|lia]|].
    + eapply Forall_impl; [exact IH|]. simpl. tauto.
    + simpl. intros x ([Hk _] & Hx & Hdx). split; [done|]. split; [done|]. lia.
Qed.

(** A value at the head of a text, followed by any other. *)
Lemma scan_json_text j rest :
  json_ok j → (json_depth j ≤ maxNestingDepth)%nat → (∀ s, j = JNum s → number_end rest = true) →
  scan_text (json_text j +:+ rest) = ScanValue j :: scan_text rest.
Proof. intros Hj Hd Hr. apply (tree_reads_back j Hj [] MValue rest); [by left|done|done]. Qed.
