(* ===== verification/WireText.v ===== *)
(** * Messages as bytes

    Everything json.Marshal writes is JSON ([Marshal_ok]), floats included, so a
    decoder reads back the text of every message, alone or in a stream.
    The round trip of Parse.v therefore holds for bytes. *)

From Stdlib Require Import Ascii SpecFloat.
From S2P Require Import Prelude GoMap Strconv Values Messages Parse JsonText.
From stdpp Require Import options.
#[local] Open Scope Z_scope.

(** ** Texts that json.Marshal writes are UTF-8 *)

Lemma replacement_rune : rune replacement.
Proof. split; [done|]. intros t. done. Qed.

Lemma coerce_utf8 s : utf8 (coerceUTF8 s).
Proof.
  remember (String.length s) as n eqn:Hn. revert s Hn. induction (lt_wf n) as [n _ IH]. intros s ->.
  destruct s as [|c s]; [constructor|].
  destruct (decide (rune_len (String c s) = 0%nat)) as [H0|H0].
  - unfold coerceUTF8. cbn [coerce_from]. rewrite H0. constructor; [apply replacement_rune|].
    apply (IH (String.length s)); [simpl; lia|done].
  - destruct (rune_len_split _ H0) as (p & t & Heq & Hp & _). rewrite Heq in *.
    rewrite coerce_rune by done. constructor; [done|]. apply (IH (String.length t)); [|done].
    rewrite string_length_app. destruct Hp as [Hp _]. destruct p; [done|]. simpl. lia.
Qed.

Lemma utf8_utf8_ok s : utf8 s → utf8_ok s = true.
Proof.
  intros Hs. apply bool_decide_eq_true. induction Hs as [|p r Hp _ IH]; [done|]. by rewrite coerce_rune, IH.
Qed.

Lemma utf8_ok_coerce s : utf8_ok (coerceUTF8 s) = true.
Proof. apply utf8_utf8_ok, coerce_utf8. Qed.

(** ** Numbers that json.Marshal writes are JSON numbers *)

Lemma skip_digits_app d r :
  digits d = true → starts_with is_digit r = false → skip_digits (d +:+ r) = r.
Proof.
  intros Hd Hr. induction d as [|c d IH].
  - change ("" +:+ r) with r. destruct r as [|c r]; [done|]. cbn in *. by rewrite Hr.
  - cbn [string_forallb] in Hd. apply andb_true_intro_iff in Hd as [Hc Hd].
    rewrite string_app_cons. cbn [skip_digits]. by rewrite Hc, IH.
Qed.

Lemma skip_digits_nil d : digits d = true → skip_digits d = "".
Proof. intros Hd. rewrite <- (string_app_nil_r d) at 1. by apply skip_digits_app. Qed.

Lemma digit_head x y : digits (String x y) = true → is_digit x = true ∧ digits y = true.
Proof. cbn [string_forallb]. apply andb_true_intro_iff. Qed.

(** The exponent test of isValidNumber, the converse of [valid_exp]. *)
Lemma exp_valid s3 :
  exp_part s3 →
  match s3 with
  | EmptyString => true
  | String e (String x y as r) =>
      if (to_lower e =? "e")%char then
        if (x =? "+")%char || (x =? "-")%char then
          match y with
          | EmptyString => false
          | _ => bool_decide (skip_digits y = "")
          end
        else bool_decide (skip_digits r = "")
      else false
  | _ => false
  end = true.
Proof.
  intros [->|(c & sign & d & -> & Hc & Hsign & Hd & Hne)]; [done|].
  assert ((to_lower c =? "e")%char = true) as Hlow
    by (apply orb_true_iff in Hc as [Hc|Hc]; by apply is_chr_eq in Hc as ->).
  pose proof (skip_digits_nil d Hd) as Hnil. destruct d as [|x y]; [done|].
  destruct Hsign as [->|[->| ->]].
  - change ("" +:+ String x y) with (String x y). rewrite Hlow, Hnil.
    pose proof (proj1 (digit_head _ _ Hd)) as Hx.
    assert ((x =? "+")%char || (x =? "-")%char = false) as ->; [|done].
    apply orb_false_iff. split; apply Ascii.eqb_neq; by intros ->.
  - change ("+" +:+ String x y) with (String "+" (String x y)). by rewrite Hlow, Hnil.
  - change ("-" +:+ String x y) with (String "-" (String x y)). by rewrite Hlow, Hnil.
Qed.

(** The fraction test, the converse of [valid_frac]. *)
Lemma frac_valid f e :
  frac_part f → exp_part e →
  match f +:+ e with
  | String "." (String d r) => if is_digit d then skip_digits r else f +:+ e
  | _ => f +:+ e
  end%char = e.
Proof.
  intros Hf He. pose proof (exp_end e "" He eq_refl) as [Hd _]. rewrite string_app_nil_r in Hd.
  destruct Hf as [->|(d & -> & Hdd & Hne)].
  - change ("" +:+ e) with e. destruct He as [->|(c & sign & d & -> & Hc & _)]; [done|].
    apply orb_true_iff in Hc as [Hc|Hc]; by apply is_chr_eq in Hc as ->.
  - destruct d as [|x d]; [done|]. apply digit_head in Hdd as [Hx Hdd].
    change (("." +:+ String x d) +:+ e) with (String "." (String x (d +:+ e))).
    cbv beta iota. by rewrite Hx, skip_digits_app.
Qed.

Lemma parts_valid sign i f e :
  sign = "" ∨ sign = "-" → int_part i → frac_part f → exp_part e →
  isValidNumber (sign +:+ i +:+ f +:+ e) = true.
Proof.
  intros Hsign Hi Hf He. pose proof (frac_end f e "" Hf He eq_refl) as Hend.
  rewrite string_app_nil_r in Hend.
  assert (isValidNumber (i +:+ f +:+ e) = true ∧ isValidNumber ("-" +:+ i +:+ f +:+ e) = true) as [H1 H2];
    [|by destruct Hsign as [->| ->]].
  destruct Hi as [->|(c & d & -> & H48 & Hd)].
  - unfold isValidNumber.
    change ("-" +:+ "0" +:+ f +:+ e) with (String "-" (String "0" (f +:+ e))).
    change ("0" +:+ f +:+ e) with (String "0" (f +:+ e)). cbv beta iota zeta.
    change (("0" =? "0")%char) with true. cbv iota. rewrite frac_valid by done.
    split; by apply exp_valid.
  - pose proof (digit_head _ _ Hd) as [Hc Hd']. unfold isValidNumber. rewrite !string_app_cons.
    change ("" +:+ String c (d +:+ f +:+ e)) with (String c (d +:+ f +:+ e)).
    assert ((c =? "0")%char = false) as H0 by (apply Ascii.eqb_neq; by intros ->).
    assert (match String c (d +:+ f +:+ e) with String "-" r => r | _ => String c (d +:+ f +:+ e) end%char
      = String c (d +:+ f +:+ e)) as ->
      by (assert (c ≠ "-"%char) as Hm by (by intros ->); by destruct c as [[] [] [] [] [] [] [] []]).
    rewrite H0, Hc, skip_digits_app by done. cbv zeta. rewrite frac_valid by done.
    split; by apply exp_valid.
Qed.

Lemma pretty_N_char_zero x : (x < 10)%N → is_chr 48 (pretty_N_char x) = true → x = 0%N.
Proof.
  intros Hx Hc. destruct (pretty_N_char_digit x Hx) as [_ Hv]. apply is_chr_eq in Hc. rewrite Hc in Hv.
  change (0 = Z.of_N x) in Hv. lia.
Qed.

Lemma pretty_N_go_int x s :
  (0 < x)%N → ∃ c d, pretty_N_go x s = String c (d +:+ s) ∧ is_chr 48 c = false ∧ digits (String c d) = true.
Proof.
  revert s. induction (N.lt_wf_0 x) as [x _ IH]. intros s Hx. rewrite pretty_N_go_step by lia.
  assert (x mod 10 < 10)%N as Hm by by apply N.mod_lt.
  destruct (pretty_N_char_digit _ Hm) as [Hd _].
  destruct (decide (x `div` 10 = 0)%N) as [H0|H0].
  - rewrite H0, pretty_N_go_0. exists (pretty_N_char (x mod 10)), "". split; [done|].
    split; [|cbn [string_forallb]; by rewrite Hd].
    destruct (is_chr 48 _) eqn:Hc; [|done]. apply pretty_N_char_zero in Hc; [|done].
    pose proof (N.div_mod x 10 ltac:(done)). lia.
  - apply N.neq_0_lt_0 in H0.
    destruct (IH (x `div` 10)%N (N.div_lt x 10 ltac:(lia) ltac:(lia))
      (String (pretty_N_char (x mod 10)) s) H0) as (c & d & -> & Hc & Hcd).
    exists c, (d +:+ String (pretty_N_char (x mod 10)) ""). split; [by rewrite string_app_assoc|].
    split; [done|]. apply digit_head in Hcd as [Hc' Hd']. cbn [string_forallb]. rewrite Hc'. cbn [andb].
    clear -Hd Hd'. induction d as [|a d IH]; [cbn [string_forallb String.append]|].
    + change ("" +:+ ?t) with t. cbn [string_forallb]. by rewrite Hd.
    + apply digit_head in Hd' as [Ha Hd']. rewrite string_app_cons. cbn [string_forallb]. rewrite Ha.
      by apply IH.
Qed.

(** The text of an integer that is not negative. *)
Lemma Itoa_int z : 0 ≤ z → int_part (Itoa z) ∧ digits (Itoa z) = true ∧
  (0 < z → ∃ c d, Itoa z = String c d ∧ is_chr 48 c = false).
Proof.
  intros Hz. destruct z as [|p|p]; [by split; [left|]|..|lia].
  assert (Itoa (Zpos p) = pretty_N_go (Npos p) "") as -> by done.
  destruct (pretty_N_go_int (Npos p) "") as (c & d & -> & Hc & Hd); [lia|]. rewrite string_app_nil_r.
  split; [right; by exists c, d|]. split; [done|]. intros _. by exists c, d.
Qed.

Lemma Itoa_valid z : isValidNumber (Itoa z) = true.
Proof.
  rewrite <- (string_app_nil_r (Itoa z)). destruct (Z_le_gt_dec 0 z) as [Hz|Hz].
  - apply (parts_valid "" (Itoa z) "" ""); [by left|by apply Itoa_int|by left|by left].
  - destruct z as [|p|p]; [lia..|].
    change (Itoa (Zneg p)) with ("-" +:+ Itoa (Zpos p)). rewrite string_app_assoc.
    apply (parts_valid "-" (Itoa (Zpos p)) "" ""); [by right|by apply Itoa_int|by left|by left].
Qed.

(** *** Floats *)

Lemma try_digits_pos m e num den k n d :
  0 ≤ num → 0 < den → try_digits (S754_finite false m e) num den k n = Some d → 0 < d.
Proof.
  intros Hnum Hden. unfold try_digits. set (ex := k - n).
  set (a := if 0 <=? ex then num else num * 10 ^ - ex). set (b := if 0 <=? ex then den * 10 ^ ex else den).
  assert (0 ≤ a) as Ha by (unfold a; destruct (0 <=? ex); nia).
  assert (0 < b) as Hb.
  { unfold b. destruct (Z.leb_spec 0 ex); [|done]. pose proof (Z.pow_pos_nonneg 10 ex). nia. }
  assert (0 ≤ a / b) as Hd by (by apply Z.div_pos).
  assert (∀ x, 0 ≤ x → float_eqb (decimal_to_float false x ex n) (S754_finite false m e) = true →
    0 < x) as Hpos.
  { intros x Hx Heq. destruct (decide (x = 0)) as [->|]; [done|lia]. }
  destruct (float_eqb (decimal_to_float false (a / b) ex n) _) eqn:H1;
    destruct (float_eqb (decimal_to_float false (a / b + 1) ex n) _) eqn:H2; cbn [andb]; try done.
  - case_match; intros [= <-]; apply Hpos; (done || lia).
  - intros [= <-]. by apply Hpos.
  - intros [= <-]. apply Hpos; [lia|done].
Qed.

Lemma shortest_spec fuel m e num den k n d n' :
  0 ≤ num → 0 < den → shortest_from fuel (S754_finite false m e) num den k n = (d, n') →
  0 < d ∨ d = 0 ∧ n' = k.
Proof.
  intros Hnum Hden. revert n. induction fuel as [|fuel IH]; intros n; cbn [shortest_from].
  - intros [= <- <-]. assert (0 ≤ num / den) by (by apply Z.div_pos). lia.
  - destruct (try_digits _ _ _ _ n) as [x|] eqn:Hx; [|by apply IH]. intros [= <- <-]. left.
    by eapply try_digits_pos in Hx.
Qed.

Lemma strip_zeros_pos fuel d : 0 < d → 0 < strip_zeros fuel d.
Proof.
  revert d. induction fuel as [|fuel IH]; intros d Hd; [done|]. cbn [strip_zeros].
  destruct (d =? 0) eqn:H0; [done|]. destruct (d mod 10 =? 0) eqn:Hm; [|done]. apply IH.
  apply Z.eqb_eq in Hm. pose proof (Z.div_mod d 10 ltac:(done)). lia.
Qed.

Lemma digits_app a b : digits a = true → digits b = true → digits (a +:+ b) = true.
Proof.
  intros Ha Hb. induction a as [|c a IH]; [done|]. apply digit_head in Ha as [Hc Ha].
  rewrite string_app_cons. cbn [string_forallb]. rewrite Hc. by apply IH.
Qed.

Lemma digits_zeros n : digits (zeros n) = true.
Proof.
  unfold zeros. induction (Z.to_nat n) as [|m IH]; [done|]. cbn [replicate String.concat].
  destruct m as [|m]; [done|]. by apply digits_app.
Qed.

Lemma digits_substring n m s : digits s = true → digits (String.substring n m s) = true.
Proof.
  revert n m. induction s as [|c s IH]; intros n m Hs; [by destruct n, m|].
  apply digit_head in Hs as [Hc Hs]. destruct n as [|n]; [destruct m as [|m]; [done|]|by apply IH].
  cbn [String.substring string_forallb]. rewrite Hc. by apply IH.
Qed.

Lemma substring_nonempty n m s : (n < String.length s)%nat → String.substring n (S m) s ≠ "".
Proof.
  revert n. induction s as [|c s IH]; intros n Hn; [simpl in Hn; lia|]. destruct n as [|n]; [done|].
  apply IH. simpl in Hn. lia.
Qed.

Definition unsigned_number (s : string) : Prop :=
  ∃ i f e, s = i +:+ f +:+ e ∧ int_part i ∧ frac_part f ∧ exp_part e.

Lemma exponent_part x : exp_part (exponent_text x).
Proof.
  unfold exponent_text. right. destruct (Z.ltb_spec x 0) as [Hx|Hx].
  - destruct (Itoa_int (- x)) as (_ & Hd & Hpos); [lia|]. destruct (Hpos ltac:(lia)) as (c & d & Heq & _).
    exists "e"%char, "-", (Itoa (- x)). split_and!; [done|done|by right; right|done|by rewrite Heq].
  - destruct (Itoa_int x) as (_ & Hd & _); [lia|]. exists "e"%char, "+", (Itoa x).
    split_and!; [done|done|by right; left|done|]. destruct x as [|p|p]; [done| |lia].
    destruct (Itoa_int (Zpos p)) as (_ & _ & Hpos); [lia|].
    destruct (Hpos ltac:(lia)) as (c & d & -> & _). done.
Qed.

(** The layouts of a float's digits. *)
Lemma float_body z dp :
  0 < z ∨ z = 0 ∧ dp = 1 →
  let txt := Itoa z in
  let nd := Z.of_nat (String.length txt) in
  unsigned_number
    (if (dp <? -5) || (21 <? dp) then scientific_text txt (exponent_text (dp - 1)) else fixed_text txt dp).
Proof.
  intros Hz txt nd. unfold scientific_text, fixed_text. fold nd. destruct Hz as [Hz|[-> ->]]; [|by exists "0", "", ""; repeat split; left].
  destruct (Itoa_int z) as (Hint & Hdig & Hpos); [lia|]. destruct (Hpos Hz) as (c & r & Htxt & Hc).
  fold txt in Hint, Hdig, Htxt. pose proof Hdig as Hdig'. rewrite Htxt in Hdig'.
  pose proof (digit_head _ _ Hdig') as [Hc' Hr].
  destruct (_ || _); [|destruct (Z.leb_spec dp 0) as [Hdp|Hdp]; [|destruct (Z.leb_spec nd dp) as [Hnd|Hnd]]].
  - rewrite Htxt. exists (String c ""), (if bool_decide (r = "") then "" else "." +:+ r),
      (exponent_text (dp - 1)).
    split_and!; [done| | |apply exponent_part].
    + right. exists c, "". cbn. by rewrite Hc'.
    + case_bool_decide; [by left|right; by exists r].
  - exists "0", ("." +:+ zeros (- dp) +:+ txt), "". split_and!; [by rewrite string_app_nil_r|by left| |by left].
    right. exists (zeros (- dp) +:+ txt). split_and!; [done|apply digits_app; [apply digits_zeros|done]|].
    rewrite Htxt. by destruct (zeros (- dp)).
  - exists (txt +:+ zeros (dp - nd)), "", "". split_and!; [by rewrite string_app_nil_r| |by left|by left].
    right. rewrite Htxt. exists c, (r +:+ zeros (dp - nd)). split_and!; [done|done|].
    apply digits_app; [done|apply digits_zeros].
  - eexists (String.substring 0 (Z.to_nat dp) txt), ("." +:+ _), "".
    split_and!; [by rewrite string_app_nil_r| | |by left].
    + right. rewrite Htxt. replace (Z.to_nat dp) with (S (Z.to_nat (dp - 1))) by lia.
      exists c, (String.substring 0 (Z.to_nat (dp - 1)) r). split_and!; [done|done|].
      by apply (digits_substring 0 (S (Z.to_nat (dp - 1))) (String c r)).
    + right. eexists. split; [done|]. split; [by apply digits_substring|].
      replace (Z.to_nat (nd - dp)) with (S (Z.to_nat (nd - dp - 1))) by lia.
      apply substring_nonempty. unfold nd in Hnd. lia.
Qed.

Lemma FormatFloat_valid f s : FormatFloat f = Some s → isValidNumber s = true.
Proof.
  destruct f as [neg|neg| |neg m e]; cbn [FormatFloat]; try done; [by destruct neg; intros [= <-]|].
  unfold float_decimal.
  set (num := float_num m e). set (den := float_den e). set (k := decimal_point num den).
  destruct (shortest_from 17 _ num den k 1) as [d n] eqn:Hs.
  assert (0 ≤ num) as Hnum by (unfold num, float_num; pose proof (Z.pow_nonneg 2 (Z.max e 0)); lia).
  assert (0 < den) as Hden by (unfold den, float_den; apply Z.pow_pos_nonneg; lia).
  clearbody k num den. apply shortest_spec in Hs; [|done|done]. intros Heq. apply (inj Some) in Heq as <-.
  match goal with |- context [fixed_text (Itoa ?z) _] =>
    destruct (float_body z (k + Z.of_nat (String.length (Itoa d)) - n)) as (i & f & x & -> & Hi & Hf & Hx)
  end.
  - destruct Hs as [Hd|[-> ->]]; [left; by apply strip_zeros_pos|right]. split; [done|]. simpl. lia.
  - apply parts_valid; [by destruct neg; [right|left]|done..].
Qed.

(** ** Everything that is written is JSON *)

Definition writes_json (v : any) : Prop := ∀ j, Marshal v = Some j → json_ok j.

Lemma marshal_list_ok l js :
  Forall writes_json l → marshal_list Marshal l = Some js → Forall json_ok js.
Proof.
  intros Hl. revert js. induction Hl as [|v l Hv _ IH]; intros js; cbn [marshal_list]; [by intros [= <-]|].
  intros (j & Hj & (js' & Hjs & [= <-])%bind_Some)%bind_Some. constructor; [by apply Hv|by apply IH].
Qed.

Lemma marshal_entries_json (m : gomap any) js :
  Forall (λ kv, writes_json kv.2) m → marshal_entries Marshal m = Some js → Forall (λ kv, json_ok kv.2) js.
Proof.
  intros Hm. revert js. induction Hm as [|[k v] m Hv _ IH]; intros js; cbn [marshal_entries];
    [by intros [= <-]|].
  intros (j & Hj & (js' & Hjs & [= <-])%bind_Some)%bind_Some. constructor; [by apply Hv|by apply IH].
Qed.

(** The members of an object are sorted, their keys made UTF-8. *)
Lemma object_ok (js : list (string * json)) :
  Forall (λ kv, json_ok kv.2) js → json_ok (JObj (prod_map coerceUTF8 id <$> map_sort js)).
Proof.
  intros Hjs. cbn [json_ok]. apply list_all_Forall, Forall_fmap. rewrite map_sort_perm.
  eapply Forall_impl; [exact Hjs|]. intros [k j] Hj. split; [apply utf8_ok_coerce|exact Hj].
Qed.

Lemma Marshal_ok v : writes_json v.
Proof.
  unfold writes_json. induction v as [|b|z|z|f|s|s|l IH|m IH|l IH|l|m _|] using any_ind; intros j;
    cbn [Marshal].
  - by intros [= <-].
  - by intros [= <-].
  - intros [= <-]. apply Itoa_valid.
  - intros [= <-]. apply Itoa_valid.
  - intros (s & Hs & ->)%fmap_Some. by eapply FormatFloat_valid.
  - case_bool_decide; [by intros [= <-]|]. destruct (isValidNumber s) eqn:Hs; [by intros [= <-]|done].
  - intros [= <-]. apply utf8_ok_coerce.
  - intros (js & Hjs & ->)%fmap_Some. cbn [json_ok]. apply list_all_Forall. by eapply marshal_list_ok.
  - intros (js & Hjs & [= <-])%bind_Some. apply object_ok. by eapply marshal_entries_json.
  - intros (js & Hjs & ->)%fmap_Some. cbn [json_ok]. apply list_all_Forall.
    revert js Hjs. induction IH as [|m l Hm _ IHl]; intros js; cbn [marshal_maps]; [by intros [= <-]|].
    intros (js1 & Hjs1 & (rest & Hrest & [= <-])%bind_Some)%bind_Some.
    constructor; [apply object_ok; by eapply marshal_entries_json|by apply IHl].
  - intros [= <-]. cbn [json_ok]. apply list_all_Forall, Forall_fmap, Forall_true. intros s.
    apply utf8_ok_coerce.
  - done.
  - done.
Qed.

Lemma field_omitempty_json name s :
  utf8_ok name = true → Forall (λ kv, utf8_ok kv.1 = true ∧ json_ok kv.2) (field_omitempty name s).
Proof.
  intros Hn. unfold field_omitempty. case_bool_decide; [constructor|].
  constructor; [|constructor]. split; [done|apply utf8_ok_coerce].
Qed.

Lemma RPCError_json_ok e j : RPCError_json e = Some j → json_ok j.
Proof.
  unfold RPCError_json. intros (data & Hdata & [= <-])%bind_Some. cbn [json_ok]. apply list_all_Forall.
  constructor; [split; [done|apply Itoa_valid]|]. constructor; [split; [done|apply utf8_ok_coerce]|].
  destruct (RPCError_Data e); [injection Hdata as <-; constructor|..];
    apply bind_Some in Hdata as (jd & Hjd%Marshal_ok & Heq); injection Heq as <-; by repeat constructor.
Qed.

Lemma msgIdT_json_ok i j : msgIdT_MarshalJSON i = Some j → json_ok j.
Proof.
  unfold msgIdT_MarshalJSON. destruct (Value i) eqn:Hv; try apply Marshal_ok.
  destruct (isSet i); [by intros [= <-]|apply Marshal_ok].
Qed.

(** The members of the four templates. *)
Ltac template_members :=
  cbn [json_ok]; apply list_all_Forall;
  repeat first
    [ apply field_omitempty_json; done
    | constructor; [split; [done|first [done | apply utf8_ok_coerce | idtac]]|] ].

Lemma MessageBytes_ok msg j : MessageBytes msg = Some j → json_ok j.
Proof.
  unfold MessageBytes. destruct (Interface msg) as [t|t|t|t]; cbn [template_json].
  - intros (id & Hid%msgIdT_json_ok & (ps & Hps%Marshal_ok & [= <-])%bind_Some)%bind_Some.
    template_members.
  - intros (ps & Hps%Marshal_ok & [= <-])%bind_Some. template_members.
  - intros (id & Hid%msgIdT_json_ok & (r & Hr%Marshal_ok & [= <-])%bind_Some)%bind_Some.
    template_members.
  - intros (id & Hid%msgIdT_json_ok & (e & He & [= <-])%bind_Some)%bind_Some.
    assert (json_ok e) as Hok.
    { destruct (ter_Error t) as [err|]; [by eapply RPCError_json_ok|by injection He as <-]. }
    template_members.
Qed.

(** ** Messages over bytes *)

Lemma MessageBytes_object msg j : MessageBytes msg = Some j → ∃ ms, j = JObj ms.
Proof.
  unfold MessageBytes. destruct (Interface msg) as [t|t|t|t]; cbn [template_json];
    repeat (intros (? & _ & H)%bind_Some; revert H); intros [= <-]; by eexists.
Qed.

(** The text of a message is read back, whatever follows it. *)
Lemma scan_message msg j rest :
  MessageBytes msg = Some j → (json_depth j ≤ maxNestingDepth)%nat →
  scan_text (json_text j +:+ rest) = ScanValue j :: scan_text rest.
Proof.
  intros Hj Hd. apply scan_json_text; [by eapply MessageBytes_ok|done|].
  destruct (MessageBytes_object _ _ Hj) as [ms ->]. done.
Qed.

(** A message that is not nested deeper than a decoder allows. *)
Definition shallow (msg : Message) : Prop :=
  ∀ j, MessageBytes msg = Some j → (json_depth j ≤ maxNestingDepth)%nat.

Definition is_shallow (msg : Message) : bool :=
  match MessageBytes msg with Some j => (json_depth j <=? maxNestingDepth)%nat | None => true end.

Lemma is_shallow_spec msg : is_shallow msg = true → shallow msg.
Proof. unfold is_shallow, shallow. intros H j Hj. rewrite Hj in H. by apply Nat.leb_le. Qed.

(** The text of a message alone, with the default options. *)
Lemma message_text_roundtrip msg :
  message_wire msg → shallow msg →
  ∃ j, MessageBytes msg = Some j ∧ ParseBytes (scan_text (json_text j)) [] = Ret (inr (message_norm msg)).
Proof.
  intros Hw Hs. destruct (message_roundtrip_default msg [] Hw) as (j & Hj & Hp). exists j. split; [done|].
  rewrite <- (string_app_nil_r (json_text j)), (scan_message msg) by (done || by apply Hs).
  by rewrite ParseBytes_default in *.
Qed.

(** C3. Wire round trip over bytes: a well-formed message whose id, texts,
    parameters, result and error data are JSON values has a text; unless it is
    nested deeper than the decoder allows, parsing the text, whatever bytes
    follow it, gives the message back up to the order of map entries (its
    response header is not sent).  With [IdNotNull] the id must not be null. *)
Theorem ParseBytes_MessageString msg opts rest :
  message_wire msg → opts_allow opts (default (AInt 0) (id_of msg)) →
  ∃ j, MessageBytes msg = Some j ∧ MessageString msg = Ret (json_text j) ∧
    ((json_depth j ≤ maxNestingDepth)%nat →
     ParseBytes (scan_text (json_text j +:+ rest)) [opts] = Ret (inr (message_norm msg))).
Proof.
  intros Hw Ho. destruct (message_roundtrip msg opts Hw Ho) as (j & Hj & Hparse). exists j.
  split; [done|]. split; [by unfold MessageString, MustMessageBytes; rewrite Hj|].
  intros Hd. by rewrite (scan_message msg) , ParseBytes_value.
Qed.

Lemma ParseBytes_MessageString_witness :
  ∃ j, MessageBytes sample_request = Some j ∧
    ParseBytes (scan_text (json_text j +:+ "]garbage")) [mkMessageOptions true]
      = Ret (inr (message_norm sample_request)).
Proof.
  destruct (ParseBytes_MessageString sample_request (mkMessageOptions true) "]garbage")
    as (j & Hj & _ & Hparse).
  - exact sample_request_wire.
  - by right.
  - exists j. split; [done|]. apply Hparse. apply (is_shallow_spec sample_request); [by vm_compute|done].
Defined.

(** ** Streams of messages

    The stream sessions write a line for each message. *)

Definition line_text (j : json) : string := json_text j +:+ String (chr 10) "".

Definition stream_text (js : list json) : string := foldr (λ j s, line_text j +:+ s) "" js.

Lemma scan_stream js :
  Forall (λ j, json_ok j ∧ (json_depth j ≤ maxNestingDepth)%nat) js →
  scan_text (stream_text js) = ScanValue <$> js.
Proof.
  induction 1 as [|j js [Hj Hd] _ IH]; [done|]. cbn [stream_text foldr]. fold (stream_text js).
  unfold line_text. rewrite string_app_assoc, scan_json_text by done. rewrite fmap_cons. f_equal.
  rewrite <- IH. unfold scan_text. change (String (chr 10) "" +:+ stream_text js)
    with (String (chr 10) (stream_text js)). by rewrite lex_space.
Qed.

(** ** Cache keys *)

(** MarshalJson of utils.go *)
Definition MarshalJson (data : any) : error + string :=
  match Marshal data with
  | Some j => inr (json_text j)
  | None => inl (ErrorJson "unsupported value")
  end.

Definition CacheKey (prefix : string) (msg : RequestMessage) : result string :=
  match Marshal (AList (req_Params msg)) with
  | None => Panic (PanicError (ErrorJson "unsupported value"))
  | Some params => Ret (prefix +:+ req_Method msg +:+ json_text params)
  end.

Example cache_key_of_the_tests :
  CacheKey "n01/" (mkRequest (mkBase MKRequest "") (AInt 101) "queryMethod" [AString "p1"; AString "p2"] true)
  = Ret ("n01/queryMethod[" +:+ quote "p1" +:+ "," +:+ quote "p2" +:+ "]").
Proof. by vm_compute. Qed.

Lemma string_app_cancel p s t : p +:+ s = p +:+ t → s = t.
Proof. induction p as [|c p IH]; [done|]. rewrite !string_app_cons. intros [= H]. by apply IH. Qed.

(** Two texts without a bracket, each followed by one, are the same if the
    wholes are. *)
Lemma split_at_char (c : ascii) (P : ascii → bool) m1 m2 s1 s2 :
  P c = false → string_forallb P m1 = true → string_forallb P m2 = true →
  m1 +:+ String c s1 = m2 +:+ String c s2 → m1 = m2 ∧ s1 = s2.
Proof.
  intros Hc. revert m2. induction m1 as [|a m1 IH]; intros [|b m2] H1 H2; rewrite ?string_app_cons;
    cbn [string_forallb] in *.
  - by intros [= ->].
  - change ("" +:+ ?x) with x. intros [= -> _]. by rewrite Hc in H2.
  - change ("" +:+ ?x) with x. intros [= -> _]. by rewrite Hc in H1.
  - apply andb_true_iff in H1 as [_ H1], H2 as [_ H2]. intros [= -> Heq].
    by destruct (IH _ H1 H2 Heq) as [-> ->].
Qed.

Lemma Marshal_list l j : Marshal (AList l) = Some j → ∃ s, json_text j = String (chr 91) s.
Proof. cbn. rewrite fmap_Some. intros (js & _ & ->). by eexists. Qed.

Lemma json_text_inj j1 j2 :
  json_ok j1 → json_ok j2 → (json_depth j1 ≤ maxNestingDepth)%nat → (json_depth j2 ≤ maxNestingDepth)%nat →
  json_text j1 = json_text j2 → j1 = j2.
Proof.
  intros H1 H2 Hd1 Hd2 Heq.
  pose proof (scan_json_text j1 "" H1 Hd1 (λ _ _, eq_refl)) as Hs1.
  pose proof (scan_json_text j2 "" H2 Hd2 (λ _ _, eq_refl)) as Hs2.
  rewrite Heq, Hs2 in Hs1. by injection Hs1 as <-.
Qed.

Definition shallow_value (v : any) : Prop := ∀ j, Marshal v = Some j → (json_depth j ≤ maxNestingDepth)%nat.

Definition no_bracket (method : string) : Prop :=
  string_forallb (λ c, negb (Ascii.eqb c (chr 91))) method = true.

(** C30. A cache key tells requests apart: with method names without a bracket,
    which valid ones are, equal keys mean equal methods and parameters of the
    same JSON form. *)
Theorem CacheKey_inj prefix msg1 msg2 key :
  no_bracket (req_Method msg1) → no_bracket (req_Method msg2) →
  shallow_value (AList (req_Params msg1)) → shallow_value (AList (req_Params msg2)) →
  CacheKey prefix msg1 = Ret key → CacheKey prefix msg2 = Ret key →
  req_Method msg1 = req_Method msg2 ∧ Marshal (AList (req_Params msg1)) = Marshal (AList (req_Params msg2)).
Proof.
  intros Hm1 Hm2. unfold CacheKey, shallow_value.
  destruct (Marshal (AList (req_Params msg1))) as [j1|] eqn:H1; [|done].
  destruct (Marshal (AList (req_Params msg2))) as [j2|] eqn:H2; [|done].
  intros Hd1 Hd2 Hk1 Hk2. apply (inj Ret) in Hk1, Hk2. rewrite <- Hk2 in Hk1.
  apply string_app_cancel in Hk1.
  destruct (Marshal_list _ _ H1) as (s1 & Hs1), (Marshal_list _ _ H2) as (s2 & Hs2).
  rewrite Hs1, Hs2 in Hk1. destruct (split_at_char (chr 91) _ _ _ _ _ eq_refl Hm1 Hm2 Hk1) as [Hmeth ->].
  split; [done|]. f_equal. apply json_text_inj; eauto;
    [by apply (Marshal_ok _ _ H1)|by apply (Marshal_ok _ _ H2)|].
  by rewrite Hs1, Hs2.
Qed.

Lemma CacheKey_inj_witness :
  let msg1 := mkRequest (mkBase MKRequest "") (AInt 1) "get" [AInt 7] true in
  let msg2 := mkRequest (mkBase MKRequest "t") (AInt 2) "get" [ANumber "7"] true in
  CacheKey "n01/" msg1 = Ret ("n01/get[7]") ∧ CacheKey "n01/" msg2 = Ret ("n01/get[7]") ∧
  Marshal (AList (req_Params msg1)) = Marshal (AList (req_Params msg2)).
Proof.
  intros msg1 msg2.
  assert (CacheKey "n01/" msg1 = Ret ("n01/get[7]")) as H1 by by vm_compute.
  assert (CacheKey "n01/" msg2 = Ret ("n01/get[7]")) as H2 by by vm_compute.
  split; [exact H1|]. split; [exact H2|].
  refine (proj2 (CacheKey_inj "n01/" msg1 msg2 _ eq_refl eq_refl _ _ H1 H2));
    intros j Hj; vm_compute in Hj; injection Hj as <-; vm_compute; lia.
Defined.
