(* ===== verification/Pretty.v ===== *)
(** * Indented JSON: EncodePretty of messageimpl.go

    json.MarshalIndent with two spaces.  Both layouts of a tree have the same
    tokens, so a decoder finds the same value in them. *)

From Stdlib Require Import Ascii.
From S2P Require Import Prelude GoMap Strconv Values Messages Parse JsonText WireText.
From stdpp Require Import options.
#[local] Open Scope N_scope.

(** ** The indented text of a tree *)

Fixpoint spaces (n : nat) : string :=
  match n with O => "" | S n => String " " (spaces n) end.

Definition newline (depth : nat) : string := String (chr 10) (spaces (2 * depth)).

(** The items between two brackets, each on a line of its own. *)
Fixpoint lines (depth : nat) (l : list string) : string :=
  match l with
  | [] => ""
  | [x] => newline (S depth) +:+ x +:+ newline depth
  | x :: l => newline (S depth) +:+ x +:+ "," +:+ lines depth l
  end.

Fixpoint json_indent (depth : nat) (j : json) : string :=
  match j with
  | JArr l => "[" +:+ lines depth (json_indent (S depth) <$> l) +:+ "]"
  | JObj m => "{" +:+ lines depth ((λ kv, quote kv.1 +:+ ": " +:+ json_indent (S depth) kv.2) <$> m) +:+ "}"
  | _ => json_text j
  end.

Definition EncodePretty (msg : Message) : error + string :=
  match MessageBytes msg with
  | Some j => inr (json_indent 0 j)
  | None => inl (ErrorWithMessage "json.MarshalIndent" (ErrorJson "unsupported value"))
  end.

Example indented_tree :
  json_indent 0 (JObj [("a", JArr [JNum "1"; JArr []]); ("b", JNull)]) =
    "{" +:+ newline 1 +:+ quote "a" +:+ ": [" +:+ newline 2 +:+ "1," +:+ newline 2 +:+ "[]" +:+ newline 1
      +:+ "],"
      +:+ newline 1 +:+ quote "b" +:+ ": null" +:+ newline 0 +:+ "}".
Proof. by vm_compute. Qed.

(** ** Tokens *)

Fixpoint comma_tokens (l : list (list token)) : list token :=
  match l with
  | [] => []
  | [x] => x
  | x :: l => x ++ TComma :: comma_tokens l
  end.

Fixpoint tokens (j : json) : list token :=
  match j with
  | JStr s => [TStr s]
  | JArr l => TOpenArr :: comma_tokens (tokens <$> l) ++ [TCloseArr]
  | JObj m => TOpenObj :: comma_tokens ((λ kv, TStr kv.1 :: TColon :: tokens kv.2) <$> m) ++ [TCloseObj]
  | _ => [TAtom j]
  end.

(** A text has these tokens, wherever a number may end. *)
Definition lexes (p : string) (ts : list token) : Prop :=
  ∀ r, number_end r = true → lex (p +:+ r) = ts ++ lex r.

Lemma lex_char c t r :
  is_space c = false → lex_token (String c r) = Some (t, r) → lex (String c r) = t :: lex r.
Proof. intros Hc. by apply lex_step. Qed.

Lemma lex_spaces n r : lex (spaces n +:+ r) = lex r.
Proof. induction n as [|n IH]; [done|]. cbn [spaces]. by rewrite string_app_cons, lex_space. Qed.

Lemma lex_newline d r : lex (newline d +:+ r) = lex r.
Proof. unfold newline. by rewrite string_app_cons, lex_space, lex_spaces. Qed.

Lemma number_end_newline d r : number_end (newline d +:+ r) = true.
Proof. done. Qed.

Lemma lexes_quote s : utf8_ok s = true → lexes (quote s) [TStr s].
Proof. intros Hs r _. by apply lex_quote. Qed.

Lemma lexes_atom j : json_ok j → tokens j = [TAtom j] → lexes (json_text j) [TAtom j].
Proof.
  intros Hj Ht r Hr. destruct j as [|[]|s|s|l|m]; try done; try (by apply lex_step).
  by apply lex_number.
Qed.

(** *** Lists *)

Lemma lexes_commas (ps : list string) (tss : list (list token)) (e : ascii) (te : token) :
  Forall2 lexes ps tss → number_end (String e "") = true → is_space e = false →
  (∀ r, lex_token (String e r) = Some (te, r)) →
  lexes (comma_sep ps +:+ String e "") (comma_tokens tss ++ [te]).
Proof.
  intros Hps He Hs Ht r _.
  assert (∀ r, lex (String e r) = te :: lex r) as Hend by (intros; by apply lex_char).
  assert (∀ r, number_end (String e r) = true) as Hne by (intros; exact He).
  rewrite string_app_assoc. change (String e "" +:+ r) with (String e r).
  induction Hps as [|p ts ps tss Hp Hps IH]; [by apply Hend|].
  destruct Hps as [|p' ts' ps tss Hp' Hps].
  - cbn [comma_sep comma_tokens]. by rewrite Hp, Hend, <- app_assoc.
  - change (comma_sep (p :: p' :: ps)) with (p +:+ "," +:+ comma_sep (p' :: ps)).
    change (comma_tokens (ts :: ts' :: tss)) with (ts ++ TComma :: comma_tokens (ts' :: tss)).
    rewrite !string_app_assoc, Hp by done. rewrite <- !app_assoc. f_equal.
    etrans; [by apply (lex_char ("," : ascii)%char TComma)|]. cbn [app]. by rewrite IH, <- app_assoc.
Qed.

Lemma lexes_lines d (ps : list string) (tss : list (list token)) (e : ascii) (te : token) :
  Forall2 lexes ps tss → is_space e = false → (∀ r, lex_token (String e r) = Some (te, r)) →
  lexes (lines d ps +:+ String e "") (comma_tokens tss ++ [te]).
Proof.
  intros Hps Hs Ht r _.
  assert (∀ r, lex (String e r) = te :: lex r) as Hend by (intros; by apply lex_char).
  rewrite string_app_assoc. change (String e "" +:+ r) with (String e r).
  induction Hps as [|p ts ps tss Hp Hps IH]; [by apply Hend|].
  destruct Hps as [|p' ts' ps tss Hp' Hps].
  - cbn [lines comma_tokens]. rewrite !string_app_assoc, lex_newline, Hp by done.
    by rewrite lex_newline, Hend, <- app_assoc.
  - change (lines d (p :: p' :: ps)) with (newline (S d) +:+ p +:+ "," +:+ lines d (p' :: ps)).
    change (comma_tokens (ts :: ts' :: tss)) with (ts ++ TComma :: comma_tokens (ts' :: tss)).
    rewrite !string_app_assoc, lex_newline, Hp by done. rewrite <- !app_assoc. f_equal.
    etrans; [by apply (lex_char ("," : ascii)%char TComma)|]. cbn [app]. by rewrite IH, <- app_assoc.
Qed.

Lemma lexes_cons (c : ascii) t p ts :
  is_space c = false → (∀ r, lex_token (String c r) = Some (t, r)) → lexes p ts → lexes (String c p) (t :: ts).
Proof.
  intros Hc Ht Hp r Hr. rewrite string_app_cons, (lex_char c t) by done. by rewrite Hp.
Qed.

Lemma lexes_member k p ts (sep : string) :
  utf8_ok k = true → sep = ":" ∨ sep = ": " → lexes p ts →
  lexes (quote k +:+ sep +:+ p) (TStr k :: TColon :: ts).
Proof.
  intros Hk Hsep Hp r Hr. rewrite !string_app_assoc, lex_quote by done. cbn [app]. f_equal.
  destruct Hsep as [->| ->].
  - etrans; [by apply (lex_char (":" : ascii)%char TColon)|]. by rewrite Hp.
  - etrans; [by apply (lex_char (":" : ascii)%char TColon)|]. f_equal.
    etrans; [by apply lex_space|]. by apply Hp.
Qed.

(** ** Both layouts have the tokens of the tree *)

Lemma lexes_layouts j : json_ok j → lexes (json_text j) (tokens j) ∧ ∀ d, lexes (json_indent d j) (tokens j).
Proof.
  induction j as [|b|s|s|l IH|ms IH] using json_ind; cbn [json_ok]; intros Hok.
  - assert (lexes (json_text JNull) [TAtom JNull]) by by apply lexes_atom. done.
  - assert (lexes (json_text (JBool b)) [TAtom (JBool b)]) by by apply lexes_atom. done.
  - assert (lexes (json_text (JNum s)) [TAtom (JNum s)]) by by apply lexes_atom. done.
  - assert (lexes (quote s) [TStr s]) by by apply lexes_quote. done.
  - apply list_all_Forall in Hok.
    assert (Forall (λ j, lexes (json_text j) (tokens j) ∧ ∀ d, lexes (json_indent d j) (tokens j)) l) as Hl.
    { rewrite Forall_forall in *. auto. }
    split; [|intros d]; apply (lexes_cons ("[" : ascii)%char TOpenArr); try done.
    + apply lexes_commas; try done. apply Forall2_fmap, Forall_Forall2_diag.
      eapply Forall_impl; [exact Hl|]. by intros ? [].
    + apply lexes_lines; try done. apply Forall2_fmap, Forall_Forall2_diag.
      eapply Forall_impl; [exact Hl|]. by intros ? [].
  - apply list_all_Forall in Hok.
    assert (Forall (λ kv : string * json, utf8_ok kv.1 = true ∧
      lexes (json_text kv.2) (tokens kv.2) ∧ ∀ d, lexes (json_indent d kv.2) (tokens kv.2)) ms) as Hms.
    { rewrite Forall_forall in *. naive_solver. }
    split; [|intros d]; apply (lexes_cons ("{" : ascii)%char TOpenObj); try done.
    + apply lexes_commas; try done. apply Forall2_fmap, Forall_Forall2_diag.
      eapply Forall_impl; [exact Hms|]. intros kv (Hk & Hj & _). apply lexes_member; auto.
    + apply lexes_lines; try done. apply Forall2_fmap, Forall_Forall2_diag.
      eapply Forall_impl; [exact Hms|]. intros kv (Hk & _ & Hj). apply lexes_member; auto.
Qed.

Lemma scan_indent j d r :
  json_ok j → number_end r = true → scan_text (json_indent d j +:+ r) = scan_text (json_text j +:+ r).
Proof.
  intros Hj Hr. destruct (lexes_layouts j Hj) as [Ht Hi]. unfold scan_text. by rewrite Hi, Ht.
Qed.

Lemma EncodePretty_scans msg j :
  MessageBytes msg = Some j → EncodePretty msg = inr (json_indent 0 j) ∧
    scan_text (json_indent 0 j) = scan_text (json_text j).
Proof.
  intros Hj. unfold EncodePretty. rewrite Hj. split; [done|].
  rewrite <- (string_app_nil_r (json_indent 0 j)), scan_indent; [|by eapply MessageBytes_ok|done].
  by rewrite string_app_nil_r.
Qed.

Lemma pretty_roundtrip msg :
  message_wire msg → shallow msg →
  ∃ text, EncodePretty msg = inr text ∧ ParseBytes (scan_text text) [] = Ret (inr (message_norm msg)).
Proof.
  intros Hw Hs. destruct (message_text_roundtrip msg Hw Hs) as (j & Hj & Hp).
  destruct (EncodePretty_scans msg j Hj) as [He Hscan]. exists (json_indent 0 j). by rewrite Hscan.
Qed.


