(* ===== verification/Methods.v ===== *)
(** * Method names: validators.go

    Both regular expressions are anchored and every atom is one ASCII
    character class, so matching is a test of each byte. *)

From Stdlib Require Import Ascii.
From S2P Require Import Prelude Strconv.
From stdpp Require Import options.

Definition is_alnum (c : ascii) : bool := is_digit c || is_lower c || is_upper c.

Definition char_in (chars : list ascii) (c : ascii) : bool := bool_decide (c ∈ chars).

Definition method_char (c : ascii) : bool :=
  is_alnum c || char_in ["-"; "_"; ":"; "+"; "."]%char c.

Definition public_char (c : ascii) : bool :=
  is_alnum c || char_in ["-"; "_"; ":"; "+"; "."; "/"; "\"; "&"; "#"]%char c.

Definition IsMethod (name : string) : bool :=
  negb (bool_decide (name = "")) && string_forallb method_char name.

Definition IsPublicMethod (name : string) : bool :=
  if String.prefix "rpc." name then false
  else match name with
       | EmptyString => false
       | String c rest => is_alnum c && string_forallb public_char rest
       end.

(** The names the tests of the repository check. *)
Example methods_of_the_tests :
  IsMethod ".abc+def" = true ∧ IsPublicMethod "rpc.list" = false ∧
  IsPublicMethod ".abc+def" = false ∧ IsPublicMethod "textDocument/didOpen" = true ∧
  IsPublicMethod "namespace::show" = true ∧ IsPublicMethod "namespace#show" = true.
Proof. by vm_compute. Qed.

Lemma public_of_method c : method_char c = true → public_char c = true.
Proof.
  unfold method_char, public_char, char_in. rewrite !orb_true_iff, !bool_decide_eq_true.
  set_solver.
Qed.

Lemma string_forallb_impl (p q : ascii → bool) s :
  (∀ c, p c = true → q c = true) → string_forallb p s = true → string_forallb q s = true.
Proof.
  intros Hpq. induction s as [|c s IH]; simpl; [done|].
  intros [??]%andb_true_intro_iff. rewrite Hpq by done. by apply IH.
Qed.

(** A valid method name is public unless it begins with [rpc.] or with one
    of the five punctuation characters. *)
Theorem IsMethod_public c rest :
  IsMethod (String c rest) = true →
  IsPublicMethod (String c rest) = negb (String.prefix "rpc." (String c rest)) && is_alnum c.
Proof.
  unfold IsMethod, IsPublicMethod. simpl string_forallb.
  intros [_ [_ Hr]%andb_true_intro_iff]%andb_true_intro_iff.
  destruct (String.prefix _ _); [done|]. cbn [negb andb].
  rewrite (string_forallb_impl method_char public_char) by auto using public_of_method.
  apply andb_true_r.
Qed.

Lemma IsMethod_public_witness : IsPublicMethod "+add" = false.
Proof. exact (IsMethod_public "+"%char "add" eq_refl). Defined.
