(* ===== verification/Schema.v ===== *)
(** * Schemas: schema/types.go and the non-validating methods of
      schema/schema.go

    The Go interface [Schema] is the inductive type of its twelve
    implementations.  A slice of schemas is a list (every constructor of the
    package makes a non-nil slice), a field of interface or pointer type is an
    option, and the two maps of an object schema are [gomap]s. *)

From S2P Require Import Prelude GoMap Strconv Values.
From stdpp Require Import options.

Record SchemaMixin := mkMixin { mixin_name : string; mixin_description : string }.

#[local] Unset Elimination Schemes.

Inductive Schema : Type :=
  | AnySchema (mixin : SchemaMixin)
  | NullSchema (mixin : SchemaMixin)
  | BoolSchema (mixin : SchemaMixin)
  | NumberSchema (mixin : SchemaMixin) (Minimum Maximum : option float64)
      (ExclusiveMinimum ExclusiveMaximum : option bool)
  | IntegerSchema (mixin : SchemaMixin) (Minimum Maximum : option Z)
      (ExclusiveMinimum ExclusiveMaximum : option bool)
  | StringSchema (mixin : SchemaMixin) (MaxLength MinLength : option Z)
  | AnyOfSchema (mixin : SchemaMixin) (Choices : list Schema)
  | AllOfSchema (mixin : SchemaMixin) (Choices : list Schema)
  | NotSchema (mixin : SchemaMixin) (Child : option Schema)
  | ListSchema (mixin : SchemaMixin) (Item : option Schema) (MinItems MaxItems : option Z)
  | TupleSchema (mixin : SchemaMixin) (Children : list Schema) (AdditionalSchema : option Schema)
  | ObjectSchema (mixin : SchemaMixin) (Properties : gomap Schema) (Requires : gomap bool)
      (AdditionalProperties : option Schema)
  | MethodSchema (mixin : SchemaMixin) (Params : list Schema) (Returns : option Schema)
      (AdditionalSchema : option Schema).

#[local] Set Elimination Schemes.

(** A predicate on the schema behind a possibly nil interface value. *)
Definition opt_pred {A} (P : A → Prop) (o : option A) : Prop :=
  match o with None => True | Some x => P x end.

Section Schema_ind.
Variable P : Schema → Prop.
Hypothesis Hany : ∀ m, P (AnySchema m).
Hypothesis Hnull : ∀ m, P (NullSchema m).
Hypothesis Hbool : ∀ m, P (BoolSchema m).
Hypothesis Hnumber : ∀ m lo hi xlo xhi, P (NumberSchema m lo hi xlo xhi).
Hypothesis Hinteger : ∀ m lo hi xlo xhi, P (IntegerSchema m lo hi xlo xhi).
Hypothesis Hstring : ∀ m mx mn, P (StringSchema m mx mn).
Hypothesis HanyOf : ∀ m cs, Forall P cs → P (AnyOfSchema m cs).
Hypothesis HallOf : ∀ m cs, Forall P cs → P (AllOfSchema m cs).
Hypothesis Hnot : ∀ m c, opt_pred P c → P (NotSchema m c).
Hypothesis Hlist : ∀ m it mn mx, opt_pred P it → P (ListSchema m it mn mx).
Hypothesis Htuple : ∀ m cs add, Forall P cs → opt_pred P add → P (TupleSchema m cs add).
Hypothesis Hobject : ∀ m props reqs add,
  Forall (λ kv, P kv.2) props → opt_pred P add → P (ObjectSchema m props reqs add).
Hypothesis Hmethod : ∀ m ps ret add,
  Forall P ps → opt_pred P ret → opt_pred P add → P (MethodSchema m ps ret add).

Fixpoint Schema_ind (s : Schema) : P s :=
  let list_ind := fix list_ind (l : list Schema) : Forall P l :=
    match l with
    | [] => Forall_nil_2 _
    | s :: l => Forall_cons_2 _ s l (Schema_ind s) (list_ind l)
    end in
  let opt_ind (o : option Schema) : opt_pred P o :=
    match o with None => I | Some s => Schema_ind s end in
  match s with
  | AnySchema m => Hany m
  | NullSchema m => Hnull m
  | BoolSchema m => Hbool m
  | NumberSchema m lo hi xlo xhi => Hnumber m lo hi xlo xhi
  | IntegerSchema m lo hi xlo xhi => Hinteger m lo hi xlo xhi
  | StringSchema m mx mn => Hstring m mx mn
  | AnyOfSchema m cs => HanyOf m cs (list_ind cs)
  | AllOfSchema m cs => HallOf m cs (list_ind cs)
  | NotSchema m c => Hnot m c (opt_ind c)
  | ListSchema m it mn mx => Hlist m it mn mx (opt_ind it)
  | TupleSchema m cs add => Htuple m cs add (list_ind cs) (opt_ind add)
  | ObjectSchema m props reqs add => Hobject m props reqs add
      ((fix map_ind (l : gomap Schema) : Forall (λ kv, P kv.2) l :=
        match l with
        | [] => Forall_nil_2 _
        | kv :: l => Forall_cons_2 _ kv l (Schema_ind kv.2) (map_ind l)
        end) props) (opt_ind add)
  | MethodSchema m ps ret add => Hmethod m ps ret add (list_ind ps) (opt_ind ret) (opt_ind add)
  end.
End Schema_ind.

(** ** SchemaMixin *)

Definition Schema_mixin (s : Schema) : SchemaMixin :=
  match s with
  | AnySchema m | NullSchema m | BoolSchema m
  | NumberSchema m _ _ _ _ | IntegerSchema m _ _ _ _ | StringSchema m _ _
  | AnyOfSchema m _ | AllOfSchema m _ | NotSchema m _ | ListSchema m _ _ _
  | TupleSchema m _ _ | ObjectSchema m _ _ _ | MethodSchema m _ _ _ => m
  end.

Definition with_mixin (s : Schema) (m : SchemaMixin) : Schema :=
  match s with
  | AnySchema _ => AnySchema m
  | NullSchema _ => NullSchema m
  | BoolSchema _ => BoolSchema m
  | NumberSchema _ lo hi xlo xhi => NumberSchema m lo hi xlo xhi
  | IntegerSchema _ lo hi xlo xhi => IntegerSchema m lo hi xlo xhi
  | StringSchema _ mx mn => StringSchema m mx mn
  | AnyOfSchema _ cs => AnyOfSchema m cs
  | AllOfSchema _ cs => AllOfSchema m cs
  | NotSchema _ c => NotSchema m c
  | ListSchema _ it mn mx => ListSchema m it mn mx
  | TupleSchema _ cs add => TupleSchema m cs add
  | ObjectSchema _ props reqs add => ObjectSchema m props reqs add
  | MethodSchema _ ps ret add => MethodSchema m ps ret add
  end.

Definition SetName (name : string) (s : Schema) : Schema :=
  with_mixin s (mkMixin name (mixin_description (Schema_mixin s))).

Definition GetName (s : Schema) : string := mixin_name (Schema_mixin s).

Definition SetDescription (desc : string) (s : Schema) : Schema :=
  with_mixin s (mkMixin (mixin_name (Schema_mixin s)) desc).

Definition GetDescription (s : Schema) : string := mixin_description (Schema_mixin s).

Definition rebuildType (m : SchemaMixin) (nType : string) : gomap any :=
  let tp := [("type", AString nType)] in
  let tp := if bool_decide (mixin_name m = "") then tp
            else map_set "name" (AString (mixin_name m)) tp in
  if bool_decide (mixin_description m = "") then tp
  else map_set "description" (AString (mixin_description m)) tp.

(** ** Constructors *)

Definition mixin0 : SchemaMixin := mkMixin "" "".

Definition NewNumberSchema : Schema := NumberSchema mixin0 None None None None.
Definition NewIntegerSchema : Schema := IntegerSchema mixin0 None None None None.
Definition NewStringSchema : Schema := StringSchema mixin0 None None.
Definition NewAnyOfSchema : Schema := AnyOfSchema mixin0 [].
Definition NewAllOfSchema : Schema := AllOfSchema mixin0 [].
Definition NewNotSchema : Schema := NotSchema mixin0 None.
Definition NewListSchema : Schema := ListSchema mixin0 None None None.
Definition NewTupleSchema : Schema := TupleSchema mixin0 [] None.
Definition NewMethodSchema : Schema := MethodSchema mixin0 [] None None.
Definition NewObjectSchema : Schema := ObjectSchema mixin0 [] [] None.

(** ** Type *)

Definition Type_ (s : Schema) : string :=
  match s with
  | AnySchema _ => "any"
  | NullSchema _ => "null"
  | BoolSchema _ => "bool"
  | NumberSchema _ _ _ _ _ => "number"
  | IntegerSchema _ _ _ _ _ => "integer"
  | StringSchema _ _ _ => "string"
  | AnyOfSchema _ _ => "anyOf"
  | AllOfSchema _ _ => "allOf"
  | NotSchema _ _ => "not"
  | ListSchema _ _ _ _ => "list"
  | TupleSchema _ _ _ => "list"
  | ObjectSchema _ _ _ _ => "object"
  | MethodSchema _ _ _ _ => "method"
  end.


(** ** Equal *)

Definition PointerEqual {T} (eqb : T → T → bool) (p1 p2 : option T) : bool :=
  match p1, p2 with
  | Some x1, Some x2 => eqb x1 x2
  | None, None => true
  | _, _ => false
  end.

Section map_equal.
Context {T : Type} (eqb : T → T → bool).

(** The loop over the first map of SchemaMapEqual and SchemaMapValueEqual. *)
Fixpoint map_equal_loop (m1 m2 : gomap T) : bool :=
  match m1 with
  | [] => true
  | (key, elem1) :: m1 =>
      match map_get key m2 with
      | None => false
      | Some elem2 => if eqb elem1 elem2 then map_equal_loop m1 m2 else false
      end
  end.

Definition map_equal (m1 m2 : gomap T) : bool :=
  if negb (length m1 =? length m2)%nat then false else map_equal_loop m1 m2.
End map_equal.

Definition SchemaMapValueEqual (m1 m2 : gomap bool) : bool := map_equal Bool.eqb m1 m2.

Definition mixin_equal (m1 m2 : SchemaMixin) : bool :=
  bool_decide (mixin_name m1 = mixin_name m2) &&
  bool_decide (mixin_description m1 = mixin_description m2).

Section equal.
Context (Equal : Schema → Schema → bool).

Definition SubSchemaEqual (s1 s2 : option Schema) : bool := PointerEqual Equal s1 s2.

(** The loop of SchemaListEqual; after the comparison of the lengths
    [l2[i]] is in range. *)
Fixpoint SchemaListEqual_loop (l1 l2 : list Schema) : bool :=
  match l1, l2 with
  | elem :: l1, elem2 :: l2 => if Equal elem elem2 then SchemaListEqual_loop l1 l2 else false
  | _, _ => true
  end.

Definition SchemaListEqual (l1 l2 : list Schema) : bool :=
  if negb (length l1 =? length l2)%nat then false else SchemaListEqual_loop l1 l2.

Definition SchemaMapEqual (m1 m2 : gomap Schema) : bool := map_equal Equal m1 m2.

(** The method of each type: [other] is compared after a check of its dynamic
    type. *)

Definition AnySchema_Equal (m1 : SchemaMixin) (other : Schema) : bool :=
  match other with AnySchema m2 => mixin_equal m1 m2 | _ => false end.

Definition NullSchema_Equal (m1 : SchemaMixin) (other : Schema) : bool :=
  match other with NullSchema m2 => mixin_equal m1 m2 | _ => false end.

Definition BoolSchema_Equal (m1 : SchemaMixin) (other : Schema) : bool :=
  match other with BoolSchema m2 => mixin_equal m1 m2 | _ => false end.

Definition NumberSchema_Equal (m1 : SchemaMixin) (lo1 hi1 : option float64) (xlo1 xhi1 : option bool)
    (other : Schema) : bool :=
  match other with
  | NumberSchema m2 lo2 hi2 xlo2 xhi2 =>
      mixin_equal m1 m2 && PointerEqual float_eqb hi1 hi2 && PointerEqual float_eqb lo1 lo2 &&
      PointerEqual Bool.eqb xhi1 xhi2 && PointerEqual Bool.eqb xlo1 xlo2
  | _ => false
  end.

Definition IntegerSchema_Equal (m1 : SchemaMixin) (lo1 hi1 : option Z) (xlo1 xhi1 : option bool)
    (other : Schema) : bool :=
  match other with
  | IntegerSchema m2 lo2 hi2 xlo2 xhi2 =>
      mixin_equal m1 m2 && PointerEqual Z.eqb hi1 hi2 && PointerEqual Z.eqb lo1 lo2 &&
      PointerEqual Bool.eqb xhi1 xhi2 && PointerEqual Bool.eqb xlo1 xlo2
  | _ => false
  end.

Definition StringSchema_Equal (m1 : SchemaMixin) (mx1 mn1 : option Z) (other : Schema) : bool :=
  match other with
  | StringSchema m2 mx2 mn2 =>
      mixin_equal m1 m2 && PointerEqual Z.eqb mx1 mx2 && PointerEqual Z.eqb mn1 mn2
  | _ => false
  end.

Definition AnyOfSchema_Equal (m1 : SchemaMixin) (cs1 : list Schema) (other : Schema) : bool :=
  match other with
  | AnyOfSchema m2 cs2 => mixin_equal m1 m2 && SchemaListEqual cs1 cs2
  | _ => false
  end.

Definition AllOfSchema_Equal (m1 : SchemaMixin) (cs1 : list Schema) (other : Schema) : bool :=
  match other with
  | AllOfSchema m2 cs2 => mixin_equal m1 m2 && SchemaListEqual cs1 cs2
  | _ => false
  end.

Definition NotSchema_Equal (m1 : SchemaMixin) (c1 : option Schema) (other : Schema) : bool :=
  match other with
  | NotSchema m2 c2 => mixin_equal m1 m2 && SubSchemaEqual c1 c2
  | _ => false
  end.

Definition ListSchema_Equal (m1 : SchemaMixin) (it1 : option Schema) (mn1 mx1 : option Z)
    (other : Schema) : bool :=
  match other with
  | ListSchema m2 it2 mn2 mx2 =>
      mixin_equal m1 m2 && PointerEqual Z.eqb mx1 mx2 && PointerEqual Z.eqb mn1 mn2 &&
      SubSchemaEqual it1 it2
  | _ => false
  end.

Definition TupleSchema_Equal (m1 : SchemaMixin) (cs1 : list Schema) (add1 : option Schema)
    (other : Schema) : bool :=
  match other with
  | TupleSchema m2 cs2 add2 =>
      mixin_equal m1 m2 && SubSchemaEqual add1 add2 && SchemaListEqual cs1 cs2
  | _ => false
  end.

Definition MethodSchema_Equal (m1 : SchemaMixin) (ps1 : list Schema) (ret1 add1 : option Schema)
    (other : Schema) : bool :=
  match other with
  | MethodSchema m2 ps2 ret2 add2 =>
      mixin_equal m1 m2 && SubSchemaEqual add1 add2 && SchemaListEqual ps1 ps2 &&
      SubSchemaEqual ret1 ret2
  | _ => false
  end.

Definition ObjectSchema_Equal (m1 : SchemaMixin) (props1 : gomap Schema) (reqs1 : gomap bool)
    (add1 : option Schema) (other : Schema) : bool :=
  match other with
  | ObjectSchema m2 props2 reqs2 add2 =>
      mixin_equal m1 m2 && SchemaMapEqual props1 props2 && SchemaMapValueEqual reqs1 reqs2 &&
      SubSchemaEqual add1 add2
  | _ => false
  end.
End equal.

Fixpoint Equal (s other : Schema) : bool :=
  match s with
  | AnySchema m => AnySchema_Equal m other
  | NullSchema m => NullSchema_Equal m other
  | BoolSchema m => BoolSchema_Equal m other
  | NumberSchema m lo hi xlo xhi => NumberSchema_Equal m lo hi xlo xhi other
  | IntegerSchema m lo hi xlo xhi => IntegerSchema_Equal m lo hi xlo xhi other
  | StringSchema m mx mn => StringSchema_Equal m mx mn other
  | AnyOfSchema m cs => AnyOfSchema_Equal Equal m cs other
  | AllOfSchema m cs => AllOfSchema_Equal Equal m cs other
  | NotSchema m c => NotSchema_Equal Equal m c other
  | ListSchema m it mn mx => ListSchema_Equal Equal m it mn mx other
  | TupleSchema m cs add => TupleSchema_Equal Equal m cs add other
  | ObjectSchema m props reqs add => ObjectSchema_Equal Equal m props reqs add other
  | MethodSchema m ps ret add => MethodSchema_Equal Equal m ps ret add other
  end.

(** ** Map and SchemaToString

    A method call on a nil child panics. *)

Definition set_opt (k : string) (v : option any) (tp : gomap any) : gomap any :=
  match v with None => tp | Some v => map_set k v tp end.

(** The bounds of NumberSchema.Map and IntegerSchema.Map. *)
Definition bound_map (key exkey : string) (bound : option any) (ex : option bool)
    (tp : gomap any) : gomap any :=
  match bound with
  | None => tp
  | Some b => set_opt exkey (ABool <$> ex) (map_set key b tp)
  end.

Section map.
Context (Map : Schema → result (gomap any)).

Fixpoint map_schemas (l : list Schema) : result (list (gomap any)) :=
  match l with
  | [] => Ret []
  | s :: l => m ← Map s; arr ← map_schemas l; Ret (m :: arr)
  end.

Fixpoint map_props (l : gomap Schema) : result (gomap any) :=
  match l with
  | [] => Ret []
  | (name, p) :: l => m ← Map p; props ← map_props l; Ret ((name, AMap m) :: props)
  end.

Definition map_child (c : option Schema) : result (gomap any) :=
  match c with None => Panic nil_deref | Some s => Map s end.

(** [if child != nil { tp[key] = child.Map() }] *)
Definition map_opt (key : string) (c : option Schema) (tp : gomap any) : result (gomap any) :=
  match c with
  | None => Ret tp
  | Some s => m ← Map s; Ret (map_set key (AMap m) tp)
  end.
(** The method of each type; [tp] is [s.rebuildType(s.Type())]. *)

Definition NumberSchema_Map (lo hi : option float64) (xlo xhi : option bool) (tp : gomap any)
    : gomap any :=
  bound_map "minimum" "exclusiveMinimum" (AFloat <$> lo) xlo
    (bound_map "maximum" "exclusiveMaximum" (AFloat <$> hi) xhi tp).

Definition IntegerSchema_Map (lo hi : option Z) (xlo xhi : option bool) (tp : gomap any)
    : gomap any :=
  bound_map "minimum" "exclusiveMinimum" (AInt64 <$> lo) xlo
    (bound_map "maximum" "exclusiveMaximum" (AInt64 <$> hi) xhi tp).

Definition AnyOfSchema_Map (Choices : list Schema) (tp : gomap any) : result (gomap any) :=
  arr ← map_schemas Choices; Ret (map_set "anyOf" (AMapList arr) tp).

Definition AllOfSchema_Map (Choices : list Schema) (tp : gomap any) : result (gomap any) :=
  arr ← map_schemas Choices; Ret (map_set "allOf" (AMapList arr) tp).

Definition NotSchema_Map (Child : option Schema) (tp : gomap any) : result (gomap any) :=
  m ← map_child Child; Ret (map_set "not" (AMap m) tp).

Definition ListSchema_Map (Item : option Schema) (tp : gomap any) : result (gomap any) :=
  m ← map_child Item; Ret (map_set "items" (AMap m) tp).

Definition TupleSchema_Map (Children : list Schema) (tp : gomap any) : result (gomap any) :=
  arr ← map_schemas Children; Ret (map_set "items" (AMapList arr) tp).

Definition MethodSchema_Map (Params : list Schema) (Returns AdditionalSchema : option Schema)
    (tp : gomap any) : result (gomap any) :=
  arr ← map_schemas Params;
  tp ← map_opt "returns" Returns (map_set "params" (AMapList arr) tp);
  map_opt "additionalParams" AdditionalSchema tp.

Definition ObjectSchema_Map (Properties : gomap Schema) (Requires : gomap bool)
    (AdditionalProperties : option Schema) (tp : gomap any) : result (gomap any) :=
  props ← map_props Properties;
  map_opt "additionalProperties" AdditionalProperties
    (map_set "requires" (AStrList (map_keys Requires)) (map_set "properties" (AMap props) tp)).
End map.

Fixpoint Map (s : Schema) : result (gomap any) :=
  let tp := rebuildType (Schema_mixin s) (Type_ s) in
  match s with
  | AnySchema _ | NullSchema _ | BoolSchema _ | StringSchema _ _ _ => Ret tp
  | NumberSchema _ lo hi xlo xhi => Ret (NumberSchema_Map lo hi xlo xhi tp)
  | IntegerSchema _ lo hi xlo xhi => Ret (IntegerSchema_Map lo hi xlo xhi tp)
  | AnyOfSchema _ cs => AnyOfSchema_Map Map cs tp
  | AllOfSchema _ cs => AllOfSchema_Map Map cs tp
  | NotSchema _ c => NotSchema_Map Map c tp
  | ListSchema _ it _ _ => ListSchema_Map Map it tp
  | TupleSchema _ cs _ => TupleSchema_Map Map cs tp
  | MethodSchema _ ps ret add => MethodSchema_Map Map ps ret add tp
  | ObjectSchema _ props reqs add => ObjectSchema_Map Map props reqs add tp
  end.

Definition SchemaToString (s : Schema) : result json :=
  structData ← Map s;
  match Marshal (AMap structData) with
  | None => Panic (PanicError (ErrorJson "marshal"))
  | Some data => Ret data
  end.

(** ** Well-formed schemas

    [schema_all P]: [P] holds of the schema and of every schema below it. *)

Section schema_all.
Context (P : Schema → Prop).

Fixpoint schema_all (s : Schema) : Prop :=
  P s ∧
  match s with
  | AnyOfSchema _ cs | AllOfSchema _ cs => list_all schema_all cs
  | NotSchema _ c | ListSchema _ c _ _ => opt_pred schema_all c
  | TupleSchema _ cs add => list_all schema_all cs ∧ opt_pred schema_all add
  | ObjectSchema _ props _ add =>
      list_all (λ kv, schema_all kv.2) props ∧ opt_pred schema_all add
  | MethodSchema _ ps ret add =>
      list_all schema_all ps ∧ opt_pred schema_all ret ∧ opt_pred schema_all add
  | _ => True
  end.
End schema_all.

(** The children a method is called on without a nil check are there, and the
    maps are maps. *)
Definition node_ok (s : Schema) : Prop :=
  match s with
  | NotSchema _ c => is_Some c
  | ListSchema _ it _ _ => is_Some it
  | ObjectSchema _ props reqs _ => map_ok props ∧ map_ok reqs
  | _ => True
  end.

Definition schema_ok : Schema → Prop := schema_all node_ok.

Definition is_finite (f : float64) : Prop :=
  match f with
  | SpecFloat.S754_zero _ | SpecFloat.S754_finite _ _ _ => True
  | _ => False
  end.

Definition node_finite (s : Schema) : Prop :=
  match s with
  | NumberSchema _ lo hi _ _ => opt_pred is_finite lo ∧ opt_pred is_finite hi
  | _ => True
  end.

(** Every bound of a number schema is a finite number. *)
Definition finite_bounds : Schema → Prop := schema_all node_finite.

(** ** Equal compares normal forms

    The normal form sorts the maps of an object schema and drops the sign of
    a zero bound. *)

Fixpoint schema_norm (s : Schema) : Schema :=
  match s with
  | NumberSchema m lo hi xlo xhi => NumberSchema m (float_norm <$> lo) (float_norm <$> hi) xlo xhi
  | AnyOfSchema m cs => AnyOfSchema m (schema_norm <$> cs)
  | AllOfSchema m cs => AllOfSchema m (schema_norm <$> cs)
  | NotSchema m c => NotSchema m (schema_norm <$> c)
  | ListSchema m it mn mx => ListSchema m (schema_norm <$> it) mn mx
  | TupleSchema m cs add => TupleSchema m (schema_norm <$> cs) (schema_norm <$> add)
  | ObjectSchema m props reqs add =>
      ObjectSchema m (map_sort ((λ kv, (kv.1, schema_norm kv.2)) <$> props)) (map_sort reqs)
        (schema_norm <$> add)
  | MethodSchema m ps ret add =>
      MethodSchema m (schema_norm <$> ps) (schema_norm <$> ret) (schema_norm <$> add)
  | _ => s
  end.

Definition schema_eqv (s1 s2 : Schema) : Prop := schema_norm s1 = schema_norm s2.

#[export] Instance schema_eqv_equiv : Equivalence schema_eqv.
Proof. split; unfold schema_eqv; red; congruence. Qed.

Lemma mixin_equal_iff m1 m2 : mixin_equal m1 m2 = true ↔ m1 = m2.
Proof.
  unfold mixin_equal. rewrite andb_true_intro_iff, !bool_decide_eq_true.
  destruct m1, m2; naive_solver.
Qed.

Lemma float_eqb_norm f g :
  is_finite f → is_finite g → float_eqb f g = true ↔ float_norm f = float_norm g.
Proof.
  destruct f as [s| | |s m e], g as [s'| | |s' m' e']; try done; intros _ _;
    unfold float_eqb, SpecFloat.SFeqb; simpl.
  - by destruct s'.
  - by destruct s.
  - destruct s, s'; simpl; try done;
      (destruct (Z.compare_spec e e') as [->|?|?]; simpl; [|naive_solver lia..]);
      change (PosDef.Pos.compare_cont Eq m m') with (Pos.compare m m');
      destruct (Pos.compare_spec m m') as [->|?|?]; simpl; naive_solver lia.
Qed.

Lemma PointerEqual_iff {T} (eqb : T → T → bool) (n : T → T) p1 p2 :
  opt_pred (λ x1, opt_pred (λ x2, eqb x1 x2 = true ↔ n x1 = n x2) p2) p1 →
  PointerEqual eqb p1 p2 = true ↔ n <$> p1 = n <$> p2.
Proof. destruct p1, p2; simpl; try done. intros ->. split; [by intros ->|by intros [=]]. Qed.

Lemma PointerEqual_Z p1 p2 : PointerEqual Z.eqb p1 p2 = true ↔ p1 = p2.
Proof. destruct p1, p2; simpl; try done. rewrite Z.eqb_eq. naive_solver. Qed.

Lemma PointerEqual_bool p1 p2 : PointerEqual Bool.eqb p1 p2 = true ↔ p1 = p2.
Proof. destruct p1, p2; simpl; try done. rewrite Bool.eqb_true_iff. naive_solver. Qed.

Lemma map_equal_loop_iff {T} (eqb : T → T → bool) m1 m2 :
  map_equal_loop eqb m1 m2 = true ↔
  Forall (λ kv : string * T, ∃ x, map_get kv.1 m2 = Some x ∧ eqb kv.2 x = true) m1.
Proof.
  induction m1 as [|[k x] m1 IH]; simpl; [by rewrite Forall_nil|].
  rewrite Forall_cons. destruct (map_get k m2) as [y|] eqn:Hy; simpl.
  - destruct (eqb x y) eqn:E; rewrite ?IH.
    + split; [intros ?; split; [by exists y|done]|by intros [_ ?]].
    + split; [done|]. intros [(z & Hyz & Hz) _]. congruence.
  - split; [done|]. intros [(z & Hyz & _) _]. congruence.
Qed.

(** Two maps of one size are equal when every entry of the first has its
    equal in the second. *)
Lemma map_equal_iff {T} (eqb : T → T → bool) (n : T → T) m1 m2 :
  map_ok m1 → map_ok m2 →
  Forall (λ kv : string * T, ∀ k y, (k, y) ∈ m2 → eqb kv.2 y = true ↔ n kv.2 = n y) m1 →
  map_equal eqb m1 m2 = true ↔
  map_sort ((λ kv, (kv.1, n kv.2)) <$> m1) = map_sort ((λ kv, (kv.1, n kv.2)) <$> m2).
Proof.
  intros Hok1 Hok2 Heq. unfold map_equal. rewrite Forall_forall in Heq.
  set (f := λ kv : string * T, (kv.1, n kv.2)).
  assert (∀ m : gomap T, map_ok m → map_ok (f <$> m)) as Hf.
  { intros m. unfold map_ok, f. by rewrite map_keys_fmap. }
  split.
  - destruct (Nat.eqb_spec (length m1) (length m2)) as [Hlen|]; simpl; [|done].
    rewrite map_equal_loop_iff, Forall_forall. intros Hall.
    apply map_sort_canonical; [auto|].
    apply submseteq_length_Permutation; [|by rewrite !length_fmap, Hlen].
    apply NoDup_submseteq; [by eapply NoDup_fmap_1, Hf|].
    intros [k v] Hin. apply list_elem_of_fmap in Hin as ([k' x] & [= -> ->] & Hin).
    destruct (Hall _ Hin) as (y & Hy & Hxy).
    apply map_get_Some_elem in Hy. simpl in *.
    pose proof (proj1 (Heq _ Hin _ _ Hy) Hxy) as Hn. simpl in Hn.
    apply list_elem_of_fmap. exists (k', y). unfold f; simpl. by rewrite Hn.
  - intros Hs.
    assert (f <$> m1 ≡ₚ f <$> m2) as Hp.
    { rewrite <- (map_sort_perm (f <$> m1)), Hs. apply map_sort_perm. }
    assert (length m1 = length m2) as ->.
    { by rewrite <- (length_fmap f m1), Hp, length_fmap. }
    rewrite Nat.eqb_refl; simpl. apply map_equal_loop_iff, Forall_forall.
    intros [k x] Hin.
    assert ((k, n x) ∈ f <$> m2) as Hin2.
    { rewrite <- Hp. apply list_elem_of_fmap. by exists (k, x). }
    apply list_elem_of_fmap in Hin2 as ([k' y] & [= -> Hxy] & Hin2).
    exists y. split; [by apply map_get_elem|]. by apply (Heq _ Hin _ _ Hin2).
Qed.

Lemma SchemaListEqual_iff (n : Schema → Schema) l1 l2 :
  Forall (λ s1, ∀ s2, s2 ∈ l2 → Equal s1 s2 = true ↔ n s1 = n s2) l1 →
  SchemaListEqual Equal l1 l2 = true ↔ n <$> l1 = n <$> l2.
Proof.
  unfold SchemaListEqual. intros H.
  destruct (Nat.eqb_spec (length l1) (length l2)) as [Hlen|Hlen]; simpl.
  - revert l2 H Hlen. induction l1 as [|s1 l1 IH]; intros [|s2 l2] H Hlen; try done.
    rewrite !fmap_cons. cbn [SchemaListEqual_loop].
    apply Forall_cons in H as [H1 H2]. injection Hlen as Hlen.
    specialize (IH l2). destruct (Equal s1 s2) eqn:E.
    + apply H1 in E; [|by left]. rewrite IH, E; [split; [by intros ->|by intros [= ->]]| |done].
      eapply Forall_impl; [done|]. intros s Hs s' Hin. apply Hs. by right.
    + split; [done|]. intros [= Hn _]. apply H1 in Hn; [congruence|by left].
  - split; [done|]. intros Hn. by rewrite <- (length_fmap n l1), Hn, length_fmap in Hlen.
Qed.

Lemma schema_all_impl2 (P Q R : Schema → Prop) s :
  (∀ s, P s → Q s → R s) → schema_all P s → schema_all Q s → schema_all R s.
Proof.
  intros HR.
  assert (∀ l : list Schema, Forall (λ s, schema_all P s → schema_all Q s → schema_all R s) l →
    list_all (schema_all P) l → list_all (schema_all Q) l → list_all (schema_all R) l) as Hl.
  { induction 1; simpl; naive_solver. }
  assert (∀ m : gomap Schema,
    Forall (λ kv, schema_all P kv.2 → schema_all Q kv.2 → schema_all R kv.2) m →
    list_all (λ kv, schema_all P kv.2) m → list_all (λ kv, schema_all Q kv.2) m →
    list_all (λ kv, schema_all R kv.2) m) as Hm.
  { induction 1; simpl; naive_solver. }
  assert (∀ o, opt_pred (λ s, schema_all P s → schema_all Q s → schema_all R s) o →
    opt_pred (schema_all P) o → opt_pred (schema_all Q) o → opt_pred (schema_all R) o) as Ho.
  { intros [?|]; simpl; auto. }
  induction s using Schema_ind; simpl; intros [??] [??]; destruct_and?; split_and?; auto.
Qed.

Section equal_list.
Context (ok : Schema → Prop) (n : Schema → Schema).
Definition equal_at (s1 : Schema) : Prop :=
  ∀ s2, ok s1 → ok s2 → Equal s1 s2 = true ↔ n s1 = n s2.

Lemma SchemaListEqual_at l1 l2 :
  Forall equal_at l1 → list_all ok l1 → list_all ok l2 →
  SchemaListEqual Equal l1 l2 = true ↔ n <$> l1 = n <$> l2.
Proof.
  rewrite !list_all_Forall, !Forall_forall. intros IH H1 H2.
  apply SchemaListEqual_iff, Forall_forall. intros s1 Hs1 s2 Hs2. apply IH; auto.
Qed.

Lemma SubSchemaEqual_at o1 o2 :
  opt_pred equal_at o1 → opt_pred ok o1 → opt_pred ok o2 →
  SubSchemaEqual Equal o1 o2 = true ↔ n <$> o1 = n <$> o2.
Proof.
  intros IH H1 H2. apply PointerEqual_iff.
  destruct o1, o2; simpl in *; auto.
Qed.

Lemma SchemaMapEqual_at (m1 m2 : gomap Schema) :
  Forall (λ kv, equal_at kv.2) m1 → map_ok m1 → map_ok m2 →
  list_all (λ kv, ok kv.2) m1 → list_all (λ kv, ok kv.2) m2 →
  SchemaMapEqual Equal m1 m2 = true ↔
  map_sort ((λ kv, (kv.1, n kv.2)) <$> m1) = map_sort ((λ kv, (kv.1, n kv.2)) <$> m2).
Proof.
  rewrite !list_all_Forall, !Forall_forall. intros IH Hok1 Hok2 H1 H2.
  apply map_equal_iff; [done..|]. apply Forall_forall. intros kv Hin k s2 Hs2.
  apply IH; auto. by apply (H2 (k, s2)).
Qed.
End equal_list.

Lemma SchemaMapValueEqual_iff m1 m2 :
  map_ok m1 → map_ok m2 → SchemaMapValueEqual m1 m2 = true ↔ map_sort m1 = map_sort m2.
Proof.
  intros Hok1 Hok2. unfold SchemaMapValueEqual. rewrite (map_equal_iff _ id); [|done..|].
  - assert (∀ m : gomap bool, (λ kv, (kv.1, id kv.2)) <$> m = m) as Hid; [|by rewrite !Hid].
    induction m as [|[k b] m IH]; [done|]. rewrite fmap_cons, IH. done.
  - apply Forall_true. intros kv k y _. apply Bool.eqb_true_iff.
Qed.

Lemma PointerEqual_float p1 p2 :
  opt_pred is_finite p1 → opt_pred is_finite p2 →
  PointerEqual float_eqb p1 p2 = true ↔ float_norm <$> p1 = float_norm <$> p2.
Proof.
  intros H1 H2. apply PointerEqual_iff. destruct p1, p2; simpl in *; auto using float_eqb_norm.
Qed.

Definition schema_fine : Schema → Prop := schema_all (λ s, node_ok s ∧ node_finite s).

Lemma schema_fine_intro s : schema_ok s → finite_bounds s → schema_fine s.
Proof. apply schema_all_impl2. auto. Qed.

Lemma Equal_norm s1 s2 :
  schema_fine s1 → schema_fine s2 → Equal s1 s2 = true ↔ schema_norm s1 = schema_norm s2.
Proof.
  revert s2. assert (equal_at schema_fine schema_norm s1) as H; [|intros; by apply H].
  induction s1 using Schema_ind; intros s2 [Hn1 Hc1] Hs2;
    destruct s2; destruct Hs2 as [Hn2 Hc2];
    cbn [Equal AnySchema_Equal NullSchema_Equal BoolSchema_Equal NumberSchema_Equal IntegerSchema_Equal
      StringSchema_Equal AnyOfSchema_Equal AllOfSchema_Equal NotSchema_Equal ListSchema_Equal TupleSchema_Equal
      MethodSchema_Equal ObjectSchema_Equal schema_norm]; try (by split; [done|intros [=]]);
    rewrite ?andb_true_intro_iff, ?mixin_equal_iff, ?PointerEqual_Z, ?PointerEqual_bool;
    fold schema_fine in Hc1, Hc2; cbn [node_ok node_finite] in Hn1, Hn2; destruct_and?.
  all: rewrite ?PointerEqual_float by done.
  all: rewrite ?(SchemaListEqual_at schema_fine schema_norm) by done.
  all: rewrite ?(SubSchemaEqual_at schema_fine schema_norm) by done.
  all: rewrite ?(SchemaMapEqual_at schema_fine schema_norm) by done.
  all: rewrite ?SchemaMapValueEqual_iff by done.
  all: split; [intros; destruct_and?; congruence|by intros [=]; split_and?].
Qed.

(** C23. Equality of schemas.  [Equal] decides whether two schemas are the same
    up to the order of the entries of their maps and the sign of a zero
    bound; on well-formed schemas it is therefore reflexive, symmetric and
    transitive. *)
Theorem Equal_spec s1 s2 :
  schema_ok s1 → finite_bounds s1 → schema_ok s2 → finite_bounds s2 →
  Equal s1 s2 = true ↔ schema_eqv s1 s2.
Proof. intros. apply Equal_norm; by apply schema_fine_intro. Qed.

Lemma Equal_spec_witness :
  Equal (ObjectSchema mixin0 [("a", NewIntegerSchema); ("b", NewStringSchema)] [("a", true)] None)
        (ObjectSchema mixin0 [("b", NewStringSchema); ("a", NewIntegerSchema)] [("a", true)] None)
    = true.
Proof.
  apply Equal_spec; try by vm_compute.
  - repeat split; by eval_decide.
  - repeat split; by eval_decide.
Defined.

(** ** Map and SchemaToString are total on well-formed schemas *)

Definition entries_ok (m : gomap any) : Prop := Forall (λ kv, is_Some (Marshal kv.2)) m.

Lemma marshal_entries_ok m : entries_ok m → is_Some (marshal_entries Marshal m).
Proof.
  induction 1 as [|[k v] m [j Hj] _ [js Hjs]]; [by eexists|].
  simpl in Hj. cbn [marshal_entries]. rewrite Hj, Hjs. by eexists.
Qed.

Lemma Marshal_AMap m : entries_ok m → is_Some (Marshal (AMap m)).
Proof. intros [js Hjs]%marshal_entries_ok. cbn [Marshal]. rewrite Hjs. by eexists. Qed.

Lemma Marshal_AMapList l : Forall entries_ok l → is_Some (Marshal (AMapList l)).
Proof.
  intros Hl. cbn [Marshal].
  assert (is_Some (marshal_maps Marshal l)) as [js ->]; [|by eexists].
  induction Hl as [|m l [js Hjs]%marshal_entries_ok _ [rest Hrest]]; [by eexists|].
  cbn [marshal_maps]. rewrite Hjs, Hrest. by eexists.
Qed.

Lemma Marshal_AFloat f : is_finite f → is_Some (Marshal (AFloat f)).
Proof.
  intros Hf. cbn [Marshal]. apply fmap_is_Some.
  destruct f; [by eexists|done|done|]. unfold FormatFloat. destruct (float_decimal _ _). by eexists.
Qed.

(** A description of a schema of type [ty] that JSON can carry. *)
Definition utf8_keys {V} (m : gomap V) : Prop := Forall (λ k, utf8_ok k = true) (map_keys m).

Definition described (ty : string) (m : gomap any) : Prop :=
  entries_ok m ∧ map_ok m ∧ utf8_keys m ∧ map_get "type" m = Some (AString ty).

Lemma utf8_keys_set {V} k (v : V) m : utf8_ok k = true → utf8_keys m → utf8_keys (map_set k v m).
Proof.
  unfold utf8_keys. rewrite !Forall_forall. intros Hk Hm k' [->|Hin]%map_keys_set_elem; auto.
Qed.

Lemma described_set ty k v m :
  k ≠ "type" → utf8_ok k = true → is_Some (Marshal v) → described ty m → described ty (map_set k v m).
Proof.
  intros Hk Hu Hv (Hm & Hok & Hus & Ht). split_and!.
  - by apply map_set_Forall.
  - by apply map_set_ok.
  - by apply utf8_keys_set.
  - by rewrite map_get_set_ne.
Qed.

Lemma described_bound ty key exkey b ex m :
  key ≠ "type" → exkey ≠ "type" → utf8_ok key = true → utf8_ok exkey = true →
  opt_pred (λ v, is_Some (Marshal v)) b → described ty m → described ty (bound_map key exkey b ex m).
Proof.
  destruct b; simpl; [|done]. intros. destruct ex; simpl; repeat apply described_set; eauto.
Qed.

Lemma described_rebuildType mx ty : described ty (rebuildType mx ty).
Proof.
  assert (described ty [("type", AString ty)]) as H0.
  { split_and!; [constructor; [by eexists|constructor]|apply NoDup_singleton| |done].
    by repeat constructor. }
  unfold rebuildType. repeat case_bool_decide;
    repeat first [exact H0 | apply described_set; [done|done|by eexists|]].
Qed.

Definition Map_ok (s : Schema) : Prop := returns (described (Type_ s)) (Map s).

Lemma map_opt_described ty key c m :
  key ≠ "type" → utf8_ok key = true → opt_pred Map_ok c → described ty m →
  returns (described ty) (map_opt Map key c m).
Proof.
  destruct c as [s|]; simpl; [|auto with jsoff]. intros Hk Hu Hs Hm.
  eapply returns_bind; [exact Hs|]. intros m' [Hm' _].
  apply returns_Ret, described_set; auto using Marshal_AMap.
Qed.

Lemma map_child_described c :
  is_Some c → opt_pred Map_ok c → returns entries_ok (map_child Map c).
Proof. intros [s ->] Hs. eapply returns_impl; [exact Hs|]. by intros ? []. Qed.

Lemma map_schemas_described l :
  Forall Map_ok l → returns (Forall entries_ok) (map_schemas Map l).
Proof.
  induction 1 as [|s l Hs _ IH]; [by apply returns_Ret|].
  eapply returns_bind; [exact Hs|]. intros m [Hm _].
  eapply returns_bind; [exact IH|]. intros arr Harr. apply returns_Ret. by constructor.
Qed.

Lemma map_props_described (l : gomap Schema) :
  Forall (λ kv, Map_ok kv.2) l → returns entries_ok (map_props Map l).
Proof.
  induction 1 as [|[k s] l Hs _ IH]; [apply returns_Ret; constructor|].
  eapply returns_bind; [exact Hs|]. intros m [Hm _].
  eapply returns_bind; [exact IH|]. intros props Hprops.
  apply returns_Ret. constructor; [by apply Marshal_AMap|done].
Qed.

Lemma Map_described s : schema_fine s → Map_ok s.
Proof.
  assert (∀ l : list Schema, Forall (λ s, schema_fine s → Map_ok s) l →
    list_all schema_fine l → Forall Map_ok l) as Hl.
  { intros l. rewrite list_all_Forall, !Forall_forall. auto. }
  assert (∀ l : gomap Schema, Forall (λ kv, schema_fine kv.2 → Map_ok kv.2) l →
    list_all (λ kv, schema_fine kv.2) l → Forall (λ kv, Map_ok kv.2) l) as Hm.
  { intros l. rewrite list_all_Forall, !Forall_forall. auto. }
  assert (∀ o, opt_pred (λ s, schema_fine s → Map_ok s) o → opt_pred schema_fine o →
    opt_pred Map_ok o) as Ho by (intros [?|]; simpl; auto).
  pose proof described_rebuildType as Hr. pose proof Marshal_AMapList as HL.
  pose proof Marshal_AMap as HM.
  induction s using Schema_ind; intros [Hn Hc]; fold schema_fine in *; unfold Map_ok;
    cbn [Map NumberSchema_Map IntegerSchema_Map AnyOfSchema_Map AllOfSchema_Map NotSchema_Map
      ListSchema_Map TupleSchema_Map MethodSchema_Map ObjectSchema_Map Type_ Schema_mixin];
    simpl in Hn; destruct_and?; try by apply returns_Ret.
  - apply returns_Ret. repeat apply described_bound; auto;
      destruct lo, hi; try done; by apply Marshal_AFloat.
  - apply returns_Ret. repeat apply described_bound; auto;
      destruct lo, hi; try done; by eexists.
  - eapply returns_bind; [by apply map_schemas_described, Hl|]. intros arr Harr.
    apply returns_Ret, described_set; auto.
  - eapply returns_bind; [by apply map_schemas_described, Hl|]. intros arr Harr.
    apply returns_Ret, described_set; auto.
  - eapply returns_bind; [apply map_child_described; auto|]. intros m' Hm'.
    apply returns_Ret, described_set; auto.
  - eapply returns_bind; [apply map_child_described; auto|]. intros m' Hm'.
    apply returns_Ret, described_set; auto.
  - eapply returns_bind; [by apply map_schemas_described, Hl|]. intros arr Harr.
    apply returns_Ret, described_set; auto.
  - eapply returns_bind; [by apply map_props_described, Hm|]. intros ps Hps.
    apply map_opt_described; auto. repeat (apply described_set; [done|done|eauto|]); auto.
  - eapply returns_bind; [by apply map_schemas_described, Hl|]. intros arr Harr.
    eapply returns_bind; [apply map_opt_described; auto; apply described_set; auto|].
    intros tp Htp. apply map_opt_described; auto.
Qed.

(** Self-description.  A well-formed schema whose bounds are finite has a
    map: no nil child is called, the map names the type of the schema under
    "type", and SchemaToString returns its JSON text instead of panicking. *)
Theorem Map_spec s :
  schema_ok s → finite_bounds s →
  (∃ m, Map s = Ret m ∧ map_get "type" m = Some (AString (Type_ s))) ∧
  ∃ j, SchemaToString s = Ret j.
Proof.
  intros H1 H2. destruct (Map_described s) as (m & Hm & Hok & _ & _ & Ht); [by apply schema_fine_intro|].
  split; [by eauto|]. unfold SchemaToString. rewrite Hm.
  destruct (Marshal_AMap m Hok) as [j Hj]. exists j.
  unfold mbind, outcome_mbind, outcome_bind. by rewrite Hj.
Qed.

Lemma Map_spec_witness :
  ∃ j, SchemaToString (ListSchema mixin0 (Some NewStringSchema) None None) = Ret j.
Proof. apply Map_spec; repeat split; try by eexists. Defined.
