(* ===== verification/Convert.v ===== *)
(** * Attributes of a type description: schema/convert.go

    A Go function that returns a value and an [ok] flag is a function to an
    option.  [convertTypeMap] adds a "type" entry to the map it is given: here
    it returns the extended map.  The two agree on data in which no map is
    shared by two nodes, which is what decoding JSON or yaml produces. *)

From S2P Require Import Prelude GoMap Strconv Values.
From stdpp Require Import options.
#[local] Open Scope Z_scope.

Definition stringInList (a : string) (candidates : list string) : bool :=
  existsb (λ ca, bool_decide (ca = a)) candidates.

Definition has_key (k : string) (m : gomap any) : bool := bool_decide (is_Some (map_get k m)).

Definition shorthands : list string := ["string"; "number"; "integer"; "bool"; "null"].

(** The type guessed for a map without a "type" field. *)
Definition guess_type (typeMap : gomap any) : option string :=
  if has_key "params" typeMap then Some "method"
  else if has_key "properties" typeMap then Some "object"
  else List.find (λ tp, has_key tp typeMap) ["anyOf"; "allOf"; "not"].

Definition add_type (typeMap : gomap any) : gomap any :=
  if has_key "type" typeMap then typeMap
  else match guess_type typeMap with
       | Some tp => map_set "type" (AString tp) typeMap
       | None => typeMap
       end.

Definition convertTypeMap (maybeType : any) : option (gomap any) :=
  match maybeType with
  | AString typeStr => if stringInList typeStr shorthands then Some [("type", AString typeStr)] else None
  | AMap typeMap => Some (add_type typeMap)
  | _ => None
  end.

Definition convertAttrMap (node : gomap any) (attrName : string) (optional : bool) : option (gomap any) :=
  match map_get attrName node with
  | Some v => convertTypeMap v
  | None => if optional then Some [] else None
  end.

Definition convertAttrList (node : gomap any) (attrName : string) (optional : bool) : option (list any) :=
  match map_get attrName node with
  | Some (AList aList) => Some aList
  | Some _ => None
  | None => if optional then Some [] else None
  end.

Definition convertAttrBool (node : gomap any) (attrName : string) (optional : bool) : option bool :=
  match map_get attrName node with
  | Some (ABool bf) => Some bf
  | Some _ => None
  | None => if optional then Some false else None
  end.

(** [int] has 64 bits, so the conversion from int64 changes nothing. *)
Definition convertAttrInt (node : gomap any) (attrName : string) (optional : bool) : option Z :=
  match map_get attrName node with
  | Some (AInt intv) => Some intv
  | Some (ANumber n) => ParseInt n
  | Some _ => None
  | None => if optional then Some 0 else None
  end.

Definition convertAttrFloat (node : gomap any) (attrName : string) (optional : bool) : option float64 :=
  match map_get attrName node with
  | Some (AInt n) => Some (float_of_Z n)
  | Some (AFloat n) => Some n
  | Some (ANumber n) => let '(fv, ok) := ParseFloat n in if ok then Some fv else None
  | Some _ => None
  | None => if optional then Some float_zero else None
  end.

(** The loops of convertAttrMapOfMap and convertAttrListOfMap. *)
Fixpoint convert_entries (mm : gomap any) : option (gomap (gomap any)) :=
  match mm with
  | [] => Some []
  | (name, value) :: mm =>
      mv ← convertTypeMap value; resMap ← convert_entries mm; Some ((name, mv) :: resMap)
  end.

Fixpoint convert_items (aList : list any) : option (list (gomap any)) :=
  match aList with
  | [] => Some []
  | item :: aList => itemMap ← convertTypeMap item; arr ← convert_items aList; Some (itemMap :: arr)
  end.

Definition convertAttrMapOfMap (node : gomap any) (attrName : string) (optional : bool)
    : option (gomap (gomap any)) :=
  match convertAttrMap node attrName false with
  | Some mm => convert_entries mm
  | None => if optional then Some [] else None
  end.

Definition convertAttrListOfMap (node : gomap any) (attrName : string) (optional : bool)
    : option (list (gomap any)) :=
  match map_get attrName node with
  | Some (AList aList) => convert_items aList
  | Some _ => None
  | None => if optional then Some [] else None
  end.

Fixpoint convert_strings (aList : list any) : option (list string) :=
  match aList with
  | [] => Some []
  | AString strItem :: aList => arr ← convert_strings aList; Some (strItem :: arr)
  | _ => None
  end.

Definition convertAttrListOfString (node : gomap any) (attrName : string) (optional : bool)
    : option (list string) :=
  match map_get attrName node with
  | Some (AList aList) => convert_strings aList
  | Some _ => None
  | None => if optional then Some [] else None
  end.
