(* ===== verification/Validator.v ===== *)
(** * The validator: schema/validator.go and the Scan methods of
      schema/schema.go

    The state of a SchemaValidator that matters is [paths], the stack of path
    components of the value under examination; its fields [hint] and
    [errorPath] are never used.  [Scan] is the dynamic dispatch
    [schema.Scan(validator, data)]; each method of the source is a definition
    that takes it as its argument.  A panic abandons the validator. *)

From S2P Require Import Prelude GoMap Strconv Values Messages Schema Convert.
From stdpp Require Import options.
#[local] Open Scope Z_scope.

Record ErrorPos := mkErrorPos { pos_paths : list string; pos_hint : string }.

Definition V : Type → Type := stateT (list string) panic.

Definition v_panic {A} (p : panic) : V A := λ _, Panic p.

(** ** ErrorPos *)

Definition ErrorPos_Path (pos : ErrorPos) : string := String.concat "" (pos_paths pos).

Definition ErrorPos_Error (pos : ErrorPos) : string :=
  "Validation Error: " +:+ ErrorPos_Path pos +:+ " " +:+ pos_hint pos.

Definition ErrorPos_RPCError (pos : ErrorPos) : RPCError :=
  mkRPCError (RPCError_Code ErrInvalidSchema) (ErrorPos_Error pos) ANil.

Definition ErrorPos_ToMessage (pos : ErrorPos) (reqmsg : RequestMessage) : result ErrorMessage :=
  ToMessage (ErrorPos_RPCError pos) reqmsg.

(** ** The path stack *)

Definition NewErrorPos (hint : string) : V ErrorPos :=
  λ paths, Ret (mkErrorPos paths hint, paths).

Definition pushPath (path : string) : V unit :=
  λ paths, Ret (tt, if bool_decide (path = "") then paths else paths ++ [path]).

Definition popPath (path : string) : V unit :=
  λ paths,
    if bool_decide (path = "") then Ret (tt, paths)
    else match last paths with
         | None => Panic out_of_range
         | Some top =>
             if bool_decide (top = path) then Ret (tt, take (length paths - 1) paths)
             else Panic (PanicError (ErrorString ("pop path " +:+ path +:+
                    " is different from stack top " +:+ top)))
         end.

Definition fail (hint : string) : V (option ErrorPos) := errPos ← NewErrorPos hint; mret (Some errPos).

(** [items[i]] *)
Definition index (items : list any) (i : nat) : V any :=
  match items !! i with Some item => mret item | None => v_panic out_of_range end.

(** ** Ranges

    checkRange of NumberSchema and of IntegerSchema: the same code over two
    types of numbers. *)
Definition checkRange {T} (le lt : T → T → bool) (Minimum Maximum : option T)
    (ExclusiveMinimum ExclusiveMaximum : option bool) (v : T) : V (option ErrorPos) :=
  let exmax := default false ExclusiveMaximum in
  let exmin := default false ExclusiveMinimum in
  let check_min :=
    match Minimum with
    | None => mret None
    | Some mn =>
        if negb exmin && lt v mn then fail "value < minimum"
        else if exmin && le v mn then fail "value <= minimum"
        else mret None
    end in
  match Maximum with
  | None => check_min
  | Some mx =>
      if exmax && le mx v then fail "value >= maximum"
      else if negb exmax && lt mx v then fail "value > maximum"
      else check_min
  end.

(** ** The Scan methods *)

Definition AnySchema_Scan (data : any) : V (option ErrorPos) := mret None.

Definition NullSchema_Scan (data : any) : V (option ErrorPos) :=
  match data with ANil => mret None | _ => fail "data is not null" end.

Definition BoolSchema_Scan (data : any) : V (option ErrorPos) :=
  match data with ABool _ => mret None | _ => fail "data is not bool" end.

(** The number a NumberSchema sees; the range error of [n.Float64()] is
    ignored. *)
Definition number_of (data : any) : option float64 :=
  match data with
  | ANumber n => Some (ParseFloat n).1
  | AInt n => Some (float_of_Z n)
  | AFloat n => Some n
  | _ => None
  end.

Definition NumberSchema_Scan (lo hi : option float64) (xlo xhi : option bool) (data : any)
    : V (option ErrorPos) :=
  match number_of data with
  | Some v => checkRange float_leb float_ltb lo hi xlo xhi v
  | None => fail "data is not number"
  end.

Definition integer_of (data : any) : option Z :=
  match data with
  | ANumber n => ParseInt n
  | AInt n => Some n
  | _ => None
  end.

Definition IntegerSchema_Scan (lo hi : option Z) (xlo xhi : option bool) (data : any)
    : V (option ErrorPos) :=
  match integer_of data with
  | Some v => checkRange Z.leb Z.ltb lo hi xlo xhi v
  | None => fail "data is not integer"
  end.

(** [p != nil && x > *p] *)
Definition exceeds (x : nat) (p : option Z) : bool :=
  match p with Some mx => mx <? Z.of_nat x | None => false end.
Definition below (x : nat) (p : option Z) : bool :=
  match p with Some mn => Z.of_nat x <? mn | None => false end.

Definition StringSchema_Scan (mx mn : option Z) (data : any) : V (option ErrorPos) :=
  match data with
  | AString str =>
      if exceeds (String.length str) mx then fail "len(str) > maxLength"
      else if below (String.length str) mn then fail "len(str) < minLength"
      else mret None
  | _ => fail "data is not string"
  end.

Section scan.
Context (scan : Schema → any → V (option ErrorPos)).

(** [schema.Scan(validator, data)] on an interface value. *)
Definition scan_dyn (schema : option Schema) (data : any) : V (option ErrorPos) :=
  match schema with Some s => scan s data | None => v_panic nil_deref end.

(** [validator.Scan(schema, path, data)] *)
Definition validator_Scan (schema : option Schema) (path : string) (data : any)
    : V (option ErrorPos) :=
  _ ← pushPath path;
  errPos ← scan_dyn schema data;
  _ ← popPath path;
  mret errPos.

(** [if errPos := ...; errPos != nil { return errPos }] and the rest. *)
Definition and_then (m rest : V (option ErrorPos)) : V (option ErrorPos) :=
  errPos ← m;
  match errPos with Some e => mret (Some e) | None => rest end.

Fixpoint AnyOfSchema_Scan (Choices : list Schema) (data : any) : V (option ErrorPos) :=
  match Choices with
  | [] => fail "data is not any of the types"
  | schema :: Choices =>
      errPos ← validator_Scan (Some schema) "" data;
      match errPos with
      | None => mret None
      | Some _ => AnyOfSchema_Scan Choices data
      end
  end.

Fixpoint AllOfSchema_Scan (Choices : list Schema) (data : any) : V (option ErrorPos) :=
  match Choices with
  | [] => mret None
  | schema :: Choices =>
      and_then (validator_Scan (Some schema) "" data) (AllOfSchema_Scan Choices data)
  end.

Definition NotSchema_Scan (Child : option Schema) (data : any) : V (option ErrorPos) :=
  errPos ← scan_dyn Child data;
  match errPos with
  | None => fail "not validator failed"
  | Some _ => mret None
  end.

(** The loop over items from index [i], each checked against one schema. *)
Fixpoint scan_items (schema : option Schema) (i : nat) (items : list any) : V (option ErrorPos) :=
  match items with
  | [] => mret None
  | item :: items =>
      and_then (validator_Scan schema (index_path i) item) (scan_items schema (S i) items)
  end.

Definition ListSchema_Scan (Item : option Schema) (MinItems MaxItems : option Z) (data : any)
    : V (option ErrorPos) :=
  match data with
  | AList items =>
      if exceeds (length items) MaxItems then fail "len(items) > maxItems"
      else if below (length items) MinItems then fail "len(items) < minItems"
      else scan_items Item 0 items
  | _ => fail "data is not a list"
  end.

(** The loop over schemas from index [i], each applied to [items[i]]. *)
Fixpoint scan_children (Children : list Schema) (i : nat) (items : list any)
    : V (option ErrorPos) :=
  match Children with
  | [] => mret None
  | schema :: Children =>
      item ← index items i;
      and_then (validator_Scan (Some schema) (index_path i) item)
        (scan_children Children (S i) items)
  end.

Definition TupleSchema_Scan (Children : list Schema) (AdditionalSchema : option Schema)
    (data : any) : V (option ErrorPos) :=
  match data with
  | AList items =>
      let n := length Children in
      let body :=
        and_then (scan_children Children 0 items)
          match AdditionalSchema with
          | Some _ => scan_items AdditionalSchema n (drop n items)
          | None => mret None
          end in
      match AdditionalSchema with
      | None =>
          if negb (length items =? n)%nat then fail "tuple items length mismatch" else body
      | Some _ =>
          if (length items <? n)%nat then fail "data items length smaller than expected" else body
      end
  | _ => fail "data is not a list"
  end.

Definition ScanParams (Params : list Schema) (AdditionalSchema : option Schema)
    (params : list any) : V (option ErrorPos) :=
  let n := length Params in
  _ ← pushPath ".params";
  errPos ←
    (if (length params <? n)%nat then fail "length of params mismatch"
     else
       and_then (scan_children Params 0 params)
         (if (n <? length params)%nat then
            match AdditionalSchema with
            | None => fail "length of params mismatch"
            | Some _ => scan_items AdditionalSchema n (drop n params)
            end
          else mret None));
  _ ← popPath ".params";
  mret errPos.

Definition ScanResult (Returns : option Schema) (result : any) : V (option ErrorPos) :=
  match Returns with
  | Some _ => validator_Scan Returns ".result" result
  | None => mret None
  end.

Definition MethodSchema_Scan (Params : list Schema) (Returns AdditionalSchema : option Schema)
    (data : any) : V (option ErrorPos) :=
  match data with
  | AMap dataMap =>
      match convertAttrList dataMap "params" false with
      | Some params => ScanParams Params AdditionalSchema params
      | None =>
          match map_get "result" dataMap with
          | Some result => ScanResult Returns result
          | None => fail "data is not a JSONRPC message"
          end
      end
  | _ => fail "data is not object"
  end.

(** The loop over the properties, in the order in which the map is visited. *)
Fixpoint scan_props (props : gomap Schema) (Requires : gomap bool) (obj : gomap any)
    : V (option ErrorPos) :=
  match props with
  | [] => mret None
  | (prop, schema) :: props =>
      match map_get prop obj with
      | Some v =>
          and_then (validator_Scan (Some schema) ("." +:+ prop) v) (scan_props props Requires obj)
      | None =>
          match map_get prop Requires with
          | Some _ =>
              _ ← pushPath ("." +:+ prop);
              errPos ← fail "required prop is not present";
              _ ← popPath ("." +:+ prop);
              mret errPos
          | None => scan_props props Requires obj
          end
      end
  end.

(** The loop over the members that are not properties; [checked] holds the
    properties visited. *)
Fixpoint scan_additional (add : option Schema) (checked : list string) (obj : gomap any)
    : V (option ErrorPos) :=
  match obj with
  | [] => mret None
  | (prop, v) :: obj =>
      if bool_decide (prop ∈ checked) then scan_additional add checked obj
      else and_then (validator_Scan add ("." +:+ prop) v) (scan_additional add checked obj)
  end.

Definition ObjectSchema_Scan (Properties : gomap Schema) (Requires : gomap bool)
    (AdditionalProperties : option Schema) (data : any) : V (option ErrorPos) :=
  match data with
  | AMap obj =>
      and_then (scan_props Properties Requires obj)
        match AdditionalProperties with
        | Some _ => scan_additional AdditionalProperties (map_keys Properties) obj
        | None => mret None
        end
  | _ => fail "data is not an object"
  end.
End scan.

Fixpoint Scan (s : Schema) (data : any) : V (option ErrorPos) :=
  match s with
  | AnySchema _ => AnySchema_Scan data
  | NullSchema _ => NullSchema_Scan data
  | BoolSchema _ => BoolSchema_Scan data
  | NumberSchema _ lo hi xlo xhi => NumberSchema_Scan lo hi xlo xhi data
  | IntegerSchema _ lo hi xlo xhi => IntegerSchema_Scan lo hi xlo xhi data
  | StringSchema _ mx mn => StringSchema_Scan mx mn data
  | AnyOfSchema _ cs => AnyOfSchema_Scan Scan cs data
  | AllOfSchema _ cs => AllOfSchema_Scan Scan cs data
  | NotSchema _ c => NotSchema_Scan Scan c data
  | ListSchema _ it mn mx => ListSchema_Scan Scan it mn mx data
  | TupleSchema _ cs add => TupleSchema_Scan Scan cs add data
  | ObjectSchema _ props reqs add => ObjectSchema_Scan Scan props reqs add data
  | MethodSchema _ ps ret add => MethodSchema_Scan Scan ps ret add data
  end.

(** [NewSchemaValidator().Validate(schema, data)] *)
Definition NewSchemaValidator : list string := [].

Definition Validate (schema : option Schema) (data : any) : V (option ErrorPos) :=
  validator_Scan Scan schema "" data.

(** [ValidateBytes], on the tree of the text. *)
Definition ValidateBytes (schema : option Schema) (data : option json) : V (option ErrorPos) :=
  match data with
  | None => v_panic (PanicError (ErrorJson "decode"))
  | Some j => validator_Scan Scan schema "" (json_value j)
  end.

(** ** What a schema accepts

    [valid s data], read off the documentation of the schema types rather
    than the traversal: no path stack, no order of visits, no early return. *)

(** [v] is within the bounds [lo] and [hi], each strict when its flag is
    set. *)
Definition within {T} (le lt : T → T → bool) (lo hi : option T) (xlo xhi : option bool) (v : T) : Prop :=
  (∀ mx, hi = Some mx → if default false xhi then le mx v = false else lt mx v = false) ∧
  (∀ mn, lo = Some mn → if default false xlo then le v mn = false else lt v mn = false).

Definition size_within (mn mx : option Z) (n : nat) : Prop :=
  opt_pred (λ mn, mn ≤ Z.of_nat n) mn ∧ opt_pred (λ mx, Z.of_nat n ≤ mx) mx.

Section valid.
Context (valid : Schema → any → Prop) (add : option Schema).

(** The first items match the schemas one by one, the others match [add]; with
    no [add] there are no others. *)
Fixpoint valid_items (cs : list Schema) (items : list any) : Prop :=
  match cs, items with
  | [], _ =>
      match add with
      | None => items = []
      | Some a => list_all (valid a) items
      end
  | c :: cs, item :: items => valid c item ∧ valid_items cs items
  | _ :: _, [] => False
  end.
End valid.

Fixpoint valid (s : Schema) (data : any) : Prop :=
  match s with
  | AnySchema _ => True
  | NullSchema _ => data = ANil
  | BoolSchema _ => ∃ b, data = ABool b
  | NumberSchema _ lo hi xlo xhi =>
      ∃ v, number_of data = Some v ∧ within float_leb float_ltb lo hi xlo xhi v
  | IntegerSchema _ lo hi xlo xhi =>
      ∃ v, integer_of data = Some v ∧ within Z.leb Z.ltb lo hi xlo xhi v
  | StringSchema _ mx mn => ∃ str, data = AString str ∧ size_within mn mx (String.length str)
  | AnyOfSchema _ cs => list_any (λ c, valid c data) cs
  | AllOfSchema _ cs => list_all (λ c, valid c data) cs
  | NotSchema _ c => opt_pred (λ c, ¬ valid c data) c
  | ListSchema _ it mn mx =>
      ∃ items, data = AList items ∧ size_within mn mx (length items) ∧
        opt_pred (λ c, list_all (valid c) items) it
  | TupleSchema _ cs add => ∃ items, data = AList items ∧ valid_items valid add cs items
  | ObjectSchema _ props reqs add =>
      ∃ obj, data = AMap obj ∧
        list_all (λ kv, match map_get kv.1 obj with
                        | Some v => valid kv.2 v
                        | None => map_get kv.1 reqs = None
                        end) props ∧
        opt_pred (λ a, ∀ k v, (k, v) ∈ obj → k ∉ map_keys props → valid a v) add
  | MethodSchema _ ps ret add =>
      ∃ msg, data = AMap msg ∧
        match map_get "params" msg with
        | Some (AList params) => valid_items valid add ps params
        | _ => ∃ result, map_get "result" msg = Some result ∧
                 opt_pred (λ r, valid r result) ret
        end
  end.

(** A list of path components leads from [data] to a part of it, or to a
    member an object lacks. *)
Inductive points_at : any → list string → Prop :=
  | points_here data : points_at data []
  | points_index items i item ps :
      items !! i = Some item → points_at item ps → points_at (AList items) (index_path i :: ps)
  | points_member obj k v ps :
      (k, v) ∈ obj → points_at v ps → points_at (AMap obj) (("." +:+ k) :: ps)
  | points_missing obj k :
      map_get k obj = None → points_at (AMap obj) ["." +:+ k].

(** ** Scan implements [valid]

    [decides P data m]: started with any path stack, [m] returns with the
    stack as it was, without an error exactly when [P] holds, and the paths
    of an error lead from the stack into [data]. *)

Definition verdict (P : Prop) (data : any) (paths : list string) (r : option ErrorPos) : Prop :=
  match r with
  | None => P
  | Some e => ¬ P ∧ ∃ ext, pos_paths e = paths ++ ext ∧ points_at data ext
  end.

Definition decides (P : Prop) (data : any) (m : V (option ErrorPos)) : Prop :=
  ∀ paths, ∃ r, m paths = Ret (r, paths) ∧ verdict P data paths r.

#[export] Instance decides_proper :
  Proper ((↔) ==> (=) ==> (=) ==> (↔)) decides.
Proof.
  assert (∀ P Q : Prop, (P ↔ Q) → ∀ data m, decides P data m → decides Q data m) as H.
  { intros P Q HPQ data m Hm paths. destruct (Hm paths) as (r & Hr & Hv).
    exists r. split; [done|]. destruct r; simpl in *; [|by apply HPQ].
    by rewrite <- HPQ. }
  intros P Q HPQ data _ <- m _ <-. split; apply H; [done|by symmetry].
Qed.

Lemma decides_iff (P Q : Prop) data m : (P ↔ Q) → decides P data m → decides Q data m.
Proof. by intros ->. Qed.

Lemma decides_ok (P : Prop) data : P → decides P data (mret None).
Proof. intros HP paths. by exists None. Qed.

Lemma decides_fail (P : Prop) data hint : ¬ P → decides P data (fail hint).
Proof.
  intros HP paths. eexists. split; [done|]. split; [done|]. exists [].
  split; [by rewrite app_nil_r|constructor].
Qed.

Lemma decides_and_then P Q data m rest :
  decides P data m → (P → decides Q data rest) → decides (P ∧ Q) data (and_then m rest).
Proof.
  intros Hm Hrest paths. destruct (Hm paths) as (r & Hr & Hv).
  unfold and_then. rewrite (stateT_bind_Ret _ _ _ _ _ Hr).
  destruct r as [e|]; simpl in Hv.
  - exists (Some e). split; [done|]. simpl. naive_solver.
  - destruct (Hrest Hv paths) as (r & Hr' & Hv'). exists r. split; [done|].
    destruct r; simpl in *; naive_solver.
Qed.

(** A scan below a path component: the component is pushed before and popped
    after. *)
Definition under (path : string) (m : V (option ErrorPos)) : V (option ErrorPos) :=
  _ ← pushPath path; errPos ← m; _ ← popPath path; mret errPos.

Lemma popPath_app paths path : path ≠ "" → popPath path (paths ++ [path]) = Ret (tt, paths).
Proof.
  intros Hp. unfold popPath. rewrite bool_decide_false by done.
  rewrite last_snoc, bool_decide_true by done. rewrite length_app; simpl.
  by rewrite Nat.add_sub, take_app_length.
Qed.

Lemma decides_under P data item path m :
  path ≠ "" → decides P item m →
  (∀ ps, points_at item ps → points_at data (path :: ps)) →
  decides P data (under path m).
Proof.
  intros Hp Hm Hpt paths. destruct (Hm (paths ++ [path])) as (r & Hr & Hv).
  exists r. split.
  - unfold under.
    rewrite (stateT_bind_Ret _ (pushPath path) paths tt (paths ++ [path])).
    2: { unfold pushPath. by rewrite bool_decide_false. }
    rewrite (stateT_bind_Ret _ _ _ _ _ Hr).
    by rewrite (stateT_bind_Ret _ _ _ _ _ (popPath_app paths path Hp)).
  - destruct r as [e|]; simpl in *; [|done]. destruct Hv as (HP & ext & He & Hext).
    split; [done|]. exists (path :: ext). rewrite <- app_assoc in He. auto.
Qed.

Lemma decides_scan_here scan P data s :
  decides P data (scan s data) → decides P data (validator_Scan scan (Some s) "" data).
Proof.
  intros Hm paths. destruct (Hm paths) as (r & Hr & Hv). exists r. split; [|done].
  unfold validator_Scan, scan_dyn.
  rewrite (stateT_bind_Ret _ (pushPath "") paths tt paths) by done.
  by rewrite (stateT_bind_Ret _ _ _ _ _ Hr).
Qed.

Lemma decides_scan_sub scan P data item path s :
  path ≠ "" → decides P item (scan s item) →
  (∀ ps, points_at item ps → points_at data (path :: ps)) →
  decides P data (validator_Scan scan (Some s) path item).
Proof. exact (decides_under P data item path (scan s item)). Qed.

Lemma index_path_ne i : index_path i ≠ "".
Proof. done. Qed.
#[export] Hint Resolve index_path_ne points_index points_member points_here : jsoff.

Lemma valid_items_iff add cs items :
  valid_items valid add cs items ↔
  (length cs ≤ length items)%nat ∧ Forall2 valid cs (take (length cs) items) ∧
  match add with
  | None => length items = length cs
  | Some a => list_all (valid a) (drop (length cs) items)
  end.
Proof.
  revert items. induction cs as [|c cs IH]; intros items.
  - cbn [length take drop valid_items]. destruct add.
    + split; [intros ?; split_and!; [lia|constructor|done]|by intros (_ & _ & ?)].
    + split; [intros ->; split_and!; [lia|constructor|done]|].
      intros (_ & _ & ?). by apply length_zero_iff_nil.
  - destruct items as [|x items]; cbn [length take drop valid_items].
    { split; [done|]. intros (? & _). lia. }
    rewrite IH, Forall2_cons. destruct add; intuition lia.
Qed.

(** ** Each method of Scan *)

Section methods.
Context (scan : Schema → any → V (option ErrorPos)).

(** The schema decides [valid] for every value: the induction hypothesis on
    the children of a schema. *)
Definition decided (s : Schema) : Prop := ∀ data, decides (valid s data) data (scan s data).

Lemma AnyOf_decides cs data :
  Forall decided cs → decides (list_any (λ c, valid c data) cs) data (AnyOfSchema_Scan scan cs data).
Proof.
  induction 1 as [|c cs Hc _ IH]; [by apply decides_fail; intros []|].
  intros paths. destruct (decides_scan_here scan _ data c (Hc data) paths) as (r & Hr & Hv).
  cbn [AnyOfSchema_Scan list_any]. rewrite (stateT_bind_Ret _ _ _ _ _ Hr).
  destruct r as [e|]; [|by exists None; split; [|left]].
  destruct (IH paths) as (r & Hr' & Hv'). exists r. split; [done|].
  destruct Hv as [HP _]. destruct r; simpl in *; naive_solver.
Qed.

Lemma AllOf_decides cs data :
  Forall decided cs → decides (list_all (λ c, valid c data) cs) data (AllOfSchema_Scan scan cs data).
Proof.
  induction 1 as [|c cs Hc _ IH]; [by apply decides_ok|].
  apply decides_and_then; [by apply decides_scan_here|done].
Qed.

Lemma Not_decides c data :
  decided c → decides (¬ valid c data) data (NotSchema_Scan scan (Some c) data).
Proof.
  intros Hc paths. destruct (Hc data paths) as (r & Hr & Hv).
  unfold NotSchema_Scan, scan_dyn. rewrite (stateT_bind_Ret _ _ _ _ _ Hr).
  destruct r as [e|]; simpl in Hv.
  - exists None. naive_solver.
  - eapply decides_fail. naive_solver.
Qed.

(** Items from index [n] of a list. *)
Lemma items_decides s n all :
  decided s →
  decides (list_all (valid s) (drop n all)) (AList all) (scan_items scan (Some s) n (drop n all)).
Proof.
  intros Hs. remember (drop n all) as l eqn:Hl. revert n Hl.
  induction l as [|x l IH]; intros n Hl; [by apply decides_ok|].
  assert (all !! n = Some x) as Hx.
  { rewrite <- (Nat.add_0_r n), <- lookup_drop, <- Hl. done. }
  apply decides_and_then.
  - apply decides_scan_sub; [done|apply Hs|eauto with jsoff].
  - intros _. apply IH. by rewrite <- Nat.add_1_r, <- drop_drop, <- Hl.
Qed.

Lemma children_decides n cs all :
  Forall decided cs → (n + length cs ≤ length all)%nat →
  decides (Forall2 valid cs (take (length cs) (drop n all))) (AList all)
    (scan_children scan cs n all).
Proof.
  intros Hcs. revert n. induction Hcs as [|c cs Hc _ IH]; intros n Hlen; [by apply decides_ok|].
  simpl in Hlen. destruct (lookup_lt_is_Some_2 all n) as [x Hx]; [lia|].
  rewrite (drop_S all x n Hx). cbn [length take scan_children].
  apply (decides_iff (valid c x ∧ Forall2 valid cs (take (length cs) (drop (S n) all)))).
  { by rewrite Forall2_cons. }
  intros paths. rewrite (stateT_bind_Ret _ (index all n) paths x paths).
  2: { unfold index. by rewrite Hx. }
  revert paths. apply decides_and_then.
  - apply decides_scan_sub; [done|apply Hc|eauto with jsoff].
  - intros _. apply IH. lia.
Qed.

(** The tail of TupleSchema.Scan and of ScanParams, once there are at least as
    many items as schemas. *)
Lemma items_then_rest_decides cs add items rest :
  Forall decided cs → (length cs ≤ length items)%nat →
  decides match add with
          | None => length items = length cs
          | Some a => list_all (valid a) (drop (length cs) items)
          end (AList items) rest →
  decides (valid_items valid add cs items) (AList items)
    (and_then (scan_children scan cs 0 items) rest).
Proof.
  intros Hcs Hlen Hrest. rewrite valid_items_iff.
  apply (decides_iff (Forall2 valid cs (take (length cs) (drop 0 items)) ∧
    match add with
    | None => length items = length cs
    | Some a => list_all (valid a) (drop (length cs) items)
    end)); [rewrite drop_0; naive_solver|].
  apply decides_and_then; [by apply children_decides|done].
Qed.

Lemma Tuple_decides cs add items :
  Forall decided cs → opt_pred decided add →
  decides (valid_items valid add cs items) (AList items) (TupleSchema_Scan scan cs add (AList items)).
Proof.
  intros Hcs Hadd. unfold TupleSchema_Scan. destruct add as [a|].
  - destruct (Nat.ltb_spec (length items) (length cs)) as [Hlt|Hge].
    { apply decides_fail. rewrite valid_items_iff. lia. }
    apply items_then_rest_decides; [done..|]. by apply items_decides.
  - destruct (Nat.eqb_spec (length items) (length cs)) as [Heq|Hne]; simpl.
    + apply items_then_rest_decides; [done|lia|]. by apply decides_ok.
    + apply decides_fail. rewrite valid_items_iff. lia.
Qed.

(** ScanParams decides the same condition on the parameters, below the
    component ".params" of a message that has them. *)
Lemma ScanParams_decides cs add params msg :
  Forall decided cs → opt_pred decided add → map_get "params" msg = Some (AList params) →
  decides (valid_items valid add cs params) (AMap msg) (ScanParams scan cs add params).
Proof.
  intros Hcs Hadd Hget. apply (decides_under _ _ (AList params) ".params"); [done| |].
  2: { intros ps. by apply (points_member _ "params" (AList params)), map_get_Some_elem. }
  destruct (Nat.ltb_spec (length params) (length cs)) as [Hlt|Hge].
  { apply decides_fail. rewrite valid_items_iff. lia. }
  apply items_then_rest_decides; [done..|].
  destruct (Nat.ltb_spec (length cs) (length params)) as [Hlt|Hle]; destruct add as [a|].
  - by apply items_decides.
  - apply decides_fail. lia.
  - apply decides_ok. rewrite drop_ge by lia. done.
  - apply decides_ok. lia.
Qed.

Lemma member_path_ne k : "." +:+ k ≠ "".
Proof using Type. done. Qed.

Lemma props_decides props reqs obj :
  Forall (λ kv, decided kv.2) props →
  decides (list_all (λ kv : string * Schema,
             match map_get kv.1 obj with
             | Some v => valid kv.2 v
             | None => map_get kv.1 reqs = None
             end) props) (AMap obj) (scan_props scan props reqs obj).
Proof.
  induction 1 as [|[k s] props Hs _ IH]; [by apply decides_ok|].
  cbn [list_all scan_props fst snd]. destruct (map_get k obj) as [v|] eqn:Hk.
  - apply decides_and_then; [|done].
    apply decides_scan_sub; [done|apply Hs|]. intros ps. by apply points_member, map_get_Some_elem.
  - destruct (map_get k reqs) as [b|] eqn:Hreq.
    + intros paths.
      rewrite (stateT_bind_Ret _ (pushPath ("." +:+ k)) paths tt (paths ++ ["." +:+ k])) by done.
      rewrite (stateT_bind_Ret _ (fail _) _ (Some (mkErrorPos (paths ++ ["." +:+ k])
        "required prop is not present")) (paths ++ ["." +:+ k])) by done.
      rewrite (stateT_bind_Ret _ _ _ _ _ (popPath_app paths ("." +:+ k) ltac:(done))).
      eexists. split; [done|]. split; [by intros [? _]|].
      exists ["." +:+ k]. split; [done|]. by apply points_missing.
    + eapply decides_iff; [|exact IH]. split; [by split|by intros [_ ?]].
Qed.

Lemma additional_decides a checked obj obj' :
  decided a → obj' ⊆ obj →
  decides (∀ k v, (k, v) ∈ obj' → k ∉ checked → valid a v) (AMap obj)
    (scan_additional scan (Some a) checked obj').
Proof.
  intros Ha. induction obj' as [|[k v] obj' IH]; intros Hsub.
  { apply decides_ok. intros k v Hin. by apply elem_of_nil in Hin. }
  assert (obj' ⊆ obj) as Hsub' by set_solver. specialize (IH Hsub').
  cbn [scan_additional]. case_bool_decide as Hk.
  - eapply decides_iff; [|exact IH]. set_solver.
  - apply (decides_iff (valid a v ∧ ∀ k v, (k, v) ∈ obj' → k ∉ checked → valid a v)).
    { set_solver. }
    apply decides_and_then; [|done].
    apply decides_scan_sub; [done|apply Ha|]. intros ps. apply points_member. set_solver.
Qed.

Lemma Object_decides props reqs add obj :
  Forall (λ kv, decided kv.2) props → opt_pred decided add →
  decides (list_all (λ kv : string * Schema,
             match map_get kv.1 obj with
             | Some v => valid kv.2 v
             | None => map_get kv.1 reqs = None
             end) props ∧
           opt_pred (λ a, ∀ k v, (k, v) ∈ obj → k ∉ map_keys props → valid a v) add)
    (AMap obj) (ObjectSchema_Scan scan props reqs add (AMap obj)).
Proof.
  intros Hprops Hadd. apply decides_and_then; [by apply props_decides|]. intros _.
  destruct add as [a|]; [|by apply decides_ok]. by apply additional_decides.
Qed.

Lemma checkRange_decides {T} (le lt : T → T → bool) lo hi xlo xhi v data :
  decides (within le lt lo hi xlo xhi v) data (checkRange le lt lo hi xlo xhi v).
Proof using Type.
  unfold checkRange, within.
  destruct hi as [mx|], lo as [mn|], (default false xhi) eqn:Exhi, (default false xlo) eqn:Exlo;
    simpl; repeat case_match;
    first [apply decides_ok; split; intros ? [= <-]; done
          |apply decides_fail; intros [H1 H2];
           first [specialize (H1 _ eq_refl); congruence|specialize (H2 _ eq_refl); congruence]].
Qed.
End methods.

Lemma exceeds_below mn mx n : exceeds n mx = false → below n mn = false → size_within mn mx n.
Proof. unfold size_within. destruct mx, mn; simpl; intros; split; try done; lia. Qed.

Lemma exceeds_not mn mx n : exceeds n mx = true → ¬ size_within mn mx n.
Proof. unfold size_within. destruct mx; simpl; [|done]. intros ? [_ ?]. lia. Qed.

Lemma below_not mn mx n : below n mn = true → ¬ size_within mn mx n.
Proof. unfold size_within. destruct mn; simpl; [|done]. intros ? [? _]. lia. Qed.

Lemma String_decides mx mn data :
  decides (∃ str, data = AString str ∧ size_within mn mx (String.length str)) data
    (StringSchema_Scan mx mn data).
Proof.
  destruct data; try (apply decides_fail; by intros (? & ? & _)). simpl.
  destruct (exceeds _ _) eqn:Hmx; [|destruct (below _ _) eqn:Hmn].
  - apply decides_fail. intros (? & [= <-] & ?). by eapply exceeds_not.
  - apply decides_fail. intros (? & [= <-] & ?). by eapply below_not.
  - apply decides_ok. eauto using exceeds_below.
Qed.

Lemma List_decides scan s mn mx data :
  decided scan s →
  decides (∃ items, data = AList items ∧ size_within mn mx (length items) ∧
             list_all (valid s) items) data
    (ListSchema_Scan scan (Some s) mn mx data).
Proof.
  intros Hs. destruct data as [| | | | | | |items| | | | |];
    try (apply decides_fail; by intros (? & ? & _)). unfold ListSchema_Scan.
  destruct (exceeds _ _) eqn:Hmx; [|destruct (below _ _) eqn:Hmn].
  - apply decides_fail. intros (? & [= <-] & ? & _). by eapply exceeds_not.
  - apply decides_fail. intros (? & [= <-] & ? & _). by eapply below_not.
  - eapply decides_iff; [|by apply (items_decides scan s 0)]. rewrite drop_0.
    split; [eauto using exceeds_below|]. by intros (? & [= <-] & _ & ?).
Qed.

Lemma Method_decides scan ps ret add data :
  Forall (decided scan) ps → opt_pred (decided scan) ret → opt_pred (decided scan) add →
  decides (∃ msg, data = AMap msg ∧
             match map_get "params" msg with
             | Some (AList params) => valid_items valid add ps params
             | _ => ∃ result, map_get "result" msg = Some result ∧
                      opt_pred (λ r, valid r result) ret
             end) data
    (MethodSchema_Scan scan ps ret add data).
Proof.
  intros Hps Hret Hadd. destruct data as [| | | | | | | |msg| | | |];
    try (apply decides_fail; by intros (? & ? & _)).
  assert (decides (∃ result, map_get "result" msg = Some result ∧ opt_pred (λ r, valid r result) ret)
    (AMap msg) match map_get "result" msg with
               | Some result => ScanResult scan ret result
               | None => fail "data is not a JSONRPC message"
               end) as Hresult.
  { destruct (map_get "result" msg) as [result|] eqn:Hr; [|by apply decides_fail; intros (? & ? & _)].
    destruct ret as [r|]; [|apply decides_ok; by exists result].
    eapply decides_iff.
    2: { apply (decides_scan_sub scan _ _ result ".result"); [done|apply Hret|].
      intros ps'. by apply (points_member _ "result"), map_get_Some_elem. }
    split; [by exists result|]. by intros (? & [= <-] & ?). }
  unfold MethodSchema_Scan, convertAttrList.
  destruct (map_get "params" msg) as [[]|] eqn:Hp.
  all: try (eapply decides_iff; [|exact Hresult];
    split; [intros ?; exists msg; by rewrite Hp|by intros (? & [= <-] & H); rewrite Hp in H]).
  eapply decides_iff; [|by apply ScanParams_decides].
  split; [intros ?; exists msg; by rewrite Hp|by intros (? & [= <-] & H); rewrite Hp in H].
Qed.

Lemma Scan_decides s : schema_ok s → decided Scan s.
Proof.
  assert (∀ l : list Schema, Forall (λ s, schema_ok s → decided Scan s) l →
    list_all schema_ok l → Forall (decided Scan) l) as Hl.
  { intros l. rewrite list_all_Forall, !Forall_forall. auto. }
  assert (∀ l : gomap Schema, Forall (λ kv, schema_ok kv.2 → decided Scan kv.2) l →
    list_all (λ kv, schema_ok kv.2) l → Forall (λ kv, decided Scan kv.2) l) as Hm.
  { intros l. rewrite list_all_Forall, !Forall_forall. auto. }
  assert (∀ o, opt_pred (λ s, schema_ok s → decided Scan s) o → opt_pred schema_ok o →
    opt_pred (decided Scan) o) as Ho by (intros [?|]; simpl; auto).
  induction s using Schema_ind; intros [Hn Hc] data; fold schema_ok in *; simpl in Hn;
    cbn [Scan valid]; destruct_and?.
  - by apply decides_ok.
  - destruct data; first [by apply decides_ok|by apply decides_fail].
  - destruct data; first [apply decides_ok; by eexists|by apply decides_fail; intros []].
  - unfold NumberSchema_Scan. destruct (number_of data) as [v|].
    + eapply decides_iff; [|apply checkRange_decides].
      split; [eauto|]. by intros (? & [= <-] & ?).
    + apply decides_fail. by intros (? & ? & _).
  - unfold IntegerSchema_Scan. destruct (integer_of data) as [v|].
    + eapply decides_iff; [|apply checkRange_decides].
      split; [eauto|]. by intros (? & [= <-] & ?).
    + apply decides_fail. by intros (? & ? & _).
  - apply String_decides.
  - apply AnyOf_decides; auto.
  - apply AllOf_decides; auto.
  - destruct Hn as [c' ->]. apply Not_decides; auto.
  - destruct Hn as [c' ->]. apply List_decides; auto.
  - destruct data; try (apply decides_fail; by intros (? & ? & _)).
    eapply decides_iff; [|apply Tuple_decides; auto].
    split; [eauto|]. by intros (? & [= <-] & ?).
  - destruct data; try (apply decides_fail; by intros (? & ? & _)).
    eapply decides_iff; [|apply Object_decides; auto].
    split; [eauto|]. by intros (? & [= <-] & ?).
  - apply Method_decides; auto.
Qed.

(** C2. The validator is sound, complete and total.  For a well-formed schema
    and any value, from any path stack, Validate returns without panicking and
    leaves the stack as it found it; it reports no error exactly when the
    schema accepts the value; and the path of an error leads to a part of the
    value, or to a member that an object of it lacks. *)
Theorem Validate_spec s data paths :
  schema_ok s →
  ∃ r, Validate (Some s) data paths = Ret (r, paths) ∧
    (r = None ↔ valid s data) ∧
    (∀ e, r = Some e → ∃ ext, pos_paths e = paths ++ ext ∧ points_at data ext).
Proof.
  intros Hs. destruct (decides_scan_here Scan _ _ _ (Scan_decides s Hs data) paths) as (r & Hr & Hv).
  exists r. split; [done|]. destruct r as [e|]; simpl in Hv; [|done].
  destruct Hv as [HP Hv]. split; [done|]. by intros ? [= <-].
Qed.

Lemma Validate_spec_witness :
  ∃ r, Validate (Some (ListSchema mixin0 (Some NewStringSchema) None None))
         (AList [AString "a"; AInt 3]) [] = Ret (r, []) ∧ r ≠ None.
Proof.
  destruct (Validate_spec (ListSchema mixin0 (Some NewStringSchema) None None)
    (AList [AString "a"; AInt 3]) []) as (r & Hr & _ & _); [by repeat split; eexists|].
  exists r. split; [done|]. vm_compute in Hr. by injection Hr as <-.
Defined.

(** ** The verdict does not depend on the order of map entries

    [valid] is invariant under the two equivalences: of schemas
    ([schema_eqv]) and of values ([any_eqv]). *)

Lemma list_all_fmap {A B} (P : B → Prop) (f : A → B) l :
  list_all P (f <$> l) ↔ list_all (P ∘ f) l.
Proof. by rewrite !list_all_Forall, Forall_fmap. Qed.

Lemma list_all_perm {A} (P : A → Prop) l1 l2 : l1 ≡ₚ l2 → list_all P l1 ↔ list_all P l2.
Proof. intros Hp. by rewrite !list_all_Forall, Hp. Qed.

Lemma list_all_iff {A} (P Q : A → Prop) l :
  Forall (λ x, P x ↔ Q x) l → list_all P l ↔ list_all Q l.
Proof. induction 1 as [|x l Hx _ IH]; simpl; [done|]. by rewrite Hx, IH. Qed.

Lemma list_any_iff {A} (P Q : A → Prop) l :
  Forall (λ x, P x ↔ Q x) l → list_any P l ↔ list_any Q l.
Proof. induction 1 as [|x l Hx _ IH]; simpl; [done|]. by rewrite Hx, IH. Qed.

Definition norm_stable (s : Schema) : Prop :=
  ∀ data, any_ok data → valid s (any_norm data) ↔ valid s data.

Lemma stable_list s l :
  norm_stable s → list_all any_ok l → list_all (valid s) (any_norm <$> l) ↔ list_all (valid s) l.
Proof.
  rewrite (list_all_Forall any_ok), list_all_fmap. intros Hs Hl. apply list_all_iff.
  eapply Forall_impl; [exact Hl|]. intros x Hx. by apply Hs.
Qed.

Lemma stable_items add cs l :
  Forall norm_stable cs → opt_pred norm_stable add → list_all any_ok l →
  valid_items valid add cs (any_norm <$> l) ↔ valid_items valid add cs l.
Proof.
  intros Hcs Hadd. revert l. induction Hcs as [|c cs Hc _ IH]; intros l Hl.
  - cbn [valid_items]. destruct add; [by apply stable_list|]. by destruct l.
  - destruct l as [|x l]; [done|]. destruct Hl as [Hx Hl].
    rewrite fmap_cons. cbn [valid_items]. by rewrite (Hc x Hx), (IH l Hl).
Qed.

Lemma any_ok_get m k v : any_ok (AMap m) → map_get k m = Some v → any_ok v.
Proof.
  intros [_ Hall] Hk%map_get_Some_elem. rewrite list_all_elem_of in Hall. by apply (Hall (k, v)).
Qed.

Lemma norm_entries m k v :
  (k, v) ∈ map_sort ((λ kv : string * any, (kv.1, any_norm kv.2)) <$> m) ↔
  ∃ v', v = any_norm v' ∧ (k, v') ∈ m.
Proof.
  rewrite map_sort_perm, list_elem_of_fmap. split.
  - intros ([k' v'] & [= -> ->] & Hin). eauto.
  - intros (v' & -> & Hin). by exists (k, v').
Qed.

Lemma ex_list (Q : list any → Prop) l : (∃ items, AList l = AList items ∧ Q items) ↔ Q l.
Proof. split; [by intros (? & [= <-] & ?)|eauto]. Qed.

Lemma ex_map (Q : gomap any → Prop) m : (∃ obj, AMap m = AMap obj ∧ Q obj) ↔ Q m.
Proof. split; [by intros (? & [= <-] & ?)|eauto]. Qed.

Definition norm_map (m : gomap any) : gomap any :=
  map_sort ((λ kv : string * any, (kv.1, any_norm kv.2)) <$> m).

Lemma stable_object props reqs add m :
  Forall (λ kv, norm_stable kv.2) props → opt_pred norm_stable add → any_ok (AMap m) →
  valid (ObjectSchema mixin0 props reqs add) (any_norm (AMap m)) ↔
  valid (ObjectSchema mixin0 props reqs add) (AMap m).
Proof.
  intros Hprops Hadd Hok. cbn [valid]. change (any_norm (AMap m)) with (AMap (norm_map m)).
  rewrite !ex_map. f_equiv.
  - apply list_all_iff. eapply Forall_impl; [exact Hprops|]. intros [k s] Hs. simpl in *.
    unfold norm_map. rewrite any_norm_get by apply Hok.
    destruct (map_get k m) as [v|] eqn:Hk; simpl; [|done]. eapply Hs, any_ok_get; eauto.
  - destruct add as [a|]; simpl in *; [|done]. destruct Hok as [Hm Hall].
    rewrite list_all_elem_of in Hall. split; intros H k v Hin Hk.
    + apply (Hadd v (Hall _ Hin)). apply (H k); [|done]. apply norm_entries. eauto.
    + apply norm_entries in Hin as (v' & -> & Hin). apply (Hadd v' (Hall _ Hin)). eauto.
Qed.

Lemma stable_method ps ret add m :
  Forall norm_stable ps → opt_pred norm_stable ret → opt_pred norm_stable add → any_ok (AMap m) →
  valid (MethodSchema mixin0 ps ret add) (any_norm (AMap m)) ↔
  valid (MethodSchema mixin0 ps ret add) (AMap m).
Proof.
  intros Hps Hret Hadd Hok. cbn [valid]. change (any_norm (AMap m)) with (AMap (norm_map m)).
  rewrite !ex_map. unfold norm_map. rewrite !any_norm_get by apply Hok.
  assert ((∃ result, any_norm <$> map_get "result" m = Some result ∧
             opt_pred (λ r, valid r result) ret) ↔
          ∃ result, map_get "result" m = Some result ∧ opt_pred (λ r, valid r result) ret)
    as Hresult.
  { destruct (map_get "result" m) as [r|] eqn:Hr; [|by split; intros (? & ? & _)].
    pose proof (any_ok_get _ _ _ Hok Hr) as Hokr.
    split; intros (? & [= <-] & H); eexists; (split; [done|]); destruct ret as [s|]; try done;
      by apply (Hret _ Hokr). }
  destruct (map_get "params" m) as [p|] eqn:Hp; [|done].
  pose proof (any_ok_get _ _ _ Hok Hp) as Hokp.
  destruct p; try done. by apply stable_items.
Qed.

Lemma valid_norm_data s : norm_stable s.
Proof.
  induction s using Schema_ind; intros data Hok; cbn [valid].
  - done.
  - by destruct data.
  - destruct data; try done; split; by intros (? & ?).
  - by assert (number_of (any_norm data) = number_of data) as -> by (by destruct data).
  - by assert (integer_of (any_norm data) = integer_of data) as -> by (by destruct data).
  - destruct data; try done; split; by intros (? & ? & _).
  - apply list_any_iff. eapply Forall_impl; [exact H|]. auto.
  - apply list_all_iff. eapply Forall_impl; [exact H|]. auto.
  - destruct c as [c|]; simpl; [|done]. by rewrite (H data Hok).
  - destruct data as [| | | | | | |l| | | | |]; try (split; by intros (? & ? & _)).
    change (any_norm (AList l)) with (AList (any_norm <$> l)). rewrite !ex_list, length_fmap.
    f_equiv. destruct it as [s|]; [|done]. by apply (stable_list s).
  - destruct data as [| | | | | | |l| | | | |]; try (split; by intros (? & ? & _)).
    change (any_norm (AList l)) with (AList (any_norm <$> l)). rewrite !ex_list.
    by apply stable_items.
  - destruct data as [| | | | | | | |m'| | | |]; try (split; by intros (? & ? & _)).
    by apply stable_object.
  - destruct data as [| | | | | | | |m'| | | |]; try (split; by intros (? & ? & _)).
    by apply stable_method.
Qed.

Lemma within_norm lo hi xlo xhi v :
  within float_leb float_ltb (float_norm <$> lo) (float_norm <$> hi) xlo xhi v ↔
  within float_leb float_ltb lo hi xlo xhi v.
Proof.
  assert (∀ f, float_leb (float_norm f) v = float_leb f v ∧ float_ltb (float_norm f) v = float_ltb f v ∧
    float_leb v (float_norm f) = float_leb v f ∧ float_ltb v (float_norm f) = float_ltb v f) as H.
  { by intros [[]| | |]; destruct v. }
  unfold within. f_equiv.
  - destruct hi as [f|]; simpl; [|done]. destruct (H f) as (H1 & H2 & _).
    split; intros Hw ? [= <-]; specialize (Hw _ eq_refl); by rewrite H1, H2 in *.
  - destruct lo as [f|]; simpl; [|done]. destruct (H f) as (_ & _ & H1 & H2).
    split; intros Hw ? [= <-]; specialize (Hw _ eq_refl); by rewrite H1, H2 in *.
Qed.

Definition norm_same (s : Schema) : Prop := ∀ data, valid (schema_norm s) data ↔ valid s data.

Lemma same_list_all cs data :
  Forall norm_same cs →
  list_all (λ c, valid c data) (schema_norm <$> cs) ↔ list_all (λ c, valid c data) cs.
Proof.
  intros H. rewrite list_all_fmap. apply list_all_iff. eapply Forall_impl; [exact H|].
  intros s Hs. apply Hs.
Qed.

Lemma same_list_any cs data :
  Forall norm_same cs →
  list_any (λ c, valid c data) (schema_norm <$> cs) ↔ list_any (λ c, valid c data) cs.
Proof.
  induction 1 as [|c cs Hc _ IH]; [done|]. rewrite fmap_cons. cbn [list_any].
  by rewrite (Hc data), IH.
Qed.

Lemma same_opt_list c items :
  opt_pred norm_same c →
  opt_pred (λ c, list_all (valid c) items) (schema_norm <$> c) ↔
  opt_pred (λ c, list_all (valid c) items) c.
Proof.
  destruct c as [s|]; simpl; [|done]. intros Hs. apply list_all_iff, Forall_true. apply Hs.
Qed.

Lemma same_items add cs l :
  Forall norm_same cs → opt_pred norm_same add →
  valid_items valid (schema_norm <$> add) (schema_norm <$> cs) l ↔ valid_items valid add cs l.
Proof.
  intros Hcs Hadd. revert l. induction Hcs as [|c cs Hc _ IH]; intros l.
  - cbn [fmap list_fmap valid_items]. destruct add as [s|]; [|done].
    by apply (same_opt_list (Some s)).
  - destruct l as [|x l]; [done|]. rewrite fmap_cons. cbn [valid_items]. by rewrite (Hc x), IH.
Qed.

Lemma same_object (props : gomap Schema) (reqs : gomap bool) add (obj : gomap any) :
  Forall (λ kv, norm_same kv.2) props → opt_pred norm_same add → map_ok reqs →
  (list_all (λ kv : string * Schema, match map_get kv.1 obj with
                   | Some v => valid kv.2 v
                   | None => map_get kv.1 (map_sort reqs) = None
                   end) (map_sort ((λ kv : string * Schema, (kv.1, schema_norm kv.2)) <$> props)) ∧
   opt_pred (λ a, ∀ k v, (k, v) ∈ obj →
     k ∉ map_keys (map_sort ((λ kv : string * Schema, (kv.1, schema_norm kv.2)) <$> props)) → valid a v)
     (schema_norm <$> add)) ↔
  list_all (λ kv : string * Schema, match map_get kv.1 obj with
                  | Some v => valid kv.2 v
                  | None => map_get kv.1 reqs = None
                  end) props ∧
  opt_pred (λ a, ∀ k v, (k, v) ∈ obj → k ∉ map_keys props → valid a v) add.
Proof.
  intros Hprops Hadd Hreqs. f_equiv.
  - rewrite (list_all_perm _ _ _ (map_sort_perm _)), list_all_fmap. apply list_all_iff.
    eapply Forall_impl; [exact Hprops|]. intros [k s] Hs. simpl in *.
    rewrite map_get_sort by done. destruct (map_get k obj) as [v|]; [apply Hs|done].
  - destruct add as [a|]; simpl in *; [|done].
    assert (∀ k, k ∈ map_keys (map_sort ((λ kv : string * Schema, (kv.1, schema_norm kv.2)) <$> props)) ↔
      k ∈ map_keys props) as Hk.
    { intros k. rewrite <- (map_keys_fmap schema_norm props). unfold map_keys. by rewrite map_sort_perm. }
    setoid_rewrite Hk. split; intros H k v Hin Hkk; apply (Hadd v); eauto.
Qed.

Lemma valid_norm_schema s : schema_ok s → norm_same s.
Proof.
  assert (∀ l : list Schema, Forall (λ s, schema_ok s → norm_same s) l →
    list_all schema_ok l → Forall norm_same l) as Hl.
  { intros l. rewrite list_all_Forall, !Forall_forall. auto. }
  assert (∀ l : gomap Schema, Forall (λ kv, schema_ok kv.2 → norm_same kv.2) l →
    list_all (λ kv, schema_ok kv.2) l → Forall (λ kv, norm_same kv.2) l) as Hm.
  { intros l. rewrite list_all_Forall, !Forall_forall. auto. }
  assert (∀ o, opt_pred (λ s, schema_ok s → norm_same s) o → opt_pred schema_ok o →
    opt_pred norm_same o) as Ho by (intros [?|]; simpl; auto).
  induction s using Schema_ind; intros [Hn Hc] data; fold schema_ok in *; simpl in Hn;
    cbn [schema_norm valid]; destruct_and?; try done.
  - by setoid_rewrite within_norm.
  - apply same_list_any; auto.
  - apply same_list_all; auto.
  - destruct c as [c|]; simpl; [|done]. by rewrite (H Hc data).
  - by setoid_rewrite (same_opt_list it _ (Ho _ H Hc)).
  - by setoid_rewrite (same_items add cs _ (Hl _ H H1) (Ho _ H0 H2)).
  - setoid_rewrite (same_object props reqs add _ (Hm _ H H1) (Ho _ H0 H2)); done.
  - assert (∀ r, opt_pred (λ s, valid s r) (schema_norm <$> ret) ↔ opt_pred (λ s, valid s r) ret) as Hr.
    { intros r. destruct ret as [s|]; simpl; [|done]. by apply H0. }
    f_equiv. intros msg. f_equiv.
    destruct (map_get "params" msg) as [[]|]; first [by setoid_rewrite Hr|by apply same_items; auto].
Qed.

(** [valid] respects both equivalences. *)
Lemma valid_eqv s1 s2 d1 d2 :
  schema_ok s1 → schema_ok s2 → any_ok d1 → any_ok d2 →
  schema_eqv s1 s2 → any_eqv d1 d2 → valid s1 d1 ↔ valid s2 d2.
Proof.
  intros Hs1 Hs2 Hd1 Hd2 Hs Hd.
  rewrite <- (valid_norm_data s1 d1 Hd1), <- (valid_norm_data s2 d2 Hd2).
  rewrite <- (valid_norm_schema s1 Hs1 _), <- (valid_norm_schema s2 Hs2 _). by rewrite Hs, Hd.
Qed.

(** C22. Verdicts are independent of the order of map entries.  Two schemas
    that Equal identifies, applied to two representations of the same value,
    accept or reject it together, although the code visits the properties of
    an object schema and the members of a value in an unspecified order. *)
Theorem Validate_eqv s1 s2 d1 d2 :
  schema_ok s1 → finite_bounds s1 → schema_ok s2 → finite_bounds s2 → any_ok d1 → any_ok d2 →
  Equal s1 s2 = true → any_eqv d1 d2 →
  Validate (Some s1) d1 [] = Ret (None, []) ↔ Validate (Some s2) d2 [] = Ret (None, []).
Proof.
  intros Hs1 Hf1 Hs2 Hf2 Hd1 Hd2 HE Hd.
  assert (∀ s d, schema_ok s → Validate (Some s) d [] = Ret (None, []) ↔ valid s d) as H.
  { intros s d Hs. destruct (decides_scan_here Scan _ _ _ (Scan_decides s Hs d) []) as (r & Hr & Hv).
    unfold Validate. rewrite Hr. destruct r; simpl in Hv; [|done].
    destruct Hv as [HP _]. by split; [intros [=]|]. }
  rewrite !H by done. apply valid_eqv; try done.
  apply Equal_norm; [by apply schema_fine_intro..|done].
Qed.

Lemma Validate_eqv_witness :
  Validate (Some (ObjectSchema mixin0 [("a", NewIntegerSchema); ("b", NewStringSchema)] [] None))
    (AMap [("a", AInt 1); ("b", AString "x")]) [] = Ret (None, []).
Proof.
  apply (Validate_eqv _ (ObjectSchema mixin0 [("b", NewStringSchema); ("a", NewIntegerSchema)] [] None)
    _ (AMap [("b", AString "x"); ("a", AInt 1)])); [..|done];
    first [done|repeat split; by eval_decide].
Defined.
