(* ===== verification/Builder.v ===== *)
(** * Building schemas from type descriptions: schema/builder.go

    [buildNodeMap] recurses through the maps that [convertTypeMap] returns,
    which are not parts of its argument, so it takes fuel; [Build] gives it
    one more than the depth of the description, and [Build_spec] shows that
    this is enough.

    The source appends to [paths] slices that may share an array; each path
    is used, for an error that is returned at once, before the next append,
    so lists of strings behave the same. *)

From S2P Require Import Prelude GoMap Strconv Values Schema Convert.
From stdpp Require Import options.
#[local] Open Scope Z_scope.

(** [OutOfFuel] is not an error of the source.  The last component of the
    paths of NonStringMap is the text of the key, kept here as the key. *)
Inductive build_error : Type :=
  | SchemaBuildError (info : string) (paths : list string)
  | NonStringMap (paths : list string) (key : any)
  | BuildJsonError
  | OutOfFuel.

Abbreviation B := (sum build_error).

Definition NewBuildError {A} (info : string) (paths : list string) : B A :=
  inl (SchemaBuildError info paths).

(** [if additional, ok := node[attr]; ok { ... }] *)
Definition when_present {A} (attr : string) (node : gomap any) (f : any → B A) : B (option A) :=
  match map_get attr node with
  | Some additional => s ← f additional; inr (Some s)
  | None => inr None
  end.

(** ** buildMixin *)

Definition buildMixin (schema : Schema) (node : gomap any) (paths : list string) : B Schema :=
  schema ← match map_get "name" node with
           | Some (AString strName) => inr (SetName strName schema)
           | Some _ => NewBuildError "name must be string" (paths ++ [".name"])
           | None => inr schema
           end;
  match map_get "description" node with
  | Some (AString strDesc) => inr (SetDescription strDesc schema)
  | Some _ => NewBuildError "decsription must be string" (paths ++ [".description"])
  | None => inr schema
  end.

(** ** Schemas without children *)

Definition buildNumberSchema (node : gomap any) : Schema :=
  NumberSchema mixin0 (convertAttrFloat node "minimum" false) (convertAttrFloat node "maximum" false)
    (convertAttrBool node "exclusiveMinimum" false) (convertAttrBool node "exclusiveMaximum" false).

Definition buildIntegerSchema (node : gomap any) : Schema :=
  IntegerSchema mixin0 (convertAttrInt node "minimum" false) (convertAttrInt node "maximum" false)
    (convertAttrBool node "exclusiveMinimum" false) (convertAttrBool node "exclusiveMaximum" false).

(** [convertAttrInt(node, attr, false)], used when it is not negative. *)
Definition natural_attr (node : gomap any) (attr : string) : option Z :=
  n ← convertAttrInt node attr false; if 0 <=? n then Some n else None.

Definition buildStringSchema (node : gomap any) : Schema :=
  StringSchema mixin0 (natural_attr node "maxLength") (natural_attr node "minLength").

(** ** Schemas with children

    [buildNodeMap] is the recursive call of the source's method of that
    name. *)

Section build.
Context (buildNodeMap : gomap any → list string → B Schema).

Definition buildNode (data : any) (paths : list string) : B Schema :=
  match convertTypeMap data with
  | Some typeMap => buildNodeMap typeMap paths
  | None => NewBuildError "data is not an object" paths
  end.

(** The loop over the items of a tuple, from index [i]. *)
Fixpoint build_tuple (i : nat) (items : list any) (paths : list string) : B (list Schema) :=
  match items with
  | [] => inr []
  | item :: items =>
      childSchema ← buildNode item (paths ++ [index_path i]);
      rest ← build_tuple (S i) items paths;
      inr (childSchema :: rest)
  end.

(** The loop over the maps under the attribute [attr], from index [i]. *)
Fixpoint build_choices (attr : string) (i : nat) (nodes : list (gomap any)) (paths : list string)
    : B (list Schema) :=
  match nodes with
  | [] => inr []
  | choiceNode :: nodes =>
      c ← buildNodeMap choiceNode (paths ++ [attr; index_path i]);
      rest ← build_choices attr (S i) nodes paths;
      inr (c :: rest)
  end.

Definition buildListSchema (node : gomap any) (paths : list string) : B Schema :=
  match map_get "items" node with
  | None => NewBuildError "no items" paths
  | Some (AList itemsTuple) =>
      children ← build_tuple 0 itemsTuple paths;
      add ← when_present "additionalItems" node
              (λ additional, buildNode additional (paths ++ [".additionalItems"]));
      inr (TupleSchema mixin0 children add)
  | Some items =>
      itemSchema ← buildNode items paths;
      inr (ListSchema mixin0 (Some itemSchema) (natural_attr node "minItems")
             (natural_attr node "maxItems"))
  end.

Definition buildAnyOfSchema (node : gomap any) (paths : list string) : B Schema :=
  match convertAttrListOfMap node "anyOf" false with
  | Some choices => cs ← build_choices ".anyOf" 0 choices paths; inr (AnyOfSchema mixin0 cs)
  | None => NewBuildError "no valid anyOf attribute" paths
  end.

Definition buildAllOfSchema (node : gomap any) (paths : list string) : B Schema :=
  match convertAttrListOfMap node "allOf" false with
  | Some choices => cs ← build_choices ".allOf" 0 choices paths; inr (AllOfSchema mixin0 cs)
  | None => NewBuildError "no valid allOf attribute" paths
  end.

Definition buildNotSchema (node : gomap any) (paths : list string) : B Schema :=
  match convertAttrMap node "not" false with
  | Some childMap => c ← buildNodeMap childMap (paths ++ [".not"]); inr (NotSchema mixin0 (Some c))
  | None => NewBuildError "no valid not attribute" paths
  end.

Definition buildMethodSchema (node : gomap any) (paths : list string) : B Schema :=
  match convertAttrListOfMap node "params" false with
  | None => NewBuildError "params is not a list of objects" paths
  | Some paramsNodes =>
      params ← build_choices ".params" 0 paramsNodes paths;
      add ← when_present "additionalParams" node
              (λ additional, buildNode additional (paths ++ [".additionalParams"]));
      returns ← match convertAttrMap node "returns" true with
                | Some resultNode =>
                    let resultNode :=
                      if has_key "type" resultNode then resultNode
                      else map_set "type" (AString "any") resultNode in
                    c ← buildNodeMap resultNode (paths ++ [".returns"]); inr (Some c)
                | None => inr None
                end;
      inr (MethodSchema mixin0 params returns add)
  end.

(** The loop over the properties. *)
Fixpoint build_props (props : gomap Schema) (propNodes : gomap (gomap any)) (paths : list string)
    : B (gomap Schema) :=
  match propNodes with
  | [] => inr props
  | (propName, propNode) :: propNodes =>
      child ← buildNodeMap propNode (paths ++ [".properties"; "." +:+ propName]);
      build_props (map_set propName child props) propNodes paths
  end.

(** The loop over the required names. *)
Fixpoint build_requires (props : gomap Schema) (requires : gomap bool) (requireList : list string)
    (paths : list string) : B (gomap bool) :=
  match requireList with
  | [] => inr requires
  | reqProp :: requireList =>
      match map_get reqProp props with
      | None => NewBuildError "cannot find required prop" (paths ++ [".requires"; "." +:+ reqProp])
      | Some _ => build_requires props (map_set reqProp true requires) requireList paths
      end
  end.

Definition buildObjectSchema (node : gomap any) (paths : list string) : B Schema :=
  match convertAttrMapOfMap node "properties" true with
  | None => NewBuildError "properties is not a map of objects" paths
  | Some propNodes =>
      props ← build_props [] propNodes paths;
      match convertAttrListOfString node "requires" true with
      | None => NewBuildError "requires is not a list of strings" (paths ++ [".requires"])
      | Some requireList =>
          requires ← build_requires props [] requireList paths;
          add ← when_present "additionalProperties" node
                  (λ additional, buildNode additional (paths ++ [".additionalProperties"]));
          inr (ObjectSchema mixin0 props requires add)
      end
  end.

(** The switch of buildNodeMap. *)
Definition build_type (nodeType : any) (node : gomap any) (paths : list string) : B Schema :=
  match nodeType with
  | AString t =>
      if decide (t = "number") then inr (buildNumberSchema node)
      else if decide (t = "integer") then inr (buildIntegerSchema node)
      else if decide (t = "bool") then inr (BoolSchema mixin0)
      else if decide (t = "any") then inr (AnySchema mixin0)
      else if decide (t = "null") then inr (NullSchema mixin0)
      else if decide (t = "string") then inr (buildStringSchema node)
      else if decide (t = "anyOf") then buildAnyOfSchema node paths
      else if decide (t = "allOf") then buildAllOfSchema node paths
      else if decide (t = "not") then buildNotSchema node paths
      else if decide (t = "list") then buildListSchema node paths
      else if decide (t = "object") then buildObjectSchema node paths
      else if decide (t = "method") then buildMethodSchema node paths
      else NewBuildError "unknown type" paths
  | _ => NewBuildError "unknown type" paths
  end.
End build.

Fixpoint buildNodeMap (fuel : nat) (node : gomap any) (paths : list string) : B Schema :=
  match fuel with
  | O => inl OutOfFuel
  | S fuel =>
      match map_get "type" node with
      | None => NewBuildError "no type presented" paths
      | Some nodeType =>
          schema ← build_type (buildNodeMap fuel) nodeType node paths;
          buildMixin schema node paths
      end
  end.

(** ** The entry points *)

(** Levels of maps and lists inside a value; a scalar counts one. *)
Fixpoint any_depth (v : any) : nat :=
  match v with
  | AList l => S (list_max (any_depth <$> l))
  | AMap m => S (list_max ((λ kv, any_depth kv.2) <$> m))
  | _ => 1
  end.

Definition Build (data : any) : B Schema := buildNode (buildNodeMap (S (any_depth data))) data [].

Definition BuildBytes (data : option json) : B Schema :=
  match data with
  | None => inl BuildJsonError
  | Some j => Build (json_value j)
  end.

Section fix_yaml.
Context (FixYamlMaps : any → list string → B any).

Fixpoint fix_entries (strMap : gomap any) (anyMap : list (any * any)) (paths : list string)
    : B (gomap any) :=
  match anyMap with
  | [] => inr strMap
  | (AString sk, v) :: anyMap =>
      newV ← FixYamlMaps v (paths ++ ["." +:+ sk]);
      fix_entries (map_set sk newV strMap) anyMap paths
  | (k, _) :: _ => inl (NonStringMap paths k)
  end.

Fixpoint fix_items (i : nat) (anyList : list any) (paths : list string) : B (list any) :=
  match anyList with
  | [] => inr []
  | elem :: anyList =>
      newElem ← FixYamlMaps elem (paths ++ [index_path i]);
      rest ← fix_items (S i) anyList paths;
      inr (newElem :: rest)
  end.
End fix_yaml.

Fixpoint FixYamlMaps (src : any) (paths : list string) : B any :=
  match src with
  | AAnyMap anyMap => strMap ← fix_entries FixYamlMaps [] anyMap paths; inr (AMap strMap)
  | AList anyList => list1 ← fix_items FixYamlMaps 0 anyList paths; inr (AList list1)
  | _ => inr src
  end.

Definition BuildYamlInterface (data : any) : B Schema :=
  jsonData ← FixYamlMaps data []; Build jsonData.

(** ** Building always ends, in a well-formed schema

    [good P x]: [x] is not out of fuel, and satisfies [P] when it is a
    value. *)

Definition good {A} (P : A → Prop) (x : B A) : Prop :=
  match x with inl OutOfFuel => False | inl _ => True | inr a => P a end.

Lemma good_bind {A C} (P : A → Prop) (R : C → Prop) (f : A → B C) x :
  good P x → (∀ a, P a → good R (f a)) → good R (x ≫= f).
Proof. destruct x as [[]|a]; simpl; auto. Qed.

Lemma good_impl {A} (P R : A → Prop) (x : B A) : good P x → (∀ a, P a → R a) → good R x.
Proof. destruct x as [[]|a]; simpl; auto. Qed.

(** What building guarantees of each node beyond [node_ok]: required names are
    properties, and lengths are not negative. *)
Definition node_built (s : Schema) : Prop :=
  node_ok s ∧
  match s with
  | StringSchema _ mx mn => opt_pred (Z.le 0) mx ∧ opt_pred (Z.le 0) mn
  | ListSchema _ _ mn mx => opt_pred (Z.le 0) mn ∧ opt_pred (Z.le 0) mx
  | ObjectSchema _ props reqs _ => map_keys reqs ⊆ map_keys props
  | _ => True
  end.

Definition built : Schema → Prop := schema_all node_built.

Lemma built_with_mixin s m : built s → built (with_mixin s m).
Proof. by destruct s. Qed.

Lemma buildMixin_good s node paths : built s → good built (buildMixin s node paths).
Proof.
  intros Hs. unfold buildMixin. apply (good_bind built).
  - destruct (map_get "name" node) as [[]|]; try done; by apply built_with_mixin.
  - intros s' Hs'. destruct (map_get "description" node) as [[]|]; try done; by apply built_with_mixin.
Qed.

Definition node_depth (m : gomap any) : nat := list_max ((λ kv : string * any, any_depth kv.2) <$> m).

(** A node whose type has no children. *)
Definition simple (node : gomap any) : Prop :=
  ∃ t, map_get "type" node = Some (AString t) ∧ t ∈ "any" :: shorthands.

Definition enough (fuel : nat) (node : gomap any) : Prop :=
  (node_depth node < fuel)%nat ∨ (simple node ∧ (0 < fuel)%nat).

Lemma any_depth_pos v : (1 ≤ any_depth v)%nat.
Proof. destruct v; simpl; lia. Qed.

Lemma list_max_elem (l : list nat) n : n ∈ l → (n ≤ list_max l)%nat.
Proof.
  induction l as [|m l IH]; [by rewrite elem_of_nil|].
  rewrite elem_of_cons. simpl. intros [->|Hn]; [lia|]. specialize (IH Hn). lia.
Qed.

Lemma map_get_depth k m v : map_get k m = Some v → (any_depth v ≤ node_depth m)%nat.
Proof.
  intros Hk%map_get_Some_elem. apply list_max_elem, list_elem_of_fmap. by exists (k, v).
Qed.

Lemma node_depth_cons k v m : node_depth ((k, v) :: m) = Nat.max (any_depth v) (node_depth m).
Proof. done. Qed.

Lemma node_depth_set k v m :
  (node_depth (map_set k v m) ≤ Nat.max (any_depth v) (node_depth m))%nat.
Proof.
  induction m as [|[k' v'] m IH]; cbn [map_set].
  - rewrite node_depth_cons. lia.
  - case_decide; rewrite !node_depth_cons; lia.
Qed.

Lemma guess_type_depth m t : guess_type m = Some t → (1 ≤ node_depth m)%nat.
Proof.
  destruct m as [|[k v] m]; [done|]. intros _. rewrite node_depth_cons.
  pose proof (any_depth_pos v). lia.
Qed.

Lemma shorthand_simple t : stringInList t shorthands = true → simple [("type", AString t)].
Proof.
  intros Ht. exists t. split; [done|]. apply existsb_exists in Ht as (x & Hx & Ht).
  apply bool_decide_eq_true in Ht as ->. right. by apply list_elem_of_In.
Qed.

Lemma convert_enough v m fuel :
  convertTypeMap v = Some m → (any_depth v ≤ fuel)%nat → enough fuel m.
Proof.
  destruct v as [| | | | | |t| |m'| | | |]; try done; cbn [convertTypeMap].
  - destruct (stringInList t shorthands) eqn:Ht; [|done]. intros [= <-] Hd. right.
    split; [by apply shorthand_simple|done].
  - intros [= <-] Hd. left. fold any_depth in Hd. change (S (node_depth m') ≤ fuel)%nat in Hd.
    unfold add_type. destruct (has_key "type" m'); [lia|].
    destruct (guess_type m') as [t|] eqn:Hg; [|lia]. apply guess_type_depth in Hg.
    pose proof (node_depth_set "type" (AString t) m'). simpl in *. lia.
Qed.

Lemma convert_items_enough l nodes fuel :
  convert_items l = Some nodes → (list_max (any_depth <$> l) ≤ fuel)%nat →
  Forall (enough fuel) nodes.
Proof.
  revert nodes. induction l as [|v l IH]; intros nodes; cbn [convert_items].
  - intros [= <-] _. constructor.
  - intros Hn Hd. apply bind_Some in Hn as (m & Hm & Hn). apply bind_Some in Hn as (ms & Hms & [= <-]).
    rewrite fmap_cons in Hd. simpl in Hd. constructor.
    + eapply convert_enough; [done|lia].
    + apply IH; [done|lia].
Qed.

Lemma convert_entries_enough mm nodes fuel :
  convert_entries mm = Some nodes → (node_depth mm ≤ fuel)%nat →
  Forall (λ kv, enough fuel kv.2) nodes.
Proof.
  revert nodes. induction mm as [|[k v] l IH]; intros nodes; cbn [convert_entries].
  - intros [= <-] _. constructor.
  - intros Hn Hd. apply bind_Some in Hn as (m & Hm & Hn). apply bind_Some in Hn as (ms & Hms & [= <-]).
    rewrite node_depth_cons in Hd. constructor.
    + eapply convert_enough; [done|]. lia.
    + apply IH; [done|]. lia.
Qed.

(** The recursive calls have enough fuel and give well-formed schemas: the
    induction hypothesis on the fuel. *)
Section build_good.
Context (fuel : nat) (rec : gomap any → list string → B Schema).
Hypothesis rec_good : ∀ node paths, enough fuel node → good built (rec node paths).

Lemma buildNode_good data paths :
  (any_depth data ≤ fuel)%nat → good built (buildNode rec data paths).
Proof using rec_good.
  intros Hd. unfold buildNode. destruct (convertTypeMap data) eqn:Hc; [|done].
  apply rec_good. by eapply convert_enough.
Qed.

Lemma build_tuple_good i items paths :
  (list_max (any_depth <$> items) ≤ fuel)%nat →
  good (list_all built) (build_tuple rec i items paths).
Proof using rec_good.
  revert i. induction items as [|v items IH]; intros i Hd; [done|].
  rewrite fmap_cons in Hd. simpl in Hd. cbn [build_tuple].
  eapply good_bind; [apply buildNode_good; lia|]. intros s Hs.
  eapply good_bind; [apply IH; lia|]. by intros cs Hcs.
Qed.

Lemma build_choices_good attr i nodes paths :
  Forall (enough fuel) nodes → good (list_all built) (build_choices rec attr i nodes paths).
Proof using rec_good.
  intros Hn. revert i. induction Hn as [|node nodes Hnode _ IH]; intros i; [done|].
  cbn [build_choices]. eapply good_bind; [by apply rec_good|]. intros s Hs.
  eapply good_bind; [apply IH|]. by intros cs Hcs.
Qed.

Lemma build_props_good props nodes paths :
  Forall (λ kv, enough fuel kv.2) nodes →
  map_ok props → Forall (λ kv, built kv.2) props →
  good (λ props, map_ok props ∧ list_all (λ kv, built kv.2) props) (build_props rec props nodes paths).
Proof using rec_good.
  intros Hn. revert props. induction Hn as [|[k node] nodes Hnode _ IH]; intros props Hok Hb.
  { split; [done|]. by apply list_all_Forall. }
  cbn [build_props]. eapply good_bind; [by apply rec_good|]. intros s Hs.
  apply IH; [by apply map_set_ok|by apply map_set_Forall].
Qed.

Lemma when_present_good attr node f :
  (∀ v, map_get attr node = Some v → good built (f v)) →
  good (opt_pred built) (when_present attr node f).
Proof using Type.
  intros Hf. unfold when_present. destruct (map_get attr node) as [v|]; [|done].
  eapply good_bind; [by apply Hf|]. done.
Qed.

Lemma additional_good attr node paths :
  (node_depth node ≤ fuel)%nat →
  good (opt_pred built) (when_present attr node (λ additional, buildNode rec additional paths)).
Proof using rec_good.
  intros Hd. apply when_present_good. intros v Hv%map_get_depth. apply buildNode_good. lia.
Qed.
End build_good.

Lemma natural_attr_nonneg node attr : opt_pred (Z.le 0) (natural_attr node attr).
Proof.
  unfold natural_attr. destruct (convertAttrInt node attr false) as [n|]; simpl; [|done].
  destruct (0 <=? n) eqn:Hn; simpl; [lia|done].
Qed.

Lemma build_requires_good props requires names paths :
  map_ok requires → map_keys requires ⊆ map_keys props →
  good (λ requires, map_ok requires ∧ map_keys requires ⊆ map_keys props)
    (build_requires props requires names paths).
Proof.
  revert requires. induction names as [|name names IH]; intros requires Hok Hsub; [done|].
  cbn [build_requires]. destruct (map_get name props) as [s|] eqn:Hs; [|done].
  apply IH; [by apply map_set_ok|]. intros k [->|Hk]%map_keys_set_elem; [|by apply Hsub].
  apply map_get_is_Some. by eexists.
Qed.

(** The attribute [attr] of a node, when it is there, has enough fuel. *)
Lemma list_attr_enough fuel node attr nodes :
  (node_depth node ≤ fuel)%nat → convertAttrListOfMap node attr false = Some nodes →
  Forall (enough fuel) nodes.
Proof.
  unfold convertAttrListOfMap. destruct (map_get attr node) as [[]|] eqn:Hv; try done.
  intros Hd Hn. eapply convert_items_enough; [done|]. apply map_get_depth in Hv. simpl in Hv. lia.
Qed.

Lemma map_attr_enough fuel node attr m :
  (node_depth node ≤ fuel)%nat → convertAttrMap node attr false = Some m → enough fuel m.
Proof.
  unfold convertAttrMap. destruct (map_get attr node) as [v|] eqn:Hv; [|done].
  intros Hd Hm. eapply convert_enough; [done|]. apply map_get_depth in Hv. lia.
Qed.

Lemma props_attr_enough fuel node attr nodes :
  (node_depth node ≤ fuel)%nat → convertAttrMapOfMap node attr true = Some nodes →
  Forall (λ kv, enough fuel kv.2) nodes.
Proof.
  unfold convertAttrMapOfMap, convertAttrMap.
  destruct (map_get attr node) as [v|] eqn:Hv; [|intros _ [= <-]; constructor].
  intros Hd. apply map_get_depth in Hv.
  destruct v as [| | | | | |t| |m| | | |]; cbn [convertTypeMap]; try (intros [= <-]; constructor).
  - destruct (stringInList t shorthands) eqn:Ht; [|intros [= <-]; constructor].
    intros Hn. eapply convert_entries_enough; [done|]. unfold node_depth; simpl in *. lia.
  - intros Hn. eapply convert_entries_enough; [done|].
    change (any_depth (AMap m)) with (S (node_depth m)) in Hv.
    unfold add_type. destruct (has_key "type" m); [lia|].
    destruct (guess_type m) as [t|] eqn:Hg; [|lia]. apply guess_type_depth in Hg.
    pose proof (node_depth_set "type" (AString t) m). simpl in *. lia.
Qed.

Section build_type_good.
Context (fuel : nat) (rec : gomap any → list string → B Schema).
Hypothesis rec_good : ∀ node paths, enough fuel node → good built (rec node paths).

Lemma buildListSchema_good node paths :
  (node_depth node ≤ fuel)%nat → good built (buildListSchema rec node paths).
Proof using rec_good.
  intros Hd. unfold buildListSchema.
  destruct (map_get "items" node) as [v|] eqn:Hv; [|done].
  apply map_get_depth in Hv.
  assert (∀ v, (any_depth v ≤ fuel)%nat →
    good built (itemSchema ← buildNode rec v paths;
      inr (ListSchema mixin0 (Some itemSchema) (natural_attr node "minItems")
             (natural_attr node "maxItems")))) as Hlist.
  { intros v' Hv'. eapply good_bind; [by eapply buildNode_good|]. intros s Hs.
    split; [|done]. split; [by eexists|]. by split; apply natural_attr_nonneg. }
  destruct v as [| | | | | | |l| | | | |]; try (apply Hlist; lia).
  eapply good_bind; [eapply build_tuple_good; [done|simpl in Hv; lia]|]. intros cs Hcs.
  eapply good_bind; [by eapply additional_good|]. intros add Hadd. done.
Qed.

Lemma buildMethodSchema_good node paths :
  (node_depth node ≤ fuel)%nat → good built (buildMethodSchema rec node paths).
Proof using rec_good.
  intros Hd. unfold buildMethodSchema.
  destruct (convertAttrListOfMap node "params" false) as [nodes|] eqn:Hn; [|done].
  assert (0 < fuel)%nat as Hfuel.
  { unfold convertAttrListOfMap in Hn. destruct (map_get "params" node) as [v|] eqn:Hv; [|done].
    apply map_get_depth in Hv. pose proof (any_depth_pos v). lia. }
  eapply good_bind; [eapply build_choices_good; [done|by eapply list_attr_enough]|]. intros ps Hps.
  eapply good_bind; [by eapply additional_good|]. intros add Hadd.
  apply (good_bind (opt_pred built)); [|by intros ret Hret; repeat split].
  destruct (convertAttrMap node "returns" true) as [m|] eqn:Hm; [|done].
  eapply good_bind; [|by intros c Hc]. apply rec_good.
  destruct (has_key "type" m) eqn:Ht.
  - unfold convertAttrMap in Hm. destruct (map_get "returns" node) as [v|] eqn:Hv.
    + apply map_get_depth in Hv. eapply convert_enough; [done|lia].
    + injection Hm as <-. done.
  - right. split; [|done]. exists "any". rewrite map_get_set_eq. split; [done|by left].
Qed.

Lemma buildObjectSchema_good node paths :
  (node_depth node ≤ fuel)%nat → good built (buildObjectSchema rec node paths).
Proof using rec_good.
  intros Hd. unfold buildObjectSchema.
  destruct (convertAttrMapOfMap node "properties" true) as [nodes|] eqn:Hn; [|done].
  eapply good_bind.
  { eapply build_props_good; [done|by eapply props_attr_enough|by apply NoDup_nil_2|constructor]. }
  intros props [Hok Hprops].
  destruct (convertAttrListOfString node "requires" true) as [names|]; [|done].
  eapply good_bind; [by apply (build_requires_good props []); [apply NoDup_nil_2|set_solver]|].
  intros reqs [Hreqs Hsub]. eapply good_bind; [by eapply additional_good|].
  intros add Hadd. by repeat split.
Qed.

Lemma build_type_good nodeType node paths :
  (node_depth node ≤ fuel)%nat → good built (build_type rec nodeType node paths).
Proof using rec_good.
  intros Hd. unfold build_type. destruct nodeType; try done.
  repeat case_decide; try done.
  - repeat split; apply natural_attr_nonneg.
  - unfold buildAnyOfSchema. destruct (convertAttrListOfMap _ _ _) as [nodes|] eqn:Hn; [|done].
    eapply good_bind; [eapply build_choices_good; [done|by eapply list_attr_enough]|]. done.
  - unfold buildAllOfSchema. destruct (convertAttrListOfMap _ _ _) as [nodes|] eqn:Hn; [|done].
    eapply good_bind; [eapply build_choices_good; [done|by eapply list_attr_enough]|]. done.
  - unfold buildNotSchema. destruct (convertAttrMap _ _ _) as [m|] eqn:Hm; [|done].
    eapply good_bind; [apply rec_good; by eapply map_attr_enough|].
    intros c Hc. split; [|done]. split; [by eexists|done].
  - by apply buildListSchema_good.
  - by apply buildObjectSchema_good.
  - by apply buildMethodSchema_good.
Qed.

(** A node of a type without children needs no recursive call. *)
Lemma build_simple_good node paths t :
  t ∈ "any" :: shorthands → good built (build_type rec (AString t) node paths).
Proof using Type.
  unfold shorthands. rewrite !elem_of_cons, elem_of_nil. intros Ht.
  destruct_or?; subst; try done. repeat split; apply natural_attr_nonneg.
Qed.
End build_type_good.

Lemma buildNodeMap_good fuel node paths :
  enough fuel node → good built (buildNodeMap fuel node paths).
Proof.
  revert node paths. induction fuel as [|fuel IH]; intros node paths He.
  { destruct He as [?|[_ ?]]; lia. }
  cbn [buildNodeMap]. destruct (map_get "type" node) as [nodeType|] eqn:Ht; [|done].
  apply (good_bind built); [|intros s; apply buildMixin_good].
  destruct He as [Hd|[(t & Ht' & Hin) _]].
  - apply (build_type_good fuel); [done|lia].
  - rewrite Ht in Ht'. injection Ht' as ->. by apply build_simple_good.
Qed.

Lemma Build_good data : good built (Build data).
Proof.
  unfold Build. apply (buildNode_good (S (any_depth data))); [|lia].
  apply buildNodeMap_good.
Qed.

(** C13. Building a schema always ends, and what it builds is well-formed.  On
    every description the builder returns an error of the source or a schema
    (the fuel given to it is enough); in the schema no child that a method
    calls is nil, the required names of an object are among its properties,
    and lengths are not negative, so that validation and Map are total on
    it. *)
Theorem Build_spec data :
  Build data ≠ inl OutOfFuel ∧ ∀ s, Build data = inr s → built s ∧ schema_ok s.
Proof.
  pose proof (Build_good data) as H. split; [by intros E; rewrite E in H|].
  intros s Hs. rewrite Hs in H. split; [done|].
  eapply (schema_all_impl2 node_built node_built); [|exact H..]. by intros ? [].
Qed.

(** ** Properties named like type fields

    [convertTypeMap] is applied to the map of properties itself, and adds a
    "type" entry to it when it finds one of the field names it guesses types
    from. *)

Lemma convert_entries_None k v mm :
  (k, v) ∈ mm → convertTypeMap v = None → convert_entries mm = None.
Proof.
  intros Hin Hv. induction mm as [|[k' v'] mm IH]; [by apply elem_of_nil in Hin|].
  cbn [convert_entries]. apply elem_of_cons in Hin as [[= <- <-]|Hin]; [by rewrite Hv|].
  rewrite IH by done. by destruct (convertTypeMap v').
Qed.

Lemma guess_type_not_shorthand m t : guess_type m = Some t → stringInList t shorthands = false.
Proof.
  unfold guess_type. repeat case_match; try (by intros [= <-]).
  intros Hf. apply List.find_some in Hf as [Hin _]. simpl in Hin.
  by destruct_or?; subst.
Qed.

(** C34. A property named "params", "properties", "anyOf", "allOf" or "not" makes
    an object schema impossible to describe, unless a property named "type"
    is described too: the builder takes the map of properties for a type
    without a "type" field, guesses one, and then finds that the entry it has
    added is not a type. *)
Theorem Build_guesses_properties node props t :
  map_get "type" node = Some (AString "object") →
  map_get "properties" node = Some (AMap props) →
  map_get "type" props = None → guess_type props = Some t →
  Build (AMap node) = inl (SchemaBuildError "properties is not a map of objects" []).
Proof.
  intros Ht Hp Hnt Hg.
  assert (has_key "type" node = true) as Hk.
  { unfold has_key. rewrite Ht. by apply bool_decide_eq_true. }
  assert (has_key "type" props = false) as Hk'.
  { unfold has_key. rewrite Hnt. apply bool_decide_eq_false. by intros [? ?]. }
  unfold Build, buildNode. cbn [convertTypeMap]. unfold add_type. rewrite Hk.
  cbn [buildNodeMap]. rewrite Ht. cbn [build_type]. rewrite !decide_False by done.
  rewrite decide_True by done. unfold buildObjectSchema, convertAttrMapOfMap, convertAttrMap.
  rewrite Hp. cbn [convertTypeMap]. unfold add_type. rewrite Hk', Hg.
  rewrite (convert_entries_None "type" (AString t)); [done|..].
  - rewrite map_set_fresh by done. rewrite elem_of_app, elem_of_cons. auto.
  - cbn [convertTypeMap]. by rewrite (guess_type_not_shorthand _ _ Hg).
Qed.

Lemma Build_guesses_properties_witness :
  Build (AMap [("type", AString "object");
               ("properties", AMap [("params", AMap [("type", AString "string")])])])
  = inl (SchemaBuildError "properties is not a map of objects" []).
Proof. by eapply Build_guesses_properties. Defined.

(** ** FixYamlMaps *)

Definition is_string (k : any) : Prop := match k with AString _ => True | _ => False end.

(** Every key of the maps made by yaml is a string. *)
Fixpoint string_keys (v : any) : Prop :=
  match v with
  | AAnyMap m => list_all (λ kv, is_string kv.1 ∧ string_keys kv.2) m
  | AList l => list_all string_keys l
  | _ => True
  end.

(** A value without maps of string keys, as yaml makes them. *)
Fixpoint yaml_value (v : any) : Prop :=
  match v with
  | AAnyMap m => list_all (λ kv, yaml_value kv.2) m
  | AList l => list_all yaml_value l
  | AMap _ => False
  | _ => True
  end.

(** A value whose maps all have string keys. *)
Fixpoint plain (v : any) : Prop :=
  match v with
  | AAnyMap _ => False
  | AList l => list_all plain l
  | AMap m => map_ok m ∧ list_all (λ kv, plain kv.2) m
  | _ => True
  end.

(** [fixes P paths r]: [r] is a plain value if [P] holds, and the error for a
    key that is not a string, below [paths], if it does not. *)
Definition fixes {A} (Q : A → Prop) (P : Prop) (paths : list string) (r : B A) : Prop :=
  match r with
  | inr v => P ∧ Q v
  | inl (NonStringMap ps k) => ¬ P ∧ ¬ is_string k ∧ paths `prefix_of` ps
  | inl _ => False
  end.

Lemma fixes_bind {A C} (Q : A → Prop) (R : C → Prop) P1 P2 paths ext x (f : A → B C) :
  fixes Q P1 (paths ++ ext) x → (∀ a, Q a → fixes R P2 paths (f a)) →
  fixes R (P1 ∧ P2) paths (x ≫= f).
Proof.
  intros Hx Hf. destruct x as [[| ps k| |]|a]; simpl in *; try done.
  - destruct Hx as (? & ? & Hp). split_and!; [tauto|done|].
    etrans; [by apply prefix_app_r|done].
  - destruct Hx as [HP HQ]. specialize (Hf a HQ). destruct (f a) as [[]|]; simpl in *; tauto.
Qed.

Lemma fixes_iff {A} (Q : A → Prop) (P P' : Prop) paths (r : B A) :
  (P ↔ P') → fixes Q P paths r → fixes Q P' paths r.
Proof. destruct r as [[]|]; simpl; tauto. Qed.

Lemma FixYamlMaps_fixes src :
  yaml_value src → ∀ paths, fixes plain (string_keys src) paths (FixYamlMaps src paths).
Proof.
  induction src as [| | | | | | |l IH| | | |m IH|] using any_ind; intros Hy paths; try done;
    cbn [FixYamlMaps string_keys yaml_value] in *.
  - assert (∀ i, fixes (list_all plain) (list_all string_keys l) paths (fix_items FixYamlMaps i l paths))
      as H.
    { clear -IH Hy. induction IH as [|v l Hv _ IHl]; intros i; [done|].
      destruct Hy as [Hyv Hyl]. cbn [fix_items list_all].
      eapply fixes_bind; [by apply Hv|]. intros a Ha.
      eapply (fixes_iff _ (list_all string_keys l ∧ True)); [tauto|].
      eapply (fixes_bind _ _ _ _ _ []); [rewrite app_nil_r; by apply IHl|]. done. }
    eapply (fixes_iff _ (list_all string_keys l ∧ True)); [tauto|].
    eapply (fixes_bind _ _ _ _ _ []); [rewrite app_nil_r; apply H|]. done.
  - assert (∀ acc, map_ok acc ∧ Forall (λ kv, plain kv.2) acc →
      fixes (λ m, map_ok m ∧ Forall (λ kv, plain kv.2) m)
        (list_all (λ kv, is_string kv.1 ∧ string_keys kv.2) m) paths
        (fix_entries FixYamlMaps acc m paths)) as H.
    { clear -IH Hy. induction IH as [|[k v] m [_ Hv] _ IHm]; intros acc Hacc; [done|].
      destruct Hy as [Hyv Hym]. cbn [fix_entries list_all fst snd] in *.
      destruct k; try (split_and!; [simpl; tauto|by intros []|reflexivity]).
      eapply (fixes_iff _ (string_keys v ∧
        list_all (λ kv, is_string kv.1 ∧ string_keys kv.2) m)); [simpl; tauto|].
      eapply fixes_bind; [by apply Hv|]. intros a Ha. apply IHm; [done|].
      destruct Hacc. split; [by apply map_set_ok|by apply map_set_Forall]. }
    eapply (fixes_iff _ (list_all (λ kv, is_string kv.1 ∧ string_keys kv.2) m ∧ True));
      [tauto|].
    eapply (fixes_bind _ _ _ _ _ []); [rewrite app_nil_r; apply H; split; [apply NoDup_nil_2|constructor]|].
    intros acc [Hok Hacc]. split; [done|]. split; [done|]. by apply list_all_Forall.
Qed.

(** Maps made by yaml.  FixYamlMaps turns a value made of lists and
    map[any]any into one whose maps all have string keys if every key is a
    string; otherwise it fails with the error for a key that is not. *)
Theorem FixYamlMaps_spec src :
  yaml_value src →
  (string_keys src → ∃ v, FixYamlMaps src [] = inr v ∧ plain v) ∧
  (¬ string_keys src → ∃ ps k, FixYamlMaps src [] = inl (NonStringMap ps k) ∧ ¬ is_string k).
Proof.
  intros Hy. pose proof (FixYamlMaps_fixes src Hy []) as H.
  destruct (FixYamlMaps src []) as [[]|]; simpl in H; try done; naive_solver.
Qed.

Lemma FixYamlMaps_spec_witness :
  ∃ v, FixYamlMaps (AAnyMap [(AString "items", AList [AAnyMap [(AString "type", AString "any")]])]) []
    = inr v ∧ plain v.
Proof. apply FixYamlMaps_spec; by repeat split. Defined.
