(* ===== verification/Describe.v ===== *)
(** * Describing a schema and building it again

    SchemaToString writes the map of a schema as JSON text; BuildBytes reads a
    description from JSON text.  This file shows that the second undoes the
    first on the schemas whose maps tell everything about them. *)

From S2P Require Import Prelude GoMap Strconv Values Schema Convert Builder.
From stdpp Require Import options.
#[local] Open Scope Z_scope.

(** ** Values after a round trip through JSON text *)

Definition dec (v : any) : any :=
  match Marshal v with Some j => json_value j | None => ANil end.

Definition dec_entries (m : gomap any) : gomap any :=
  map_sort ((λ kv, (kv.1, dec kv.2)) <$> m).

Lemma marshal_entries_dec (m : gomap any) js :
  marshal_entries Marshal m = Some js →
  map_keys js = map_keys m ∧
  (λ kv, (kv.1, json_value kv.2)) <$> js = (λ kv, (kv.1, dec kv.2)) <$> m.
Proof.
  revert js. induction m as [|[k v] m IH]; intros js; cbn [marshal_entries].
  { by intros [= <-]. }
  intros Hjs. apply bind_Some in Hjs as (j & Hj & Hjs). apply bind_Some in Hjs as (js' & Hjs & [= <-]).
  destruct (IH js' Hjs) as [Hk He]. split; [exact (f_equal (cons k) Hk)|].
  rewrite !fmap_cons, He. unfold dec; simpl. by rewrite Hj.
Qed.

Lemma decode_entries (m : gomap any) js :
  map_ok m → utf8_keys m → marshal_entries Marshal m = Some js →
  json_value (JObj (prod_map coerceUTF8 id <$> map_sort js)) = AMap (dec_entries m).
Proof.
  intros Hok Hu Hjs. destruct (marshal_entries_dec m js Hjs) as [Hk He].
  assert (map_ok js) as Hokjs by (by unfold map_ok; rewrite Hk).
  rewrite coerce_entries.
  - cbn [json_value]. rewrite decode_members_fresh; [|by apply map_sort_ok].
    unfold dec_entries. by rewrite app_nil_l, <- map_sort_fmap, He.
  - unfold map_keys. rewrite map_sort_perm. unfold map_keys in Hk. by rewrite Hk.
Qed.

Lemma dec_AMap m : entries_ok m → map_ok m → utf8_keys m → dec (AMap m) = AMap (dec_entries m).
Proof.
  intros He Hok Hu. destruct (marshal_entries_ok m He) as [js Hjs].
  unfold dec. cbn [Marshal]. rewrite Hjs. by apply decode_entries.
Qed.

Lemma dec_AMapList l :
  Forall (λ m, entries_ok m ∧ map_ok m ∧ utf8_keys m) l →
  dec (AMapList l) = AList (AMap ∘ dec_entries <$> l).
Proof.
  intros Hl. assert (∃ js, marshal_maps Marshal l = Some js ∧
    json_value <$> js = AMap ∘ dec_entries <$> l) as (js & Hjs & He).
  { induction Hl as [|m l (Hm & Hok & Hu) _ (js & Hjs & He)]; [by exists []|].
    destruct (marshal_entries_ok m Hm) as [es Hes]. cbn [marshal_maps]. rewrite Hes, Hjs.
    eexists. split; [done|]. rewrite !fmap_cons, He. by rewrite (decode_entries m). }
  unfold dec. cbn [Marshal]. rewrite Hjs. cbn [fmap option_fmap option_map json_value].
  by rewrite He.
Qed.

Lemma dec_AStrList l :
  Forall (λ k, utf8_ok k = true) l → dec (AStrList l) = AList (AString <$> l).
Proof.
  intros Hl. unfold dec. cbn [Marshal json_value]. f_equal.
  induction Hl as [|k l Hk _ IH]; [done|]. rewrite !fmap_cons, IH. simpl.
  by rewrite coerceUTF8_ok.
Qed.

Lemma dec_get k m : map_ok m → map_get k (dec_entries m) = dec <$> map_get k m.
Proof.
  intros Hok. unfold dec_entries. rewrite map_get_sort; [apply map_get_fmap|].
  unfold map_ok. by rewrite map_keys_fmap.
Qed.

(** ** The map of a schema as a function *)

Definition mapOf (s : Schema) : gomap any := match Map s with Ret m => m | Panic _ => [] end.

Lemma Map_mapOf s : Map_ok s → Map s = Ret (mapOf s) ∧ described (Type_ s) (mapOf s).
Proof. intros (m & Hm & Hd). unfold mapOf. by rewrite Hm. Qed.

Lemma map_schemas_mapOf l : Forall Map_ok l → map_schemas Map l = Ret (mapOf <$> l).
Proof.
  induction 1 as [|s l Hs _ IH]; [done|]. cbn [map_schemas].
  by rewrite (proj1 (Map_mapOf s Hs)), IH.
Qed.

Lemma map_props_mapOf (l : gomap Schema) :
  Forall (λ kv, Map_ok kv.2) l →
  map_props Map l = Ret ((λ kv, (kv.1, AMap (mapOf kv.2))) <$> l).
Proof.
  induction 1 as [|[k s] l Hs _ IH]; [done|]. cbn [map_props].
  by rewrite (proj1 (Map_mapOf s Hs)), IH.
Qed.

Lemma map_opt_mapOf key c m :
  opt_pred Map_ok c → map_opt Map key c m = Ret (set_opt key (AMap ∘ mapOf <$> c) m).
Proof. destruct c as [s|]; [|done]. intros Hs. simpl. by rewrite (proj1 (Map_mapOf s Hs)). Qed.

(** The description of a schema after JSON text. *)
Definition nodeOf (s : Schema) : gomap any := dec_entries (mapOf s).

Section nodeOf.
Context (s : Schema).
Hypothesis Hs : Map_ok s.

Lemma nodeOf_get k : map_get k (nodeOf s) = dec <$> map_get k (mapOf s).
Proof using Hs. destruct (Map_mapOf s Hs) as (_ & _ & Hok & _). by apply dec_get. Qed.

Lemma dec_mapOf : dec (AMap (mapOf s)) = AMap (nodeOf s).
Proof using Hs. destruct (Map_mapOf s Hs) as (_ & He & Hok & Hu & _). by apply dec_AMap. Qed.

Lemma nodeOf_type : has_key "type" (nodeOf s) = true.
Proof using Hs.
  unfold has_key. rewrite nodeOf_get. destruct (Map_mapOf s Hs) as (_ & _ & _ & _ & ->).
  by apply bool_decide_eq_true.
Qed.

Lemma convert_nodeOf : convertTypeMap (AMap (nodeOf s)) = Some (nodeOf s).
Proof using Hs. cbn [convertTypeMap]. unfold add_type. by rewrite nodeOf_type. Qed.
End nodeOf.

Lemma convert_items_nodeOf cs :
  Forall Map_ok cs → convert_items (AMap ∘ nodeOf <$> cs) = Some (nodeOf <$> cs).
Proof.
  induction 1 as [|s l Hs _ IH]; [done|]. rewrite !fmap_cons. cbn [convert_items compose].
  by rewrite convert_nodeOf, IH.
Qed.

Lemma dec_mapOf_list cs :
  Forall Map_ok cs → dec (AMapList (mapOf <$> cs)) = AList (AMap ∘ nodeOf <$> cs).
Proof.
  intros Hcs. rewrite dec_AMapList; [by rewrite <- list_fmap_compose|].
  apply Forall_fmap. eapply Forall_impl; [exact Hcs|].
  intros s Hs. destruct (Map_mapOf s Hs) as (_ & ? & ? & ? & _). done.
Qed.

(** ** Lookups in the map of a schema *)

Lemma get_set_opt_eq k v m : map_get k m = None → map_get k (set_opt k v m) = v.
Proof. destruct v; simpl; [by rewrite map_get_set_eq|done]. Qed.

Lemma get_set_opt_ne k k' v m : k ≠ k' → map_get k (set_opt k' v m) = map_get k m.
Proof. destruct v; simpl; [apply map_get_set_ne|done]. Qed.

Lemma get_bound_ne k key exkey b ex m :
  k ≠ key → k ≠ exkey → map_get k (bound_map key exkey b ex m) = map_get k m.
Proof. intros. destruct b; simpl; [|done]. by rewrite get_set_opt_ne, map_get_set_ne. Qed.

Lemma get_bound_key key exkey b ex m :
  key ≠ exkey → map_get key m = None → map_get key (bound_map key exkey b ex m) = b.
Proof. intros. destruct b; simpl; [|done]. by rewrite get_set_opt_ne, map_get_set_eq. Qed.

Lemma get_bound_exkey key exkey b ex m :
  key ≠ exkey → (b = None → ex = None) → map_get exkey m = None →
  map_get exkey (bound_map key exkey b ex m) = ABool <$> ex.
Proof.
  intros Hne Hb Hm. destruct b; simpl; [|by rewrite Hb].
  apply get_set_opt_eq. by rewrite map_get_set_ne.
Qed.

Definition mixin_entry (text : string) : option any :=
  if bool_decide (text = "") then None else Some (AString text).

Lemma rebuildType_get mx ty k :
  map_get k (rebuildType mx ty) =
  if decide (k = "type") then Some (AString ty)
  else if decide (k = "name") then mixin_entry (mixin_name mx)
  else if decide (k = "description") then mixin_entry (mixin_description mx)
  else None.
Proof.
  unfold rebuildType, mixin_entry.
  repeat case_bool_decide; repeat case_decide; subst;
    repeat (rewrite map_get_set_eq || rewrite map_get_set_ne by done);
    simpl; by rewrite ?decide_True, ?decide_False by done.
Qed.

(** Evaluate a lookup of a constant key. *)
Ltac map_lookup :=
  repeat first
    [ rewrite map_get_set_eq
    | rewrite map_get_set_ne by done
    | rewrite get_set_opt_ne by done
    | rewrite get_bound_ne by done
    | rewrite get_bound_key by first [done|by map_lookup]
    | rewrite get_bound_exkey by first [done|by rewrite fmap_None|by map_lookup]
    | rewrite rebuildType_get
    | rewrite decide_True by done
    | rewrite decide_False by done ].

(** ** The mixin *)

Definition mixin_ok (mx : SchemaMixin) : Prop :=
  utf8_ok (mixin_name mx) = true ∧ utf8_ok (mixin_description mx) = true.

Lemma dec_mixin_entry t : utf8_ok t = true → dec <$> mixin_entry t = mixin_entry t.
Proof.
  intros Ht. unfold mixin_entry. case_bool_decide; [done|]. simpl. unfold dec. simpl.
  by rewrite coerceUTF8_ok.
Qed.

Lemma buildMixin_at s0 mx node paths :
  Schema_mixin s0 = mixin0 →
  map_get "name" node = mixin_entry (mixin_name mx) →
  map_get "description" node = mixin_entry (mixin_description mx) →
  buildMixin s0 node paths = inr (with_mixin s0 mx).
Proof.
  intros H0 Hn Hd. unfold buildMixin. rewrite Hn, Hd. unfold mixin_entry.
  destruct mx as [n d], s0; simpl in *; subst; repeat case_bool_decide; by subst.
Qed.

(** ** The schemas that their maps describe completely

    The map of a string or list schema leaves out its length bounds, the map
    of a tuple schema its schema for additional items; the builder gives every
    method schema a schema for the result.  Names must be valid UTF-8 and
    number bounds must have an exact text, to survive JSON. *)

Definition text_exact (f : float64) : Prop :=
  ∃ t, FormatFloat f = Some t ∧ ParseFloat t = (f, true).

(** The flag of an absent bound is not written. *)
Definition flag_ok {T} (bound : option T) (flag : option bool) : Prop := bound = None → flag = None.

Definition guessed_names : list string := ["params"; "properties"; "anyOf"; "allOf"; "not"].

Definition node_described (s : Schema) : Prop :=
  node_ok s ∧ node_finite s ∧ mixin_ok (Schema_mixin s) ∧
  match s with
  | NumberSchema _ lo hi xlo xhi =>
      opt_pred text_exact lo ∧ opt_pred text_exact hi ∧ flag_ok lo xlo ∧ flag_ok hi xhi
  | IntegerSchema _ lo hi xlo xhi =>
      opt_pred (λ z, is_int64 z = true) lo ∧ opt_pred (λ z, is_int64 z = true) hi ∧
      flag_ok lo xlo ∧ flag_ok hi xhi
  | StringSchema _ mx mn => mx = None ∧ mn = None
  | ListSchema _ _ mn mx => mn = None ∧ mx = None
  | TupleSchema _ _ add => add = None
  | ObjectSchema _ props reqs _ =>
      utf8_keys props ∧ map_keys reqs ⊆ map_keys props ∧ Forall (λ kv, kv.2 = true) reqs ∧
      ("type" ∈ map_keys props ∨ ∀ k, k ∈ guessed_names → k ∉ map_keys props)
  | MethodSchema _ _ ret _ => is_Some ret
  | _ => True
  end.

Definition describable : Schema → Prop := schema_all node_described.

Lemma schema_all_impl (P Q : Schema → Prop) s :
  (∀ s, P s → Q s) → schema_all P s → schema_all Q s.
Proof. intros H Hs. eapply (schema_all_impl2 P P); [|exact Hs..]. auto. Qed.

Lemma describable_Map_ok s : describable s → Map_ok s.
Proof.
  intros Hs. apply Map_described. eapply schema_all_impl; [|exact Hs]. by intros ? (? & ? & _).
Qed.

(** Building from the description of [s] gives [s] back, up to [schema_eqv]. *)
Definition rebuilds (s : Schema) : Prop :=
  Map_ok s ∧
  ∀ fuel paths, (node_depth (nodeOf s) < fuel)%nat →
    ∃ s', buildNodeMap fuel (nodeOf s) paths = inr s' ∧ schema_norm s' = schema_norm s.

(** It suffices to build the node without its mixin. *)
Lemma rebuilds_intro s t :
  Map_ok s → t = Type_ s → mixin_ok (Schema_mixin s) →
  map_get "name" (mapOf s) = mixin_entry (mixin_name (Schema_mixin s)) →
  map_get "description" (mapOf s) = mixin_entry (mixin_description (Schema_mixin s)) →
  (∀ fuel paths, (node_depth (nodeOf s) ≤ fuel)%nat →
    ∃ s', build_type (buildNodeMap fuel) (AString t) (nodeOf s) paths = inr s' ∧
      Schema_mixin s' = mixin0 ∧
      schema_norm (with_mixin s' (Schema_mixin s)) = schema_norm s) →
  rebuilds s.
Proof.
  intros Hs -> [Hun Hud] Hn Hd Hb. split; [done|]. intros [|fuel] paths Hf; [lia|].
  destruct (Hb fuel paths) as (s' & Hs' & Hm & Hnorm); [lia|].
  exists (with_mixin s' (Schema_mixin s)). split; [|done].
  cbn [buildNodeMap]. rewrite nodeOf_get by done.
  destruct (Map_mapOf s Hs) as (_ & _ & _ & _ & ->). cbn [fmap option_fmap option_map].
  replace (dec (AString (Type_ s))) with (AString (Type_ s)) by (by destruct s).
  rewrite Hs'. cbn [mbind sum_mbind]. apply buildMixin_at; [done|..].
  - by rewrite nodeOf_get, Hn, dec_mixin_entry.
  - by rewrite nodeOf_get, Hd, dec_mixin_entry.
Qed.

(** ** Children *)

Definition fits (fuel : nat) (c : Schema) : Prop := (node_depth (nodeOf c) < fuel)%nat.

Lemma list_fits fuel k node cs :
  (node_depth node ≤ fuel)%nat → map_get k node = Some (AList (AMap ∘ nodeOf <$> cs)) →
  Forall (fits fuel) cs.
Proof.
  intros Hd Hk%map_get_depth. apply Forall_forall. intros c Hc. unfold fits.
  assert (any_depth (AMap (nodeOf c)) ≤ list_max (any_depth <$> (AMap ∘ nodeOf <$> cs)))%nat as H.
  { apply list_max_elem, list_elem_of_fmap. eexists. split; [done|].
    apply list_elem_of_fmap. by exists c. }
  change (any_depth (AMap (nodeOf c))) with (S (node_depth (nodeOf c))) in H.
  change (any_depth (AList (AMap ∘ nodeOf <$> cs)))
    with (S (list_max (any_depth <$> (AMap ∘ nodeOf <$> cs)))) in Hk. lia.
Qed.

Lemma map_fits fuel k node c :
  (node_depth node ≤ fuel)%nat → map_get k node = Some (AMap (nodeOf c)) → fits fuel c.
Proof.
  intros Hd Hk%map_get_depth. unfold fits.
  change (any_depth (AMap (nodeOf c))) with (S (node_depth (nodeOf c))) in Hk. lia.
Qed.

Lemma rebuild_node fuel c paths :
  rebuilds c → fits fuel c →
  ∃ c', buildNode (buildNodeMap fuel) (AMap (nodeOf c)) paths = inr c' ∧
    schema_norm c' = schema_norm c.
Proof. intros [Hm Hc] Hf. unfold buildNode. rewrite convert_nodeOf by done. by apply Hc. Qed.

Lemma rebuild_choices fuel attr i cs paths :
  Forall rebuilds cs → Forall (fits fuel) cs →
  ∃ cs', build_choices (buildNodeMap fuel) attr i (nodeOf <$> cs) paths = inr cs' ∧
    schema_norm <$> cs' = schema_norm <$> cs.
Proof.
  intros Hcs. revert i. induction Hcs as [|c cs [_ Hc] _ IH]; intros i Hf; [by exists []|].
  apply Forall_cons in Hf as [Hfc Hf]. rewrite fmap_cons. cbn [build_choices].
  destruct (Hc fuel (paths ++ [attr; index_path i]) Hfc) as (c' & -> & Hn).
  destruct (IH (S i) Hf) as (cs' & Hcs' & Hns). cbn [mbind sum_mbind]. rewrite Hcs'.
  exists (c' :: cs'). split; [done|]. by rewrite !fmap_cons, Hn, Hns.
Qed.

Lemma rebuild_tuple fuel i cs paths :
  Forall rebuilds cs → Forall (fits fuel) cs →
  ∃ cs', build_tuple (buildNodeMap fuel) i (AMap ∘ nodeOf <$> cs) paths = inr cs' ∧
    schema_norm <$> cs' = schema_norm <$> cs.
Proof.
  intros Hcs. revert i. induction Hcs as [|c cs Hc _ IH]; intros i Hf; [by exists []|].
  apply Forall_cons in Hf as [Hfc Hf]. rewrite fmap_cons. cbn [build_tuple compose].
  destruct (rebuild_node fuel c (paths ++ [index_path i]) Hc Hfc) as (c' & -> & Hn).
  destruct (IH (S i) Hf) as (cs' & Hcs' & Hns). cbn [mbind sum_mbind]. rewrite Hcs'.
  exists (c' :: cs'). split; [done|]. by rewrite !fmap_cons, Hn, Hns.
Qed.

(** An optional child under an attribute of its own. *)
Lemma rebuild_opt fuel attr s add paths :
  Map_ok s → opt_pred rebuilds add → (node_depth (nodeOf s) ≤ fuel)%nat →
  map_get attr (mapOf s) = AMap ∘ mapOf <$> add →
  ∃ add', when_present attr (nodeOf s)
      (λ additional, buildNode (buildNodeMap fuel) additional paths) = inr add' ∧
    schema_norm <$> add' = schema_norm <$> add.
Proof.
  intros Hs Hadd Hd Hk. unfold when_present.
  pose proof (nodeOf_get s Hs attr) as Hn. rewrite Hk in Hn.
  destruct add as [a|]; cbn [fmap option_fmap option_map compose] in Hn; rewrite Hn.
  - destruct Hadd as [Hm Ha]. rewrite (dec_mapOf a Hm) in Hn |- *.
    destruct (rebuild_node fuel a paths (conj Hm Ha)) as (a' & -> & Hna).
    { by eapply map_fits. }
    exists (Some a'). split; [done|]. cbn [fmap option_fmap option_map]. by rewrite Hna.
  - by exists None.
Qed.

(** ** The types one by one *)

Lemma dec_ABool b : dec (ABool b) = ABool b.
Proof. done. Qed.

Lemma convert_bool_flag s key ex :
  Map_ok s → map_get key (mapOf s) = ABool <$> ex → convertAttrBool (nodeOf s) key false = ex.
Proof. intros Hs Hk. unfold convertAttrBool. rewrite nodeOf_get, Hk by done. by destruct ex. Qed.

Lemma convert_int_bound s key b :
  Map_ok s → opt_pred (λ z, is_int64 z = true) b →
  map_get key (mapOf s) = AInt64 <$> b → convertAttrInt (nodeOf s) key false = b.
Proof.
  intros Hs Hb Hk. unfold convertAttrInt. rewrite nodeOf_get, Hk by done.
  destruct b as [z|]; [|done]. exact (ParseInt_Itoa z Hb).
Qed.

Lemma convert_float_bound s key b :
  Map_ok s → opt_pred text_exact b →
  map_get key (mapOf s) = AFloat <$> b → convertAttrFloat (nodeOf s) key false = b.
Proof.
  intros Hs Hb Hk. unfold convertAttrFloat. rewrite nodeOf_get, Hk by done.
  destruct b as [f|]; [|done]. destruct Hb as (t & Ht & Hp).
  cbn [fmap option_fmap option_map]. unfold dec. cbn [Marshal].
  rewrite Ht. cbn [fmap option_fmap option_map json_value]. by rewrite Hp.
Qed.

Section mapOf_equations.
Context (m : SchemaMixin).

Lemma mapOf_Number lo hi xlo xhi :
  mapOf (NumberSchema m lo hi xlo xhi) =
  bound_map "minimum" "exclusiveMinimum" (AFloat <$> lo) xlo
    (bound_map "maximum" "exclusiveMaximum" (AFloat <$> hi) xhi (rebuildType m "number")).
Proof. done. Qed.

Lemma mapOf_Integer lo hi xlo xhi :
  mapOf (IntegerSchema m lo hi xlo xhi) =
  bound_map "minimum" "exclusiveMinimum" (AInt64 <$> lo) xlo
    (bound_map "maximum" "exclusiveMaximum" (AInt64 <$> hi) xhi (rebuildType m "integer")).
Proof. done. Qed.

Ltac unfold_map :=
  unfold mapOf at 1; cbn [Map];
  unfold AnyOfSchema_Map, AllOfSchema_Map, TupleSchema_Map, MethodSchema_Map, ObjectSchema_Map,
    NotSchema_Map, ListSchema_Map, map_child.

Lemma mapOf_AnyOf cs : Forall Map_ok cs →
  mapOf (AnyOfSchema m cs) = map_set "anyOf" (AMapList (mapOf <$> cs)) (rebuildType m "anyOf").
Proof. intros H. unfold_map. by rewrite map_schemas_mapOf. Qed.

Lemma mapOf_AllOf cs : Forall Map_ok cs →
  mapOf (AllOfSchema m cs) = map_set "allOf" (AMapList (mapOf <$> cs)) (rebuildType m "allOf").
Proof. intros H. unfold_map. by rewrite map_schemas_mapOf. Qed.

Lemma mapOf_Not c : Map_ok c →
  mapOf (NotSchema m (Some c)) = map_set "not" (AMap (mapOf c)) (rebuildType m "not").
Proof. intros H. unfold_map. by rewrite (proj1 (Map_mapOf c H)). Qed.

Lemma mapOf_List c mn mx : Map_ok c →
  mapOf (ListSchema m (Some c) mn mx) = map_set "items" (AMap (mapOf c)) (rebuildType m "list").
Proof. intros H. unfold_map. by rewrite (proj1 (Map_mapOf c H)). Qed.

Lemma mapOf_Tuple cs add : Forall Map_ok cs →
  mapOf (TupleSchema m cs add) = map_set "items" (AMapList (mapOf <$> cs)) (rebuildType m "list").
Proof. intros H. unfold_map. by rewrite map_schemas_mapOf. Qed.

Lemma mapOf_Method ps ret add :
  Forall Map_ok ps → opt_pred Map_ok ret → opt_pred Map_ok add →
  mapOf (MethodSchema m ps ret add) =
  set_opt "additionalParams" (AMap ∘ mapOf <$> add)
    (set_opt "returns" (AMap ∘ mapOf <$> ret)
      (map_set "params" (AMapList (mapOf <$> ps)) (rebuildType m "method"))).
Proof.
  intros Hps Hret Hadd. unfold_map. rewrite map_schemas_mapOf by done.
  cbn [mbind outcome_mbind outcome_bind]. rewrite map_opt_mapOf by done.
  cbn [mbind outcome_mbind outcome_bind]. by rewrite map_opt_mapOf.
Qed.

Lemma mapOf_Object props reqs add :
  Forall (λ kv, Map_ok kv.2) props → opt_pred Map_ok add →
  mapOf (ObjectSchema m props reqs add) =
  set_opt "additionalProperties" (AMap ∘ mapOf <$> add)
    (map_set "requires" (AStrList (map_keys reqs))
      (map_set "properties" (AMap ((λ kv, (kv.1, AMap (mapOf kv.2))) <$> props))
        (rebuildType m "object"))).
Proof.
  intros Hprops Hadd. unfold_map. rewrite map_props_mapOf by done.
  cbn [mbind outcome_mbind outcome_bind]. by rewrite map_opt_mapOf.
Qed.
End mapOf_equations.

Lemma rebuilds_ok cs : Forall rebuilds cs → Forall Map_ok cs.
Proof. intros H. eapply Forall_impl; [exact H|]. by intros ? []. Qed.

Lemma rebuilds_ok_opt c : opt_pred rebuilds c → opt_pred Map_ok c.
Proof. destruct c; [by intros []|done]. Qed.

(** The children under a list attribute, in the description after JSON. *)
Lemma node_list_attr s key cs :
  Map_ok s → Forall Map_ok cs → map_get key (mapOf s) = Some (AMapList (mapOf <$> cs)) →
  map_get key (nodeOf s) = Some (AList (AMap ∘ nodeOf <$> cs)) ∧
  convertAttrListOfMap (nodeOf s) key false = Some (nodeOf <$> cs).
Proof.
  intros Hs Hcs Hk. pose proof (nodeOf_get s Hs key) as Hn. rewrite Hk in Hn.
  cbn [fmap option_fmap option_map] in Hn. rewrite dec_mapOf_list in Hn by done.
  split; [done|]. unfold convertAttrListOfMap. rewrite Hn. by apply convert_items_nodeOf.
Qed.

Lemma node_map_attr s key c :
  Map_ok s → Map_ok c → map_get key (mapOf s) = Some (AMap (mapOf c)) →
  map_get key (nodeOf s) = Some (AMap (nodeOf c)).
Proof. intros Hs Hc Hk. rewrite nodeOf_get, Hk by done. cbn. by rewrite dec_mapOf. Qed.

Section rebuild_types.
Context (m : SchemaMixin).
Hypothesis Hm : mixin_ok m.

Lemma rebuilds_Number lo hi xlo xhi :
  Map_ok (NumberSchema m lo hi xlo xhi) →
  opt_pred text_exact lo → opt_pred text_exact hi → flag_ok lo xlo → flag_ok hi xhi →
  rebuilds (NumberSchema m lo hi xlo xhi).
Proof using Hm.
  intros Hs Hlo Hhi Hxlo Hxhi.
  apply (rebuilds_intro _ "number"); try done;
    rewrite ?mapOf_Number, ?mapOf_Integer; [by map_lookup..|].
  intros fuel paths _. eexists. split_and!; [done|done|].
  unfold buildNumberSchema. cbn [with_mixin schema_norm]. unfold flag_ok in *.
  rewrite (convert_float_bound _ _ lo), (convert_float_bound _ _ hi),
    (convert_bool_flag _ _ xlo), (convert_bool_flag _ _ xhi); try done;
    rewrite ?mapOf_Number, ?mapOf_Integer; by map_lookup.
Qed.

Lemma rebuilds_Integer lo hi xlo xhi :
  Map_ok (IntegerSchema m lo hi xlo xhi) →
  opt_pred (λ z, is_int64 z = true) lo → opt_pred (λ z, is_int64 z = true) hi →
  flag_ok lo xlo → flag_ok hi xhi →
  rebuilds (IntegerSchema m lo hi xlo xhi).
Proof using Hm.
  intros Hs Hlo Hhi Hxlo Hxhi.
  apply (rebuilds_intro _ "integer"); try done;
    rewrite ?mapOf_Number, ?mapOf_Integer; [by map_lookup..|].
  intros fuel paths _. eexists. split_and!; [done|done|].
  unfold buildIntegerSchema. cbn [with_mixin schema_norm]. unfold flag_ok in *.
  rewrite (convert_int_bound _ _ lo), (convert_int_bound _ _ hi),
    (convert_bool_flag _ _ xlo), (convert_bool_flag _ _ xhi); try done;
    rewrite ?mapOf_Number, ?mapOf_Integer; by map_lookup.
Qed.

Lemma rebuilds_AnyOf cs :
  Map_ok (AnyOfSchema m cs) → Forall rebuilds cs → rebuilds (AnyOfSchema m cs).
Proof using Hm.
  intros Hs Hcs. pose proof (rebuilds_ok cs Hcs) as Hok.
  pose proof (mapOf_AnyOf m cs Hok) as Hmap.
  apply (rebuilds_intro _ "anyOf"); try done; [by rewrite Hmap; map_lookup..|].
  intros fuel paths Hd.
  destruct (node_list_attr _ "anyOf" cs Hs Hok) as [Hn Hc]; [by rewrite Hmap; map_lookup|].
  cbn [build_type]. rewrite !decide_False by done. rewrite decide_True by done.
  unfold buildAnyOfSchema. rewrite Hc.
  destruct (rebuild_choices fuel ".anyOf" 0 cs paths Hcs) as (cs' & -> & Hns);
    [by eapply list_fits|].
  eexists. split_and!; [done|done|]. cbn [with_mixin schema_norm]. by rewrite Hns.
Qed.

Lemma rebuilds_AllOf cs :
  Map_ok (AllOfSchema m cs) → Forall rebuilds cs → rebuilds (AllOfSchema m cs).
Proof using Hm.
  intros Hs Hcs. pose proof (rebuilds_ok cs Hcs) as Hok.
  pose proof (mapOf_AllOf m cs Hok) as Hmap.
  apply (rebuilds_intro _ "allOf"); try done; [by rewrite Hmap; map_lookup..|].
  intros fuel paths Hd.
  destruct (node_list_attr _ "allOf" cs Hs Hok) as [Hn Hc]; [by rewrite Hmap; map_lookup|].
  cbn [build_type]. rewrite !decide_False by done. rewrite decide_True by done.
  unfold buildAllOfSchema. rewrite Hc.
  destruct (rebuild_choices fuel ".allOf" 0 cs paths Hcs) as (cs' & -> & Hns);
    [by eapply list_fits|].
  eexists. split_and!; [done|done|]. cbn [with_mixin schema_norm]. by rewrite Hns.
Qed.

Lemma rebuilds_Not c : Map_ok (NotSchema m (Some c)) → rebuilds c → rebuilds (NotSchema m (Some c)).
Proof using Hm.
  intros Hs Hc. pose proof (mapOf_Not m c (proj1 Hc)) as Hmap.
  apply (rebuilds_intro _ "not"); try done; [by rewrite Hmap; map_lookup..|].
  intros fuel paths Hd.
  pose proof (node_map_attr _ "not" c Hs (proj1 Hc)) as Hn.
  rewrite Hmap in Hn. specialize (Hn ltac:(by map_lookup)).
  cbn [build_type]. rewrite !decide_False by done. rewrite decide_True by done.
  unfold buildNotSchema, convertAttrMap. rewrite Hn, convert_nodeOf by apply Hc.
  destruct (proj2 Hc fuel (paths ++ [".not"])) as (c' & -> & Hnc); [by eapply map_fits|].
  eexists. split_and!; [done|done|]. cbn [with_mixin schema_norm fmap option_fmap option_map].
  by rewrite Hnc.
Qed.

(** An attribute that the map of [s] does not have. *)
Lemma natural_attr_absent s key :
  Map_ok s → map_get key (mapOf s) = None → natural_attr (nodeOf s) key = None.
Proof using Type.
  intros Hs Hk. unfold natural_attr, convertAttrInt. by rewrite nodeOf_get, Hk.
Qed.

Lemma when_present_absent s key f :
  Map_ok s → map_get key (mapOf s) = None → when_present (A:=Schema) key (nodeOf s) f = inr None.
Proof using Type. intros Hs Hk. unfold when_present. by rewrite nodeOf_get, Hk. Qed.

Lemma rebuilds_leaf s t :
  s = AnySchema m ∧ t = "any" ∨ s = NullSchema m ∧ t = "null" ∨ s = BoolSchema m ∧ t = "bool" ∨
  s = StringSchema m None None ∧ t = "string" →
  Map_ok s → rebuilds s.
Proof using Hm.
  intros Hst Hs.
  assert (mapOf s = rebuildType m t ∧ t = Type_ s ∧ Schema_mixin s = m) as (Hmap & Ht & Hmx)
    by (destruct_or!; destruct_and!; by subst).
  apply (rebuilds_intro s t); try done; rewrite ?Hmap, ?Hmx; [by map_lookup..|].
  intros fuel paths _. destruct_or!; destruct Hst as [-> ->];
    try (eexists; split_and!; [done|done|done]).
  exists (StringSchema mixin0 None None). split_and!; [|done|done].
  cbn [build_type]. rewrite !decide_False by done. rewrite decide_True by done.
  unfold buildStringSchema. by rewrite !natural_attr_absent by (rewrite ?Hmap; map_lookup; done).
Qed.

Lemma rebuilds_List c :
  Map_ok (ListSchema m (Some c) None None) → rebuilds c → rebuilds (ListSchema m (Some c) None None).
Proof using Hm.
  intros Hs Hc. pose proof (mapOf_List m c None None (proj1 Hc)) as Hmap.
  apply (rebuilds_intro _ "list"); try done; [by rewrite Hmap; map_lookup..|].
  intros fuel paths Hd.
  pose proof (node_map_attr _ "items" c Hs (proj1 Hc)) as Hn.
  rewrite Hmap in Hn. specialize (Hn ltac:(by map_lookup)).
  cbn [build_type]. rewrite !decide_False by done. rewrite decide_True by done.
  unfold buildListSchema. rewrite Hn.
  destruct (rebuild_node fuel c paths Hc) as (c' & -> & Hnc); [by eapply map_fits|].
  cbn [mbind sum_mbind]. eexists. split_and!; [done|done|].
  rewrite !natural_attr_absent by (rewrite ?Hmap; map_lookup; done).
  cbn [with_mixin schema_norm fmap option_fmap option_map]. by rewrite Hnc.
Qed.

Lemma rebuilds_Tuple cs :
  Map_ok (TupleSchema m cs None) → Forall rebuilds cs → rebuilds (TupleSchema m cs None).
Proof using Hm.
  intros Hs Hcs. pose proof (rebuilds_ok cs Hcs) as Hok.
  pose proof (mapOf_Tuple m cs None Hok) as Hmap.
  apply (rebuilds_intro _ "list"); try done; [by rewrite Hmap; map_lookup..|].
  intros fuel paths Hd.
  destruct (node_list_attr _ "items" cs Hs Hok) as [Hn _]; [by rewrite Hmap; map_lookup|].
  cbn [build_type]. rewrite !decide_False by done. rewrite decide_True by done.
  unfold buildListSchema. rewrite Hn.
  destruct (rebuild_tuple fuel 0 cs paths Hcs) as (cs' & -> & Hns); [by eapply list_fits|].
  cbn [mbind sum_mbind]. rewrite when_present_absent; [|done|by rewrite Hmap; map_lookup].
  cbn [mbind sum_mbind]. eexists. split_and!; [done|done|].
  cbn [with_mixin schema_norm]. by rewrite Hns.
Qed.

Lemma rebuilds_Method ps r add :
  Map_ok (MethodSchema m ps (Some r) add) →
  Forall rebuilds ps → rebuilds r → opt_pred rebuilds add → rebuilds (MethodSchema m ps (Some r) add).
Proof using Hm.
  intros Hs Hps Hr Hadd. pose proof (rebuilds_ok ps Hps) as Hok.
  pose proof (mapOf_Method m ps (Some r) add Hok (proj1 Hr) (rebuilds_ok_opt _ Hadd)) as Hmap.
  apply (rebuilds_intro _ "method"); try done; [by rewrite Hmap; map_lookup..|].
  intros fuel paths Hd.
  destruct (node_list_attr _ "params" ps Hs Hok) as [Hn Hc]; [by rewrite Hmap; map_lookup|].
  pose proof (node_map_attr _ "returns" r Hs (proj1 Hr)) as Hnr.
  rewrite Hmap in Hnr.
  specialize (Hnr ltac:(by map_lookup; rewrite get_set_opt_eq by (by map_lookup))).
  cbn [build_type]. rewrite !decide_False by done. rewrite decide_True by done.
  unfold buildMethodSchema. rewrite Hc.
  destruct (rebuild_choices fuel ".params" 0 ps paths Hps) as (ps' & -> & Hns);
    [by eapply list_fits|]. cbn [mbind sum_mbind].
  destruct (rebuild_opt fuel "additionalParams" _ add (paths ++ [".additionalParams"]) Hs Hadd Hd)
    as (add' & -> & Hna).
  { rewrite Hmap. apply get_set_opt_eq. by map_lookup. }
  cbn [mbind sum_mbind]. unfold convertAttrMap.
  rewrite Hnr, convert_nodeOf, nodeOf_type by apply Hr.
  destruct (proj2 Hr fuel (paths ++ [".returns"])) as (r' & -> & Hnr'); [by eapply map_fits|].
  eexists. split_and!; [done|done|].
  cbn [with_mixin schema_norm fmap option_fmap option_map].
  cbn [fmap option_fmap option_map] in Hna. by rewrite Hns, Hnr', Hna.
Qed.
End rebuild_types.

(** ** Object schemas *)

Definition prop_maps (props : gomap Schema) : gomap any :=
  (λ kv, (kv.1, AMap (mapOf kv.2))) <$> props.
Definition prop_nodes (props : gomap Schema) : gomap any :=
  (λ kv, (kv.1, AMap (nodeOf kv.2))) <$> map_sort props.

Lemma map_sort_Forall {V} (P : string * V → Prop) m : Forall P m → Forall P (map_sort m).
Proof. by rewrite map_sort_perm. Qed.

Lemma dec_prop_maps props :
  Forall (λ kv, Map_ok kv.2) props → map_ok props → utf8_keys props →
  dec (AMap (prop_maps props)) = AMap (prop_nodes props).
Proof.
  intros Hp Hok Hu.
  assert (map_keys (prop_maps props) = map_keys props) as Hk
    by exact (map_keys_fmap (λ s, AMap (mapOf s)) props).
  rewrite dec_AMap; unfold map_ok, utf8_keys in *; rewrite ?Hk; try done; unfold prop_maps.
  - f_equal. unfold dec_entries, prop_nodes.
    rewrite <- (map_sort_fmap (λ s, AMap (nodeOf s)) props). f_equal.
    clear Hok Hu Hk. induction Hp as [|[k s] props Hs _ IH]; [done|].
    rewrite !fmap_cons, IH. simpl in *. by rewrite dec_mapOf.
  - unfold entries_ok. apply Forall_fmap. eapply Forall_impl; [exact Hp|].
    intros [k s] Hs. apply Marshal_AMap. by destruct (Map_mapOf s Hs) as (_ & ? & _).
Qed.

Lemma has_key_elem k (m : gomap any) : has_key k m = bool_decide (k ∈ map_keys m).
Proof. unfold has_key. apply bool_decide_ext. apply map_get_is_Some. Qed.

(** No type is guessed for a map of properties with harmless names. *)
Lemma add_type_names (m : gomap any) :
  ("type" ∈ map_keys m ∨ ∀ k, k ∈ guessed_names → k ∉ map_keys m) → add_type m = m.
Proof.
  intros H. unfold add_type. rewrite has_key_elem. case_bool_decide; [done|].
  destruct H as [?|H]; [done|].
  assert (∀ k, k ∈ guessed_names → has_key k m = false) as Hk.
  { intros k Hk. rewrite has_key_elem. by apply bool_decide_eq_false, H. }
  unfold guess_type. cbn [List.find].
  rewrite !Hk; [done|..]; unfold guessed_names; rewrite !elem_of_cons; tauto.
Qed.

Lemma convert_prop_nodes props :
  Forall (λ kv, Map_ok kv.2) props →
  convert_entries (prop_nodes props) = Some ((λ kv, (kv.1, nodeOf kv.2)) <$> map_sort props).
Proof.
  intros Hp%map_sort_Forall. unfold prop_nodes.
  induction Hp as [|[k s] l Hs _ IH]; [done|]. rewrite !fmap_cons. cbn [convert_entries fst snd].
  by rewrite convert_nodeOf, IH.
Qed.

Definition norm_entries (props : gomap Schema) : gomap Schema :=
  (λ kv, (kv.1, schema_norm kv.2)) <$> props.

Lemma rebuild_props fuel acc l paths :
  Forall (λ kv, rebuilds kv.2) l → Forall (λ kv, fits fuel kv.2) l →
  NoDup (map_keys acc ++ map_keys l) →
  ∃ l', build_props (buildNodeMap fuel) acc ((λ kv, (kv.1, nodeOf kv.2)) <$> l) paths
          = inr (acc ++ l') ∧ norm_entries l' = norm_entries l.
Proof.
  intros Hl. revert acc. induction Hl as [|[k s] l [_ Hs] _ IH]; intros acc Hf Hnd.
  { exists []. by rewrite app_nil_r. }
  apply Forall_cons in Hf as [Hfs Hf]. rewrite fmap_cons. cbn [build_props fst snd].
  destruct (Hs fuel (paths ++ [".properties"; "." +:+ k]) Hfs) as (s' & Hs' & Hn).
  cbn [snd] in Hs'. rewrite Hs'.
  cbn [mbind sum_mbind]. rewrite map_set_fresh.
  - destruct (IH (acc ++ [(k, s')]) Hf) as (l' & Hl' & Hnl).
    { unfold map_keys in *. rewrite fmap_app, <- app_assoc. done. }
    exists ((k, s') :: l'). rewrite Hl', <- app_assoc. split; [done|].
    unfold norm_entries in *. rewrite !fmap_cons, Hnl. simpl in *. by rewrite Hn.
  - apply map_get_None. intros Hin. apply NoDup_app in Hnd as (_ & Hd & _).
    apply (Hd k Hin). by left.
Qed.

Lemma props_fits fuel node props :
  (node_depth node ≤ fuel)%nat → map_get "properties" node = Some (AMap (prop_nodes props)) →
  Forall (λ kv, fits fuel kv.2) (map_sort props).
Proof.
  intros Hd Hk%map_get_depth. apply Forall_forall. intros [k c] Hc. unfold fits.
  change (any_depth (AMap (prop_nodes props))) with (S (node_depth (prop_nodes props))) in Hk.
  assert (any_depth (AMap (nodeOf c)) ≤ node_depth (prop_nodes props))%nat as H.
  { apply list_max_elem, list_elem_of_fmap. exists (k, AMap (nodeOf c)). split; [done|].
    apply list_elem_of_fmap. by exists (k, c). }
  change (any_depth (AMap (nodeOf c))) with (S (node_depth (nodeOf c))) in H. simpl. lia.
Qed.

Lemma rebuild_requires props acc reqs paths :
  map_keys reqs ⊆ map_keys props → Forall (λ kv, kv.2 = true) reqs →
  NoDup (map_keys acc ++ map_keys reqs) →
  build_requires props acc (map_keys reqs) paths = inr (acc ++ reqs).
Proof.
  revert acc. induction reqs as [|[k b] reqs IH]; intros acc Hsub Ht Hnd.
  { by rewrite app_nil_r. }
  apply Forall_cons in Ht as [Hb Ht]. simpl in Hb. subst b.
  unfold map_keys at 1. rewrite fmap_cons. cbn [build_requires fst].
  destruct (proj2 (map_get_is_Some k props)) as [s Hs]; [apply Hsub; by left|].
  rewrite Hs. fold (map_keys reqs). rewrite map_set_fresh.
  - rewrite IH; [by rewrite <- app_assoc|set_solver|done|].
    unfold map_keys in *. rewrite fmap_app, <- app_assoc. done.
  - apply map_get_None. intros Hin. apply NoDup_app in Hnd as (_ & Hd & _).
    apply (Hd k Hin). by left.
Qed.

Lemma convert_strings_map l : convert_strings (AString <$> l) = Some l.
Proof. induction l as [|x l IH]; [done|]. rewrite fmap_cons. cbn [convert_strings]. by rewrite IH. Qed.

Lemma prop_nodes_keys props k : k ∈ map_keys (prop_nodes props) ↔ k ∈ map_keys props.
Proof.
  unfold prop_nodes.
  rewrite (map_keys_fmap (λ s, AMap (nodeOf s)) (map_sort props)).
  unfold map_keys. by rewrite map_sort_perm.
Qed.

Lemma norm_entries_keys l1 l2 : norm_entries l1 = norm_entries l2 → map_keys l1 = map_keys l2.
Proof.
  intros H. rewrite <- (map_keys_fmap schema_norm l1), <- (map_keys_fmap schema_norm l2).
  exact (f_equal map_keys H).
Qed.

Lemma norm_entries_sorted props l :
  map_ok props → norm_entries l = norm_entries (map_sort props) →
  map_sort (norm_entries l) = map_sort (norm_entries props).
Proof.
  intros Hok ->. apply map_sort_canonical.
  - unfold map_ok, norm_entries. rewrite map_keys_fmap. by apply map_sort_ok.
  - unfold norm_entries. by rewrite map_sort_perm.
Qed.

Lemma rebuilds_Object m props reqs add :
  mixin_ok m → Map_ok (ObjectSchema m props reqs add) →
  Forall (λ kv, rebuilds kv.2) props → opt_pred rebuilds add →
  map_ok props → map_ok reqs → utf8_keys props → map_keys reqs ⊆ map_keys props →
  Forall (λ kv, kv.2 = true) reqs →
  ("type" ∈ map_keys props ∨ ∀ k, k ∈ guessed_names → k ∉ map_keys props) →
  rebuilds (ObjectSchema m props reqs add).
Proof.
  intros Hm Hs Hprops Hadd Hokp Hokr Hu Hsub Htrue Hnames.
  assert (Forall (λ kv, Map_ok kv.2) props) as Hok
    by (eapply Forall_impl; [exact Hprops|by intros ? []]).
  pose proof (mapOf_Object m props reqs add Hok (rebuilds_ok_opt _ Hadd)) as Hmap.
  apply (rebuilds_intro _ "object"); try done; [by rewrite Hmap; map_lookup..|].
  intros fuel paths Hd.
  assert (map_get "properties" (nodeOf (ObjectSchema m props reqs add)) = Some (AMap (prop_nodes props)))
    as Hpn.
  { rewrite nodeOf_get, Hmap by done. map_lookup. cbn [fmap option_fmap option_map].
    by rewrite <- dec_prop_maps. }
  assert (map_get "requires" (nodeOf (ObjectSchema m props reqs add)) =
    Some (AList (AString <$> map_keys reqs))) as Hrn.
  { rewrite nodeOf_get, Hmap by done. map_lookup. cbn [fmap option_fmap option_map].
    rewrite dec_AStrList; [done|]. unfold utf8_keys in Hu. rewrite Forall_forall in *. auto. }
  cbn [build_type]. rewrite !decide_False by done. rewrite decide_True by done.
  unfold buildObjectSchema, convertAttrMapOfMap, convertAttrMap, convertAttrListOfString.
  rewrite Hpn, Hrn. cbn [convertTypeMap].
  rewrite add_type_names, convert_prop_nodes, convert_strings_map by
    first [done|setoid_rewrite prop_nodes_keys; done].
  destruct (rebuild_props fuel [] (map_sort props) paths) as (l' & -> & Hl').
  { by apply map_sort_Forall. }
  { by eapply props_fits. }
  { apply map_sort_ok, Hokp. }
  cbn [mbind sum_mbind app].
  rewrite (rebuild_requires l' [] reqs paths); [|..].
  2: { apply norm_entries_keys in Hl'. rewrite Hl'. unfold map_keys in *.
       by rewrite map_sort_perm. }
  2: done.
  2: exact Hokr.
  cbn [mbind sum_mbind app].
  destruct (rebuild_opt fuel "additionalProperties" _ add (paths ++ [".additionalProperties"]) Hs Hadd Hd)
    as (add' & -> & Hna).
  { rewrite Hmap. apply get_set_opt_eq. by map_lookup. }
  cbn [mbind sum_mbind]. eexists. split_and!; [done|done|].
  cbn [with_mixin schema_norm]. rewrite Hna. f_equal.
  exact (norm_entries_sorted props l' Hokp Hl').
Qed.

Lemma describable_rebuilds s : describable s → rebuilds s.
Proof.
  assert (∀ l : list Schema, Forall (λ s, describable s → rebuilds s) l →
    list_all describable l → Forall rebuilds l) as Hl.
  { intros l. rewrite list_all_Forall, !Forall_forall. auto. }
  assert (∀ l : gomap Schema, Forall (λ kv, describable kv.2 → rebuilds kv.2) l →
    list_all (λ kv, describable kv.2) l → Forall (λ kv, rebuilds kv.2) l) as Hm.
  { intros l. rewrite list_all_Forall, !Forall_forall. auto. }
  assert (∀ o, opt_pred (λ s, describable s → rebuilds s) o → opt_pred describable o →
    opt_pred rebuilds o) as Ho by (intros [?|]; simpl; auto).
  induction s using Schema_ind; intros Hd; pose proof (describable_Map_ok _ Hd) as Hs;
    destruct Hd as [(Hn & _ & Hmx & Hnd) Hc]; fold describable in Hc;
    cbn [Schema_mixin] in Hmx; cbn [node_ok] in Hn; destruct_and?.
  - eapply rebuilds_leaf; eauto.
  - eapply rebuilds_leaf; eauto.
  - eapply rebuilds_leaf; eauto 6.
  - by apply rebuilds_Number.
  - by apply rebuilds_Integer.
  - subst. eapply rebuilds_leaf; eauto 7.
  - apply rebuilds_AnyOf; auto.
  - apply rebuilds_AllOf; auto.
  - destruct Hn as [c' ->]. apply rebuilds_Not; [done..|]. by apply H.
  - destruct Hn as [c' ->]. subst. apply rebuilds_List; [done..|]. by apply H.
  - subst. apply rebuilds_Tuple; auto.
  - apply rebuilds_Object; auto.
  - destruct Hnd as [r ->]. apply rebuilds_Method; auto.
Qed.

Lemma describe_and_build s :
  describable s →
  ∃ j s', SchemaToString s = Ret j ∧ BuildBytes (Some j) = inr s' ∧ schema_eqv s' s.
Proof.
  intros Hs. destruct (describable_rebuilds s Hs) as [Hok Hb].
  destruct (Map_mapOf s Hok) as [Hm (He & _)].
  destruct (Marshal_AMap _ He) as [j Hj].
  assert (json_value j = AMap (nodeOf s)) as Hjv.
  { rewrite <- dec_mapOf by done. unfold dec. by rewrite Hj. }
  destruct (Hb (S (any_depth (AMap (nodeOf s)))) []) as (s' & Hs' & Hn).
  { change (any_depth (AMap (nodeOf s))) with (S (node_depth (nodeOf s))). lia. }
  exists j, s'. split_and!; [|by unfold BuildBytes, Build, buildNode; rewrite Hjv, convert_nodeOf|done].
  unfold SchemaToString. rewrite Hm. cbn [mbind outcome_mbind outcome_bind]. by rewrite Hj.
Qed.


