(* ===== verification/Actor.v ===== *)
(** * Actors: net/request.go

    Actors are objects that refer to each other through [children], so they
    live in a heap and are named by locations; a location that is not in the
    heap stands for a nil pointer.  The recursion of [Feed], [Has] and the
    others follows children and ends only if no actor is below itself, so it
    takes fuel.

    Handlers are arbitrary functions.  They act on a world of type [W], may
    return any value, a message among them, or an error, and may panic.  A
    method handler's schema is used through the class [SchemaOps], which
    says what the actor needs of a schema package. *)

From S2P Require Import Prelude GoMap Strconv Values Messages Methods Schema Validator Builder.
From stdpp Require Import gmap.
From stdpp Require Import options.
#[local] Open Scope Z_scope.

(** ** What an actor needs of schemas *)

Class SchemaOps (S : Type) := {
  schema_validate : S → any → result (option ErrorPos);
  schema_Map : S → result (gomap any) }.

(** The promise of a schema package: on fit schemas, validation returns, and
    finds no error in just the values that the schema accepts. *)
Class SchemaLaws (S : Type) `{SchemaOps S} := {
  schema_fit : S → Prop;
  schema_accepts : S → any → Prop;
  schema_validate_spec s data : schema_fit s →
    ∃ r, schema_validate s data = Ret r ∧ (r = None ↔ schema_accepts s data) }.

#[export] Instance Schema_ops : SchemaOps Schema := {
  schema_validate s data := fst <$> Validate (Some s) data NewSchemaValidator;
  schema_Map := Map }.

#[export] Program Instance Schema_laws : SchemaLaws Schema := {
  schema_fit := schema_ok;
  schema_accepts := valid }.
Next Obligation.
  intros s data Hs.
  destruct (decides_scan_here Scan _ _ _ (Scan_decides s Hs data) []) as (r & Hr & Hv).
  exists r. cbn [schema_validate Schema_ops]. unfold Validate, NewSchemaValidator.
  rewrite Hr. split; [done|]. destruct r; simpl in *; [|done].
  destruct Hv as [HP _]. by split.
Qed.

(** ** Errors *)

(** [errors.As(err, &rpcErr)] and [errors.As(err, &wrapErr)]. *)
Fixpoint as_RPCError (err : error) : option RPCError :=
  match err with
  | ErrorRPC e => Some e
  | ErrorWithMessage _ cause => as_RPCError cause
  | _ => None
  end.

Fixpoint as_WrappedResponse (err : error) : option (http_response * string) :=
  match err with
  | ErrorWrapped resp body => Some (resp, body)
  | ErrorWithMessage _ cause => as_WrappedResponse cause
  | _ => None
  end.

(** What a handler returns as [any]: a message, or another value. *)
Inductive value : Type :=
  | Val (v : any)
  | Msg (m : Message).

(** The results of Feed: a message or nil, an error or nil. *)
Abbreviation feed_result := (option Message * option error)%type.

(** ** wrapResult *)

Definition wrapResult (res : value) (err : option error) (msg : Message) : result feed_result :=
  if negb (IsRequest msg) then Ret (None, err)
  else
    match msg with
    | MRequest reqmsg =>
        match err with
        | Some err =>
            match as_RPCError err with
            | Some rpcErr => m ← ToMessage rpcErr reqmsg; Ret (Some (MError m), None)
            | None =>
                match as_WrappedResponse err with
                | Some (resp, body) => Ret (None, Some (ErrorWrapped resp body))
                | None => m ← ToMessage ErrInternalError reqmsg; Ret (Some (MError m), None)
                end
            end
        | None =>
            match res with
            | Msg resmsg1 => Ret (Some resmsg1, None)
            | Val v => m ← NewResultMessage (Some (MRequest reqmsg)) v; Ret (Some (MResult m), None)
            end
        end
    | _ => Panic (PanicValue "convert to request message failed")
    end.

(** ** Requests, handlers, actors *)

Record RPCRequest (Ctx HReq Sess : Type) := mkRPCRequest {
  context : Ctx;
  request_msg : Message;
  transportType : string;
  http_request : option HReq;
  request_data : any;
  session : option Sess }.
Arguments mkRPCRequest {_ _ _} _ _ _ _ _ _.
Arguments context {_ _ _} _.
Arguments request_msg {_ _ _} _.
Arguments transportType {_ _ _} _.
Arguments http_request {_ _ _} _.
Arguments request_data {_ _ _} _.
Arguments session {_ _ _} _.

Section actor.
Context {W Ctx HReq Sess S : Type}.

Abbreviation RPCRequest := (RPCRequest Ctx HReq Sess).

Definition NewRPCRequest (ctx : Ctx) (msg : Message) (transportType : string) : RPCRequest :=
  mkRPCRequest ctx msg transportType None ANil None.

Definition WithSession (s : Sess) (req : RPCRequest) : RPCRequest :=
  mkRPCRequest (context req) (request_msg req) (transportType req) (http_request req)
    (request_data req) (Some s).

Definition WithHTTPRequest (r : HReq) (req : RPCRequest) : RPCRequest :=
  mkRPCRequest (context req) (request_msg req) (transportType req) (Some r)
    (request_data req) (session req).

Definition HttpRequest (req : RPCRequest) : result HReq :=
  match http_request req with
  | Some r => Ret r
  | None => Panic (PanicValue "Http Request is nil")
  end.

Definition RequestCallback : Type := RPCRequest → list any → act W panic (value * option error).
Definition ContextedMsgCallback : Type := Ctx → list any → act W panic (value * option error).
Definition MsgCallback : Type := list any → act W panic (value * option error).
Definition MissingCallback : Type := RPCRequest → act W panic (value * option error).
Definition CloseCallback : Type := option Sess → act W panic unit.

Record MethodHandler := mkHandler { callback : RequestCallback; handler_schema : option S }.

Definition HandlerSetter : Type := MethodHandler → MethodHandler.

Definition WithSchema (s : option S) : HandlerSetter := λ h, mkHandler (callback h) s.

Record Actor := mkActor {
  ValidateSchema : bool;
  RecoverFromPanic : bool;
  methodHandlers : gomap MethodHandler;
  missingHandler : option MissingCallback;
  closeHandler : option CloseCallback;
  children : list nat }.

Definition Heap : Type := gmap nat Actor.

Definition NewActor : Actor := mkActor true true [] None None [].

(** ** Registration *)

Definition AddChild (a : Actor) (child : nat) : Actor :=
  mkActor (ValidateSchema a) (RecoverFromPanic a) (methodHandlers a) (missingHandler a)
    (closeHandler a) (children a ++ [child]).

Definition set_methodHandlers (a : Actor) (hs : gomap MethodHandler) : Actor :=
  mkActor (ValidateSchema a) (RecoverFromPanic a) hs (missingHandler a) (closeHandler a) (children a).

(** [OnRequest]: the error, or the actor with the new handler. *)
Definition OnRequest (a : Actor) (method : string) (cb : RequestCallback)
    (setters : list HandlerSetter) : error + Actor :=
  match map_get method (methodHandlers a) with
  | Some _ => inl (ErrorString "handler already exist!")
  | None =>
      let h := fold_left (λ h setter, setter h) setters (mkHandler cb None) in
      inr (set_methodHandlers a (map_set method h (methodHandlers a)))
  end.

Definition panic_on_error (r : error + Actor) : result Actor :=
  match r with inl err => Panic (PanicError err) | inr a => Ret a end.

Definition On (a : Actor) (method : string) (cb : MsgCallback) (setters : list HandlerSetter)
    : result Actor :=
  panic_on_error (OnRequest a method (λ _ params, cb params) setters).

Definition OnContext (a : Actor) (method : string) (cb : ContextedMsgCallback)
    (setters : list HandlerSetter) : result Actor :=
  panic_on_error (OnRequest a method (λ req params, cb (context req) params) setters).

Definition Off (a : Actor) (method : string) : Actor :=
  set_methodHandlers a (map_del method (methodHandlers a)).

Definition OnMissing (a : Actor) (handler : MissingCallback) : error + Actor :=
  match missingHandler a with
  | Some _ => inl (ErrorString "missing handler already exist!")
  | None => inr (mkActor (ValidateSchema a) (RecoverFromPanic a) (methodHandlers a) (Some handler)
                   (closeHandler a) (children a))
  end.

Definition OnClose (a : Actor) (handler : CloseCallback) : error + Actor :=
  match closeHandler a with
  | Some _ => inl (ErrorString "close handler already exist!")
  | None => inr (mkActor (ValidateSchema a) (RecoverFromPanic a) (methodHandlers a) (missingHandler a)
                   (Some handler) (children a))
  end.

Definition getHandler (a : Actor) (method : string) : option MethodHandler :=
  map_get method (methodHandlers a).

(** ** Traversals of the tree of actors *)

Section heap.
Context (h : Heap).

(** The actor behind a pointer. *)
Definition deref (l : nat) : comp panic Actor :=
  match h !! l with Some a => mret a | None => Some (Panic nil_deref) end.

(** The first child on which [f] finds something. *)
Fixpoint first_child {A} (f : nat → comp panic (option A)) (cs : list nat) : comp panic (option A) :=
  match cs with
  | [] => mret None
  | c :: cs => r ← f c; match r with Some x => mret (Some x) | None => first_child f cs end
  end.

(** The loop [for _, child := range a.children { if child.Has(method) { return true } }]. *)
Fixpoint any_child (f : nat → comp panic bool) (cs : list nat) : comp panic bool :=
  match cs with
  | [] => mret false
  | c :: cs => b ← f c; if b : bool then mret true else any_child f cs
  end.

Fixpoint Has (fuel : nat) (l : nat) (method : string) : comp panic bool :=
  match fuel with
  | O => None
  | Datatypes.S fuel =>
      a ← deref l;
      match map_get method (methodHandlers a) with
      | Some _ => mret true
      | None => any_child (λ c, Has fuel c method) (children a)
      end
  end.

Fixpoint append_children (f : nat → comp panic (list string)) (methods : list string)
    (cs : list nat) : comp panic (list string) :=
  match cs with
  | [] => mret methods
  | c :: cs => childMethods ← f c; append_children f (methods ++ childMethods) cs
  end.

Fixpoint MethodList (fuel : nat) (l : nat) : comp panic (list string) :=
  match fuel with
  | O => None
  | Datatypes.S fuel =>
      a ← deref l;
      append_children (MethodList fuel) (map_keys (methodHandlers a)) (children a)
  end.

Fixpoint GetSchema (fuel : nat) (l : nat) (method : string) : comp panic (option S) :=
  match fuel with
  | O => None
  | Datatypes.S fuel =>
      a ← deref l;
      match getHandler a method with
      | Some (mkHandler _ (Some s)) => mret (Some s)
      | _ => first_child (λ c, GetSchema fuel c method) (children a)
      end
  end.

Fixpoint close_children (f : nat → act W panic unit) (cs : list nat) : act W panic unit :=
  match cs with
  | [] => mret tt
  | c :: cs => _ ← f c; close_children f cs
  end.

Fixpoint HandleClose (fuel : nat) (l : nat) (session : option Sess) : act W panic unit :=
  match fuel with
  | O => λ _, None
  | Datatypes.S fuel =>
      a ← act_of_comp (deref l);
      _ ← close_children (λ c, HandleClose fuel c session) (children a);
      match closeHandler a with
      | Some handler => handler session
      | None => mret tt
      end
  end.

(** ** Calling handlers *)

(** [defer func() { if r := recover(); ... }] around [body]. *)
Definition recovering (a : Actor) (msg : Message) (body : act W panic feed_result)
    : act W panic feed_result :=
  if RecoverFromPanic a then
    λ w, match body w with
         | Some (Panic (PanicError err), w) => Some (wrapResult (Val ANil) (Some err) msg, w)
         | r => r
         end
  else body.

Definition call_and_wrap (msg : Message) (call : act W panic (value * option error))
    : act W panic feed_result :=
  r ← call; act_of_outcome (wrapResult r.1 r.2 msg).

Definition recoverCallHandler (a : Actor) (handler : MethodHandler) (req : RPCRequest)
    (params : list any) : act W panic feed_result :=
  recovering a (request_msg req) (call_and_wrap (request_msg req) (callback handler req params)).

Definition recoverCallMissingHandler (a : Actor) (missing : MissingCallback) (req : RPCRequest)
    : act W panic feed_result :=
  recovering a (request_msg req) (call_and_wrap (request_msg req) (missing req)).

Context `{SchemaOps S, MapDecoder}.

(** The schema check of Feed: [Some r] when Feed returns [r] at once. *)
Definition check_schema (a : Actor) (handler : MethodHandler) (msg : Message)
    : result (option feed_result) :=
  match handler_schema handler, ValidateSchema a with
  | Some s, true =>
      match MessageMap msg with
      | inl err => Ret (Some (None, Some err))
      | inr m =>
          errPos ← schema_validate s (AMap m);
          match errPos with
          | None => Ret None
          | Some errPos =>
              match msg with
              | MRequest reqmsg => e ← ErrorPos_ToMessage errPos reqmsg; Ret (Some (Some (MError e), None))
              | _ => Ret (Some (None, Some (ErrorPosition (pos_paths errPos) (pos_hint errPos))))
              end
          end
      end
  | _, _ => Ret None
  end.

(** The first child that has the method, in the order of [children]. *)
Definition child_with (fuel : nat) (method : string) : list nat → comp panic (option nat) :=
  first_child (λ c, b ← Has fuel c method; mret (if b : bool then Some c else None)).

Fixpoint Feed (fuel : nat) (l : nat) (req : RPCRequest) : act W panic feed_result :=
  match fuel with
  | O => λ _, None
  | Datatypes.S fuel =>
      a ← act_of_comp (deref l);
      let msg := request_msg req in
      if negb (IsResponse msg) then
        match missingHandler a with
        | Some missing => call_and_wrap msg (missing req)
        | None => mret (None, None)
        end
      else
        method ← act_of_outcome (MustMethod msg);
        match getHandler a method with
        | Some handler =>
            params ← act_of_outcome (MustParams msg);
            early ← act_of_outcome (check_schema a handler msg);
            match early with
            | Some r => mret r
            | None => recoverCallHandler a handler req params
            end
        | None =>
            child ← act_of_comp (child_with fuel method (children a));
            match child with
            | Some c => Feed fuel c req
            | None =>
                match missingHandler a with
                | Some missing => recoverCallMissingHandler a missing req
                | None =>
                    if IsRequest msg then
                      id ← act_of_outcome (MustId msg);
                      mret (Some (MError (ToMessageFromId ErrMethodNotFound id (TraceId msg))), None)
                    else mret (None, None)
                end
            end
        end
  end.

(** ** PublicSchemas *)

Definition default_schema_map (mname : string) : gomap any :=
  [("name", AString mname); ("description", AString ""); ("params", AList []);
   ("returns", AMap [("type", AString "any")])].

(** The loop over the method names. *)
Fixpoint public_schemas (fuel : nat) (l : nat) (mnames : list string)
    : comp panic (list (gomap any)) :=
  match mnames with
  | [] => mret []
  | mname :: mnames =>
      if negb (IsPublicMethod mname) then public_schemas fuel l mnames
      else
        s ← GetSchema fuel l mname;
        entry ← match s with
                | Some s => sMap ← (Some (schema_Map s) : comp panic (gomap any));
                            mret (map_set "name" (AString mname) sMap)
                | None => mret (default_schema_map mname)
                end;
        methods ← public_schemas fuel l mnames;
        mret (entry :: methods)
  end.

Definition PublicSchemas (fuel : nat) (l : nat) : comp panic (list (gomap any)) :=
  mnames ← MethodList fuel l; public_schemas fuel l mnames.
End heap.
End actor.

(** ** Which actor answers

    The specification of the routing of [Has] and [Feed]: the first actor, in
    the depth-first order of children, that has a handler for the method. *)

Section routing.
Context {W Ctx HReq Sess S : Type}.
Context (h : @Heap W Ctx HReq Sess S).
Abbreviation Actor := (@Actor W Ctx HReq Sess S).
Abbreviation MethodHandler := (@MethodHandler W Ctx HReq Sess S).

Fixpoint find_handler (fuel : nat) (l : nat) (method : string)
    : comp panic (option (Actor * MethodHandler)) :=
  match fuel with
  | O => None
  | Datatypes.S fuel =>
      a ← deref h l;
      match getHandler a method with
      | Some handler => mret (Some (a, handler))
      | None => first_child (λ c, find_handler fuel c method) (children a)
      end
  end.

(** ** Heaps without cycles *)

(** [c] is a child of [p]. *)
Definition below (c p : nat) : Prop := ∃ a, h !! p = Some a ∧ c ∈ children a.

(** No actor is below itself, and no child is nil. *)
Definition acyclic : Prop := ∀ l, Acc below l.
Definition closed : Prop := ∀ l a c, h !! l = Some a → c ∈ children a → is_Some (h !! c).

(** [ends f]: from some amount of fuel on, [f] returns one value. *)
Definition ends {A} (f : nat → comp panic A) : Prop :=
  ∃ n r, ∀ fuel, (n ≤ fuel)%nat → f fuel = Some (Ret r).

Lemma ends_first_child {A} (f : nat → nat → comp panic (option A)) cs :
  (∀ c, c ∈ cs → ends (λ fuel, f fuel c)) → ends (λ fuel, first_child (f fuel) cs).
Proof using Type.
  induction cs as [|c cs IH]; intros Hc; [by exists 0%nat, None|].
  destruct (Hc c) as (n & r & Hn); [by left|].
  destruct IH as (n' & r' & Hn'); [intros c' Hc'; apply Hc; by right|].
  exists (Nat.max n n'), (match r with Some x => Some x | None => r' end).
  intros fuel Hf. cbn [first_child]. rewrite Hn by lia. unfold mbind, comp_mbind.
  destruct r; [done|]. apply Hn'. lia.
Qed.

Lemma ends_append_children (f : nat → nat → comp panic (list string)) ms cs :
  (∀ c, c ∈ cs → ends (λ fuel, f fuel c)) → ends (λ fuel, append_children (f fuel) ms cs).
Proof using Type.
  revert ms. induction cs as [|c cs IH]; intros ms Hc; [by exists 0%nat, ms|].
  destruct (Hc c) as (n & r & Hn); [by left|].
  destruct (IH (ms ++ r)) as (n' & r' & Hn'); [intros c' Hc'; apply Hc; by right|].
  exists (Nat.max n n'), r'. intros fuel Hf. cbn [append_children]. rewrite Hn by lia.
  unfold mbind, comp_mbind. apply Hn'. lia.
Qed.

(** A traversal that visits an actor and then its children ends. *)
Lemma ends_traversal {A} (f : nat → nat → comp panic A) :
  acyclic → closed →
  (∀ l a, h !! l = Some a → (∀ c, c ∈ children a → ends (λ fuel, f fuel c)) →
    ends (λ fuel, f (Datatypes.S fuel) l)) →
  ∀ l, is_Some (h !! l) → ends (λ fuel, f fuel l).
Proof using Type.
  intros Hac Hcl Hstep l. induction (Hac l) as [l _ IH]. intros [a Ha].
  destruct (Hstep l a Ha) as (n & r & Hn).
  { intros c Hc. apply IH; [by exists a|by eapply Hcl]. }
  exists (Datatypes.S n), r. intros [|fuel] Hf; [lia|]. apply Hn. lia.
Qed.

Lemma find_handler_ends l method :
  acyclic → closed → is_Some (h !! l) → ends (λ fuel, find_handler fuel l method).
Proof using Type.
  intros Hac Hcl. apply (ends_traversal (λ fuel l, find_handler fuel l method)); [done..|].
  intros l' a Ha Hc. cbn [find_handler]. unfold deref. rewrite Ha. cbn [mbind comp_mbind mret comp_mret].
  destruct (getHandler a method); [by eexists 0%nat, _|].
  by apply (ends_first_child (λ fuel c, find_handler fuel c method)).
Qed.

Lemma MethodList_ends l : acyclic → closed → is_Some (h !! l) → ends (λ fuel, MethodList h fuel l).
Proof using Type.
  intros Hac Hcl. apply (ends_traversal (λ fuel l, MethodList h fuel l)); [done..|].
  intros l' a Ha Hc. cbn [MethodList]. unfold deref. rewrite Ha. cbn [mbind comp_mbind mret comp_mret].
  by apply (ends_append_children (λ fuel c, MethodList h fuel c)).
Qed.

Lemma GetSchema_ends l method :
  acyclic → closed → is_Some (h !! l) → ends (λ fuel, GetSchema h fuel l method).
Proof using Type.
  intros Hac Hcl. apply (ends_traversal (λ fuel l, GetSchema h fuel l method)); [done..|].
  intros l' a Ha Hc. cbn [GetSchema]. unfold deref. rewrite Ha. cbn [mbind comp_mbind mret comp_mret].
  destruct (getHandler a method) as [[cb [s|]]|]; [by eexists 0%nat, _|..];
    by apply (ends_first_child (λ fuel c, GetSchema h fuel c method)).
Qed.

Lemma any_child_first {A} (f : nat → comp panic bool) (g : nat → comp panic (option A)) cs :
  (∀ c, f c = (r ← g c; mret (bool_decide (is_Some r)))) →
  any_child f cs = (r ← first_child g cs; mret (bool_decide (is_Some r))).
Proof using Type.
  intros Hf. induction cs as [|c cs IH]; [done|]. cbn [any_child first_child].
  rewrite Hf, IH. unfold mbind, comp_mbind. by destruct (g c) as [[[x|]|p]|].
Qed.

Lemma Has_find fuel l method :
  Has h fuel l method = (r ← find_handler fuel l method; mret (bool_decide (is_Some r))).
Proof using Type.
  revert l. induction fuel as [|fuel IH]; intros l; [done|]. cbn [Has find_handler].
  unfold mbind at 1 2 3, comp_mbind at 1 2 3. destruct (deref h l) as [[a|p]|]; [|done..].
  unfold getHandler. destruct (map_get method (methodHandlers a)); [done|].
  rewrite (any_child_first _ _ _ (λ c, IH c)). done.
Qed.

(** The child that Feed goes to is the one below which the handler is. *)
Lemma child_with_find fuel method cs r :
  first_child (λ c, find_handler fuel c method) cs = Some (Ret r) →
  ∃ o, child_with h fuel method cs = Some (Ret o) ∧
    match r with
    | None => o = None
    | Some x => ∃ c, o = Some c ∧ find_handler fuel c method = Some (Ret (Some x))
    end.
Proof using Type.
  unfold child_with. induction cs as [|c cs IH]; cbn [first_child]; [by intros [= <-]; exists None|].
  rewrite Has_find. unfold mbind, comp_mbind.
  destruct (find_handler fuel c method) as [[[x|]|p]|] eqn:Hc; try done; cbn.
  intros [= <-]. exists (Some c). split; [done|]. by exists c.
Qed.

Context `{SchemaOps S, MapDecoder}.
Abbreviation RPCRequest := (@RPCRequest Ctx HReq Sess).

(** ** Every request is answered *)

(** [resp] carries the id and the trace id of the request. *)
Definition reply_to (m : RequestMessage) (resp : Message) : Prop :=
  MustId resp = Ret (req_Id m) ∧ TraceId resp = traceId (req_base m).

(** A request is answered by a reply to it or by an HTTP response to pass on;
    a notification by no message. *)
Definition answered (msg : Message) (r : feed_result) : Prop :=
  match msg with
  | MRequest m =>
      (∃ resp, r = (Some resp, None) ∧ reply_to m resp) ∨
      (∃ resp body, r = (None, Some (ErrorWrapped resp body)))
  | _ => r.1 = None
  end.

Definition serves (msg : Message) (c : act W panic feed_result) : Prop :=
  ∀ w, ∃ r w', c w = Some (Ret r, w') ∧ answered msg r.

(** A handler in good order: it ends; it panics with errors only; and a
    message it returns for a request is a reply to the request. *)
Definition well_behaved (msg : Message) (c : act W panic (value * option error)) : Prop :=
  ∀ w, ∃ x w', c w = Some (x, w') ∧
    match x with
    | Ret (Msg resp, _) => ∀ m, msg = MRequest m → reply_to m resp
    | Panic (PanicValue _) => False
    | _ => True
    end.

Lemma wrapResult_answered msg res err :
  message_ok msg → (∀ m resp, res = Msg resp → msg = MRequest m → reply_to m resp) →
  ∃ r, wrapResult res err msg = Ret r ∧ answered msg r.
Proof using Type.
  intros Hok Hres. unfold wrapResult.
  destruct msg as [m|m|m|m]; simpl in Hok;
    unfold IsRequest, base_of; [destruct Hok as [-> _]| | |];
    [|destruct Hok as [-> _]; by eexists|rewrite Hok; by eexists..].
  cbn [negb Z.eqb MKRequest]. destruct err as [err|].
  - destruct (as_RPCError err) as [e|]; [|destruct (as_WrappedResponse err) as [[resp body]|]];
      eexists; (split; [done|]); [left|right|left]; eauto; eexists; by repeat split.
  - destruct res as [v|resp]; eexists; (split; [done|]); left; eexists; (split; [done|]).
    + done.
    + by eapply Hres.
Qed.

Lemma call_and_wrap_serves (a : Actor) msg c :
  RecoverFromPanic a = true → message_ok msg → well_behaved msg c →
  serves msg (recovering a msg (call_and_wrap msg c)).
Proof using Type.
  intros Hrec Hok Hc w. unfold recovering. rewrite Hrec.
  destruct (Hc w) as (x & w' & Hx & Hpost). unfold call_and_wrap.
  destruct x as [[res err]|[e|v]]; [| |done].
  - rewrite (act_bind_Ret _ _ _ _ _ Hx). unfold act_of_outcome. cbn [fst snd].
    destruct (wrapResult_answered msg res err Hok) as (r & -> & Hr); [|by exists r, w'].
    intros m resp -> Hm. by eapply Hpost.
  - rewrite (act_bind_Panic _ _ _ _ _ Hx).
    destruct (wrapResult_answered msg (Val ANil) (Some e) Hok) as (r & -> & Hr); [done|].
    by exists r, w'.
Qed.

(** What the actor with the handler does with the request. *)
Definition dispatch (a : Actor) (handler : MethodHandler) (req : RPCRequest)
    : act W panic feed_result :=
  params ← act_of_outcome (MustParams (request_msg req));
  early ← act_of_outcome (check_schema a handler (request_msg req));
  match early with
  | Some r => mret r
  | None => recoverCallHandler a handler req params
  end.

(** What an actor does with a request that no actor below it handles. *)
Definition not_handled (a : Actor) (req : RPCRequest) : act W panic feed_result :=
  let msg := request_msg req in
  match missingHandler a with
  | Some missing => recoverCallMissingHandler a missing req
  | None =>
      if IsRequest msg then
        id ← act_of_outcome (MustId msg);
        mret (Some (MError (ToMessageFromId ErrMethodNotFound id (TraceId msg))), None)
      else mret (None, None)
  end.

Lemma Feed_routed fuel l req method a0 r w :
  IsResponse (request_msg req) = true → MustMethod (request_msg req) = Ret method →
  h !! l = Some a0 → find_handler fuel l method = Some (Ret r) →
  Feed h fuel l req w =
  match r with
  | Some (a, handler) => dispatch a handler req w
  | None => not_handled a0 req w
  end.
Proof using Type.
  intros Hresp Hmethod. revert l a0 r. induction fuel as [|fuel IH]; intros l a0 r Hl; [done|].
  cbn [find_handler Feed]. unfold deref. rewrite Hl. unfold mbind at 1, comp_mbind at 1.
  intros Hf. rewrite (act_bind_Ret _ _ w a0 w) by done. rewrite Hresp. cbn [negb].
  rewrite (act_bind_Ret _ _ w method w) by (by rewrite Hmethod).
  cbn [mret comp_mret] in Hf.
  destruct (getHandler a0 method) as [handler|] eqn:Hg; [by injection Hf as <-|].
  destruct (child_with_find _ _ _ _ Hf) as (o & Ho & Hr).
  rewrite (act_bind_Ret _ _ w o w) by (unfold act_of_comp; by rewrite Ho).
  destruct r as [[a handler]|]; [|by subst o].
  destruct Hr as (c & -> & Hc).
  destruct (h !! c) as [ac|] eqn:Hac; [by apply (IH c ac (Some (a, handler)))|].
  destruct fuel; [done|]. cbn [find_handler] in Hc. unfold deref in Hc. by rewrite Hac in Hc.
Qed.

Context `{!MapDecoderOk, !SchemaLaws S}.

(** An actor whose handlers and schemas are in good order for a request. *)
Definition actor_ready (req : RPCRequest) (a : Actor) : Prop :=
  RecoverFromPanic a = true ∧
  (∀ method handler, getHandler a method = Some handler →
    (∀ params, well_behaved (request_msg req) (callback handler req params)) ∧
    opt_pred schema_fit (handler_schema handler)) ∧
  opt_pred (λ missing, well_behaved (request_msg req) (missing req)) (missingHandler a).

Lemma check_schema_total (a : Actor) (handler : MethodHandler) msg :
  message_ok msg → opt_pred schema_fit (handler_schema handler) →
  ∃ early, check_schema a handler msg = Ret early ∧ opt_pred (answered msg) early.
Proof using Type*.
  intros Hok Hfit. unfold check_schema.
  destruct (handler_schema handler) as [s|]; [|by exists None].
  destruct (ValidateSchema a); [|by exists None].
  destruct (MessageMap_inr msg) as [m ->].
  destruct (schema_validate_spec s (AMap m) Hfit) as (r & -> & _).
  cbn [mbind outcome_mbind outcome_bind]. destruct r as [e|]; [|by exists None].
  destruct msg as [m'|m'|m'|m']; [|by eexists..].
  eexists. split; [done|]. left. eexists. split; [done|]. done.
Qed.

Lemma dispatch_serves req method a handler :
  message_ok (request_msg req) → is_ret (MustParams (request_msg req)) = true →
  actor_ready req a → getHandler a method = Some handler →
  serves (request_msg req) (dispatch a handler req).
Proof using Type*.
  intros Hok Hparams (Hrec & Hhandlers & _) Hg w. unfold dispatch.
  destruct (Hhandlers method handler Hg) as [Hcb Hfit].
  destruct (MustParams (request_msg req)) as [params|] eqn:Hp; [|done].
  rewrite (act_bind_Ret _ _ w params w) by done.
  destruct (check_schema_total a handler (request_msg req) Hok Hfit) as (early & He & Hans).
  rewrite (act_bind_Ret _ _ w early w) by (unfold act_of_outcome; by rewrite He).
  destruct early as [r|]; [by exists r, w|].
  by apply call_and_wrap_serves.
Qed.

Lemma not_handled_serves req a :
  message_ok (request_msg req) → IsResponse (request_msg req) = true →
  actor_ready req a → serves (request_msg req) (not_handled a req).
Proof using Type.
  intros Hok Hresp (Hrec & _ & Hmiss) w. unfold not_handled.
  destruct (missingHandler a) as [missing|]; [by apply call_and_wrap_serves|].
  destruct (request_msg req) as [m|m|m|m]; simpl in Hok;
    unfold IsResponse, IsRequest, IsNotify, base_of in *.
  - destruct Hok as [-> _]. eexists _, w. split; [done|]. left. eexists. by repeat split.
  - destruct Hok as [-> _]. by eexists _, w.
  - by rewrite Hok in Hresp.
  - by rewrite Hok in Hresp.
Qed.

Lemma find_handler_elem fuel l method a handler :
  find_handler fuel l method = Some (Ret (Some (a, handler))) →
  ∃ l', h !! l' = Some a ∧ getHandler a method = Some handler.
Proof using Type.
  revert l. induction fuel as [|fuel IH]; intros l; [done|]. cbn [find_handler]. unfold deref.
  destruct (h !! l) as [a'|] eqn:Ha; [|done]. cbn [mbind comp_mbind mret comp_mret].
  destruct (getHandler a' method) as [handler'|] eqn:Hg; [intros [= -> ->]; by exists l|].
  induction (children a') as [|c cs IHcs]; [done|]. cbn [first_child].
  destruct (find_handler fuel c method) as [[[x|]|p]|] eqn:Hc; try done; cbn [mbind comp_mbind mret comp_mret].
  intros [= ->]. by apply (IH c).
Qed.

Lemma message_ok_MustParams msg :
  message_ok msg → IsResponse msg = true →
  is_ret (MustParams msg) = true ∧ ∃ method, MustMethod msg = Ret method.
Proof using Type.
  destruct msg as [m|m|m|m]; simpl; intros Hok Hr; [by eauto..| |];
    unfold IsResponse, IsRequest, IsNotify, base_of in Hr; by rewrite Hok in Hr.
Qed.
(** Whatever Feed returns is an answer. *)
Lemma Feed_answered fuel l req w r w' :
  (∀ l a, h !! l = Some a → actor_ready req a) → message_ok (request_msg req) →
  Feed h fuel l req w = Some (Ret r, w') → answered (request_msg req) r.
Proof using Type*.
  intros Hready Hok. revert l. induction fuel as [|fuel IH]; intros l; [done|]. cbn [Feed]. unfold deref.
  destruct (h !! l) as [a|] eqn:Ha; [|done]. specialize (Hready l a Ha) as Hr.
  unfold mbind at 1, act_mbind at 1. cbn [act_of_comp mret comp_mret].
  destruct (IsResponse (request_msg req)) eqn:Hresp; cbn [negb].
  - destruct (message_ok_MustParams _ Hok Hresp) as [Hparams [method Hm]]. rewrite Hm.
    rewrite (act_bind_Ret _ _ w method w) by done.
    destruct (getHandler a method) as [handler|] eqn:Hg.
    + destruct (dispatch_serves req method a handler Hok Hparams Hr Hg w) as (r' & w1 & Hd & Hans).
      unfold dispatch in Hd. rewrite Hd. by intros [= <- _].
    + unfold mbind at 1, act_mbind at 1. unfold act_of_comp.
      destruct (child_with h fuel method (children a)) as [[[c|]|p]|]; [by apply IH| |done..].
      destruct (not_handled_serves req a Hok Hresp Hr w) as (r' & w1 & Hd & Hans).
      unfold not_handled in Hd. intros H'. rewrite Hd in H'. by injection H' as <- _.
  - destruct (request_msg req) as [m|m|m|m] eqn:Hreq; unfold IsResponse, IsRequest, IsNotify, base_of in Hresp;
      [by destruct Hok as [Hk _]; rewrite Hk in Hresp|by destruct Hok as [Hk _]; rewrite Hk in Hresp| |];
      simpl in Hok; (destruct (missingHandler a) as [missing|]; [|by intros [= <- _]]);
      unfold call_and_wrap, mbind, act_mbind;
      (destruct (missing req w) as [[[[v err]|p] w1]|]; [|done..]);
      unfold act_of_outcome, wrapResult, IsRequest, base_of; rewrite Hok; by intros [= <- _].
Qed.

End routing.

(** C1. Every request is answered.  In a heap of actors without cycles or nil
    children, whose actors recover from panics and whose handlers end, panic
    with errors only and reply with the id they were asked with: feeding a
    well-formed request or notification to an actor returns, given enough
    fuel, without panicking.  A request gets one message, with its own id and
    trace id, or a wrapped HTTP response; a notification gets no message. *)
Theorem Feed_serves {W Ctx HReq Sess S : Type} (h : @Heap W Ctx HReq Sess S)
    `{HD : MapDecoder, !MapDecoderOk, HS : SchemaOps S, !SchemaLaws S} l req :
  acyclic h → closed h → is_Some (h !! l) →
  (∀ l' a, h !! l' = Some a → actor_ready req a) →
  message_ok (request_msg req) → IsResponse (request_msg req) = true →
  ∃ n, ∀ fuel, (n ≤ fuel)%nat → serves (request_msg req) (Feed h fuel l req).
Proof.
  intros Hac Hcl [a0 Ha0] Hready Hok Hresp.
  destruct (message_ok_MustParams _ Hok Hresp) as [Hparams [method Hm]].
  destruct (find_handler_ends h l method Hac Hcl) as (n & r & Hn); [by exists a0|].
  exists n. intros fuel Hf w.
  rewrite (Feed_routed h fuel l req method a0 r w) by auto.
  destruct r as [[a handler]|].
  - destruct (find_handler_elem h _ _ _ _ _ (Hn fuel Hf)) as (l' & Hl' & Hg).
    eapply dispatch_serves; eauto.
  - by apply not_handled_serves; eauto.
Qed.

(** ** A heap of two actors, for examples *)

Abbreviation demo_actor := (@Actor nat unit unit unit Schema).

(** A handler that counts its calls and returns its parameters. *)
Definition demo_callback : @RequestCallback nat unit unit unit :=
  λ _ params w, Some (Ret (Val (AList params), None), Datatypes.S w).

Definition demo_child : demo_actor :=
  mkActor true true [("echo", mkHandler demo_callback (Some (MethodSchema mixin0 [NewStringSchema] None None)))]
    None None [].

Definition demo_parent : demo_actor := mkActor true true [] None None [1%nat].

(** The parent with a child of its own. *)
Definition family (child : demo_actor) : @Heap nat unit unit unit Schema :=
  <[0%nat := demo_parent]> {[1%nat := child]}.

Definition demo_heap : @Heap nat unit unit unit Schema := family demo_child.

Definition demo_request (params : list any) : RPCRequest unit unit unit :=
  NewRPCRequest tt (MRequest (mkRequest (mkBase MKRequest "t") (AInt 7) "echo" params true)) "http".

Lemma family_lookup child l a :
  family child !! l = Some a → l = 0%nat ∧ a = demo_parent ∨ l = 1%nat ∧ a = child.
Proof.
  unfold family, Heap. intros H.
  apply lookup_insert_Some in H as [[<- <-]|[_ H]]; [by left|].
  apply lookup_singleton_Some in H as [<- <-]. by right.
Qed.

Lemma family_acyclic child : children child = [] → acyclic (family child).
Proof.
  intros Hnone. assert (Acc (below (family child)) 1%nat) as H1.
  { constructor. intros c (a & Ha & Hc). apply family_lookup in Ha as [[Hl _]|[_ ->]].
    - discriminate Hl.
    - rewrite Hnone in Hc. by apply elem_of_nil in Hc. }
  intros l. constructor. intros c (a & Ha & Hc). apply family_lookup in Ha as [[_ ->]|[_ ->]].
  - apply list_elem_of_singleton in Hc as ->. exact H1.
  - rewrite Hnone in Hc. by apply elem_of_nil in Hc.
Qed.

Lemma family_closed child : children child = [] → closed (family child).
Proof.
  intros Hnone l a c Ha Hc. apply family_lookup in Ha as [[-> ->]|[-> ->]].
  - apply list_elem_of_singleton in Hc as ->. by eexists.
  - rewrite Hnone in Hc. by apply elem_of_nil in Hc.
Qed.

Lemma demo_acyclic : acyclic demo_heap.
Proof. by apply family_acyclic. Qed.

Lemma demo_closed : closed demo_heap.
Proof. by apply family_closed. Qed.

Lemma demo_ready params l a : demo_heap !! l = Some a → actor_ready (demo_request params) a.
Proof.
  intros [[_ ->]|[_ ->]]%family_lookup; (split; [done|]); (split; [|done]); intros method handler.
  - done.
  - unfold getHandler; simpl. case_decide; [|done]. intros [= <-]. split; [|by repeat split].
    intros ps w. by eexists _, _.
Qed.

Lemma Feed_serves_witness :
  ∃ n, ∀ fuel, (n ≤ fuel)%nat →
    serves (request_msg (demo_request [AString "a"]))
      (@Feed nat unit unit unit Schema demo_heap _ struct_decoder fuel 0%nat (demo_request [AString "a"])).
Proof.
  apply (@Feed_serves nat unit unit unit Schema demo_heap struct_decoder struct_decoder_ok
    Schema_ops Schema_laws 0%nat (demo_request [AString "a"])).
  - exact demo_acyclic.
  - exact demo_closed.
  - by eexists.
  - exact (demo_ready [AString "a"]).
  - by repeat split; try left.
  - done.
Defined.

(** ** Validation guards the handlers *)

(** C17. A schema guards its handler.  When the handler that a request is routed
    to has a schema and its actor validates, Feed gives the map of the message
    to the schema; if the schema rejects it, the handler is not called (the
    world is unchanged) and the answer is the invalid-schema error with the
    id of the request; if it accepts, the outcome is that of the handler. *)
Theorem Feed_validates {W Ctx HReq Sess S : Type} (h : @Heap W Ctx HReq Sess S)
    `{HD : MapDecoder, HS : SchemaOps S, !SchemaLaws S}
    fuel l a0 req reqmsg a handler s m w :
  request_msg req = MRequest reqmsg → kind (req_base reqmsg) = MKRequest →
  h !! l = Some a0 →
  find_handler h fuel l (req_Method reqmsg) = Some (Ret (Some (a, handler))) →
  handler_schema handler = Some s → ValidateSchema a = true → schema_fit s →
  MessageMap (MRequest reqmsg) = inr m →
  (¬ schema_accepts s (AMap m) → ∃ e body,
    Feed h fuel l req w = Some (Ret (Some (MError e), None), w) ∧
    err_Id e = req_Id reqmsg ∧ traceId (err_base e) = traceId (req_base reqmsg) ∧
    err_Error e = Some body ∧ RPCError_Code body = -32633) ∧
  (schema_accepts s (AMap m) →
    Feed h fuel l req w = recoverCallHandler a handler req (req_Params reqmsg) w).
Proof.
  intros Hmsg Hkind Ha0 Hf Hs Hv Hfit Hm.
  destruct (schema_validate_spec s (AMap m) Hfit) as (r & Hr & Hiff).
  assert (Feed h fuel l req w = dispatch a handler req w) as ->.
  { apply (Feed_routed h fuel l req (req_Method reqmsg) a0 (Some (a, handler))); [|by rewrite Hmsg|done..].
    rewrite Hmsg. unfold IsResponse, IsRequest, base_of. by rewrite Hkind. }
  unfold dispatch. rewrite Hmsg, (act_bind_Ret _ _ w (req_Params reqmsg) w) by done.
  assert (check_schema a handler (MRequest reqmsg) = match r with
    | None => Ret None
    | Some e => Ret (Some (Some (MError (err_SetTraceId (traceId (req_base reqmsg))
                  (rawErrorMessage (req_Id reqmsg) (Some (ErrorPos_RPCError e)) None))), None))
    end) as Hcheck.
  { unfold check_schema. rewrite Hs, Hv, Hm, Hr. cbn [mbind outcome_mbind outcome_bind].
    by destruct r. }
  rewrite Hcheck. destruct r as [e|].
  - split; [intros _|intros Hacc%Hiff; done]. by eexists _, _.
  - split; [intros Hrej; by destruct Hrej; apply Hiff|done].
Qed.

Lemma Feed_validates_witness :
  ∃ e, @Feed nat unit unit unit Schema demo_heap _ struct_decoder 3 0%nat (demo_request [AInt 5]) 0%nat
    = Some (Ret (Some (MError e), None), 0%nat).
Proof.
  destruct (@Feed_validates nat unit unit unit Schema demo_heap struct_decoder Schema_ops Schema_laws
    3 0%nat demo_parent (demo_request [AInt 5])
    (mkRequest (mkBase MKRequest "t") (AInt 7) "echo" [AInt 5] true)
    demo_child (mkHandler demo_callback (Some (MethodSchema mixin0 [NewStringSchema] None None)))
    (MethodSchema mixin0 [NewStringSchema] None None)
    [("jsonrpc", AString "2.0"); ("method", AString "echo"); ("id", AInt 7);
     ("params", AList [AInt 5]); ("traceid", AString "t")] 0%nat)
    as [Hrej _]; try done.
  destruct Hrej as (e & body & He & _); [|by exists e].
  intros (msg & [= <-] & Hp). simpl in Hp. by destruct Hp as [(? & ? & _) _].
Defined.

(** ** Keeping heaps free of cycles *)

Section add_child.
Context {W Ctx HReq Sess S : Type}.
Context (h : @Heap W Ctx HReq Sess S) (p : nat) (a : @Actor W Ctx HReq Sess S) (c : nat).
Hypothesis Ha : h !! p = Some a.

Definition add_child : Heap := <[p := AddChild a c]> h.

(** From an actor to its children, and to theirs. *)
Definition reaches : nat → nat → Prop := rtc (λ x y, below h y x).

Lemma lookup_add_child_eq : add_child !! p = Some (AddChild a c).
Proof using Type. exact (lookup_insert_eq (M:=gmap nat) h p (AddChild a c)). Qed.

Lemma lookup_add_child_ne y : y ≠ p → add_child !! y = h !! y.
Proof using Type. intros Hne. apply (lookup_insert_ne (M:=gmap nat) h). by symmetry. Qed.

Lemma below_add_child x y : below add_child x y ↔ below h x y ∨ (x = c ∧ y = p).
Proof using Ha.
  unfold below. split.
  - intros (b & Hb & Hx). destruct (decide (y = p)) as [->|Hne].
    + rewrite lookup_add_child_eq in Hb. injection Hb as <-. simpl in Hx.
      apply elem_of_app in Hx as [Hx|Hx%list_elem_of_singleton]; [left; by exists a|by right].
    + rewrite lookup_add_child_ne in Hb by done. left. by exists b.
  - intros [(b & Hb & Hx)|[-> ->]].
    + destruct (decide (y = p)) as [->|Hne].
      * exists (AddChild a c). split; [apply lookup_add_child_eq|]. simpl.
        rewrite Ha in Hb. injection Hb as <-. apply elem_of_app. by left.
      * exists b. by rewrite lookup_add_child_ne.
    + exists (AddChild a c). split; [apply lookup_add_child_eq|]. simpl.
      apply elem_of_app. right. by left.
Qed.

Lemma Acc_unreached x : Acc (below h) x → ¬ reaches x p → Acc (below add_child) x.
Proof using Ha.
  induction 1 as [x _ IH]. intros Hx. constructor. intros y [Hy| [-> ->]]%below_add_child.
  - apply IH; [done|]. intros Hr. apply Hx. by eapply rtc_l.
  - destruct Hx. apply rtc_refl.
Qed.

Lemma Acc_irrefl {A} (R : relation A) x : Acc R x → ¬ tc (flip R) x x.
Proof using Type.
  induction 1 as [x _ IH]. intros Hc. inversion Hc as [? ? Hxx|? y ? Hxy Hyx]; subst.
  - apply (IH x Hxx). by apply tc_once.
  - apply (IH y Hxy). eapply tc_r; [done|exact Hxy].
Qed.
End add_child.



(** ** The registry of methods *)

(** Registration.  OnRequest on a name that is taken is an error and changes
    nothing; otherwise the name gets the callback, with the schema the setters
    leave, and the other names keep theirs; Off removes exactly its name, so
    that it can be registered again. *)
Theorem registry_spec {W Ctx HReq Sess S : Type} (a : @Actor W Ctx HReq Sess S) method cb setters :
  map_ok (methodHandlers a) →
  (is_Some (getHandler a method) ↔ ∃ err, OnRequest a method cb setters = inl err) ∧
  (∀ a', OnRequest a method cb setters = inr a' →
    map_ok (methodHandlers a') ∧
    getHandler a' method = Some (fold_left (λ h setter, setter h) setters (mkHandler cb None)) ∧
    ∀ other, other ≠ method → getHandler a' other = getHandler a other) ∧
  getHandler (Off a method) method = None ∧
  (∀ other, other ≠ method → getHandler (Off a method) other = getHandler a other) ∧
  ∃ a', OnRequest (Off a method) method cb setters = inr a'.
Proof.
  intros Hok. unfold OnRequest, getHandler, Off; cbn [methodHandlers set_methodHandlers].
  rewrite map_get_del_eq. split_and!.
  - destruct (map_get method (methodHandlers a)) as [x|].
    + split; eauto.
    + split; [by intros []|]. by intros [? ?].
  - destruct (map_get method (methodHandlers a)); [done|]. intros a' [= <-].
    cbn [methodHandlers set_methodHandlers]. split_and!.
    + by apply map_set_ok.
    + by rewrite map_get_set_eq.
    + intros other Hne. by rewrite map_get_set_ne.
  - done.
  - intros other Hne. by rewrite map_get_del_ne.
  - by eexists.
Qed.

Lemma registry_spec_witness :
  ∃ a', OnRequest (Off demo_child "echo") "echo" demo_callback [] = inr a'.
Proof.
  apply (registry_spec demo_child "echo" demo_callback []). by eval_decide.
Defined.

(** ** What an actor says about its methods *)

Section catalogue.
Context {W Ctx HReq Sess S : Type} (h : @Heap W Ctx HReq Sess S).

Lemma append_children_elem (f : nat → comp panic (list string)) ms cs all x :
  append_children f ms cs = Some (Ret all) →
  x ∈ all ↔ x ∈ ms ∨ ∃ c l, c ∈ cs ∧ f c = Some (Ret l) ∧ x ∈ l.
Proof using Type.
  revert ms. induction cs as [|c cs IH]; intros ms; cbn [append_children].
  - intros [= <-]. split; [by left|]. intros [?|(c & l & Hc & _)]; [done|]. by apply elem_of_nil in Hc.
  - destruct (f c) as [[l|p]|] eqn:Hf; try done. cbn [mbind comp_mbind].
    intros Hall. rewrite (IH _ Hall), elem_of_app. setoid_rewrite elem_of_cons. split.
    + intros [[?|?]|(c' & l' & ? & ? & ?)]; [by left|right; exists c, l; auto|right; exists c', l'; auto].
    + intros [?|(c' & l' & [->|?] & Hl' & ?)]; [by left; left| |right; exists c', l'; auto].
      left. right. rewrite Hf in Hl'. by injection Hl' as <-.
Qed.

Lemma append_children_inv (f : nat → comp panic (list string)) ms cs all c :
  append_children f ms cs = Some (Ret all) → c ∈ cs → ∃ l, f c = Some (Ret l).
Proof using Type.
  revert ms. induction cs as [|c' cs IH]; intros ms; cbn [append_children].
  - intros _ Hc. by apply elem_of_nil in Hc.
  - destruct (f c') as [[l|p]|] eqn:Hf; try done. cbn [mbind comp_mbind].
    intros Hall [->|Hc]%elem_of_cons; [by exists l|by eapply IH].
Qed.

Lemma any_child_true (f : nat → comp panic bool) (P : nat → Prop) cs :
  (∀ c, c ∈ cs → ∃ b, f c = Some (Ret b) ∧ (b = true ↔ P c)) →
  ∃ b, any_child f cs = Some (Ret b) ∧ (b = true ↔ ∃ c, c ∈ cs ∧ P c).
Proof using Type.
  induction cs as [|c cs IH]; intros Hc; cbn [any_child].
  - exists false. split; [done|]. split; [done|]. intros (c & Hc' & _). by apply elem_of_nil in Hc'.
  - destruct (Hc c) as (b & -> & Hb); [by left|]. cbn [mbind comp_mbind].
    destruct b; [exists true; split; [done|]; split; [intros _; exists c; split; [by left|by apply Hb]|done]|].
    destruct IH as (b & -> & Hb'); [intros c' Hc'; apply Hc; by right|].
    exists b. split; [done|]. rewrite Hb'. split.
    + intros (c' & ? & ?). exists c'. split; [by right|done].
    + intros (c' & [->|?]%elem_of_cons & HP); [|by exists c']. by apply Hb in HP.
Qed.

Lemma Has_in_MethodList fuel l method ms :
  MethodList h fuel l = Some (Ret ms) →
  ∃ b, Has h fuel l method = Some (Ret b) ∧ (b = true ↔ method ∈ ms).
Proof using Type.
  revert l ms. induction fuel as [|fuel IH]; intros l ms; [done|]. cbn [MethodList Has].
  destruct (deref h l) as [[a|p]|]; try done. cbn [mbind comp_mbind].
  intros Hms. pose proof (append_children_elem _ _ _ _ method Hms) as Helem.
  destruct (map_get method (methodHandlers a)) as [handler|] eqn:Hg.
  - exists true. split; [done|]. rewrite Helem. split; [|done]. intros _. left.
    apply map_get_is_Some. by eexists.
  - apply map_get_None in Hg.
    destruct (any_child_true (λ c, Has h fuel c method)
      (λ c, ∃ l, MethodList h fuel c = Some (Ret l) ∧ method ∈ l) (children a)) as (b & Hb & Hiff).
    { intros c Hc. destruct (append_children_inv _ _ _ _ c Hms Hc) as [l' Hl'].
      destruct (IH c l' Hl') as (b & Hb & Hbm). exists b. split; [done|]. rewrite Hbm. split.
      - intros Hin. by exists l'.
      - intros (l2 & Hl2 & Hin). rewrite Hl' in Hl2. by injection Hl2 as <-. }
    exists b. split; [done|]. rewrite Hiff, Helem. split.
    + intros (c & Hc & l' & Hl' & Hin). right. by exists c, l'.
    + intros [?|(c & l' & Hc & Hl' & Hin)]; [done|]. by exists c; eauto.
Qed.
End catalogue.

(** Has and MethodList agree.  On a cycle-free heap both end, and an actor
    has a method exactly when its list of methods, which goes through its
    children too, contains it. *)
Theorem Has_MethodList {W Ctx HReq Sess S : Type} (h : @Heap W Ctx HReq Sess S) l method :
  acyclic h → closed h → is_Some (h !! l) →
  ∃ n, ∀ fuel, (n ≤ fuel)%nat →
    ∃ ms b, MethodList h fuel l = Some (Ret ms) ∧ Has h fuel l method = Some (Ret b) ∧
      (b = true ↔ method ∈ ms).
Proof.
  intros Hac Hcl Hl. destruct (MethodList_ends h l Hac Hcl Hl) as (n & ms & Hn).
  exists n. intros fuel Hf. specialize (Hn fuel Hf).
  destruct (Has_in_MethodList h fuel l method ms Hn) as (b & Hb & Hiff). by exists ms, b.
Qed.

Lemma Has_MethodList_witness :
  ∃ n, ∀ fuel, (n ≤ fuel)%nat →
    ∃ ms b, MethodList demo_heap fuel 0%nat = Some (Ret ms) ∧
      Has demo_heap fuel 0%nat "echo" = Some (Ret b) ∧ (b = true ↔ "echo" ∈ ms).
Proof. apply Has_MethodList; [exact demo_acyclic|exact demo_closed|by eexists]. Defined.

(** The public catalogue.  When PublicSchemas returns, it has one entry for
    each public name of MethodList, in that order and under that name; internal
    methods are left out. *)
Theorem PublicSchemas_names {W Ctx HReq Sess S : Type} (h : @Heap W Ctx HReq Sess S)
    `{HS : SchemaOps S} fuel l mnames maps :
  MethodList h fuel l = Some (Ret mnames) → PublicSchemas h fuel l = Some (Ret maps) →
  map_get "name" <$> maps = (λ mname, Some (AString mname)) <$> filter (λ m, IsPublicMethod m = true) mnames.
Proof.
  intros Hm. unfold PublicSchemas. rewrite Hm. cbn [mbind comp_mbind]. clear Hm.
  revert maps. induction mnames as [|mname mnames IH]; intros maps; [by intros [= <-]|].
  rewrite filter_cons. cbn [public_schemas]. destruct (IsPublicMethod mname); cbn [negb].
  - rewrite decide_True by done. destruct (GetSchema h fuel l mname) as [[os|p]|]; try done.
    cbn [mbind comp_mbind].
    assert (∀ entry, map_get "name" entry = Some (AString mname) →
      (methods ← public_schemas h fuel l mnames; mret (entry :: methods)) = Some (Ret maps) →
      map_get "name" <$> maps =
        (λ mname, Some (AString mname)) <$> (mname :: filter (λ m, IsPublicMethod m = true) mnames))
      as Hcons.
    { intros entry He. destruct (public_schemas h fuel l mnames) as [[ms|p]|]; try done.
      cbn [mbind comp_mbind]. intros [= <-]. rewrite !fmap_cons, He. f_equal. by apply IH. }
    destruct os as [s|]; [|by apply (Hcons (default_schema_map mname))].
    destruct (schema_Map s) as [sMap|p]; [|done]. cbn [mbind comp_mbind].
    apply Hcons. by rewrite map_get_set_eq.
  - rewrite decide_False by done. apply IH.
Qed.

Lemma PublicSchemas_names_witness :
  ∃ maps, PublicSchemas demo_heap 3 0%nat = Some (Ret maps) ∧
    map_get "name" <$> maps = [Some (AString "echo")].
Proof.
  assert (∃ maps, PublicSchemas demo_heap 3 0%nat = Some (Ret maps)) as [maps Hm]
    by (eexists; vm_compute; reflexivity).
  exists maps. split; [exact Hm|].
  by rewrite (PublicSchemas_names demo_heap 3 0%nat ["echo"] maps eq_refl Hm).
Defined.

(** ** What becomes of the outcome of a handler *)

(** The error message of a request. *)
Definition reply_error (m : RequestMessage) (body : RPCError) : Message :=
  MError (mkError (mkBase MKError (traceId (req_base m))) (req_Id m) (Some body) None).

Definition error_reply (m : RequestMessage) (err : error) : feed_result :=
  match as_RPCError err with
  | Some body => (Some (reply_error m body), None)
  | None =>
      match as_WrappedResponse err with
      | Some (resp, body) => (None, Some (ErrorWrapped resp body))
      | None => (Some (reply_error m ErrInternalError), None)
      end
  end.

(** The outcome of a request, given that of its handler. *)
Definition request_outcome (recovers : bool) (m : RequestMessage)
    (x : result (value * option error)) : result feed_result :=
  match x with
  | Ret (Val v, None) =>
      Ret (Some (MResult (mkResult (mkBase MKResult (traceId (req_base m))) (req_Id m) v None)), None)
  | Ret (Msg resp, None) => Ret (Some resp, None)
  | Ret (_, Some err) => Ret (error_reply m err)
  | Panic (PanicError err) => if recovers then Ret (error_reply m err) else Panic (PanicError err)
  | Panic (PanicValue v) => Panic (PanicValue v)
  end.

Lemma RPCError_eta e : mkRPCError (RPCError_Code e) (RPCError_Message e) (RPCError_Data e) = e.
Proof. by destruct e. Qed.

Lemma wrapResult_error m v err :
  kind (req_base m) = MKRequest → wrapResult v (Some err) (MRequest m) = Ret (error_reply m err).
Proof.
  intros Hk. unfold wrapResult, IsRequest, base_of, error_reply. rewrite Hk. cbn [negb Z.eqb MKRequest].
  destruct (as_RPCError err) as [[c t d]|]; [done|].
  by destruct (as_WrappedResponse err) as [[resp body]|].
Qed.

(** C18. Errors and panics of handlers.  The outcome of a request is a function of
    that of its handler: a value becomes a result message, a message is passed
    on, an RPCError anywhere in the chain of causes becomes the error message,
    a wrapped HTTP response is handed up, and any other error, runtime errors
    included, becomes an internal error; a panic with an error counts as that
    error when the actor recovers, any other panic goes on.  What the handler
    did to the world before a panic stays done. *)
Theorem recoverCallHandler_spec {W Ctx HReq Sess S : Type} (a : @Actor W Ctx HReq Sess S) handler
    (req : RPCRequest Ctx HReq Sess) params m w x w' :
  request_msg req = MRequest m → kind (req_base m) = MKRequest →
  callback handler req params w = Some (x, w') →
  recoverCallHandler a handler req params w =
    Some (request_outcome (RecoverFromPanic a) m x, w').
Proof.
  intros Hmsg Hk Hcb. unfold recoverCallHandler, recovering. rewrite Hmsg.
  assert (call_and_wrap (MRequest m) (callback handler req params) w =
    Some (request_outcome false m x, w')) as Hbody.
  { unfold call_and_wrap. destruct x as [[v err]|p].
    - rewrite (act_bind_Ret _ _ _ _ _ Hcb). unfold act_of_outcome. cbn [fst snd].
      destruct err as [err|].
      + rewrite wrapResult_error by done. by destruct v.
      + unfold wrapResult, IsRequest, base_of. rewrite Hk. by destruct v.
    - rewrite (act_bind_Panic _ _ _ _ _ Hcb). by destruct p. }
  destruct (RecoverFromPanic a); rewrite Hbody; [|done].
  destruct x as [[[v|resp] [err|]]|[e|t]]; cbn [request_outcome]; try done.
  by rewrite wrapResult_error.
Qed.

Definition demo_failing : @MethodHandler nat unit unit unit Schema :=
  mkHandler (λ _ _ w,
    Some (Panic (PanicError (ErrorWithMessage "x" (ErrorRPC (ParamsError "bad")))), w)) None.

Definition demo_message : RequestMessage :=
  mkRequest (mkBase MKRequest "t") (AInt 7) "echo" [] true.

Lemma recoverCallHandler_spec_witness :
  recoverCallHandler demo_child demo_failing (demo_request []) [] 0%nat =
  Some (Ret (Some (reply_error demo_message (mkRPCError (-32602) "bad" ANil)), None), 0%nat).
Proof.
  exact (recoverCallHandler_spec demo_child demo_failing (demo_request []) [] demo_message 0%nat
    (Panic (PanicError (ErrorWithMessage "x" (ErrorRPC (ParamsError "bad"))))) 0%nat
    eq_refl eq_refl eq_refl).
Defined.

(** ** Unknown methods *)

(** C26. Unknown methods.  A request for a method that no actor below has, sent to
    an actor without a missing handler, is answered by the method-not-found
    error with its own id and trace id; a notification is dropped. *)
Theorem Feed_not_found {W Ctx HReq Sess S : Type} (h : @Heap W Ctx HReq Sess S)
    `{HD : MapDecoder, HS : SchemaOps S} fuel l a req method w :
  message_ok (request_msg req) → MustMethod (request_msg req) = Ret method →
  h !! l = Some a → find_handler h fuel l method = Some (Ret None) → missingHandler a = None →
  Feed h fuel l req w =
  Some (Ret (match request_msg req with
             | MRequest m => (Some (reply_error m ErrMethodNotFound), None)
             | _ => (None, None)
             end), w).
Proof.
  intros Hok Hmethod Ha Hf Hmiss.
  assert (IsResponse (request_msg req) = true) as Hresp.
  { destruct (request_msg req); simpl in *; try done; unfold IsResponse, IsRequest, IsNotify, base_of;
      by destruct Hok as [-> _]. }
  rewrite (Feed_routed h fuel l req method a None w) by done.
  unfold not_handled. rewrite Hmiss.
  destruct (request_msg req) as [m|m|m|m]; simpl in *; try done;
    unfold IsRequest, base_of; by destruct Hok as [-> _].
Qed.

Lemma Feed_not_found_witness :
  @Feed nat unit unit unit Schema demo_heap _ struct_decoder 3 0%nat
    (NewRPCRequest tt (MRequest (mkRequest (mkBase MKRequest "t") (AInt 7) "nope" [] true)) "http") 0%nat
  = Some (Ret (Some (reply_error (mkRequest (mkBase MKRequest "t") (AInt 7) "nope" [] true)
                       ErrMethodNotFound), None), 0%nat).
Proof.
  apply (@Feed_not_found nat unit unit unit Schema demo_heap struct_decoder Schema_ops 3 0%nat
    demo_parent (NewRPCRequest tt (MRequest (mkRequest (mkBase MKRequest "t") (AInt 7) "nope" [] true)) "http")
    "nope"); try done. repeat split; [done|by left].
Defined.

(** ** The advertised schema *)

Definition shadowing_actor : demo_actor :=
  mkActor true true [("echo", mkHandler demo_callback None)] None None [1%nat].
Definition shadowing_heap : @Heap nat unit unit unit Schema :=
  <[0%nat := shadowing_actor]> {[1%nat := demo_child]}.

(** The schema of another handler.  GetSchema skips a handler without a schema
    and goes on to the children, while Feed stops at the first handler: an
    actor can advertise for a method a schema that it does not check.  Here
    the advertised schema wants one string, and a request with a number is
    passed to the handler. *)
Theorem GetSchema_not_enforced :
  GetSchema shadowing_heap 3 0%nat "echo" =
    Some (Ret (Some (MethodSchema mixin0 [NewStringSchema] None None))) ∧
  ¬ valid (MethodSchema mixin0 [NewStringSchema] None None) (AMap [("params", AList [AInt 5])]) ∧
  @Feed nat unit unit unit Schema shadowing_heap _ struct_decoder 3 0%nat (demo_request [AInt 5]) 0%nat
  = Some (Ret (Some (MResult (mkResult (mkBase MKResult "t") (AInt 7) (AList [AInt 5]) None)), None), 1%nat).
Proof.
  split_and!; [by vm_compute| |by vm_compute].
  intros (msg & [= <-] & Hp). simpl in Hp. by destruct Hp as [(? & ? & _) _].
Qed.

(** ** Closing *)

Section closing.
Context {W Ctx HReq Sess S : Type} (h : @Heap W Ctx HReq Sess S) (session : option Sess).
Abbreviation CloseCallback := (@CloseCallback W Sess).

Fixpoint gather (f : nat → comp panic (list CloseCallback)) (cs : list nat)
    : comp panic (list CloseCallback) :=
  match cs with
  | [] => mret []
  | c :: cs => hs ← f c; rest ← gather f cs; mret (hs ++ rest)
  end.

(** The close handlers below an actor, those of children before its own. *)
Fixpoint close_handlers (fuel : nat) (l : nat) : comp panic (list CloseCallback) :=
  match fuel with
  | O => None
  | Datatypes.S fuel =>
      a ← deref h l;
      hs ← gather (close_handlers fuel) (children a);
      mret (hs ++ option_list (closeHandler a))
  end.

Fixpoint run_handlers (hs : list CloseCallback) : act W panic unit :=
  match hs with
  | [] => mret tt
  | handler :: hs => _ ← handler session; run_handlers hs
  end.

Lemma run_handlers_app hs1 hs2 w :
  run_handlers (hs1 ++ hs2) w = (_ ← run_handlers hs1; run_handlers hs2) w.
Proof using Type.
  revert w. induction hs1 as [|hd hs1 IH]; intros w; [done|]. cbn [app run_handlers].
  unfold mbind, act_mbind in *. destruct (hd session w) as [[[[]|p] w']|]; [|done..].
  by rewrite IH.
Qed.

Lemma gather_run (f : nat → act W panic unit) (g : nat → comp panic (list CloseCallback)) cs hs w :
  (∀ c hs w, g c = Some (Ret hs) → f c w = run_handlers hs w) →
  gather g cs = Some (Ret hs) → close_children f cs w = run_handlers hs w.
Proof using Type.
  intros Hf. revert hs w. induction cs as [|c cs IH]; intros hs w; cbn [gather close_children].
  { by intros [= <-]. }
  destruct (g c) as [[hc|p]|] eqn:Hc; try done. cbn [mbind comp_mbind].
  destruct (gather g cs) as [[rest|p]|] eqn:Hg; try done. cbn [mbind comp_mbind]. intros [= <-].
  rewrite run_handlers_app. unfold mbind, act_mbind. rewrite (Hf c hc w Hc).
  destruct (run_handlers hc w) as [[[[]|p] w']|]; [|done..]. by apply IH.
Qed.
End closing.


