(* ===== verification/StreamingClient.v ===== *)
(** * The streaming client: net/streaming_client.go

    Callers, the send loop, the receive loop and one timer for each request
    run concurrently and share the client through channels and a
    sync.Map.  The state below holds what they share; a [label] names one
    atomic action of one of them, with what the environment decides (the
    message read, the outcome of a dial, a fresh identifier) as its
    arguments; [step] computes the state after it, [None] when the action is
    not possible (a goroutine would block, or is elsewhere).  An execution is
    a list of labels.

    An action is what a goroutine does between two channel operations or
    accesses of the sync.Map.  The fields [sendChannel] and [closeChannel] are
    accessed without a lock by the source; their data races are not
    modelled.  Time is a clock in seconds; a timer may fire once its ten
    seconds are over.  The transport is a flag, [connected], which Transports.v
    justifies; log entries and settings are left out.  The handlers that the user
    registers are flags: messages for the message handler are recorded, calls of
    the other two counted.  The end of the context that a connection was made
    with is an action, possible at any time. *)

From S2P Require Import Prelude GoMap Strconv Values Messages.
From stdpp Require Import gmap.
From stdpp Require Import options.
#[local] Open Scope Z_scope.

(** ** Identifiers as keys of a sync.Map *)

(** The dynamic type and value of a comparable [any].  NaN, which is not equal
    to itself, is left out. *)
Inductive key : Type :=
  | KNil
  | KBool (b : bool)
  | KInt (z : Z)
  | KInt64 (z : Z)
  | KFloat (f : float64)
  | KNumber (s : string)
  | KString (s : string).

#[export] Instance key_eq_dec : EqDecision key.
Proof. solve_decision. Defined.

(** [None]: using the value as a key panics. *)
Definition key_of (v : any) : option key :=
  match v with
  | ANil => Some KNil
  | ABool b => Some (KBool b)
  | AInt z => Some (KInt z)
  | AInt64 z => Some (KInt64 z)
  | AFloat f => Some (KFloat (float_norm f))
  | ANumber s => Some (KNumber s)
  | AString s => Some (KString s)
  | _ => None
  end.

Definition unhashable : panic := PanicError (ErrorRuntime "hash of unhashable type").

Definition key_res (v : any) : comp panic key :=
  match key_of v with Some k => mret k | None => Some (Panic unhashable) end.

(** ** State *)

(** What a call of [request] has come to. *)
Inductive phase : Type :=
  | Loaded (sendmsg : RequestMessage)      (** the pending map was looked up *)
  | Stored (sendmsg : RequestMessage)      (** the entry is stored *)
  | Sent (sendmsg : RequestMessage)        (** the message is in the send channel *)
  | Waiting (closeChannel : option nat)    (** in the select, or in the receive *)
  | Returned (res : error + Message).

(** A call and the buffer of its result channel. *)
Record call := mkCall {
  call_req : RequestMessage;
  call_phase : phase;
  resultChannel : list Message }.

(** Which handlers the user has registered, and how often those for the begin
    and the end of a connection have been called. *)
Record client_hooks := mkHooks {
  messageHandler : bool;
  connectedHandler : bool;
  closeHandler : bool;
  connected_calls : nat;
  closed_calls : nat }.

(** [connectedHandler()] and [closeHandler()], which is then forgotten. *)
Definition call_connected (h : client_hooks) : client_hooks :=
  mkHooks (messageHandler h) (connectedHandler h) (closeHandler h)
    (if connectedHandler h then S (connected_calls h) else connected_calls h) (closed_calls h).

Definition call_closed (h : client_hooks) : client_hooks :=
  mkHooks (messageHandler h) (connectedHandler h) false (connected_calls h)
    (if closeHandler h then S (closed_calls h) else closed_calls h).

(** [pendingRequests] maps the id under which a request was sent to the call
    whose [reqmsg] and [resultChannel] the entry of the source holds.
    [cancelFunc] is whether there is one; [cancelled] counts the send loops
    whose context has been cancelled and that have not noticed yet. *)
Record client := mkClient {
  now : Z;
  connected : bool;
  pendingRequests : list (key * nat);
  calls : gmap nat call;
  timers : list (key * Z);
  sendChannel : option (list Message);
  closeChannels : gmap nat (list (option error));
  closeChannel : option nat;
  cancelFunc : bool;
  cancelled : nat;
  written : list Message;
  handled : list Message;
  hooks : client_hooks }.

Definition set_now (t : Z) (s : client) : client :=
  mkClient t (connected s) (pendingRequests s) (calls s) (timers s) (sendChannel s)
    (closeChannels s) (closeChannel s) (cancelFunc s) (cancelled s) (written s) (handled s)
    (hooks s).
Definition set_pending (p : list (key * nat)) (s : client) : client :=
  mkClient (now s) (connected s) p (calls s) (timers s) (sendChannel s) (closeChannels s)
    (closeChannel s) (cancelFunc s) (cancelled s) (written s) (handled s) (hooks s).
Definition set_call (c : nat) (x : call) (s : client) : client :=
  mkClient (now s) (connected s) (pendingRequests s) (<[c := x]> (calls s)) (timers s)
    (sendChannel s) (closeChannels s) (closeChannel s) (cancelFunc s) (cancelled s) (written s)
    (handled s) (hooks s).
Definition set_timers (t : list (key * Z)) (s : client) : client :=
  mkClient (now s) (connected s) (pendingRequests s) (calls s) t (sendChannel s) (closeChannels s)
    (closeChannel s) (cancelFunc s) (cancelled s) (written s) (handled s) (hooks s).
Definition set_sendChannel (q : option (list Message)) (s : client) : client :=
  mkClient (now s) (connected s) (pendingRequests s) (calls s) (timers s) q (closeChannels s)
    (closeChannel s) (cancelFunc s) (cancelled s) (written s) (handled s) (hooks s).
Definition set_closeChannels (m : gmap nat (list (option error))) (s : client) : client :=
  mkClient (now s) (connected s) (pendingRequests s) (calls s) (timers s) (sendChannel s) m
    (closeChannel s) (cancelFunc s) (cancelled s) (written s) (handled s) (hooks s).
Definition set_closeChannel (c : option nat) (s : client) : client :=
  mkClient (now s) (connected s) (pendingRequests s) (calls s) (timers s) (sendChannel s)
    (closeChannels s) c (cancelFunc s) (cancelled s) (written s) (handled s) (hooks s).
Definition set_cancel (b : bool) (n : nat) (s : client) : client :=
  mkClient (now s) (connected s) (pendingRequests s) (calls s) (timers s) (sendChannel s)
    (closeChannels s) (closeChannel s) b n (written s) (handled s) (hooks s).
Definition set_written (l : list Message) (s : client) : client :=
  mkClient (now s) (connected s) (pendingRequests s) (calls s) (timers s) (sendChannel s)
    (closeChannels s) (closeChannel s) (cancelFunc s) (cancelled s) l (handled s) (hooks s).
Definition set_handled (l : list Message) (s : client) : client :=
  mkClient (now s) (connected s) (pendingRequests s) (calls s) (timers s) (sendChannel s)
    (closeChannels s) (closeChannel s) (cancelFunc s) (cancelled s) (written s) l (hooks s).
Definition set_hooks (h : client_hooks) (s : client) : client :=
  mkClient (now s) (connected s) (pendingRequests s) (calls s) (timers s) (sendChannel s)
    (closeChannels s) (closeChannel s) (cancelFunc s) (cancelled s) (written s) (handled s) h.
Definition set_connection (b : bool) (q : option (list Message)) (s : client) : client :=
  mkClient (now s) b (pendingRequests s) (calls s) (timers s) q (closeChannels s) (closeChannel s)
    (cancelFunc s) (cancelled s) (written s) (handled s) (hooks s).

(** A client after [InitStreaming]. *)
Definition InitStreaming : client :=
  mkClient 0 false [] ∅ [] None ∅ None false 0 [] [] (mkHooks false false false 0 0).

(** ** The pending map *)

Fixpoint pending_get (k : key) (p : list (key * nat)) : option nat :=
  match p with
  | [] => None
  | (k', c) :: p => if decide (k = k') then Some c else pending_get k p
  end.

Definition pending_del (k : key) (p : list (key * nat)) : list (key * nat) :=
  filter (λ kc : key * nat, kc.1 ≠ k) p.

(** [Store] *)
Definition pending_set (k : key) (c : nat) (p : list (key * nat)) : list (key * nat) :=
  (k, c) :: pending_del k p.

(** ** Connecting and closing *)

Definition TransportConnectFailed : error := ErrorString "connect refused".
Definition TransportClosed : error := ErrorString "streaming closed".

(** [Connect], with the outcome of the dial; a new connection has new
    channels. *)
Definition Connect (dial : option error) (s : client) : error + client :=
  if connected s then inr s
  else match dial with
       | Some err => inl err
       | None =>
           let ch := size (closeChannels s) in
           inr (set_cancel true (cancelled s)
                 (set_closeChannel (Some ch)
                   (set_closeChannels (<[ch := []]> (closeChannels s))
                     (set_hooks (call_connected (hooks s)) (set_connection true (Some []) s)))))
       end.

(** [Reset]; the close channel has room for ten errors. *)
Definition Reset (err : option error) (s : client) : option client :=
  let s := if cancelFunc s then set_cancel false (S (cancelled s)) s else s in
  s ← match closeChannel s with
      | None => Some s
      | Some ch =>
          let q := default [] (closeChannels s !! ch) in
          if (length q <? 10)%nat then
            Some (set_closeChannel None (set_closeChannels (<[ch := q ++ [err]]> (closeChannels s)) s))
          else None
      end;
  Some (set_connection false None s).

Definition Close (s : client) : option client :=
  if connected s then Reset None s else Some s.

Definition handleError (err : error) (s : client) : option client :=
  s ← Reset (Some err) s;
  Some (set_hooks (call_closed (hooks s)) s).

(** [Wait]: the error received, or none when there is no connection to wait for. *)
Definition Wait (s : client) : option (option error * client) :=
  match closeChannel s with
  | None => Some (None, s)
  | Some ch =>
      match closeChannels s !! ch with
      | Some (err :: q) => Some (err, set_closeChannels (<[ch := q]> (closeChannels s)) s)
      | _ => None
      end
  end.

(** ** Results *)

(** [pending.resultChannel <- msg]; the channel has room for ten messages. *)
Definition deliver (c : nat) (msg : Message) (s : client) : option client :=
  x ← calls s !! c;
  if (length (resultChannel x) <? 10)%nat then
    Some (set_call c (mkCall (call_req x) (call_phase x) (resultChannel x ++ [msg])) s)
  else None.

(** An action that may only block. *)
Definition maybe {A} (o : option A) : comp panic A := Ret <$> o.

Definition deliver_comp (c : nat) (msg : Message) (s : client) : comp panic client :=
  maybe (deliver c msg s).

(** A message for the user's handler, if there is one. *)
Definition handleMessage (msg : Message) (s : client) : client :=
  set_handled (if messageHandler (hooks s) then handled s ++ [msg] else handled s) s.

Definition handleResult (msg : Message) (s : client) : comp panic client :=
  msgId ← (Some (MustId msg) : comp panic any);
  k ← key_res msgId;
  match pending_get k (pendingRequests s) with
  | None => mret (handleMessage msg s)
  | Some c =>
      let s := set_pending (pending_del k (pendingRequests s)) s in
      match calls s !! c with
      | None => None
      | Some x =>
          if decide (key_of (req_Id (call_req x)) = Some k) then deliver_comp c msg s
          else
            resmsg ← (Some (ReplaceId msg (req_Id (call_req x))) : comp panic Message);
            deliver_comp c resmsg s
      end
  end.

(** A message read by the receive loop. *)
Definition receive (msg : Message) (s : client) : comp panic client :=
  if negb (IsResultOrError msg) then mret (handleMessage msg s) else handleResult msg s.

(** The end of the sleep of [expire(k, _)]. *)
Definition expire (k : key) (s : client) : comp panic client :=
  match pending_get k (pendingRequests s) with
  | None => mret s
  | Some c =>
      let s := set_pending (pending_del k (pendingRequests s)) s in
      match calls s !! c with
      | None => None
      | Some x =>
          timeout ← (Some (ToMessage ErrTimeout (call_req x)) : comp panic ErrorMessage);
          deliver_comp c (MError timeout) s
      end
  end.

(** ** Calls *)

(** The start of [request]: connect, then look the id up; a request whose id is
    pending is sent as a clone with the identifier [uuid] that NewUuid gives. *)
Definition request_start (c : nat) (reqmsg : RequestMessage) (dial : option error) (uuid : string)
    (s : client) : comp panic client :=
  match calls s !! c with
  | Some _ => None
  | None =>
      match Connect dial s with
      | inl err => mret (set_call c (mkCall reqmsg (Returned (inl err)) []) s)
      | inr s =>
          k ← key_res (req_Id reqmsg);
          sendmsg ← match pending_get k (pendingRequests s) with
                    | Some _ => (Some (Clone reqmsg (AString uuid)) : comp panic RequestMessage)
                    | None => mret reqmsg
                    end;
          mret (set_call c (mkCall reqmsg (Loaded sendmsg) []) s)
      end
  end.

Definition set_phase (c : nat) (p : phase) (s : client) : client :=
  match calls s !! c with
  | None => s
  | Some x => set_call c (mkCall (call_req x) p (resultChannel x)) s
  end.

Definition request_store (c : nat) (s : client) : comp panic client :=
  x ← maybe (calls s !! c);
  match call_phase x with
  | Loaded sendmsg =>
      k ← key_res (req_Id sendmsg);
      mret (set_phase c (Stored sendmsg) (set_pending (pending_set k c (pendingRequests s)) s))
  | _ => None
  end.

(** [client.sendChannel <- msg]; the channel has room for a hundred messages,
    and sending to a nil channel blocks. *)
Definition push_message (msg : Message) (s : client) : option client :=
  q ← sendChannel s;
  if (length q <? 100)%nat then Some (set_sendChannel (Some (q ++ [msg])) s) else None.

(** [Send]: the error, or the client with the message in the send channel. *)
Definition Send (dial : option error) (msg : Message) (s : client) : option (error + client) :=
  match Connect dial s with
  | inl err => Some (inl err)
  | inr s => inr <$> push_message msg s
  end.

Definition request_send (c : nat) (dial : option error) (s : client) : comp panic client :=
  x ← maybe (calls s !! c);
  match call_phase x with
  | Stored sendmsg =>
      r ← maybe (Send dial (MRequest sendmsg) s);
      match r with
      | inl err => mret (set_phase c (Returned (inl err)) s)
      | inr s => mret (set_phase c (Sent sendmsg) s)
      end
  | _ => None
  end.

(** [go client.expire(sendmsg.Id, 10 s)] and the evaluation of the close channel. *)
Definition request_arm (c : nat) (s : client) : comp panic client :=
  x ← maybe (calls s !! c);
  match call_phase x with
  | Sent sendmsg =>
      k ← key_res (req_Id sendmsg);
      mret (set_phase c (Waiting (closeChannel s)) (set_timers (timers s ++ [(k, now s + 10)]) s))
  | _ => None
  end.

Definition request_result (c : nat) (s : client) : comp panic client :=
  x ← maybe (calls s !! c);
  match call_phase x, resultChannel x with
  | Waiting _, resmsg :: rest => mret (set_call c (mkCall (call_req x) (Returned (inr resmsg)) rest) s)
  | _, _ => None
  end.

Definition request_closed (c : nat) (s : client) : comp panic client :=
  x ← maybe (calls s !! c);
  match call_phase x with
  | Waiting (Some ch) =>
      match closeChannels s !! ch with
      | Some (_ :: q) =>
          mret (set_phase c (Returned (inl TransportClosed))
            (set_closeChannel None (set_closeChannels (<[ch := q]> (closeChannels s)) s)))
      | _ => None
      end
  | _ => None
  end.

(** [Call]: what [request] has returned, with the method in the error. *)
Definition Call (reqmsg : RequestMessage) (res : error + Message) : error + Message :=
  match res with
  | inl err => inl (ErrorWithMessage ("RPC(" +:+ req_Method reqmsg +:+ ")") err)
  | inr resmsg => inr resmsg
  end.

(** [UnwrapCall]: [output] decodes the result (jsoff.DecodeInterface); an
    error message is returned as the error, a nil one as a nil pointer. *)
Definition UnwrapCall {O} (output : any → error + O) (reqmsg : RequestMessage) (res : error + Message)
    : result (error + option RPCError + O) :=
  match Call reqmsg res with
  | inl err => Ret (inl (inl err))
  | inr resmsg =>
      if IsResult resmsg then
        r ← MustResult resmsg;
        Ret match output r with
            | inl err => inl (inl (ErrorWithMessage ("RPC(" +:+ req_Method reqmsg +:+ ")") err))
            | inr o => inr o
            end
      else errbody ← MustError resmsg; Ret (inl (inr errbody))
  end.

(** [OnMessage], [OnConnected] and [OnClose]: a handler is registered once. *)
Definition OnMessage (s : client) : error + client :=
  let h := hooks s in
  if messageHandler h then inl (ErrorString "message handler already exist!")
  else inr (set_hooks (mkHooks true (connectedHandler h) (closeHandler h) (connected_calls h) (closed_calls h)) s).

Definition OnConnected (s : client) : error + client :=
  let h := hooks s in
  if connectedHandler h then inl (ErrorString "connected handler already exist!")
  else inr (set_hooks (mkHooks (messageHandler h) true (closeHandler h) (connected_calls h) (closed_calls h)) s).

Definition OnClose (s : client) : error + client :=
  let h := hooks s in
  if closeHandler h then inl (ErrorString "close handler already exist!")
  else inr (set_hooks (mkHooks (messageHandler h) (connectedHandler h) true (connected_calls h) (closed_calls h)) s).

Inductive hook : Type := MessageHook | ConnectedHook | CloseHook.

Definition register (h : hook) (s : client) : error + client :=
  match h with
  | MessageHook => OnMessage s
  | ConnectedHook => OnConnected s
  | CloseHook => OnClose s
  end.

(** ** Executions *)

Inductive label : Type :=
  | LConnect (dial : option error)                 (** the user calls Connect *)
  | LRequest (c : nat) (reqmsg : RequestMessage) (dial : option error) (uuid : string)
  | LStore (c : nat)
  | LSend (c : nat) (dial : option error)
  | LArm (c : nat)
  | LResult (c : nat)
  | LClosed (c : nat)
  | LSendMessage (dial : option error) (msg : Message)  (** the user calls Send *)
  | LRegister (h : hook)                           (** the user registers a handler *)
  | LWait                                          (** the user calls Wait *)
  | LClose                                         (** the user calls Close *)
  | LWrite (werr : option error)                   (** the send loop writes a message *)
  | LCancelled                                     (** a cancelled send loop closes the client *)
  | LContextDone                                   (** so does one whose caller's context is done *)
  | LRead (msg : Message)                          (** the receive loop reads a message *)
  | LReadError (err : error)                       (** or an error *)
  | LExpire (i : nat)                              (** the i-th timer fires *)
  | LTick.                                         (** a second passes *)

Definition sendLoop_write (werr : option error) (s : client) : option client :=
  if connected s then
    match sendChannel s with
    | Some (msg :: q) =>
        let s := set_sendChannel (Some q) s in
        match werr with
        | None => Some (set_written (written s ++ [msg]) s)
        | Some err => handleError err s
        end
    | _ => None
    end
  else None.

(** The client after a registration, which may have been refused. *)
Definition registered (s : client) (r : error + client) : client :=
  match r with inl _ => s | inr s => s end.

(** The context of a connection is the one given by the caller that made it;
    its send loop ends with it, and closes the client. *)
Definition step (l : label) (s : client) : comp panic client :=
  match l with
  | LConnect dial => mret (registered s (Connect dial s))
  | LRequest c reqmsg dial uuid => request_start c reqmsg dial uuid s
  | LStore c => request_store c s
  | LSend c dial => request_send c dial s
  | LArm c => request_arm c s
  | LResult c => request_result c s
  | LClosed c => request_closed c s
  | LSendMessage dial msg =>
      r ← maybe (Send dial msg s); mret (registered s r)
  | LRegister h => mret (registered s (register h s))
  | LWait => maybe (snd <$> Wait s)
  | LClose => maybe (Close s)
  | LWrite werr => maybe (sendLoop_write werr s)
  | LCancelled =>
      match cancelled s with
      | O => None
      | S n => maybe (Close (set_cancel (cancelFunc s) n s))
      end
  | LContextDone => if connected s then maybe (Close (set_cancel false (cancelled s) s)) else None
  | LRead msg => if connected s then receive msg s else None
  | LReadError err => if connected s then maybe (handleError err s) else None
  | LExpire i =>
      t ← maybe (timers s !! i);
      if t.2 <=? now s then expire t.1 (set_timers (delete i (timers s)) s) else None
  | LTick => mret (set_now (now s + 1) s)
  end.

(** Registering changes the handlers only. *)
Lemma register_hooks h s : ∃ hs, registered s (register h s) = set_hooks hs s.
Proof.
  assert (s = set_hooks (hooks s) s) as Hs by (by destruct s).
  destruct h; cbn [register]; unfold OnMessage, OnConnected, OnClose; case_match; eauto.
Qed.

Fixpoint run (ls : list label) (s : client) : comp panic client :=
  match ls with
  | [] => mret s
  | l :: ls => s ← step l s; run ls s
  end.

Inductive reachable : client → Prop :=
  | reach_init : reachable InitStreaming
  | reach_step l s s' : reachable s → step l s = Some (Ret s') → reachable s'.

Lemma run_reachable ls s s' : reachable s → run ls s = Some (Ret s') → reachable s'.
Proof.
  revert s. induction ls as [|l ls IH]; intros s Hs; cbn [run]; [by intros [= <-]|].
  destruct (step l s) as [[s1|p]|] eqn:Hl; try done. cbn [mbind comp_mbind].
  apply IH. by eapply reach_step.
Qed.

(** ** What every execution keeps

    The invariant speaks of the calls and the pending map only. *)

Definition entries_of (c : nat) (p : list (key * nat)) : nat := length (filter (λ kc, kc.2 = c) p).

(** Messages that have reached a call: in its channel, or returned. *)
Definition received (x : call) : nat :=
  length (resultChannel x) + match call_phase x with Returned (inr _) => 1 | _ => 0 end.

(** [v == w] for ids. *)
Definition same_id (v w : any) : Prop := v = w ∨ ∃ k, key_of v = Some k ∧ key_of w = Some k.

(** The message has the id the caller asked with. *)
Definition own_id (x : call) (m : Message) : Prop :=
  ∃ v, MustId m = Ret v ∧ same_id v (req_Id (call_req x)).

Definition call_ok (p : list (key * nat)) (c : nat) (x : call) : Prop :=
  Forall (own_id x) (resultChannel x) ∧
  (∀ m, call_phase x = Returned (inr m) → own_id x m) ∧
  (received x + entries_of c p ≤ 1)%nat ∧
  (∀ sendmsg, call_phase x = Loaded sendmsg → received x = 0%nat ∧ entries_of c p = 0%nat).

Definition calls_ok (cs : gmap nat call) (p : list (key * nat)) : Prop :=
  (∀ c x, cs !! c = Some x → call_ok p c x) ∧ (∀ k c, (k, c) ∈ p → is_Some (cs !! c)).

Definition Inv (s : client) : Prop := calls_ok (calls s) (pendingRequests s).

Lemma entries_of_0 c p : entries_of c p = 0%nat ↔ ∀ k, (k, c) ∉ p.
Proof.
  unfold entries_of. induction p as [|[k' c'] p IH]; [set_solver|].
  rewrite filter_cons. case_decide as Hc; simpl in *; subst.
  - split; [done|]. intros H. destruct (H k'). by left.
  - rewrite IH. set_solver.
Qed.

Lemma entries_of_del c k p : (entries_of c (pending_del k p) ≤ entries_of c p)%nat.
Proof.
  unfold entries_of, pending_del. induction p as [|[k' c'] p IH]; [done|].
  rewrite !filter_cons. repeat case_decide; simpl in *; rewrite ?filter_cons; simpl;
    repeat case_decide; simpl in *; try done; lia.
Qed.

Lemma pending_get_elem k c p : pending_get k p = Some c → (k, c) ∈ p.
Proof.
  induction p as [|[k' c'] p IH]; [done|]. simpl.
  case_decide; [intros [= <-]; subst; by left|intros ?; right; auto].
Qed.

Lemma pending_get_del k p : pending_get k (pending_del k p) = None.
Proof.
  unfold pending_del. induction p as [|[k' c'] p IH]; [done|]. rewrite filter_cons. simpl.
  case_decide; [|done]. simpl. by rewrite decide_False.
Qed.

Lemma entries_of_taken c k p :
  pending_get k p = Some c → (entries_of c (pending_del k p) < entries_of c p)%nat.
Proof.
  induction p as [|[k' c'] p IH]; [done|]. cbn [pending_get].
  case_decide as Hk.
  - intros [= <-]. subst k'. pose proof (entries_of_del c' k p) as Hd.
    unfold entries_of, pending_del in *. rewrite !filter_cons. simpl.
    rewrite decide_False by (intros H; by apply H). rewrite decide_True by done. simpl. lia.
  - intros Hg. specialize (IH Hg). unfold entries_of, pending_del in *. rewrite !filter_cons. simpl.
    rewrite decide_True by done. rewrite filter_cons. simpl. case_decide; simpl; lia.
Qed.

Lemma entries_of_set c c' k p :
  (entries_of c (pending_set k c' p) ≤ entries_of c p + if decide (c = c') then 1 else 0)%nat.
Proof.
  pose proof (entries_of_del c k p). unfold entries_of, pending_set in *. rewrite filter_cons. simpl.
  repeat case_decide; subst; simpl; try done; lia.
Qed.

Lemma pending_del_elem k k' c p : (k', c) ∈ pending_del k p → (k', c) ∈ p.
Proof. unfold pending_del. rewrite list_elem_of_filter. by intros [_ ?]. Qed.

(** *** Changes of one call *)

Lemma calls_ok_insert cs p c x :
  calls_ok cs p → call_ok p c x → calls_ok (<[c := x]> cs) p.
Proof.
  intros [Hc Hp] Hx. split.
  - intros c' x'. destruct (decide (c = c')) as [<-|Hne].
    + rewrite lookup_insert_eq. by intros [= <-].
    + rewrite lookup_insert_ne by done. apply Hc.
  - intros k c' Hin. destruct (decide (c = c')) as [<-|Hne].
    + rewrite lookup_insert_eq. by eexists.
    + rewrite lookup_insert_ne by done. by eapply Hp.
Qed.

(** A new call has no entry. *)
Lemma calls_ok_new cs p c reqmsg ph :
  calls_ok cs p → cs !! c = None → (∀ m, ph ≠ Returned (inr m)) →
  calls_ok (<[c := mkCall reqmsg ph []]> cs) p.
Proof.
  intros Hok Hc Hph.
  assert (entries_of c p = 0%nat) as He.
  { apply entries_of_0. intros k Hin. destruct Hok as [_ Hp]. apply Hp in Hin as [? Hin]. congruence. }
  assert (received (mkCall reqmsg ph []) = 0%nat) as Hr.
  { unfold received; simpl. destruct ph as [| | | |[]]; try done. by destruct (Hph m). }
  apply calls_ok_insert; [done|]. split_and!; simpl; [constructor|by intros m ->; destruct (Hph m)|lia|done].
Qed.

(** A change of phase in the middle of a call. *)
Lemma calls_ok_phase cs p c x ph :
  calls_ok cs p → cs !! c = Some x → (∀ m, ph ≠ Loaded m) → (∀ m, ph ≠ Returned (inr m)) →
  calls_ok (<[c := mkCall (call_req x) ph (resultChannel x)]> cs) p.
Proof.
  intros Hok Hc Hl Hr. destruct (proj1 Hok c x Hc) as (Hids & _ & Hcount & _).
  apply calls_ok_insert; [done|].
  split_and!; simpl; [done|by intros m ->; destruct (Hr m)| |by intros m ->; destruct (Hl m)].
  unfold received in *; simpl. destruct ph as [| | | |[]]; try lia. by destruct (Hr m).
Qed.

(** The entries of a call may go. *)
Lemma call_ok_fewer p p' c x :
  (entries_of c p' ≤ entries_of c p)%nat → call_ok p c x → call_ok p' c x.
Proof.
  intros Hle (H1 & H2 & H3 & H4). split_and!; [done|done|lia|].
  intros m Hm. destruct (H4 m Hm). lia.
Qed.

Lemma calls_ok_store cs p c x k sendmsg :
  calls_ok cs p → cs !! c = Some x → call_phase x = Loaded sendmsg →
  calls_ok (<[c := mkCall (call_req x) (Stored sendmsg) (resultChannel x)]> cs) (pending_set k c p).
Proof.
  intros [Hc Hp] Hx Hph. split.
  - intros c' x'. pose proof (entries_of_set c' c k p) as Hset. destruct (decide (c = c')) as [<-|Hne].
    + rewrite lookup_insert_eq. intros [= <-]. destruct (Hc c x Hx) as (Hids & _ & _ & Hl).
      destruct (Hl sendmsg Hph) as [Hr He]. rewrite decide_True in Hset by done.
      split_and!; simpl; [done|done| |done]. unfold received in *; simpl. rewrite Hph in Hr. lia.
    + rewrite lookup_insert_ne by done. intros Hx'. rewrite decide_False in Hset by done.
      eapply call_ok_fewer; [|by apply Hc]. lia.
  - intros k' c'. unfold pending_set. rewrite elem_of_cons.
    destruct (decide (c = c')) as [<-|Hne]; [rewrite lookup_insert_eq; by eexists|].
    rewrite lookup_insert_ne by done. intros [[= -> ->]|Hin%pending_del_elem]; [done|by eapply Hp].
Qed.

Lemma calls_ok_deliver cs p c x k msg :
  calls_ok cs p → cs !! c = Some x → pending_get k p = Some c → own_id x msg →
  calls_ok (<[c := mkCall (call_req x) (call_phase x) (resultChannel x ++ [msg])]> cs) (pending_del k p).
Proof.
  intros [Hc Hp] Hx Hk Hid. split.
  - intros c' x'. pose proof (entries_of_del c' k p) as Hdel. destruct (decide (c = c')) as [<-|Hne].
    + rewrite lookup_insert_eq. intros [= <-]. destruct (Hc c x Hx) as (Hids & Hret & Hcount & Hl).
      pose proof (entries_of_taken c k p Hk) as Htaken.
      split_and!; simpl; [apply Forall_app; split; [done|by repeat constructor]|done| |].
      * unfold received in *; simpl. rewrite length_app. simpl. lia.
      * intros m Hm. destruct (Hl m Hm). lia.
    + rewrite lookup_insert_ne by done. intros Hx'. eapply call_ok_fewer; [done|by apply Hc].
  - intros k' c' Hin%pending_del_elem. destruct (decide (c = c')) as [<-|Hne].
    + rewrite lookup_insert_eq. by eexists.
    + rewrite lookup_insert_ne by done. by eapply Hp.
Qed.

Lemma calls_ok_result cs p c x ch resmsg rest :
  calls_ok cs p → cs !! c = Some x → call_phase x = Waiting ch → resultChannel x = resmsg :: rest →
  calls_ok (<[c := mkCall (call_req x) (Returned (inr resmsg)) rest]> cs) p.
Proof.
  intros Hok Hx Hph Hch. destruct (proj1 Hok c x Hx) as (Hids & _ & Hcount & _).
  rewrite Hch in Hids. apply Forall_cons in Hids as [Hid Hrest].
  apply calls_ok_insert; [done|]. split_and!; simpl; [done|by intros m [= <-]| |done].
  unfold received in *; simpl. rewrite Hph, Hch in Hcount. simpl in Hcount. lia.
Qed.

(** *** Actions that touch neither calls nor entries *)

Definition same_calls (s s' : client) : Prop :=
  calls s' = calls s ∧ pendingRequests s' = pendingRequests s.

Lemma Inv_same s s' : same_calls s s' → Inv s → Inv s'.
Proof. unfold Inv. by intros [-> ->]. Qed.

Lemma Connect_same dial s s' : Connect dial s = inr s' → same_calls s s'.
Proof.
  unfold Connect. destruct (connected s); [by intros [= <-]|].
  destruct dial; [done|]. by intros [= <-].
Qed.

Lemma Reset_same err s s' : Reset err s = Some s' → same_calls s s'.
Proof.
  unfold Reset. destruct (cancelFunc s); cbn [closeChannel set_cancel];
    (destruct (closeChannel s) as [ch|]; [case_match; [|done]|]); by intros [= <-].
Qed.

Lemma Close_same s s' : Close s = Some s' → same_calls s s'.
Proof. unfold Close. destruct (connected s); [apply Reset_same|by intros [= <-]]. Qed.

Lemma Wait_same err s s' : Wait s = Some (err, s') → same_calls s s'.
Proof.
  unfold Wait. destruct (closeChannel s) as [ch|]; [|by intros [= _ <-]].
  destruct (closeChannels s !! ch) as [[|e q]|]; try done. by intros [= _ <-].
Qed.

Lemma handleError_same err s s' : handleError err s = Some s' → same_calls s s'.
Proof.
  unfold handleError. intros (s1 & H1 & H2)%bind_Some. injection H2 as <-.
  by apply Reset_same in H1.
Qed.

Lemma Send_same dial msg s s' : Send dial msg s = Some (inr s') → same_calls s s'.
Proof.
  unfold Send. destruct (Connect dial s) as [err|s1] eqn:Hc; [done|].
  apply Connect_same in Hc as [Hc1 Hc2]. unfold push_message.
  destruct (sendChannel s1) as [q|]; [|done]. cbn. case_match; [|done].
  intros [= <-]. by split; simpl.
Qed.

Lemma sendLoop_same werr s s' : sendLoop_write werr s = Some s' → same_calls s s'.
Proof.
  unfold sendLoop_write. destruct (connected s); [|done].
  destruct (sendChannel s) as [[|msg q]|]; try done.
  destruct werr; [intros H%handleError_same; exact H|by intros [= <-]].
Qed.

(** *** The invariant *)

Lemma ReplaceId_result msg id :
  (∃ m, msg = MResult m) ∨ (∃ m, msg = MError m) →
  ∃ msg', ReplaceId msg id = Ret msg' ∧ MustId msg' = Ret id.
Proof. intros [[m ->]|[m ->]]; eexists; by split. Qed.

Lemma ReplaceId_MustId msg id msg' : ReplaceId msg id = Ret msg' → MustId msg' = Ret id.
Proof.
  destruct msg as [m|m|m|m]; simpl; [|done|by intros [= <-]..].
  destruct (Clone m id) as [m'|] eqn:Hc; [|done]. intros [= <-]. by apply Clone_inv in Hc as [_ ->].
Qed.

Lemma key_res_Ret v k : key_res v = Some (Ret k) → key_of v = Some k.
Proof. unfold key_res. destruct (key_of v); [by intros [= <-]|done]. Qed.

Lemma maybe_Ret {A} (o : option A) a : maybe o = Some (Ret a) → o = Some a.
Proof. destruct o; [by intros [= <-]|done]. Qed.

Lemma comp_bind_Ret {A B} (m : comp panic A) (f : A → comp panic B) b :
  m ≫= f = Some (Ret b) → ∃ a, m = Some (Ret a) ∧ f a = Some (Ret b).
Proof. destruct m as [[a|p]|]; [eauto|done|done]. Qed.

Lemma deliver_Ret c msg s s' :
  deliver_comp c msg s = Some (Ret s') →
  ∃ x, calls s !! c = Some x ∧
    s' = set_call c (mkCall (call_req x) (call_phase x) (resultChannel x ++ [msg])) s.
Proof.
  unfold deliver_comp, deliver. intros H%maybe_Ret. apply bind_Some in H as (x & Hx & H).
  exists x. split; [done|]. case_match; [|done]. by injection H as <-.
Qed.

Lemma handleResult_Inv msg s s' : Inv s → handleResult msg s = Some (Ret s') → Inv s'.
Proof.
  intros HI H. unfold handleResult in H.
  apply comp_bind_Ret in H as (msgId & Hid & H). injection Hid as Hid.
  apply comp_bind_Ret in H as (k & Hk & H). apply key_res_Ret in Hk.
  destruct (pending_get k (pendingRequests s)) as [c|] eqn:Hg.
  2: { injection H as <-. by apply (Inv_same s). }
  cbn [calls set_pending] in H.
  destruct (calls s !! c) as [x|] eqn:Hx; [|done].
  assert (∀ m, own_id x m → deliver_comp c m (set_pending (pending_del k (pendingRequests s)) s)
    = Some (Ret s') → Inv s') as Hdel.
  { intros m Hm Hd. apply deliver_Ret in Hd as (x' & Hx' & ->). cbn [calls set_pending] in Hx'.
    rewrite Hx in Hx'. injection Hx' as <-. by apply calls_ok_deliver. }
  destruct (decide (key_of (req_Id (call_req x)) = Some k)) as [Hkx|Hne].
  - apply (Hdel msg); [|done]. exists msgId. split; [done|]. right. by exists k.
  - apply comp_bind_Ret in H as (resmsg & Hr & H). injection Hr as Hr.
    apply (Hdel resmsg); [|done]. exists (req_Id (call_req x)). split; [|by left].
    by eapply ReplaceId_MustId.
Qed.

Lemma expire_Inv k s s' : Inv s → expire k s = Some (Ret s') → Inv s'.
Proof.
  intros HI H. unfold expire in H.
  destruct (pending_get k (pendingRequests s)) as [c|] eqn:Hg; [|by injection H as <-].
  cbn [calls set_pending] in H. destruct (calls s !! c) as [x|] eqn:Hx; [|done].
  apply comp_bind_Ret in H as (timeout & Ht & H). injection Ht as <-.
  apply deliver_Ret in H as (x' & Hx' & ->). cbn [calls set_pending] in Hx'.
  rewrite Hx in Hx'. injection Hx' as <-. apply calls_ok_deliver; try done.
  exists (req_Id (call_req x)). split; [done|by left].
Qed.

(** A call in a phase, and the call after it. *)
Lemma set_phase_calls c p x s :
  calls s !! c = Some x →
  set_phase c p s = set_call c (mkCall (call_req x) p (resultChannel x)) s.
Proof. intros Hx. unfold set_phase. by rewrite Hx. Qed.

Lemma set_phase_Inv c p x s :
  Inv s → calls s !! c = Some x → (∀ m, p ≠ Loaded m) → (∀ m, p ≠ Returned (inr m)) →
  Inv (set_phase c p s).
Proof. intros HI Hx Hl Hr. rewrite (set_phase_calls _ _ x) by done. by apply calls_ok_phase. Qed.

Lemma request_start_Inv c reqmsg dial uuid s s' :
  Inv s → request_start c reqmsg dial uuid s = Some (Ret s') → Inv s'.
Proof.
  intros HI H. unfold request_start in H. destruct (calls s !! c) as [x|] eqn:Hx; [done|].
  destruct (Connect dial s) as [err|s1] eqn:Hc; [injection H as <-; by apply calls_ok_new|].
  apply Connect_same in Hc. apply (Inv_same _ _ Hc) in HI. destruct Hc as [Hc _].
  apply comp_bind_Ret in H as (k & _ & H). apply comp_bind_Ret in H as (sendmsg & _ & H).
  injection H as <-. apply calls_ok_new; [done|by rewrite Hc|done].
Qed.

Lemma request_store_Inv c s s' : Inv s → request_store c s = Some (Ret s') → Inv s'.
Proof.
  intros HI H. unfold request_store in H. apply comp_bind_Ret in H as (x & Hx & H).
  apply maybe_Ret in Hx. destruct (call_phase x) as [sendmsg| | | |] eqn:Hph; try done.
  apply comp_bind_Ret in H as (k & _ & H). injection H as <-.
  rewrite (set_phase_calls _ _ x) by done. by apply calls_ok_store.
Qed.

Lemma request_send_Inv c dial s s' : Inv s → request_send c dial s = Some (Ret s') → Inv s'.
Proof.
  intros HI H. unfold request_send in H. apply comp_bind_Ret in H as (x & Hx & H).
  apply maybe_Ret in Hx. destruct (call_phase x) as [|sendmsg| | |]; try done.
  apply comp_bind_Ret in H as (r & Hr & H). apply maybe_Ret in Hr. destruct r as [err|s1].
  - injection H as <-. by eapply set_phase_Inv.
  - injection H as <-. apply Send_same in Hr. eapply set_phase_Inv; [by eapply Inv_same| |done..].
    destruct Hr as [-> _]. done.
Qed.

Lemma request_arm_Inv c s s' : Inv s → request_arm c s = Some (Ret s') → Inv s'.
Proof.
  intros HI H. unfold request_arm in H. apply comp_bind_Ret in H as (x & Hx & H).
  apply maybe_Ret in Hx. destruct (call_phase x); try done.
  apply comp_bind_Ret in H as (k & _ & H). injection H as <-.
  eapply set_phase_Inv; [by apply (Inv_same s)|done..].
Qed.

Lemma request_result_Inv c s s' : Inv s → request_result c s = Some (Ret s') → Inv s'.
Proof.
  intros HI H. unfold request_result in H. apply comp_bind_Ret in H as (x & Hx & H).
  apply maybe_Ret in Hx. destruct (call_phase x) eqn:Hph; try done.
  destruct (resultChannel x) eqn:Hch; [done|]. injection H as <-. by eapply calls_ok_result.
Qed.

Lemma request_closed_Inv c s s' : Inv s → request_closed c s = Some (Ret s') → Inv s'.
Proof.
  intros HI H. unfold request_closed in H. apply comp_bind_Ret in H as (x & Hx & H).
  apply maybe_Ret in Hx. destruct (call_phase x) as [| | |[ch|]|]; try done.
  destruct (closeChannels s !! ch) as [[|e q]|]; try done. injection H as <-.
  eapply set_phase_Inv; [by apply (Inv_same s)|done..].
Qed.

Lemma step_Inv l s s' : Inv s → step l s = Some (Ret s') → Inv s'.
Proof.
  intros HI. destruct l; cbn [step].
  - intros [= <-]. destruct (Connect dial s) eqn:Hc; [done|].
    eapply Inv_same; [by eapply Connect_same|done].
  - by apply request_start_Inv.
  - by apply request_store_Inv.
  - by apply request_send_Inv.
  - by apply request_arm_Inv.
  - by apply request_result_Inv.
  - by apply request_closed_Inv.
  - intros H. apply comp_bind_Ret in H as (r & Hr & H). apply maybe_Ret in Hr. injection H as <-.
    destruct r; [done|]. eapply Inv_same; [by eapply Send_same|done].
  - destruct (register_hooks h s) as [hs ->]. intros [= <-]. by apply (Inv_same s).
  - intros H%maybe_Ret. apply fmap_Some in H as ([err s1] & Hw & ->).
    eapply Inv_same; [by eapply Wait_same|done].
  - intros H%maybe_Ret. eapply Inv_same; [by eapply Close_same|done].
  - intros H%maybe_Ret. eapply Inv_same; [by eapply sendLoop_same|done].
  - destruct (cancelled s) as [|n]; [done|]. intros H%maybe_Ret.
    eapply Inv_same; [by eapply Close_same|done].
  - destruct (connected s); [|done]. intros H%maybe_Ret. eapply Inv_same; [by eapply Close_same|done].
  - destruct (connected s); [|done]. unfold receive. destruct (negb (IsResultOrError msg)).
    + intros [= <-]. done.
    + by apply handleResult_Inv.
  - destruct (connected s); [|done]. intros H%maybe_Ret.
    eapply Inv_same; [by eapply handleError_same|done].
  - intros H. apply comp_bind_Ret in H as ([k d] & _ & H). cbn [fst snd] in H.
    destruct (d <=? now s); [|done]. by eapply expire_Inv; [|exact H].
  - by intros [= <-].
Qed.

Lemma reachable_Inv s : reachable s → Inv s.
Proof.
  induction 1 as [b|l s s' _ IH Hs]; [|by eapply step_Inv].
  split; [intros c x Hx|intros k c Hin]; simpl in *;
    [by rewrite lookup_empty in Hx|by apply elem_of_nil in Hin].
Qed.

(** C15. Answers reach their callers.  In every execution, however the actions of
    callers, loops and timers interleave: a call gets at most one message, and
    a message that a call gets or returns carries the id of the request the
    caller made, also when the request went out under another id; and an entry
    of the pending map belongs to a call that has not got its message. *)
Theorem calls_get_own_answers s c x :
  reachable s → calls s !! c = Some x →
  (∀ m, m ∈ resultChannel x → own_id x m) ∧
  (∀ m, call_phase x = Returned (inr m) → own_id x m ∧ resultChannel x = []) ∧
  (length (resultChannel x) ≤ 1)%nat ∧
  (∀ k, (k, c) ∈ pendingRequests s → resultChannel x = [] ∧ ∀ m, call_phase x ≠ Returned (inr m)).
Proof.
  intros HI%reachable_Inv Hx. destruct (proj1 HI c x Hx) as (Hids & Hret & Hcount & _).
  unfold received in Hcount. split_and!.
  - by apply Forall_forall.
  - intros m Hm. split; [by apply Hret|]. rewrite Hm in Hcount.
    apply length_zero_iff_nil. lia.
  - lia.
  - intros k Hin.
    assert (entries_of c (pendingRequests s) ≠ 0%nat) as He.
    { rewrite entries_of_0. intros H. by apply (H k). }
    split; [apply length_zero_iff_nil; lia|]. intros m Hm. rewrite Hm in Hcount. lia.
Qed.

(** ** Example executions *)

Definition ask (id : Z) : RequestMessage := mkRequest (mkBase MKRequest "") (AInt id) "echo" [] true.
Definition answer (id : Z) : Message := MResult (mkResult (mkBase MKResult "") (AInt id) (AString "r") None).

(** Call [c] asks with [id] and waits. *)
Definition asks (c : nat) (id : Z) : list label :=
  [LRequest c (ask id) None "u"; LStore c; LSend c None; LArm c; LWrite None].

Definition end_of (ls : list label) : client :=
  match run ls InitStreaming with Some (Ret s) => s | _ => InitStreaming end.

Lemma end_of_reachable ls : reachable (end_of ls).
Proof.
  unfold end_of. destruct (run ls InitStreaming) as [[s|p]|] eqn:Hr; [|apply reach_init..].
  eapply run_reachable; [apply reach_init|exact Hr].
Qed.

Definition phase_of (c : nat) (s : client) : option phase := call_phase <$> calls s !! c.

Lemma calls_get_own_answers_witness :
  ∃ x, calls (end_of (asks 0 1 ++ [LRead (answer 1); LResult 0])) !! 0%nat = Some x ∧ resultChannel x = [].
Proof.
  exists (mkCall (ask 1) (Returned (inr (answer 1))) []). split; [by vm_compute|].
  destruct (calls_get_own_answers (end_of (asks 0 1 ++ [LRead (answer 1); LResult 0])) 0%nat
    (mkCall (ask 1) (Returned (inr (answer 1))) []) (end_of_reachable _) ltac:(by vm_compute))
    as (_ & H & _).
  exact (proj2 (H (answer 1) eq_refl)).
Defined.

(** *** An answer that is read is delivered *)

Definition same_payload (m m' : Message) : Prop :=
  match m, m' with
  | MResult r, MResult r' => res_Result r' = res_Result r
  | MError e, MError e' => err_Error e' = err_Error e
  | _, _ => False
  end.

Lemma handleResult_delivers s msg id k c x :
  message_ok msg → IsResultOrError msg = true →
  MustId msg = Ret id → key_of id = Some k → pending_get k (pendingRequests s) = Some c →
  calls s !! c = Some x →
  ∃ m, own_id x m ∧ same_payload msg m ∧
    handleResult msg s = deliver_comp c m (set_pending (pending_del k (pendingRequests s)) s).
Proof.
  intros Hok Hkind Hid Hk Hg Hx.
  assert (same_payload msg msg ∧ ∃ msg', ReplaceId msg (req_Id (call_req x)) = Ret msg' ∧
    same_payload msg msg') as (Hp & msg' & Hr & Hp').
  { destruct msg as [m|m|m|m]; unfold message_ok in Hok;
      unfold IsResultOrError, IsResult, IsError, base_of in Hkind.
    - destruct Hok as [Hok _]. by rewrite Hok in Hkind.
    - destruct Hok as [Hok _]. by rewrite Hok in Hkind.
    - split; [done|]. by eexists.
    - split; [done|]. by eexists. }
  unfold handleResult, key_res. rewrite Hid. cbn [mbind comp_mbind]. rewrite Hk.
  cbn [mbind comp_mbind mret comp_mret]. rewrite Hg. cbn [calls set_pending]. rewrite Hx.
  destruct (decide (key_of (req_Id (call_req x)) = Some k)) as [Hkx|Hne].
  - exists msg. split_and!; [|done|done]. exists id. split; [done|]. right. by exists k.
  - exists msg'. rewrite Hr. split_and!; [|done|done].
    exists (req_Id (call_req x)). split; [by eapply ReplaceId_MustId|by left].
Qed.

(** C16. Delivery.  When the receive loop reads a result or error whose id is
    pending, it hands it to the pending call, under the id the caller used and
    with the same payload, and removes the entry; the receive loop does not
    panic or block. *)
Theorem answer_delivered s msg id k c :
  reachable s → connected s = true → message_ok msg → IsResultOrError msg = true →
  MustId msg = Ret id → key_of id = Some k → pending_get k (pendingRequests s) = Some c →
  ∃ x m s', calls s !! c = Some x ∧ step (LRead msg) s = Some (Ret s') ∧
    calls s' !! c = Some (mkCall (call_req x) (call_phase x) [m]) ∧
    own_id x m ∧ same_payload msg m ∧ pending_get k (pendingRequests s') = None.
Proof.
  intros HI%reachable_Inv Hconn Hok Hkind Hid Hk Hg.
  destruct (proj2 HI k c) as [x Hx]; [by apply pending_get_elem|].
  destruct (proj1 HI c x Hx) as (_ & _ & Hcount & _).
  pose proof (entries_of_taken c k _ Hg) as Htaken.
  assert (resultChannel x = []) as Hch by (apply length_zero_iff_nil; unfold received in Hcount; lia).
  destruct (handleResult_delivers s msg id k c x) as (m & Hm & Hp & Heq); [done..|].
  exists x, m. eexists. split; [done|]. split.
  { cbn [step]. rewrite Hconn. unfold receive. rewrite Hkind. cbn [negb]. rewrite Heq.
    unfold deliver_comp, maybe, deliver. cbn [calls set_pending]. rewrite Hx.
    cbn [mbind option_bind]. rewrite Hch. done. }
  split_and!; [apply (lookup_insert_eq (M:=gmap nat))|done|done|].
  apply pending_get_del.
Qed.

Lemma answer_delivered_witness :
  ∃ x m s', calls (end_of (asks 0 1)) !! 0%nat = Some x ∧
    step (LRead (answer 1)) (end_of (asks 0 1)) = Some (Ret s') ∧ own_id x m.
Proof.
  destruct (answer_delivered (end_of (asks 0 1)) (answer 1) (AInt 1) (KInt 1) 0%nat
    (end_of_reachable _) ltac:(by vm_compute) ltac:(by vm_compute) eq_refl eq_refl eq_refl
    ltac:(by vm_compute)) as (x & m & s' & H1 & H2 & _ & H3 & _).
  by exists x, m, s'.
Defined.

(** *** A call without an entry waits for the connection to close *)

Definition lost_in (cs : gmap nat call) (p : list (key * nat)) (c : nat) : Prop :=
  entries_of c p = 0%nat ∧
  ∃ x, cs !! c = Some x ∧ resultChannel x = [] ∧
    ((∃ ch, call_phase x = Waiting ch) ∨ call_phase x = Returned (inl TransportClosed)).

Definition lost (c : nat) (s : client) : Prop := lost_in (calls s) (pendingRequests s) c.

Lemma lost_same c s s' : same_calls s s' → lost c s → lost c s'.
Proof. unfold lost. by intros [-> ->]. Qed.

Lemma lost_insert c c' x cs p : c' ≠ c → lost_in cs p c → lost_in (<[c' := x]> cs) p c.
Proof. intros Hne (He & y & Hy & H). split; [done|]. exists y. by rewrite lookup_insert_ne. Qed.

Lemma lost_fewer c cs p p' : (entries_of c p' ≤ entries_of c p)%nat → lost_in cs p c → lost_in cs p' c.
Proof. intros Hle [He H]. split; [lia|done]. Qed.

Lemma lost_phase c c' ph s x :
  c' ≠ c → calls s !! c' = Some x → lost c s → lost c (set_phase c' ph s).
Proof. intros Hne Hx Hl. rewrite (set_phase_calls _ _ x) by done. by apply lost_insert. Qed.

(** A call in another phase is another call. *)
Lemma lost_ne c c' s x :
  lost c s → calls s !! c' = Some x →
  ¬ (∃ ch, call_phase x = Waiting ch) → call_phase x ≠ Returned (inl TransportClosed) → c' ≠ c.
Proof. intros (_ & y & Hy & _ & Hph) Hx Hw Hr ->. rewrite Hx in Hy. injection Hy as <-. tauto. Qed.

Lemma lost_taken c c' k m s s' :
  lost c s → pending_get k (pendingRequests s) = Some c' →
  deliver_comp c' m (set_pending (pending_del k (pendingRequests s)) s) = Some (Ret s') → lost c s'.
Proof.
  intros Hl Hg Hd. apply deliver_Ret in Hd as (x & Hx & ->). apply lost_insert.
  - intros ->. destruct Hl as [He _]. rewrite entries_of_0 in He.
    by apply (He k), pending_get_elem.
  - eapply lost_fewer; [apply entries_of_del|exact Hl].
Qed.

Lemma handleResult_lost c msg s s' : lost c s → handleResult msg s = Some (Ret s') → lost c s'.
Proof.
  intros Hl H. unfold handleResult in H.
  apply comp_bind_Ret in H as (msgId & _ & H). apply comp_bind_Ret in H as (k & _ & H).
  destruct (pending_get k (pendingRequests s)) as [c'|] eqn:Hg; [|by injection H as <-].
  destruct (calls _ !! c') as [x|] eqn:Hx; [|done].
  destruct (decide _); [by eapply lost_taken|].
  apply comp_bind_Ret in H as (resmsg & _ & H). by eapply lost_taken.
Qed.

Lemma expire_lost c k s s' : lost c s → expire k s = Some (Ret s') → lost c s'.
Proof.
  intros Hl H. unfold expire in H.
  destruct (pending_get k (pendingRequests s)) as [c'|] eqn:Hg; [|by injection H as <-].
  destruct (calls _ !! c') as [x|] eqn:Hx; [|done].
  apply comp_bind_Ret in H as (timeout & _ & H). by eapply lost_taken.
Qed.

Lemma call_step_lost l c s s' :
  lost c s → step l s = Some (Ret s') →
  match l with
  | LRequest _ _ _ _ | LStore _ | LSend _ _ | LArm _ | LResult _ | LClosed _ => lost c s'
  | _ => True
  end.
Proof.
  intros Hl. destruct l as [|c' reqmsg dial uuid|c'|c' dial|c'|c'|c'| | | | | | | | | | |];
    try done; cbn [step]; intros H.
  - unfold request_start in H. destruct (calls s !! c') eqn:Hx; [done|].
    assert (c' ≠ c) as Hne by (intros ->; destruct Hl as (_ & y & Hy & _); congruence).
    destruct (Connect dial s) as [err|s1] eqn:Hc; [injection H as <-; by apply lost_insert|].
    apply Connect_same in Hc. apply comp_bind_Ret in H as (k & _ & H).
    apply comp_bind_Ret in H as (sendmsg & _ & H). injection H as <-.
    apply lost_insert; [done|]. by apply (lost_same c s s1).
  - unfold request_store in H. apply comp_bind_Ret in H as (x & Hx & H). apply maybe_Ret in Hx.
    destruct (call_phase x) as [sendmsg| | | |] eqn:Hph; try done.
    apply comp_bind_Ret in H as (k & _ & H). injection H as <-.
    assert (c' ≠ c) as Hne by (eapply lost_ne; [done|done|rewrite Hph; by intros []|by rewrite Hph]).
    eapply lost_phase; [done|done|]. eapply lost_fewer; [|exact Hl].
    pose proof (entries_of_set c c' k (pendingRequests s)) as Hset. rewrite decide_False in Hset by done.
    cbn [pendingRequests set_pending]. lia.
  - unfold request_send in H. apply comp_bind_Ret in H as (x & Hx & H). apply maybe_Ret in Hx.
    destruct (call_phase x) as [|sendmsg| | |] eqn:Hph; try done.
    assert (c' ≠ c) as Hne by (eapply lost_ne; [done|done|rewrite Hph; by intros []|by rewrite Hph]).
    apply comp_bind_Ret in H as (r & Hr & H). apply maybe_Ret in Hr. destruct r as [err|s1].
    + injection H as <-. by eapply lost_phase.
    + injection H as <-. apply Send_same in Hr. eapply lost_phase; [done| |by eapply lost_same].
      destruct Hr as [-> _]. done.
  - unfold request_arm in H. apply comp_bind_Ret in H as (x & Hx & H). apply maybe_Ret in Hx.
    destruct (call_phase x) eqn:Hph; try done.
    assert (c' ≠ c) as Hne by (eapply lost_ne; [done|done|rewrite Hph; by intros []|by rewrite Hph]).
    apply comp_bind_Ret in H as (k & _ & H). injection H as <-. by eapply lost_phase.
  - unfold request_result in H. apply comp_bind_Ret in H as (x & Hx & H). apply maybe_Ret in Hx.
    destruct (call_phase x) eqn:Hph; try done. destruct (resultChannel x) eqn:Hch; [done|].
    injection H as <-. apply lost_insert; [|done].
    intros ->. destruct Hl as (_ & y & Hy & Hch' & _). congruence.
  - unfold request_closed in H. apply comp_bind_Ret in H as (x & Hx & H). apply maybe_Ret in Hx.
    destruct (call_phase x) as [| | |[ch|]|] eqn:Hph; try done.
    destruct (closeChannels s !! ch) as [[|e q]|]; try done. injection H as <-.
    rewrite (set_phase_calls _ _ x) by done. destruct (decide (c' = c)) as [->|Hne]; [|by apply lost_insert].
    destruct Hl as (He & y & Hy & Hch & _). rewrite Hx in Hy. injection Hy as <-.
    split; [done|]. eexists. split; [apply (lookup_insert_eq (M:=gmap nat))|]. split; [done|by right].
Qed.

Lemma step_lost l c s s' : lost c s → step l s = Some (Ret s') → lost c s'.
Proof.
  intros Hl Hs. pose proof (call_step_lost l c s s' Hl Hs) as Hcall.
  destruct l; try exact Hcall; clear Hcall; cbn [step] in Hs.
  - injection Hs as <-. destruct (Connect dial s) eqn:Hc; [done|].
    eapply lost_same; [by eapply Connect_same|done].
  - apply comp_bind_Ret in Hs as (r & Hr & Hs). apply maybe_Ret in Hr. injection Hs as <-.
    destruct r; [done|]. eapply lost_same; [by eapply Send_same|done].
  - destruct (register_hooks h s) as [hs Hh]. rewrite Hh in Hs. injection Hs as <-. by apply (lost_same c s).
  - apply maybe_Ret, fmap_Some in Hs as ([err s1] & Hw & ->).
    eapply lost_same; [by eapply Wait_same|done].
  - apply maybe_Ret in Hs. eapply lost_same; [by eapply Close_same|done].
  - apply maybe_Ret in Hs. eapply lost_same; [by eapply sendLoop_same|done].
  - destruct (cancelled s) as [|n]; [done|]. apply maybe_Ret in Hs.
    eapply lost_same; [by eapply Close_same|done].
  - destruct (connected s); [|done]. apply maybe_Ret in Hs. eapply lost_same; [by eapply Close_same|done].
  - destruct (connected s); [|done]. unfold receive in Hs. destruct (negb (IsResultOrError msg)).
    + by injection Hs as <-.
    + by eapply handleResult_lost.
  - destruct (connected s); [|done]. apply maybe_Ret in Hs.
    eapply lost_same; [by eapply handleError_same|done].
  - apply comp_bind_Ret in Hs as ([k d] & _ & Hs). cbn [fst snd] in Hs.
    destruct (d <=? now s); [|done]. by eapply expire_lost; [|exact Hs].
  - by injection Hs as <-.
Qed.

Lemma run_lost ls c s s' : lost c s → run ls s = Some (Ret s') → lost c s'.
Proof.
  revert s. induction ls as [|l ls IH]; intros s Hl; cbn [run]; [by intros [= <-]|].
  intros H. apply comp_bind_Ret in H as (s1 & Hs1 & H). eapply IH; [by eapply step_lost|done].
Qed.

(** ** Hazards of the interleavings

    Each of these is an execution of the client. *)

(** Two calls with one id, both looked up before either is stored. *)
Definition raced : list label :=
  [LRequest 0 (ask 1) None "u"; LRequest 1 (ask 1) None "v"; LStore 0; LStore 1;
   LSend 0 None; LSend 1 None; LArm 0; LArm 1; LWrite None; LWrite None].

(** C35. The check for a duplicate id is not atomic.  If two calls with the same id
    look it up before either stores its entry, the second entry overwrites the
    first, and both requests go out under that id.  The first call is then
    lost: whatever happens afterwards, answers and time-outs included, it
    either waits or returns because the connection is closed. *)
Theorem duplicate_ids_race :
  ∃ s, run raced InitStreaming = Some (Ret s) ∧
    written s = [MRequest (ask 1); MRequest (ask 1)] ∧
    ∀ ls s', run ls s = Some (Ret s') →
      ∃ x, calls s' !! 0%nat = Some x ∧ resultChannel x = [] ∧
        ((∃ ch, call_phase x = Waiting ch) ∨ call_phase x = Returned (inl TransportClosed)).
Proof.
  exists (end_of raced). split; [by vm_compute|]. split; [by vm_compute|]. intros ls s' Hrun.
  apply (run_lost ls 0%nat (end_of raced)); [|done]. split; [by vm_compute|].
  exists (mkCall (ask 1) (Waiting (Some 0%nat)) []). split; [by vm_compute|]. split; [done|].
  left. by eexists.
Qed.

(** A call that is answered, and nine seconds later another with its id. *)
Definition answered_then_nine_seconds : list label :=
  asks 0 1 ++ [LRead (answer 1); LResult 0] ++ replicate 9 LTick.

(** Timers outlive their requests.  The timer of a request is not stopped when
    its answer comes, and it expires whatever is pending under its id ten
    seconds after it was set: a second call with the same id, started nine
    seconds after the first, is told after one second that it timed out. *)
Theorem stale_timer :
  let s1 := end_of answered_then_nine_seconds in
  run answered_then_nine_seconds InitStreaming = Some (Ret s1) ∧
  now s1 = 9 ∧ phase_of 0 s1 = Some (Returned (inr (answer 1))) ∧ calls s1 !! 1%nat = None ∧
  ∃ s2, run (asks 1 1 ++ [LTick; LExpire 0; LResult 1]) s1 = Some (Ret s2) ∧ now s2 = 10 ∧
    phase_of 1 s2 = Some (Returned (inr
      (MError (mkError (mkBase MKError "") (AInt 1) (Some ErrTimeout) None)))).
Proof.
  split_and!; [by vm_compute..|]. eexists. split; [by vm_compute|]. by vm_compute.
Qed.

(** One waiter hears of the end.  When a connection with two waiting calls
    fails, the error is put into the close channel once and one call takes it;
    the other has nothing to receive from either channel, no message can be
    read from the closed connection, and it waits for its timer. *)
Theorem one_waiter_wakes :
  ∃ s, run (asks 0 1 ++ asks 1 2 ++ [LReadError ErrorEOF; LClosed 0]) InitStreaming
      = Some (Ret s) ∧
    connected s = false ∧
    phase_of 0 s = Some (Returned (inl TransportClosed)) ∧
    phase_of 1 s = Some (Waiting (Some 0%nat)) ∧
    step (LClosed 1) s = None ∧ step (LResult 1) s = None ∧
    ∀ msg, step (LRead msg) s = None.
Proof. eexists. split; [by vm_compute|]. split_and!; by vm_compute. Qed.

(** A closed connection can take its successor with it.  The send loop of a
    closed connection learns of it by its context and then closes the client;
    if the client has connected again in the meantime, the new connection is
    closed, with the calls that wait on it. *)
Theorem cancelled_loop_closes_successor :
  ∃ s s', run ([LConnect None; LClose] ++ asks 0 1) InitStreaming = Some (Ret s) ∧
    connected s = true ∧ phase_of 0 s = Some (Waiting (Some 1%nat)) ∧
    step LCancelled s = Some (Ret s') ∧ connected s' = false ∧
    ∃ s'', step (LClosed 0) s' = Some (Ret s'') ∧
      phase_of 0 s'' = Some (Returned (inl TransportClosed)).
Proof.
  eexists _, _. split; [by vm_compute|]. split; [by vm_compute|]. split; [by vm_compute|].
  split; [by vm_compute|]. split; [by vm_compute|]. eexists. split; by vm_compute.
Qed.
