(* ===== verification/Http.v ===== *)
(** * HTTP: the parts of net/http that the library relies on

    Headers are Go maps from names to lists of values; [Get], [Set] and [Add]
    bring names into canonical form first.  A ResponseWriter is the header
    under construction, what [WriteHeader] has sent (status and a copy of the
    header), and the body, a text.  A request is read by a handler, a response
    by a client. *)

From Stdlib Require Import Ascii.
From S2P Require Import Prelude GoMap Strconv Values Parse.
From stdpp Require Import options.
#[local] Open Scope Z_scope.

(** ** Header names *)

(** The bytes of an RFC 7230 token. *)
Definition is_token (c : ascii) : bool :=
  is_digit c || is_upper c || is_lower c ||
  bool_decide (code c ∈ [33; 35; 36; 37; 38; 39; 42; 43; 45; 46; 94; 95; 96; 124; 126]%N).

Definition to_upper (c : ascii) : ascii :=
  if is_lower c then ascii_of_N (code c - 32) else c.

Definition is_dash (c : ascii) : bool := bool_decide (code c = 45%N).

(** Upper case at the start and after each dash, lower case elsewhere. *)
Fixpoint canonical_from (upper : bool) (s : string) : string :=
  match s with
  | EmptyString => EmptyString
  | String c s => String (if upper then to_upper c else to_lower c) (canonical_from (is_dash c) s)
  end.

(** [textproto.CanonicalMIMEHeaderKey] *)
Definition CanonicalHeaderKey (s : string) : string :=
  if string_forallb is_token s then canonical_from true s else s.

(** ** Headers *)

Definition header_Values (key : string) (h : http_header) : list string :=
  default [] (map_get (CanonicalHeaderKey key) h).

Definition header_Get (key : string) (h : http_header) : string :=
  default "" (head (header_Values key h)).

Definition header_Set (key value : string) (h : http_header) : http_header :=
  map_set (CanonicalHeaderKey key) [value] h.

Definition header_Add (key value : string) (h : http_header) : http_header :=
  map_set (CanonicalHeaderKey key) (header_Values key h ++ [value]) h.

(** The loops [for k, vs := range from { for _, v := range vs { h.Add(k, v) } }]. *)
Definition header_AddAll (key : string) (values : list string) (h : http_header) : http_header :=
  fold_left (λ h value, header_Add key value h) values h.

Definition header_AddMap (from : http_header) (h : http_header) : http_header :=
  fold_left (λ h kvs, header_AddAll kvs.1 kvs.2 h) from h.

(** [strings.HasPrefix(strings.ToUpper(header), "X-")] *)
Definition is_x_header (header : string) : bool :=
  match header with
  | String c1 (String c2 _) => bool_decide (code (to_upper c1) = 88%N) && is_dash c2
  | _ => false
  end.

(** A header as net/http builds it: canonical names, each once, with values. *)
Definition header_ok (h : http_header) : Prop :=
  map_ok h ∧ Forall (λ kvs, CanonicalHeaderKey kvs.1 = kvs.1 ∧ kvs.2 ≠ []) h.

(** ** Bodies, requests and responses *)

Record http_Request (Auth : Type) := mkHttpRequest {
  hr_Method : string;
  hr_ProtoMajor : Z;
  hr_ProtoMinor : Z;
  hr_Header : http_header;
  hr_Body : error + string;    (** what reading it gives *)
  hr_Auth : option Auth }.         (** the value of the context key authInfoKey *)
Arguments mkHttpRequest {_} _ _ _ _ _ _.
Arguments hr_Method {_} _.
Arguments hr_ProtoMajor {_} _.
Arguments hr_ProtoMinor {_} _.
Arguments hr_Header {_} _.
Arguments hr_Body {_} _.
Arguments hr_Auth {_} _.

(** [r.ProtoAtLeast(major, minor)] *)
Definition ProtoAtLeast {Auth} (r : http_Request Auth) (major minor : Z) : bool :=
  (major <? hr_ProtoMajor r) || ((hr_ProtoMajor r =? major) && (minor <=? hr_ProtoMinor r)).

Record http_Response := mkHttpResponse {
  hs_StatusCode : Z;
  hs_Header : http_header;
  hs_Body : error + string }.

(** ** ResponseWriter *)

Record ResponseWriter := mkResponseWriter {
  rw_Header : http_header;
  rw_sent : option (Z * http_header);
  rw_body : string }.

Definition NewResponseWriter : ResponseWriter := mkResponseWriter [] None "".

Definition rw_set_header (h : http_header) (w : ResponseWriter) : ResponseWriter :=
  mkResponseWriter h (rw_sent w) (rw_body w).

(** [WriteHeader]: a status out of range panics; an informational status does
    not count as the response; a second call is ignored. *)
Definition WriteHeader (status : Z) (w : ResponseWriter) : result ResponseWriter :=
  match rw_sent w with
  | Some _ => Ret w
  | None =>
      if (status <? 100) || (999 <? status) then Panic (PanicValue "invalid WriteHeader code")
      else if (status <=? 199) && negb (status =? 101) then Ret w
      else Ret (mkResponseWriter (rw_Header w) (Some (status, rw_Header w)) (rw_body w))
  end.

Definition body_allowed (status : Z) : bool :=
  negb ((status =? 101) || (status =? 204) || (status =? 304)).

(** [Write] sends status 200 first if none was sent. *)
Definition rw_Write (data : string) (w : ResponseWriter) : ResponseWriter :=
  let '(status, h) := default (200, rw_Header w) (rw_sent w) in
  mkResponseWriter (rw_Header w) (Some (status, h))
    (if body_allowed status then rw_body w +:+ data else rw_body w).

(** The response the client of the connection gets; [extra] are the headers
    that net/http adds by itself. *)
Definition rw_finish (extra : http_header) (w : ResponseWriter) : http_Response :=
  let '(status, h) := default (200, rw_Header w) (rw_sent w) in
  mkHttpResponse status (h ++ extra) (inr (rw_body w)).

(** [jsoff.ErrorResponse], the log entry apart. *)
Definition ErrorResponse (status : Z) (message : string) (w : ResponseWriter) : result ResponseWriter :=
  w ← WriteHeader status w; Ret (rw_Write message w).

(** ** Lemmas *)

Lemma header_Values_Set key value h : header_Values key (header_Set key value h) = [value].
Proof. unfold header_Values, header_Set. by rewrite map_get_set_eq. Qed.

Lemma map_last_update {V} key (v v' : V) (h : gomap V) :
  map_get key h = None →
  map_get key (h ++ [(key, v)]) = Some v ∧ map_set key v' (h ++ [(key, v)]) = h ++ [(key, v')].
Proof.
  induction h as [|[k w] h IH]; simpl; intros Hh; [by rewrite !decide_True|].
  destruct (decide (key = k)); [done|]. destruct (IH Hh) as [H1 H2]. by rewrite H2.
Qed.

Lemma header_AddAll_fresh key values (h : http_header) v :
  CanonicalHeaderKey key = key → map_get key h = None →
  header_AddAll key (v :: values) h = h ++ [(key, v :: values)].
Proof.
  intros Hk Hh. unfold header_AddAll. cbn [fold_left].
  assert (header_Add key v h = h ++ [(key, [v])]) as ->.
  { unfold header_Add, header_Values. rewrite Hk, Hh. by apply map_set_fresh. }
  change (v :: values) with ([v] ++ values). generalize [v] as vs0.
  induction values as [|v' values IH]; intros vs0; cbn [fold_left]; [by rewrite app_nil_r|].
  destruct (map_last_update key vs0 (vs0 ++ [v']) h Hh) as [H1 H2].
  assert (header_Add key v' (h ++ [(key, vs0)]) = h ++ [(key, vs0 ++ [v'])]) as ->.
  { unfold header_Add, header_Values. rewrite Hk, H1. exact H2. }
  by rewrite IH, <- app_assoc.
Qed.

(** Adding a well-formed header to one with other names appends it. *)
Lemma header_AddMap_fresh (from h : http_header) :
  header_ok from → (∀ k, k ∈ map_keys from → map_get k h = None) →
  header_AddMap from h = h ++ from.
Proof.
  intros [Hok Hall]. revert h. unfold header_AddMap.
  induction from as [|[k vs] from IH]; intros h Hh; cbn [fold_left]; [by rewrite app_nil_r|].
  apply Forall_cons in Hall as [[Hk Hvs] Hall]. apply NoDup_cons in Hok as [Hnin Hok]. simpl in *.
  destruct vs as [|v vs]; [done|].
  rewrite header_AddAll_fresh by (done || apply Hh; by left).
  rewrite IH; [by rewrite <- app_assoc|done|done|].
  intros k' Hk'. apply map_get_None. unfold map_keys. rewrite fmap_app, elem_of_app.
  intros [Hin|Hin%list_elem_of_singleton].
  - eapply map_get_None; [|exact Hin]. apply Hh. by right.
  - simpl in Hin. by subst k'.
Qed.

Lemma header_ok_filter (P : string * list string → Prop) `{!∀ x, Decision (P x)} (h : http_header) :
  header_ok h → header_ok (filter P h).
Proof.
  intros [Hok Hall]. split.
  - unfold map_ok, map_keys in *. eapply sublist_NoDup; [exact Hok|].
    apply fmap_sublist, sublist_filter.
  - apply Forall_forall. intros kvs [_ Hin]%list_elem_of_filter. by eapply Forall_forall in Hall.
Qed.
