(* ===== verification/Http1.v ===== *)
(** * JSON-RPC over HTTP/1: net/http1_server.go, net/http1_client.go and the
      dispatch of net/gateway_handler.go

    The server answers one POST request with one message: it parses the
    body, feeds the message to its actor and writes the answer.  The client
    posts a message and parses the body of the response.  The connection
    between them is a function [Do] from requests to responses.  A panic of
    [ServeHTTP] makes net/http drop the connection. *)

From S2P Require Import Prelude GoMap Strconv Values Messages Parse JsonText WireText.
From S2P Require Import Methods Schema Validator Actor Http.
From stdpp Require Import gmap.
From stdpp Require Import options.
#[local] Open Scope Z_scope.

(** [errors.As(err, &simpleResp)] *)
Fixpoint as_SimpleResponse (err : error) : option (Z * string) :=
  match err with
  | ErrorSimple status body => Some (status, body)
  | ErrorWithMessage _ cause => as_SimpleResponse cause
  | _ => None
  end.

(** The loop that adds the entries of a header named X-... *)
Definition add_x_headers (from h : http_header) : http_header :=
  fold_left (λ h kvs, if is_x_header kvs.1 then header_AddAll kvs.1 kvs.2 h else h) from h.

(** [responseMsg.ResponseHeader()] of a message that has one. *)
Definition ResponseHeader (msg : Message) : http_header :=
  match msg with
  | MResult m => (res_ResponseHeader m).1
  | MError m => (err_ResponseHeader m).1
  | MRequest _ | MNotify _ => []
  end.

(** ** The server *)

Section server.
Context {W Auth Sess S : Type}.
Context (h : @Heap W (option Auth) (http_Request Auth) Sess S).
Context `{SchemaOps S, MapDecoder}.

Definition Http1_WriteMessage (w : ResponseWriter) (msg : Message) (status : Z)
    : result ResponseWriter :=
  let w := rw_set_header (header_Set "Content-Type" "application/json" (rw_Header w)) w in
  w ← WriteHeader status w;
  j ← MustMessageBytes msg;
  Ret (rw_Write (json_text j) w).

(** The response for an error of [Feed]. *)
Definition write_feed_error (err : error) (w : ResponseWriter) : result ResponseWriter :=
  match as_SimpleResponse err with
  | Some (status, body) => w ← WriteHeader status w; Ret (rw_Write body w)
  | None =>
      match as_WrappedResponse err with
      | Some (resp, body) =>
          let w := rw_set_header (header_AddMap (RespHeader resp) (rw_Header w)) w in
          w ← WriteHeader (StatusCode resp) w; Ret (rw_Write body w)
      | None => w ← WriteHeader 500 w; Ret (rw_Write "internal server error" w)
      end
  end.

(** The bytes of the answer: of [resmsg], or of an internal error if it has no
    JSON form. *)
Definition reply_data (msg resmsg : Message) : result string :=
  match MessageBytes resmsg with
  | Some j => Ret (json_text j)
  | None =>
      id ← MustId msg;
      Ret match MessageBytes (MError (ToMessageFromId ErrInternalError id (TraceId msg))) with
          | Some j => json_text j
          | None => ""
          end
  end.

Definition write_reply (msg resmsg : Message) (w : ResponseWriter) : result ResponseWriter :=
  let traceId := TraceId resmsg in
  let resmsg := SetTraceId "" resmsg in
  data ← reply_data msg resmsg;
  let w := rw_set_header (header_Set "Content-Type" "application/json" (rw_Header w)) w in
  let w := if HasResponseHeader resmsg
           then rw_set_header (add_x_headers (ResponseHeader resmsg) (rw_Header w)) w else w in
  w ← WriteHeader 200 w;
  let w := if bool_decide (traceId ≠ "")
           then rw_set_header (header_Set "X-Trace-Id" traceId (rw_Header w)) w else w in
  Ret (rw_Write data w).

(** The request that the server feeds to its actor. *)
Definition http_rpc_request (r : http_Request Auth) (msg : Message)
    : RPCRequest (option Auth) (http_Request Auth) Sess :=
  WithHTTPRequest r (NewRPCRequest (hr_Auth r) msg "http").

Definition is_discover (msg : Message) : bool :=
  match msg with MRequest m => bool_decide (req_Method m = "rpc.discover") | _ => false end.

(** [rpc.discover] is answered by the server itself. *)
Definition discover (fuel l : nat) (msg : Message) (w : ResponseWriter) : act W panic ResponseWriter :=
  methods ← act_of_comp (PublicSchemas h fuel l);
  discoverResult ← act_of_outcome
    (NewResultMessage (Some msg) (AMap [("methods", AMapList methods)]));
  act_of_outcome (Http1_WriteMessage w (MResult discoverResult) 200).

Definition feed_and_reply (fuel l : nat) (r : http_Request Auth) (msg : Message) (w : ResponseWriter)
    : act W panic ResponseWriter :=
  res ← Feed h fuel l (http_rpc_request r msg);
  act_of_outcome
    match res with
    | (_, Some err) => write_feed_error err w
    | (Some resmsg, None) => write_reply msg resmsg w
    | (None, None) =>
        okMsg ← NewResultMessage None (AString "ok");
        Http1_WriteMessage w (MResult okMsg) 200
    end.

Definition Http1_ServeHTTP (fuel l : nat) (w : ResponseWriter) (r : http_Request Auth)
    : act W panic ResponseWriter :=
  if bool_decide (hr_Method r ≠ "POST") then
    act_of_outcome (ErrorResponse 405 "Method not allowed" w)
  else
    match hr_Body r with
    | inl _ =>
        errMsg ← act_of_outcome (NewErrorMessage None (Some ErrInvalidRequest));
        act_of_outcome (Http1_WriteMessage w (MError errMsg) 400)
    | inr buffer =>
        parsed ← act_of_outcome (ParseBytes (scan_text buffer) []);
        match parsed with
        | inl _ =>
            errMsg ← act_of_outcome (NewErrorMessage None (Some ErrParseMessage));
            act_of_outcome (Http1_WriteMessage w (MError errMsg) 400)
        | inr msg =>
            if is_discover msg then discover fuel l msg w else feed_and_reply fuel l r msg w
        end
    end.
End server.

(** ** The client *)

(** The body ["request timeout"], with its quotes. *)
Definition timeout_body : string :=
  let quote := String.String (Ascii.ascii_of_nat 34) "" in quote +:+ "request timeout" +:+ quote.

(** What [httpClient.Do] gives: a response, or an error and whether it is a
    timeout. *)
Definition do_result : Type := (error * bool) + http_Response.

Record Http1Client := mkHttp1Client {
  extraHeader : option http_header;
  Timeout : Z;
  url_error : option error }.   (** http.NewRequestWithContext's error for the server's URL *)

Definition Http1_SetExtraHeader (h : option http_header) (client : Http1Client) : Http1Client :=
  mkHttp1Client h (Timeout client) (url_error client).

Section client.
Context {W Auth : Type}.

(** A connection; its first argument is the timeout in seconds. *)
Context (Do : Z → http_Request Auth → act W panic do_result).

(** [connect]: the timeout of the http.Client. *)
Definition connect_timeout (client : Http1Client) : Z :=
  if Timeout client <=? 0 then 5 else Timeout client.

(** The POST request that carries the bytes of a message. *)
Definition new_post (client : Http1Client) (traceId : string) (marshaled : json)
    : error + http_Request Auth :=
  match url_error client with
  | Some err => inl err
  | None =>
      let header := if bool_decide (traceId ≠ "") then header_Add "X-Trace-Id" traceId [] else [] in
      let header := header_Set "Content-Type" "application/json" header in
      let header := header_Set "Accept" "application/json" header in
      let header := match extraHeader client with
                    | Some extra => header_AddMap extra header
                    | None => header
                    end in
      inr (mkHttpRequest "POST" 1 1 header (inr (json_text marshaled)) None)
  end.

(** The header of a response message after the loop over the response's. *)
Definition receive_headers (from : http_header) (respmsg : Message) : Message :=
  match respmsg with
  | MResult m =>
      let '(hd, m) := res_ResponseHeader m in
      MResult (mkResult (res_base m) (res_Id m) (res_Result m) (Some (add_x_headers from hd)))
  | MError m =>
      let '(hd, m) := err_ResponseHeader m in
      MError (mkError (err_base m) (err_Id m) (err_Error m) (Some (add_x_headers from hd)))
  | _ => respmsg
  end.

Definition read_response (traceId : string) (resp : http_Response) : result (error + Message) :=
  if negb (hs_StatusCode resp =? 200) then
    match hs_Body resp with
    | inl err => Ret (inl (ErrorWithMessage "read from response" err))
    | inr buffer =>
        Ret (inl (ErrorWithMessage "abnormal response"
          (ErrorWrapped (HttpResponse (hs_StatusCode resp) (hs_Header resp)) buffer)))
    end
  else
    match hs_Body resp with
    | inl err => Ret (inl (ErrorWithMessage "ioutil.ReadAll" err))
    | inr respBody =>
        r ← ParseBytes (scan_text respBody) [];
        Ret match r with
            | inl err => inl err
            | inr respmsg => inr (SetTraceId traceId (receive_headers (hs_Header resp) respmsg))
            end
    end.

(** [request]: the message or error, and the request message, whose trace id
    has been cleared. *)
Definition Http1_request (client : Http1Client) (reqmsg : RequestMessage)
    : act W panic ((error + Message) * RequestMessage) :=
  let timeout := connect_timeout client in
  let traceId := traceId (req_base reqmsg) in
  let reqmsg := req_SetTraceId "" reqmsg in
  match MessageBytes (MRequest reqmsg) with
  | None => mret (inl (ErrorJson "unsupported value"), reqmsg)
  | Some marshaled =>
      match new_post client traceId marshaled with
      | inl err => mret (inl (ErrorWithMessage "http.NewRequestWithContext" err), reqmsg)
      | inr req =>
          resp ← Do timeout req;
          match resp with
          | inl (err, true) =>
              mret (inl (ErrorWithMessage "request timeout" (ErrorSimple 408 timeout_body)), reqmsg)
          | inl (err, false) => mret (inl (ErrorWithMessage "http Do" err), reqmsg)
          | inr resp => r ← act_of_outcome (read_response traceId resp); mret (r, reqmsg)
          end
      end
  end.

Definition Http1_Call (client : Http1Client) (reqmsg : RequestMessage)
    : act W panic ((error + Message) * RequestMessage) :=
  r ← Http1_request client reqmsg;
  mret (match r.1 with
        | inl err => inl (ErrorWithMessage ("RPC(" +:+ req_Method reqmsg +:+ ")") err)
        | inr m => inr m
        end, r.2).

(** [UnwrapCall]: [output] decodes the result (jsoff.DecodeInterface); an
    error message is returned as the error, a nil one as a nil pointer. *)
Definition Http1_UnwrapCall {O} (output : any → error + O) (client : Http1Client)
    (reqmsg : RequestMessage) : act W panic (error + option RPCError + O) :=
  r ← Http1_Call client reqmsg;
  match r.1 with
  | inl err => mret (inl (inl err))
  | inr resmsg =>
      if IsResult resmsg then
        res ← act_of_outcome (MustResult resmsg);
        mret match output res with
             | inl err => inl (inl (ErrorWithMessage ("RPC(" +:+ req_Method reqmsg +:+ ")") err))
             | inr o => inr o
             end
      else
        errbody ← act_of_outcome (MustError resmsg);
        mret (inl (inr errbody))
  end.

(** [Send]: an error or none, and the message without its trace id. *)
Definition Http1_Send (client : Http1Client) (msg : Message) : act W panic (option error * Message) :=
  let timeout := connect_timeout client in
  let traceId := TraceId msg in
  let msg := SetTraceId "" msg in
  match MessageBytes msg with
  | None => mret (Some (ErrorJson "unsupported value"), msg)
  | Some marshaled =>
      match new_post client traceId marshaled with
      | inl err => mret (Some (ErrorWithMessage "http.NewRequestWithContext" err), msg)
      | inr req =>
          resp ← Do timeout req;
          mret match resp with
               | inl (err, _) => (Some (ErrorWithMessage "http Do" err), msg)
               | inr resp =>
                   if negb (hs_StatusCode resp =? 200) then
                     (Some (ErrorWithMessage "abnormal response"
                       (ErrorWrapped (HttpResponse (hs_StatusCode resp) (hs_Header resp)) "")), msg)
                   else (None, msg)
               end
      end
  end.
End client.

(** ** A call over a connection to the server

    [loopback] runs the server on each request; [extra] are the headers that
    net/http adds to responses.  A panic of the server drops the connection,
    which the client sees as an error. *)

Section loopback.
Context {W Auth Sess S : Type}.
Context (h : @Heap W (option Auth) (http_Request Auth) Sess S).
Context `{SchemaOps S, MapDecoder}.
Context (fuel l : nat) (extra : http_header).

Definition loopback (timeout : Z) (req : http_Request Auth) : act W panic do_result := λ w,
  match Http1_ServeHTTP h fuel l NewResponseWriter req w with
  | Some (Ret rw, w') => Some (Ret (inr (rw_finish extra rw)), w')
  | Some (Panic _, w') => Some (Ret (inl (ErrorEOF, false)), w')
  | None => None
  end.
End loopback.

(** The entries of a header that both sides pass on. *)
Definition x_headers (hd : http_header) : http_header := filter (λ kvs, is_x_header kvs.1 = true) hd.

(** A response message with a header; other messages have none. *)
Definition with_header (hd : http_header) (msg : Message) : Message :=
  match msg with
  | MResult m => MResult (mkResult (res_base m) (res_Id m) (res_Result m) (Some hd))
  | MError m => MError (mkError (err_base m) (err_Id m) (err_Error m) (Some hd))
  | _ => msg
  end.

(** What the server sends in place of an answer without a JSON form. *)
Definition sendable (id : any) (resmsg : Message) : Message :=
  match MessageBytes (SetTraceId "" resmsg) with
  | Some _ => resmsg
  | None => MError (ToMessageFromId ErrInternalError id "")
  end.

(** The message a client with trace id [t] gets when the server answers the
    request with identifier [id] by [resmsg]. *)
Definition received_message (t : string) (id : any) (resmsg : Message) : Message :=
  SetTraceId t (with_header (x_headers (ResponseHeader resmsg)) (message_norm (sendable id resmsg))).

Lemma add_x_headers_filter from hd : add_x_headers from hd = header_AddMap (x_headers from) hd.
Proof.
  unfold add_x_headers, header_AddMap, x_headers. revert hd.
  induction from as [|[k vs] from IH]; intros hd; [done|]. rewrite filter_cons. cbn [fold_left fst snd].
  destruct (is_x_header k) eqn:Hk; simpl; rewrite ?Hk; apply IH.
Qed.

Lemma x_headers_app hd1 hd2 : x_headers (hd1 ++ hd2) = x_headers hd1 ++ x_headers hd2.
Proof. apply filter_app. Qed.

Lemma x_headers_idem hd : x_headers (x_headers hd) = x_headers hd.
Proof. unfold x_headers. rewrite list_filter_filter. apply list_filter_iff. tauto. Qed.

(** X- headers go through server and client unchanged. *)
Lemma add_x_headers_fresh from (hd : http_header) :
  header_ok (x_headers from) → x_headers hd = [] → add_x_headers from hd = hd ++ x_headers from.
Proof.
  intros Hok Hhd. rewrite add_x_headers_filter. apply header_AddMap_fresh.
  - done.
  - intros k (kvs & -> & [Hx _]%list_elem_of_filter)%list_elem_of_fmap.
    apply map_get_None. intros (kvs' & Hk & Hin)%list_elem_of_fmap. 
    assert (kvs' ∈ x_headers hd) as Hin'; [|rewrite Hhd in Hin'; by apply elem_of_nil in Hin'].
    apply list_elem_of_filter. by rewrite <- Hk.
Qed.

Lemma message_wire_SetTraceId t msg :
  utf8_ok t = true → message_wire msg → message_wire (SetTraceId t msg).
Proof.
  intros Ht (Hok & _ & Hw). split; [by apply SetTraceId_ok|]. split; [by destruct msg|]. by destruct msg.
Qed.

Lemma message_norm_SetTraceId t msg : message_norm (SetTraceId t msg) = SetTraceId t (message_norm msg).
Proof. by destruct msg. Qed.

Lemma SetTraceId_twice t t' msg : SetTraceId t (SetTraceId t' msg) = SetTraceId t msg.
Proof. by destruct msg. Qed.

(** The header of the server's answer. *)
Definition reply_header (resmsg : Message) : http_header :=
  let hd := header_Set "Content-Type" "application/json" [] in
  if HasResponseHeader resmsg then add_x_headers (ResponseHeader resmsg) hd else hd.

Lemma ResponseHeader_SetTraceId t msg : ResponseHeader (SetTraceId t msg) = ResponseHeader msg.
Proof.
  destruct msg as [m|m|m|m]; simpl; unfold res_ResponseHeader, err_ResponseHeader; simpl; [done..| |].
  - by destruct (res_responseHeader m).
  - by destruct (err_responseHeader m).
Qed.

Lemma no_ResponseHeader msg : HasResponseHeader msg = false → ResponseHeader msg = [].
Proof.
  destruct msg as [m|m|m|m]; simpl; unfold res_ResponseHeader, err_ResponseHeader; simpl; [done..| |].
  - by destruct (res_responseHeader m).
  - by destruct (err_responseHeader m).
Qed.

Lemma reply_header_x resmsg :
  header_ok (ResponseHeader resmsg) → x_headers (reply_header resmsg) = x_headers (ResponseHeader resmsg).
Proof.
  intros Hh. unfold reply_header. destruct (HasResponseHeader resmsg) eqn:Hr.
  - rewrite add_x_headers_fresh by (done || by apply header_ok_filter).
    by rewrite x_headers_app, x_headers_idem.
  - by rewrite no_ResponseHeader.
Qed.

Lemma write_reply_sends msg resmsg data :
  reply_data msg (SetTraceId "" resmsg) = Ret data →
  ∃ rw, write_reply msg resmsg NewResponseWriter = Ret rw ∧
    rw_sent rw = Some (200, reply_header (SetTraceId "" resmsg)) ∧ rw_body rw = data.
Proof.
  intros Hd. unfold write_reply. rewrite Hd. cbn [mbind outcome_mbind outcome_bind].
  unfold reply_header. destruct (HasResponseHeader _); cbn; case_bool_decide; by eexists.
Qed.

Lemma reply_data_sendable msg resmsg id :
  MustId msg = Ret id → TraceId msg = "" →
  message_wire (sendable id resmsg) → shallow (SetTraceId "" (sendable id resmsg)) →
  ∃ data, reply_data msg (SetTraceId "" resmsg) = Ret data ∧
    ParseBytes (scan_text data) [] = Ret (inr (message_norm (SetTraceId "" (sendable id resmsg)))).
Proof.
  intros Hid Ht Hw Hs. pose proof (message_wire_SetTraceId "" _ eq_refl Hw) as Hw0.
  destruct (message_text_roundtrip _ Hw0 Hs) as (j & Hj & Hp).
  exists (json_text j). split; [|done]. unfold reply_data, sendable in *.
  destruct (MessageBytes (SetTraceId "" resmsg)) as [j'|] eqn:Hb; [congruence|].
  rewrite Hid, Ht. cbn [mbind outcome_mbind outcome_bind].
  change (SetTraceId "" (MError (ToMessageFromId ErrInternalError id "")))
    with (MError (ToMessageFromId ErrInternalError id "")) in Hj.
  by rewrite Hj.
Qed.

(** The client's side of an answer: the X- headers of the response are added
    to the message. *)
Lemma read_response_reply t hd data msg :
  header_ok (x_headers hd) → ParseBytes (scan_text data) [] = Ret (inr (message_norm msg)) →
  read_response t (mkHttpResponse 200 hd (inr data)) =
    Ret (inr (SetTraceId t (with_header (x_headers hd) (message_norm msg)))).
Proof.
  intros Hh Hp. unfold read_response. cbn [hs_StatusCode hs_Body Z.eqb negb].
  rewrite Hp. cbn [mbind outcome_mbind outcome_bind hs_Header]. do 3 f_equal.
  pose proof (add_x_headers_fresh hd [] Hh eq_refl) as Hadd.
  destruct msg; simpl; [done..| |]; by rewrite Hadd.
Qed.

Section call.
Context {W Auth Sess S : Type}.
Context (h : @Heap W (option Auth) (http_Request Auth) Sess S).
Context `{SchemaOps S, MapDecoder}.
Context (fuel l : nat) (extra : http_header).

(** A posted message reaches the actor, unless it is [rpc.discover]. *)
Lemma ServeHTTP_post r body msg w :
  hr_Method r = "POST" → hr_Body r = inr body →
  ParseBytes (scan_text body) [] = Ret (inr msg) → is_discover msg = false →
  Http1_ServeHTTP h fuel l NewResponseWriter r w =
    feed_and_reply h fuel l r msg NewResponseWriter w.
Proof using Type.
  intros Hm Hb Hp Hd. unfold Http1_ServeHTTP. rewrite Hm, Hb, bool_decide_false by tauto.
  rewrite Hp, (act_bind_Ret _ _ w (inr msg) w) by done. by rewrite Hd.
Qed.

(** The client's call, given what its connection returns. *)
Lemma Http1_request_response (Do : Z → http_Request Auth → act W panic do_result)
    client reqmsg j post w resp w' r :
  MessageBytes (MRequest (req_SetTraceId "" reqmsg)) = Some j →
  new_post client (traceId (req_base reqmsg)) j = inr post →
  Do (connect_timeout client) post w = Some (Ret (inr resp), w') →
  read_response (traceId (req_base reqmsg)) resp = Ret r →
  Http1_request Do client reqmsg w =
    Some (Ret (r, req_SetTraceId "" reqmsg), w').
Proof using Type.
  intros Hj Hpost HDo Hr. unfold Http1_request. rewrite Hj, Hpost.
  rewrite (act_bind_Ret _ _ w (inr resp) w') by done. cbn beta iota.
  by rewrite (act_bind_Ret _ _ w' r w') by (by rewrite Hr).
Qed.
Lemma feed_and_reply_run r msg w reply err w' out :
  Feed h fuel l (http_rpc_request r msg) w = Some (Ret (reply, err), w') →
  match reply, err with
  | _, Some err => write_feed_error err NewResponseWriter
  | Some resmsg, None => write_reply msg resmsg NewResponseWriter
  | None, None => okMsg ← NewResultMessage None (AString "ok");
                  Http1_WriteMessage NewResponseWriter (MResult okMsg) 200
  end = Ret out →
  feed_and_reply h fuel l r msg NewResponseWriter w = Some (Ret out, w').
Proof using Type.
  intros Hf Hout. unfold feed_and_reply. rewrite (act_bind_Ret _ _ w (reply, err) w') by done.
  unfold act_of_outcome. by destruct reply, err; rewrite Hout.
Qed.
End call.

(** The body of an error response, which some statuses have not. *)
Definition error_body (status : Z) (body : string) : string :=
  if body_allowed status then body else "".

Lemma write_wrapped_error status hd body rw_extra :
  199 < status ≤ 999 →
  ∃ rw, write_feed_error (ErrorWrapped (HttpResponse status hd) body) NewResponseWriter = Ret rw ∧
    rw_finish rw_extra rw =
      mkHttpResponse status (header_AddMap hd [] ++ rw_extra) (inr (error_body status body)).
Proof.
  intros Hs. unfold write_feed_error. cbn [as_SimpleResponse as_WrappedResponse RespHeader StatusCode].
  unfold WriteHeader. cbn [rw_sent rw_set_header NewResponseWriter].
  replace ((status <? 100) || (999 <? status)) with false by (symmetry; apply orb_false_iff; lia).
  replace (status <=? 199) with false by (symmetry; lia). cbn. by eexists.
Qed.


(** *** An echo server *)

Definition echo_callback : @RequestCallback nat (option unit) (http_Request unit) unit :=
  λ _ params w, Some (Ret (Val (AList params), None), Datatypes.S w).

Definition echo_heap : @Heap nat (option unit) (http_Request unit) unit Schema :=
  {[ 0%nat := mkActor true true [("echo", mkHandler echo_callback None)] None None [] ]}.

Definition echo_request : RequestMessage :=
  mkRequest (mkBase MKRequest "tr1") (AInt 7) "echo" [AString "a"] true.

Definition echo_client : Http1Client := mkHttp1Client None 0 None.

Definition echo_wire : json :=
  JObj [("jsonrpc", JStr "2.0"); ("method", JStr "echo"); ("id", JNum "7"); ("params", JArr [JStr "a"])].

Definition echo_post : http_Request unit :=
  mkHttpRequest "POST" 1 1 [("X-Trace-Id", ["tr1"]); ("Content-Type", ["application/json"]);
    ("Accept", ["application/json"])] (inr (json_text echo_wire)) None.

Definition echo_reply : Message :=
  MResult (mkResult (mkBase MKResult "") (AInt 7) (AList [AString "a"]) None).

#[local] Existing Instance struct_decoder.


(** ** The trace id of an answer *)

(** The trace id of an answer is lost.  The server takes the trace id out of
    the message and puts it into the X-Trace-Id header, but after the header
    has been sent: neither the header of the response nor its body has it. *)
Theorem trace_id_lost msg resmsg rw :
  write_reply msg resmsg NewResponseWriter = Ret rw →
  ResponseHeader resmsg = [] → TraceId resmsg ≠ "" →
  header_Get "X-Trace-Id" (rw_Header rw) = TraceId resmsg ∧
  ∃ hd data, rw_sent rw = Some (200, hd) ∧ header_Values "X-Trace-Id" hd = [] ∧
    rw_body rw = data ∧ reply_data msg (SetTraceId "" resmsg) = Ret data.
Proof.
  intros Hrw Hhd Ht. unfold write_reply in Hrw.
  destruct (reply_data msg (SetTraceId "" resmsg)) as [data|p]; [|done].
  cbn [mbind outcome_mbind outcome_bind] in Hrw.
  rewrite ResponseHeader_SetTraceId, Hhd in Hrw. cbn in Hrw.
  rewrite bool_decide_true in Hrw by done.
  by destruct (HasResponseHeader _); injection Hrw as <-; split; [|eexists _, data| |eexists _, data].
Qed.

Lemma trace_id_lost_witness :
  header_Get "X-Trace-Id" (rw_Header (mkResponseWriter
    [("Content-Type", ["application/json"]); ("X-Trace-Id", ["t"])]
    (Some (200, [("Content-Type", ["application/json"])]))
    (json_text (JObj [("jsonrpc", JStr "2.0"); ("id", JNum "7"); ("result", JNull)])))) = "t".
Proof.
  apply (trace_id_lost (MRequest echo_request) (MResult (mkResult (mkBase MKResult "t") (AInt 7) ANil None))).
  - by vm_compute.
  - done.
  - done.
Defined.

(** ** The gateway *)

(** The protocol handlers a gateway chooses from. *)
Inductive gateway_handler : Type := H1Handler | WSHandler | H2Handler.

(** [GatewayHandler.ServeHTTP]: the handler a request is given to. *)
Definition Gateway_ServeHTTP {Auth} (r : http_Request Auth) : gateway_handler :=
  if ProtoAtLeast r 2 0 then H2Handler
  else
    let upgradeHeader := header_Get "Upgrade" (hr_Header r) in
    if bool_decide (upgradeHeader = "websocket") then WSHandler
    else if bool_decide (upgradeHeader = "h2c") then H2Handler
    else H1Handler.
