(* ===== verification/Auth.v ===== *)
(** * Authorization: net/auth_handler.go

    An AuthHandler lets a request through to the next handler if its
    Authorization header holds a JWT, a configured user name and password or
    a configured token.  Claims of valid JWTs are kept in an LRU cache.

    The JWT and LRU packages are parameters.  [jwt_parse secret token now] is
    jwt.ParseWithClaims at the time [now]; [Lru] has the operations of an LRU
    cache and [LruLaws] what its documentation promises.  Time is in seconds. *)

From Stdlib Require Import Ascii.
From S2P Require Import Prelude GoMap Strconv Values Parse Http.
From stdpp Require Import options.
#[local] Open Scope Z_scope.

(** ** The standard library: strings, base64 and Request.BasicAuth *)

(** What is before and after the first [sep]: strings.Cut, strings.SplitN(s, sep, 2). *)
Fixpoint cut (sep : ascii) (s : string) : option (string * string) :=
  match s with
  | EmptyString => None
  | String c s =>
      if decide (c = sep) then Some ("", s)
      else p ← cut sep s; Some (String c p.1, p.2)
  end.

Definition base64_digit (c : ascii) : option N :=
  if is_upper c then Some (code c - 65)%N
  else if is_lower c then Some (code c - 71)%N
  else if is_digit c then Some (code c + 4)%N
  else if bool_decide (code c = 43%N) then Some 62%N
  else if bool_decide (code c = 47%N) then Some 63%N
  else None.

Definition is_pad (c : ascii) : bool := bool_decide (code c = 61%N).

(** The four digits of a quantum as three bytes. *)
Definition quantum_bytes (d1 d2 d3 d4 : N) : ascii * ascii * ascii :=
  (ascii_of_N (d1 * 4 + d2 / 16), ascii_of_N (d2 mod 16 * 16 + d3 / 4),
   ascii_of_N (d3 mod 4 * 64 + d4)).

Fixpoint base64_quanta (s : string) : option string :=
  match s with
  | EmptyString => Some ""
  | String c1 (String c2 (String c3 (String c4 s))) =>
      d1 ← base64_digit c1;
      d2 ← base64_digit c2;
      if is_pad c3 then
        if is_pad c4 && bool_decide (s = "") then Some (String (quantum_bytes d1 d2 0 0).1.1 "")
        else None
      else
        d3 ← base64_digit c3;
        if is_pad c4 then
          if bool_decide (s = "") then
            let '(b1, b2, _) := quantum_bytes d1 d2 d3 0 in Some (String b1 (String b2 ""))
          else None
        else
          d4 ← base64_digit c4;
          rest ← base64_quanta s;
          let '(b1, b2, b3) := quantum_bytes d1 d2 d3 d4 in
          Some (String b1 (String b2 (String b3 rest)))
  | _ => None
  end.

(** Line ends are ignored. *)
Fixpoint without_newlines (s : string) : string :=
  match s with
  | EmptyString => EmptyString
  | String c s =>
      if bool_decide (code c = 10%N) || bool_decide (code c = 13%N) then without_newlines s
      else String c (without_newlines s)
  end.

(** [base64.StdEncoding.DecodeString] *)
Definition base64_DecodeString (s : string) : option string := base64_quanta (without_newlines s).

(** The rest of a string after a prefix that is compared up to letter case. *)
Fixpoint cut_prefix_fold (prefix s : string) : option string :=
  match prefix, s with
  | EmptyString, _ => Some s
  | String p prefix, String c s =>
      if decide (to_lower p = to_lower c) then cut_prefix_fold prefix s else None
  | _, EmptyString => None
  end.

Definition colon : ascii := ascii_of_N 58.
Definition space : ascii := ascii_of_N 32.

(** [r.BasicAuth()], from the Authorization header. *)
Definition BasicAuth (authHeader : string) : option (string * string) :=
  auth ← cut_prefix_fold "Basic " authHeader;
  cs ← base64_DecodeString auth;
  cut colon cs.

(** ** Configuration *)

Record AuthInfo := mkAuthInfo { auth_Username : string; auth_Settings : gomap any }.

Record BasicAuthConfig := mkBasicAuthConfig {
  basic_Username : string; basic_Password : string; basic_Settings : gomap any }.

Record BearerAuthConfig := mkBearerAuthConfig {
  bearer_Token : string; bearer_Username : string; bearer_Settings : gomap any }.

Record JwtAuthConfig := mkJwtAuthConfig { jwt_Secret : string }.

Record AuthConfig := mkAuthConfig {
  cfg_Basic : list BasicAuthConfig;
  cfg_Bearer : list BearerAuthConfig;
  cfg_Jwt : option JwtAuthConfig }.

Record jwtClaims := mkJwtClaims {
  claims_Username : string; claims_Settings : gomap any; ExpiresAt : Z }.

(** [ValidateValues] *)
Definition ValidateValues (cfg : option AuthConfig) : option error :=
  match cfg with
  | None => None
  | Some cfg =>
      if existsb (λ b, bool_decide (bearer_Token b = "")) (cfg_Bearer cfg) then
        Some (ErrorString "bearer token is empty")
      else if existsb (λ b, bool_decide (basic_Username b = "") || bool_decide (basic_Password b = ""))
                (cfg_Basic cfg) then
        Some (ErrorString "basic username or password are empty")
      else match cfg_Jwt cfg with
           | Some j => if bool_decide (jwt_Secret j = "") then Some (ErrorString "jwt has no secret") else None
           | None => None
           end
  end.

(** ** LRU caches *)

Class Lru (C V : Type) := {
  lru_New : nat → C;
  lru_Get : string → C → option V * C;
  lru_Add : string → V → C → C;
  lru_Remove : string → C → C }.

(** A cache holds some of what was added to it, and never more than its size. *)
Class LruLaws (C V : Type) `{Lru C V} := {
  lru_size : C → nat;
  lru_content : C → list (string * V);
  lru_bound c : (length (lru_content c) ≤ lru_size c)%nat;
  lru_New_size n : lru_size (lru_New n) = n;
  lru_New_content n : lru_content (lru_New n) = [];
  lru_Get_size k c : lru_size (lru_Get k c).2 = lru_size c;
  lru_Get_content k c : lru_content (lru_Get k c).2 ⊆ lru_content c;
  lru_Get_found k v c : (lru_Get k c).1 = Some v → (k, v) ∈ lru_content c;
  lru_Add_size k v c : lru_size (lru_Add k v c) = lru_size c;
  lru_Add_content k v c : lru_content (lru_Add k v c) ⊆ (k, v) :: lru_content c;
  lru_Remove_size k c : lru_size (lru_Remove k c) = lru_size c;
  lru_Remove_content k c : lru_content (lru_Remove k c) ⊆ lru_content c }.

(** ** The handler *)

Definition bearer_header (token : string) : string := "Bearer " +:+ token.

Section auth.
Context {C : Type} `{Lru C jwtClaims}.
Context (jwt_parse : string → string → Z → error + jwtClaims).

(** The cache of [NewAuthHandler]. *)
Definition NewAuthHandler_cache : C := lru_New 100.

Definition claims_info (claims : jwtClaims) : AuthInfo :=
  mkAuthInfo (claims_Username claims) (claims_Settings claims).

(** The check of expiration, and what happens to the cache. *)
Definition check_claims (authHeader : string) (claims : jwtClaims) (fromCache : bool) (now : Z) (c : C)
    : option AuthInfo * C :=
  if ExpiresAt claims <? now then
    (None, if fromCache then lru_Remove authHeader c else c)
  else (Some (claims_info claims), if fromCache then c else lru_Add authHeader claims c).

Definition jwtAuth (jwtCfg : JwtAuthConfig) (authHeader : string) (now : Z) (c : C)
    : result (option AuthInfo * C) :=
  if bool_decide (authHeader = "") then Ret (None, c)
  else
    let '(arr0, arr1) := match cut space authHeader with
                         | Some (a, b) => (a, Some b)
                         | None => (authHeader, None)
                         end in
    if bool_decide (arr0 = "Bearer") then
      let '(cached, c) := lru_Get authHeader c in
      match cached with
      | Some claims => Ret (check_claims authHeader claims true now c)
      | None =>
          match arr1 with
          | None => Panic out_of_range
          | Some jwtFromHeader =>
              match jwt_parse (jwt_Secret jwtCfg) jwtFromHeader now with
              | inl _ => Ret (None, c)
              | inr claims => Ret (check_claims authHeader claims false now c)
              end
          end
      end
    else Ret (None, c).

Fixpoint find_basic (username password : string) (cfgs : list BasicAuthConfig) : option AuthInfo :=
  match cfgs with
  | [] => None
  | basicCfg :: cfgs =>
      if bool_decide (basic_Username basicCfg = username ∧ basic_Password basicCfg = password) then
        Some (mkAuthInfo username (basic_Settings basicCfg))
      else find_basic username password cfgs
  end.

Definition bearer_info (bearerCfg : BearerAuthConfig) : AuthInfo :=
  mkAuthInfo
    (if bool_decide (bearer_Username bearerCfg = "") then bearer_Token bearerCfg
     else bearer_Username bearerCfg)
    (bearer_Settings bearerCfg).

Fixpoint find_bearer (authHeader : string) (cfgs : list BearerAuthConfig) : option AuthInfo :=
  match cfgs with
  | [] => None
  | bearerCfg :: cfgs =>
      if bool_decide (authHeader = bearer_header (bearer_Token bearerCfg)) then Some (bearer_info bearerCfg)
      else find_bearer authHeader cfgs
  end.

(** The JWT part of [TryAuth]. *)
Definition try_jwt (cfg : AuthConfig) (authHeader : string) (now : Z) (c : C)
    : result (option AuthInfo * C) :=
  match cfg_Jwt cfg with
  | Some jwtCfg => if bool_decide (jwt_Secret jwtCfg ≠ "") then jwtAuth jwtCfg authHeader now c
                   else Ret (None, c)
  | None => Ret (None, c)
  end.

Definition try_basic (cfg : AuthConfig) (authHeader : string) : option AuthInfo :=
  p ← BasicAuth authHeader; find_basic p.1 p.2 (cfg_Basic cfg).

(** [TryAuth]: the user and whether the request may pass, and the cache. *)
Definition TryAuth (cfg : option AuthConfig) (authHeader : string) (now : Z) (c : C)
    : result (option AuthInfo * bool * C) :=
  match cfg with
  | None => Ret (None, true, c)
  | Some cfg =>
      r ← try_jwt cfg authHeader now c;
      let '(info, c) := r in
      match info with
      | Some info => Ret (Some info, true, c)
      | None =>
          match try_basic cfg authHeader with
          | Some info => Ret (Some info, true, c)
          | None =>
              match find_bearer authHeader (cfg_Bearer cfg) with
              | Some info => Ret (Some info, true, c)
              | None => Ret (None, false, c)
              end
          end
      end
  end.

Definition with_auth (info : AuthInfo) (r : http_Request AuthInfo) : http_Request AuthInfo :=
  mkHttpRequest (hr_Method r) (hr_ProtoMajor r) (hr_ProtoMinor r) (hr_Header r) (hr_Body r) (Some info).

(** What a handler behind authorization finds in the context of its request. *)
Definition AuthInfoFromContext (r : http_Request AuthInfo) : option AuthInfo * bool :=
  match hr_Auth r with Some authinfo => (Some authinfo, true) | None => (None, false) end.

Lemma AuthInfoFromContext_with_auth info r : AuthInfoFromContext (with_auth info r) = (Some info, true).
Proof. done. Qed.

(** The text of a refusal, a line. *)
Definition auth_failed : string := "auth failed!" +:+ String (ascii_of_N 10) "".

(** [ServeHTTP] at the time [now]; it acts on the world of the next handler
    and on the cache. *)
Definition Auth_ServeHTTP {W} (cfg : option AuthConfig)
    (next : ResponseWriter → http_Request AuthInfo → act (C * W) panic ResponseWriter)
    (now : Z) (w : ResponseWriter) (r : http_Request AuthInfo) : act (C * W) panic ResponseWriter :=
  λ cw, match TryAuth cfg (header_Get "Authorization" (hr_Header r)) now cw.1 with
        | Panic p => Some (Panic p, cw)
        | Ret (info, ok, c) =>
            if ok then
              match info with
              | Some info => next w (with_auth info r) (c, cw.2)
              | None => next w r (c, cw.2)
              end
            else act_of_outcome (w ← WriteHeader 401 w; Ret (rw_Write auth_failed w)) (c, cw.2)
        end.

(** ** Which credentials are good *)

(** The header proves, at the time [now], that the sender is the given user. *)
Inductive credential (cfg : AuthConfig) (authHeader : string) (now : Z) : AuthInfo → Prop :=
  | credential_jwt jwtCfg token claims :
      cfg_Jwt cfg = Some jwtCfg → jwt_Secret jwtCfg ≠ "" →
      cut space authHeader = Some ("Bearer", token) →
      jwt_parse (jwt_Secret jwtCfg) token now = inr claims → now ≤ ExpiresAt claims →
      credential cfg authHeader now (claims_info claims)
  | credential_basic basicCfg :
      basicCfg ∈ cfg_Basic cfg →
      BasicAuth authHeader = Some (basic_Username basicCfg, basic_Password basicCfg) →
      credential cfg authHeader now (mkAuthInfo (basic_Username basicCfg) (basic_Settings basicCfg))
  | credential_bearer bearerCfg :
      bearerCfg ∈ cfg_Bearer cfg → authHeader = bearer_header (bearer_Token bearerCfg) →
      credential cfg authHeader now (bearer_info bearerCfg).

(** What the JWT package promises about time: the claims of a token are fixed,
    and once valid they are valid until they expire. *)
Record jwt_laws : Prop := {
  jwt_fixed secret token t t' claims claims' :
    jwt_parse secret token t = inr claims → jwt_parse secret token t' = inr claims' → claims = claims';
  jwt_lasting secret token t t' claims :
    jwt_parse secret token t = inr claims → t ≤ t' ≤ ExpiresAt claims →
    jwt_parse secret token t' = inr claims }.

Context `{!LruLaws C jwtClaims}.

(** The cache holds claims of tokens that have been verified. *)
Definition cache_entry_ok (cfg : AuthConfig) (now : Z) (e : string * jwtClaims) : Prop :=
  ∃ jwtCfg token t, cfg_Jwt cfg = Some jwtCfg ∧ cut space e.1 = Some ("Bearer", token) ∧
    t ≤ now ∧ jwt_parse (jwt_Secret jwtCfg) token t = inr e.2.

Definition cache_ok (cfg : AuthConfig) (now : Z) (c : C) : Prop :=
  lru_size c = 100%nat ∧ ∀ e, e ∈ lru_content c → cache_entry_ok cfg now e.

Lemma cache_ok_later cfg now now' c : now ≤ now' → cache_ok cfg now c → cache_ok cfg now' c.
Proof using Type.
  intros Hle [Hs Hc]. split; [done|]. intros e He. destruct (Hc e He) as (j & tok & t & ? & ? & ? & ?).
  exists j, tok, t. split_and!; [done|done|lia|done].
Qed.

Lemma cache_ok_sub cfg now c c' :
  lru_size c' = lru_size c → lru_content c' ⊆ lru_content c → cache_ok cfg now c → cache_ok cfg now c'.
Proof using Type. intros Hs Hsub [Hsize Hc]. split; [congruence|]. intros e He. apply Hc, Hsub, He. Qed.

Lemma cache_ok_new cfg now : cache_ok cfg now NewAuthHandler_cache.
Proof using Type.
  split; [apply lru_New_size|]. intros e He. unfold NewAuthHandler_cache in He.
  rewrite lru_New_content in He. by apply elem_of_nil in He.
Qed.

Lemma cache_ok_Get cfg now k c : cache_ok cfg now c → cache_ok cfg now (lru_Get k c).2.
Proof using Type. apply cache_ok_sub; [apply lru_Get_size|apply lru_Get_content]. Qed.

Lemma cache_ok_Remove cfg now k c : cache_ok cfg now c → cache_ok cfg now (lru_Remove k c).
Proof using Type. apply cache_ok_sub; [apply lru_Remove_size|apply lru_Remove_content]. Qed.

Lemma cache_ok_Add cfg now k v c :
  cache_ok cfg now c → cache_entry_ok cfg now (k, v) → cache_ok cfg now (lru_Add k v c).
Proof using Type.
  intros [Hs Hc] Hkv. split; [by rewrite lru_Add_size|].
  intros e He%lru_Add_content. apply elem_of_cons in He as [->|He]; [done|by apply Hc].
Qed.
(** *** [TryAuth] decides [credential] *)

Context (Hjwt : jwt_laws).

(** A verified, unexpired token. *)
Definition jwt_good (jwtCfg : JwtAuthConfig) (authHeader : string) (now : Z) (info : AuthInfo) : Prop :=
  ∃ token claims, cut space authHeader = Some ("Bearer", token) ∧
    jwt_parse (jwt_Secret jwtCfg) token now = inr claims ∧ now ≤ ExpiresAt claims ∧
    info = claims_info claims.

(** [info] is a user satisfying [P], or there is none. *)
Definition finds (P : AuthInfo → Prop) (info : option AuthInfo) : Prop :=
  match info with Some i => P i | None => ∀ i, ¬ P i end.

Lemma check_claims_spec cfg jwtCfg authHeader token claims fromCache now c :
  cfg_Jwt cfg = Some jwtCfg → cut space authHeader = Some ("Bearer", token) →
  cache_ok cfg now c →
  (∃ t, t ≤ now ∧ jwt_parse (jwt_Secret jwtCfg) token t = inr claims) →
  ∃ info c', check_claims authHeader claims fromCache now c = (info, c') ∧ cache_ok cfg now c' ∧
    finds (jwt_good jwtCfg authHeader now) info.
Proof using Type*.
  intros Hcfg Hcut Hc (t & Ht & Hparse). unfold check_claims.
  destruct (Z.ltb_spec (ExpiresAt claims) now) as [Hexp|Hexp].
  - eexists None, _. split; [done|]. split; [destruct fromCache; [by apply cache_ok_Remove|done]|].
    intros i (token' & claims' & Hcut' & Hparse' & Hexp' & _). assert (token' = token) as -> by congruence.
    rewrite (jwt_fixed Hjwt _ _ _ _ _ _ Hparse' Hparse) in Hexp'. lia.
  - eexists (Some _), _. split; [done|]. split.
    + destruct fromCache; [done|]. apply cache_ok_Add; [done|]. by exists jwtCfg, token, t.
    + exists token, claims. split_and!; [done| |done|done]. by eapply (jwt_lasting Hjwt).
Qed.

Lemma jwtAuth_spec cfg jwtCfg authHeader now c :
  cfg_Jwt cfg = Some jwtCfg → authHeader ≠ "Bearer" → cache_ok cfg now c →
  ∃ info c', jwtAuth jwtCfg authHeader now c = Ret (info, c') ∧ cache_ok cfg now c' ∧
    finds (jwt_good jwtCfg authHeader now) info.
Proof using Type*.
  intros Hcfg Hb Hc. unfold jwtAuth.
  case_bool_decide as He.
  { subst authHeader. exists None, c. split_and!; [done|done|by intros i (? & ? & ? & _)]. }
  destruct (cut space authHeader) as [[a b]|] eqn:Hcut.
  2: { rewrite bool_decide_false by done. exists None, c.
       split_and!; [done|done|]. intros i (? & ? & Hcut' & _). congruence. }
  case_bool_decide as Ha.
  2: { exists None, c. split_and!; [done|done|]. intros i (? & ? & Hcut' & _). congruence. }
  subst a. pose proof (cache_ok_Get cfg now authHeader c Hc) as Hc'.
  destruct (lru_Get authHeader c) as [[claims|] c'] eqn:Hget; cbn [snd] in Hc'.
  - destruct (proj2 Hc (authHeader, claims)) as (j & tok & t & Hj & Hcut' & Ht & Hparse).
    { apply lru_Get_found. by rewrite Hget. }
    simpl in Hcut', Hparse. assert (tok = b) as -> by congruence. assert (j = jwtCfg) as -> by congruence.
    destruct (check_claims_spec cfg jwtCfg authHeader b claims true now c' Hcfg Hcut Hc')
      as (info & c'' & Heq & Hok & Hf); [by exists t|].
    exists info, c''. by rewrite Heq.
  - destruct (jwt_parse (jwt_Secret jwtCfg) b now) as [err|claims] eqn:Hparse.
    + exists None, c'. split_and!; [done|done|]. intros i (tok & claims & Hcut' & Hparse' & _). congruence.
    + destruct (check_claims_spec cfg jwtCfg authHeader b claims false now c' Hcfg Hcut Hc')
        as (info & c'' & Heq & Hok & Hf); [by exists now|].
      exists info, c''. by rewrite Heq.
Qed.

Lemma find_basic_spec username password cfgs :
  finds (λ i, ∃ b, b ∈ cfgs ∧ basic_Username b = username ∧ basic_Password b = password ∧
                 i = mkAuthInfo username (basic_Settings b)) (find_basic username password cfgs).
Proof using Type.
  induction cfgs as [|b cfgs IH]; simpl; [by intros i (b & Hb%elem_of_nil & _)|].
  case_bool_decide as Hd; [exists b; split; [by left|naive_solver]|].
  destruct (find_basic username password cfgs); simpl in *.
  - destruct IH as (b' & ? & ?). exists b'. split; [by right|done].
  - intros i (b' & [->|Hin]%elem_of_cons & Hb'); [naive_solver|]. apply (IH i). by exists b'.
Qed.

Lemma find_bearer_spec authHeader cfgs :
  finds (λ i, ∃ b, b ∈ cfgs ∧ authHeader = bearer_header (bearer_Token b) ∧ i = bearer_info b)
    (find_bearer authHeader cfgs).
Proof using Type.
  induction cfgs as [|b cfgs IH]; simpl; [by intros i (b & Hb%elem_of_nil & _)|].
  case_bool_decide as Hd; [exists b; split; [by left|done]|].
  destruct (find_bearer authHeader cfgs); simpl in *.
  - destruct IH as (b' & ? & ?). exists b'. split; [by right|done].
  - intros i (b' & [->|Hin]%elem_of_cons & Hb'); [naive_solver|]. apply (IH i). by exists b'.
Qed.

Lemma TryAuth_spec cfg authHeader now c :
  authHeader ≠ "Bearer" → cache_ok cfg now c →
  ∃ info c', TryAuth (Some cfg) authHeader now c = Ret (info, bool_decide (is_Some info), c') ∧
    cache_ok cfg now c' ∧ finds (credential cfg authHeader now) info.
Proof using Type*.
  intros Hb Hc. unfold TryAuth.
  assert (∃ info c', try_jwt cfg authHeader now c = Ret (info, c') ∧ cache_ok cfg now c' ∧
    finds (λ i, ∃ j, cfg_Jwt cfg = Some j ∧ jwt_Secret j ≠ "" ∧ jwt_good j authHeader now i) info)
    as (info & c' & -> & Hc' & Hinfo).
  { unfold try_jwt. destruct (cfg_Jwt cfg) as [j|] eqn:Hj;
      [|exists None, c; split_and!; [done|done|by intros i (j & ? & _)]].
    case_bool_decide as Hs;
      [|exists None, c; split_and!; [done|done|intros i (j' & ? & ? & _); congruence]].
    destruct (jwtAuth_spec cfg j authHeader now c Hj Hb Hc) as (info & c' & -> & Hc' & Hf).
    exists info, c'. split_and!; [done|done|]. destruct info as [i|]; simpl in *; [by exists j|].
    intros i (j' & ? & ? & Hgood). assert (j' = j) as -> by congruence. by apply (Hf i). }
  cbn [mbind outcome_mbind outcome_bind]. destruct info as [i|]; simpl in Hinfo.
  { exists (Some i), c'. split_and!; [done|done|].
    destruct Hinfo as (j & ? & ? & tok & claims & ? & ? & ? & ->). by eapply credential_jwt. }
  pose proof (find_bearer_spec authHeader (cfg_Bearer cfg)) as Hbearer.
  assert (finds (λ i, ∃ b, b ∈ cfg_Basic cfg ∧ i = mkAuthInfo (basic_Username b) (basic_Settings b) ∧
    BasicAuth authHeader = Some (basic_Username b, basic_Password b)) (try_basic cfg authHeader)) as Hbasic.
  { unfold try_basic. destruct (BasicAuth authHeader) as [[u p]|]; simpl; [|by intros i (b & _ & _ & ?)].
    pose proof (find_basic_spec u p (cfg_Basic cfg)) as Hf.
    destruct (find_basic u p (cfg_Basic cfg)) as [i|]; simpl in *.
    - destruct Hf as (b & ? & <- & <- & ->). by exists b.
    - intros i (b & ? & -> & [= -> ->]). eapply Hf. by exists b. }
  destruct (try_basic cfg authHeader) as [i|]; simpl in Hbasic.
  { exists (Some i), c'. split_and!; [done|done|]. destruct Hbasic as (b & ? & -> & ?).
    by apply credential_basic. }
  destruct (find_bearer authHeader (cfg_Bearer cfg)) as [i|]; simpl in Hbearer.
  { exists (Some i), c'. split_and!; [done|done|]. destruct Hbearer as (b & ? & ? & ->).
    by apply credential_bearer. }
  exists None, c'. split_and!; [done|done|]. intros i Hi.
  destruct Hi as [j token claims Hj Hs Hcut Hparse Hexp|b Hin Hba|b Hin Hh].
  - eapply Hinfo. exists j. split_and!; [done|done|]. by exists token, claims.
  - eapply Hbasic. by exists b.
  - eapply Hbearer. by exists b.
Qed.
End auth.


(** A header without a token.  When JWT is configured, the Authorization
    header [Bearer] alone makes TryAuth index past the end of the split header:
    the request is not refused but panics, whatever the cache has seen. *)
Theorem bearer_without_token_panics {C : Type} `{!Lru C jwtClaims, !LruLaws C jwtClaims}
    (jwt_parse : string → string → Z → error + jwtClaims) cfg jwtCfg now c :
  cfg_Jwt cfg = Some jwtCfg → jwt_Secret jwtCfg ≠ "" → cache_ok jwt_parse cfg now c →
  TryAuth jwt_parse (Some cfg) "Bearer" now c = Panic out_of_range.
Proof.
  intros Hj Hs [_ Hc]. unfold TryAuth, try_jwt, jwtAuth. rewrite Hj, bool_decide_true by done.
  cbn [cut space]. destruct (lru_Get "Bearer" c) as [[claims|] c'] eqn:Hget; [|done].
  destruct (Hc ("Bearer", claims)) as (? & ? & ? & _ & Hcut & _); [|done].
  apply lru_Get_found. by rewrite Hget.
Qed.

(** ** A list as an LRU cache, and an example *)

Section lru_list.
Context {V : Type}.

(** The most recent entry first. *)
Definition lru_list : Type := nat * list (string * V).

Definition lru_entries (c : lru_list) : list (string * V) := take c.1 c.2.

Definition lru_without (k : string) (c : lru_list) : list (string * V) := map_del k (lru_entries c).

#[export] Instance lru_list_ops : Lru lru_list V := {
  lru_New n := (n, []);
  lru_Get k c := match map_get k (lru_entries c) with
                 | Some v => (Some v, (c.1, (k, v) :: lru_without k c))
                 | None => (None, c)
                 end;
  lru_Add k v c := (c.1, (k, v) :: lru_without k c);
  lru_Remove k c := (c.1, lru_without k c) }.

Lemma take_subseteq {A} n (l : list A) : take n l ⊆ l.
Proof. intros x Hx. rewrite <- (take_drop n l). apply elem_of_app. by left. Qed.

Lemma lru_without_sub k c : lru_without k c ⊆ lru_entries c.
Proof. intros x [_ Hx]%list_elem_of_filter. done. Qed.

#[export] Program Instance lru_list_laws : LruLaws lru_list V := {
  lru_size c := c.1;
  lru_content c := lru_entries c }.
Next Obligation. intros c. unfold lru_entries. rewrite length_take. lia. Qed.
Next Obligation. done. Qed.
Next Obligation. intros n. by destruct n. Qed.
Next Obligation. intros k c. cbn. by destruct (map_get k (lru_entries c)). Qed.
Next Obligation.
  intros k c x. cbn. destruct (map_get k (lru_entries c)) as [v|] eqn:Hg; [|done].
  intros [->|Hx%lru_without_sub]%take_subseteq%elem_of_cons; [|done]. by apply map_get_Some_elem.
Qed.
Next Obligation.
  intros k v c. cbn. destruct (map_get k (lru_entries c)) as [v'|] eqn:Hg; [|done].
  intros [= ->]. by apply map_get_Some_elem.
Qed.
Next Obligation. done. Qed.
Next Obligation.
  intros k v c x [->|Hx%lru_without_sub]%take_subseteq%elem_of_cons; [by left|by right].
Qed.
Next Obligation. done. Qed.
Next Obligation. intros k c x Hx%take_subseteq%lru_without_sub. done. Qed.
End lru_list.

(** One token is valid, until time 100. *)
Definition demo_jwt (secret token : string) (now : Z) : error + jwtClaims :=
  if bool_decide (secret = "secret" ∧ token = "tok" ∧ now ≤ 100) then inr (mkJwtClaims "alice" [] 100)
  else inl (ErrorString "invalid token").

Lemma demo_jwt_laws : jwt_laws demo_jwt.
Proof.
  split; unfold demo_jwt; intros secret token t t'.
  - intros claims claims'. case_bool_decide; [|done]. case_bool_decide; [|done]. congruence.
  - intros claims. case_bool_decide as Hd; [|done]. intros [= <-] Ht. simpl in Ht.
    by rewrite bool_decide_true by naive_solver lia.
Qed.

Definition demo_auth : AuthConfig :=
  mkAuthConfig [mkBasicAuthConfig "bob" "pw" []] [] (Some (mkJwtAuthConfig "secret")).

Definition demo_auth_request (authHeader : string) : http_Request AuthInfo :=
  mkHttpRequest "POST" 1 1 [("Authorization", [authHeader])] (inr "") None.

(** RFC 7617's form of the user [bob] with the password [pw]. *)
Lemma demo_basic : BasicAuth "Basic Ym9iOnB3" = Some ("bob", "pw").
Proof. by vm_compute. Qed.


Lemma bearer_without_token_panics_witness :
  TryAuth demo_jwt (Some demo_auth) "Bearer" 5 (NewAuthHandler_cache : lru_list) = Panic out_of_range.
Proof.
  apply (bearer_without_token_panics demo_jwt demo_auth (mkJwtAuthConfig "secret")); [done|done|].
  apply cache_ok_new.
Defined.
