(* ===== verification/Session.v ===== *)
(** * Stream sessions: net/tcp_server.go, net/vsock_server.go,
      net/ws_server.go, net/http2_server.go and net/http2_session.go

    A session belongs to one connection.  Its receive loop reads messages and
    feeds each to the actor, in a goroutine of its own or one after the
    other; answers go through a channel to the send loop, errors through
    another to [wait], which then ends the session.  The four servers have
    the same code up to what they read (frames or a JSON stream) and what
    they do when a session ends, which [session_kind] says.

    As in StreamingClient.v, a [label] is one atomic action, [step] the state
    after it, [None] when the action is not possible.  A call of the actor is
    one action.  A panic of a goroutine ends the process: the step gives it.
    The fields [received], [failed], [unsent] and the request in [Answer] are
    history, which the code does not keep. *)

From S2P Require Import Prelude GoMap Strconv Values Messages Parse JsonText.
From S2P Require Import Methods Schema Validator Actor Http.
From stdpp Require Import gmap.
From stdpp Require Import options.

(** ** Data *)

Record session_kind := mkKind {
  session_transport : string;
  reads_frames : bool;    (** a frame for each message, or a JSON stream *)
  spawns : bool;          (** SpawnGoroutine *)
  detaches : bool }.      (** [session.server = nil] at the end *)

Definition TCPSession : session_kind := mkKind "tcp" false true false.
Definition VsockSession : session_kind := mkKind "vsock" false true false.
Definition WSSession (SpawnGoroutine : bool) : session_kind := mkKind "websocket" true SpawnGoroutine true.
Definition Http2Session (SpawnGoroutine : bool) : session_kind := mkKind "http2" false SpawnGoroutine false.

(** A message on its way out: the answer to a request, or one pushed by
    [session.Send]. *)
Inductive outgoing : Type :=
  | Answer (reqmsg resmsg : Message)
  | Push (msg : Message).

Definition out_message (o : outgoing) : Message :=
  match o with Answer _ m => m | Push m => m end.

(** What a goroutine of the session is about to do. *)
Inductive task : Type :=
  | TBytes (msgBytes : string)       (** parse a frame *)
  | TFeed (msg : Message)            (** feed the actor *)
  | TSend (o : outgoing)             (** put into the send channel *)
  | TDone (err : option error).      (** put into the done channel *)

(** Where the goroutine of the connection is. *)
Inductive phase : Type := Waiting | Returned | Detached | Closed.

#[export] Instance phase_eq_dec : EqDecision phase.
Proof. solve_decision. Defined.

Record session (W : Type) := mkSession {
  world : W;
  conn : phase;
  reading : bool;
  sending : bool;
  tasks : list task;
  sendChannel : list outgoing;
  done_channel : list (option error);
  written : list outgoing;
  unsent : list outgoing;
  received : list Message;
  failed : list Message;
  closes : nat }.
Arguments mkSession {_} _ _ _ _ _ _ _ _ _ _ _ _.
Arguments world {_} _.
Arguments conn {_} _.
Arguments reading {_} _.
Arguments sending {_} _.
Arguments tasks {_} _.
Arguments sendChannel {_} _.
Arguments done_channel {_} _.
Arguments written {_} _.
Arguments unsent {_} _.
Arguments received {_} _.
Arguments failed {_} _.
Arguments closes {_} _.

Inductive read_event : Type :=
  | ReadFrame (is_text : bool) (msgBytes : string)
  | ReadStream (d : decoder)       (** what the decoder finds next *)
  | ReadError (err : error).       (** the connection fails *)

Inductive label : Type :=
  | LRead (ev : read_event)        (** the receive loop *)
  | LTask (i : nat)                (** the i-th goroutine *)
  | LSend (msg : Message)          (** [session.Send], called by a user *)
  | LWrite (werr : option error)   (** the send loop, with the outcome of the write *)
  | LSendStop                      (** the send loop's context is done *)
  | LDone                          (** [wait] takes an error *)
  | LCancel                        (** a context of [wait] is done *)
  | LDetach                        (** [session.server = nil] *)
  | LClose.                        (** the deferred HandleClose *)

(** ** Steps *)

Section session.
Context {W : Type}.
Context (kind : session_kind).
Context (feed : Message → act W panic feed_result) (HandleClose : act W panic unit).

Abbreviation session := (session W).

Definition set_tasks (ts : list task) (s : session) : session :=
  mkSession (world s) (conn s) (reading s) (sending s) ts (sendChannel s) (done_channel s)
    (written s) (unsent s) (received s) (failed s) (closes s).
Definition set_conn (c : phase) (s : session) : session :=
  mkSession (world s) c (reading s) (sending s) (tasks s) (sendChannel s) (done_channel s)
    (written s) (unsent s) (received s) (failed s) (closes s).
Definition set_world (w : W) (s : session) : session :=
  mkSession w (conn s) (reading s) (sending s) (tasks s) (sendChannel s) (done_channel s)
    (written s) (unsent s) (received s) (failed s) (closes s).
Definition set_queue (q : list outgoing) (s : session) : session :=
  mkSession (world s) (conn s) (reading s) (sending s) (tasks s) q (done_channel s)
    (written s) (unsent s) (received s) (failed s) (closes s).
Definition set_done (d : list (option error)) (s : session) : session :=
  mkSession (world s) (conn s) (reading s) (sending s) (tasks s) (sendChannel s) d
    (written s) (unsent s) (received s) (failed s) (closes s).
Definition set_received (ms : list Message) (s : session) : session :=
  mkSession (world s) (conn s) (reading s) (sending s) (tasks s) (sendChannel s) (done_channel s)
    (written s) (unsent s) ms (failed s) (closes s).
Definition set_failed (ms : list Message) (s : session) : session :=
  mkSession (world s) (conn s) (reading s) (sending s) (tasks s) (sendChannel s) (done_channel s)
    (written s) (unsent s) (received s) ms (closes s).
Definition stop_reading (s : session) : session :=
  mkSession (world s) (conn s) false (sending s) (tasks s) (sendChannel s) (done_channel s)
    (written s) (unsent s) (received s) (failed s) (closes s).
Definition stop_sending (lost : list outgoing) (s : session) : session :=
  mkSession (world s) (conn s) (reading s) false (tasks s) (sendChannel s) (done_channel s)
    (written s) (unsent s ++ lost) (received s) (failed s) (closes s).
Definition add_written (o : outgoing) (s : session) : session :=
  mkSession (world s) (conn s) (reading s) (sending s) (tasks s) (sendChannel s) (done_channel s)
    (written s ++ [o]) (unsent s) (received s) (failed s) (closes s).
Definition set_closed (w : W) (s : session) : session :=
  mkSession w Closed (reading s) (sending s) (tasks s) (sendChannel s) (done_channel s)
    (written s) (unsent s) (received s) (failed s) (S (closes s)).

Definition add_task (t : task) (s : session) : session := set_tasks (tasks s ++ [t]) s.

(** A new session. *)
Definition new_session (w : W) : session := mkSession w Waiting true true [] [] [] [] [] [] [] 0.

(** [session.server] *)
Definition server_nil (s : session) : bool :=
  match conn s with
  | Detached | Closed => detaches kind
  | Waiting | Returned => false
  end.

(** [errors.Is(err, io.EOF)] *)
Fixpoint is_EOF (err : error) : bool :=
  match err with
  | ErrorEOF => true
  | ErrorWithMessage _ cause => is_EOF cause
  | _ => false
  end.

(** One round of [recvLoop]; without goroutines it waits for the handler. *)
Definition recvLoop (ev : read_event) (s : session) : comp panic session :=
  if reading s && (spawns kind || match tasks s with [] => true | _ => false end) then
    match ev, reads_frames kind with
    | ReadError err, _ =>
        mret (add_task (TDone (if is_EOF err && negb (reads_frames kind) then None else Some err))
                (stop_reading s))
    | ReadFrame is_text msgBytes, true =>
        if negb is_text then mret s
        else if server_nil s then Some (Panic nil_deref)
        else mret (add_task (TBytes msgBytes) s)
    | ReadStream d, false =>
        r ← (Some (DecodeMessage d []) : comp panic ((error + Message) * decoder));
        match r.1 with
        | inl err =>
            mret (add_task (TDone (if is_EOF err then None else Some err)) (stop_reading s))
        | inr msg => mret (add_task (TFeed msg) (set_received (received s ++ [msg]) s))
        end
    | _, _ => None
    end
  else None.

(** [msgReceived] and [msgBytesReceived], up to the next blocking point. *)
Definition run_task (i : nat) (s : session) : comp panic session :=
  match tasks s !! i with
  | None => None
  | Some (TBytes msgBytes) =>
      r ← (Some (ParseBytes (scan_text msgBytes) []) : comp panic (error + Message));
      match r with
      | inl _ => mret (set_tasks (<[i := TDone (Some (ErrorString "bad jsonrpc message"))]> (tasks s)) s)
      | inr msg =>
          mret (set_tasks (<[i := TFeed msg]> (tasks s)) (set_received (received s ++ [msg]) s))
      end
  | Some (TFeed msg) =>
      if server_nil s then Some (Panic nil_deref)
      else
        match feed msg (world s) with
        | None => None
        | Some (Panic p, _) => Some (Panic p)
        | Some (Ret (_, Some err), w) =>
            mret (set_tasks (<[i := TDone (Some (ErrorWithMessage "actor.Feed" err))]> (tasks s))
              (set_failed (failed s ++ [msg]) (set_world w s)))
        | Some (Ret (Some resmsg, None), w) =>
            mret (set_tasks (<[i := TSend (Answer msg resmsg)]> (tasks s)) (set_world w s))
        | Some (Ret (None, None), w) => mret (set_tasks (delete i (tasks s)) (set_world w s))
        end
  | Some (TSend o) =>
      if (length (sendChannel s) <? 100)%nat then
        mret (set_tasks (delete i (tasks s)) (set_queue (sendChannel s ++ [o]) s))
      else None
  | Some (TDone err) =>
      if (length (done_channel s) <? 10)%nat then
        mret (set_tasks (delete i (tasks s)) (set_done (done_channel s ++ [err]) s))
      else None
  end.

(** One round of [sendLoop]: it ends when a message has no JSON form or cannot
    be written, without telling [wait]. *)
Definition sendLoop (werr : option error) (s : session) : option session :=
  if sending s then
    match sendChannel s with
    | [] => None
    | o :: q =>
        let s := set_queue q s in
        match MessageBytes (out_message o), werr with
        | Some _, None => Some (add_written o s)
        | _, _ => Some (stop_sending [o] s)
        end
    end
  else None.

(** [session.Send] *)
Definition Send (msg : Message) (s : session) : option session :=
  if (length (sendChannel s) <? 100)%nat then Some (set_queue (sendChannel s ++ [Push msg]) s) else None.

(** The two ways out of [wait]: an error, or a context that is done. *)
Definition wait_done (s : session) : option session :=
  match conn s, done_channel s with
  | Waiting, _ :: d => Some (set_done d (set_conn Returned s))
  | _, _ => None
  end.

Definition wait_cancelled (s : session) : option session :=
  match conn s with Waiting => Some (set_conn Returned s) | _ => None end.

(** What follows [wait]: the pointer to the server, then the deferred call. *)
Definition detach (s : session) : option session :=
  match conn s with
  | Returned => if detaches kind then Some (set_conn Detached s) else None
  | _ => None
  end.

Definition close (s : session) : comp panic session :=
  if bool_decide (conn s = if detaches kind then Detached else Returned) then
    match HandleClose (world s) with
    | None => None
    | Some (Panic p, _) => Some (Panic p)
    | Some (Ret _, w) => mret (set_closed w s)
    end
  else None.

Definition step (l : label) (s : session) : comp panic session :=
  match l with
  | LRead ev => recvLoop ev s
  | LTask i => run_task i s
  | LSend msg => Ret <$> Send msg s
  | LWrite werr => Ret <$> sendLoop werr s
  | LSendStop => if sending s then mret (stop_sending [] s) else None
  | LDone => Ret <$> wait_done s
  | LCancel => Ret <$> wait_cancelled s
  | LDetach => Ret <$> detach s
  | LClose => close s
  end.

Fixpoint run (ls : list label) (s : session) : comp panic session :=
  match ls with
  | [] => mret s
  | l :: ls => s ← step l s; run ls s
  end.

(** The actor may be shared: between two steps of a session, other sessions and
    users of the actor may change its world. *)
Inductive reachable : session → Prop :=
  | reach_new w : reachable (new_session w)
  | reach_world w s : reachable s → reachable (set_world w s)
  | reach_step l s s' : reachable s → step l s = Some (Ret s') → reachable s'.

(** ** What every execution keeps *)

(** The promise of an actor: if it returns, it has answered. *)
Definition responder : Prop := ∀ msg w r w',
  message_ok msg → feed msg w = Some (Ret r, w') → answered msg r.

(** The requests in a list of messages. *)
Definition requests (ms : list Message) : list Message :=
  omap (λ m, match m with MRequest _ => Some m | _ => None end) ms.

(** The requests that outgoing messages answer, and those a goroutine holds. *)
Definition out_requests : list outgoing → list Message :=
  omap (λ o, match o with Answer req _ => Some req | Push _ => None end).

Definition task_requests : list task → list Message :=
  omap (λ t, match t with
             | TFeed (MRequest m) => Some (MRequest m)
             | TSend (Answer req _) => Some req
             | _ => None
             end).

(** An answer to a request, with its id and trace id. *)
Definition answer_ok (o : outgoing) : Prop :=
  match o with
  | Answer req resmsg => ∃ m, req = MRequest m ∧ reply_to m resmsg
  | Push _ => True
  end.

Definition task_ok (t : task) : Prop :=
  match t with
  | TFeed msg => message_ok msg
  | TSend o => answer_ok o
  | TBytes _ | TDone _ => True
  end.
Record Inv (s : session) : Prop := {
  inv_tasks : Forall task_ok (tasks s);
  inv_out : Forall answer_ok (written s ++ unsent s ++ sendChannel s);
  inv_count : requests (received s) ≡ₚ
    out_requests (written s ++ unsent s ++ sendChannel s) ++ task_requests (tasks s) ++ requests (failed s);
  inv_unsent : sending s = true → unsent s = [];
  inv_queue : (length (sendChannel s) ≤ 100)%nat;
  inv_done : (length (done_channel s) ≤ 10)%nat;
  inv_closes : closes s = if decide (conn s = Closed) then 1%nat else 0%nat }.

Lemma tasks_split (ts : list task) i t :
  ts !! i = Some t →
  ∃ l1 l2, ts = l1 ++ t :: l2 ∧ delete i ts = l1 ++ l2 ∧ ∀ t', <[i := t']> ts = l1 ++ t' :: l2.
Proof using Type.
  intros Ht. exists (take i ts), (drop (S i) ts). split_and!.
  - by rewrite take_drop_middle.
  - by rewrite delete_take_drop.
  - intros t'. rewrite insert_take_drop; [done|by eapply lookup_lt_Some].
Qed.

Lemma answered_request m r :
  answered (MRequest m) r →
  (∃ resp, r = (Some resp, None) ∧ reply_to m resp) ∨ (∃ err, r = (None, Some err)).
Proof using Type. intros [H|(resp & body & ->)]; [by left|right; by eexists]. Qed.

Lemma request_tasks_TFeed msg : task_requests [TFeed msg] = requests [msg].
Proof using Type. by destruct msg. Qed.

Lemma parsed_ok d opts r d' msg :
  DecodeMessage d opts = Ret (r, d') → r = inr msg → message_ok msg.
Proof using Type.
  intros Hd ->. unfold DecodeMessage in Hd. destruct (decoder_Decode d) as [[err|j] d1]; [by injection Hd|].
  destruct (decode_union j) as [err|un] eqn:Hj; [by injection Hd|].
  destruct (union_message_spec un (options_or_default opts) (decode_union_ok _ _ Hj)) as (r & Hr & Hok).
  rewrite Hr in Hd. injection Hd as -> _. by apply (uro_ok _ _ _ (Hok msg eq_refl)).
Qed.

Lemma add_task_Inv t s :
  Inv s → task_ok t → task_requests [t] = [] → Inv (add_task t s).
Proof using Type.
  intros [H1 H2 H3 H4 H5 H6 H7] Ht Hr. split; simpl; [by apply Forall_app; split; [|constructor]|done| |done..].
  unfold task_requests in *. by rewrite omap_app, Hr, app_nil_r.
Qed.

Lemma recvLoop_Inv ev s s' : Inv s → recvLoop ev s = Some (Ret s') → Inv s'.
Proof using Type.
  intros HI. unfold recvLoop. destruct (reading s && _); [|done].
  destruct ev as [is_text msgBytes|d|err], (reads_frames kind); try done.
  - destruct is_text; [|by intros [= <-]]. cbn [negb]. destruct (server_nil s); [done|].
    intros [= <-]. by apply add_task_Inv.
  - destruct (DecodeMessage d []) as [[[err|msg] d']|] eqn:Hd; cbn; [| |done]; intros [= <-].
    + by apply (add_task_Inv (TDone _) (stop_reading s)); [destruct HI; split|..].
    + destruct HI as [H1 H2 H3 H4 H5 H6 H7]. split; simpl; try done.
      * apply Forall_app; split; [done|]. constructor; [|done]. by eapply parsed_ok.
      * unfold requests, task_requests in *. rewrite !omap_app, H3.
        pose proof (request_tasks_TFeed msg) as Hm. unfold task_requests, requests in Hm. rewrite Hm.
        rewrite <- !app_assoc. do 2 f_equiv. apply Permutation_app_comm.
  - intros [= <-]. by apply (add_task_Inv (TDone _) (stop_reading s)); [destruct HI; split|..].
  - intros [= <-]. by apply (add_task_Inv (TDone _) (stop_reading s)); [destruct HI; split|..].
Qed.

(** The message in a frame is received and fed next. *)
Lemma parsed_frame_Inv l1 l2 msgBytes msg s :
  Inv s → tasks s = l1 ++ TBytes msgBytes :: l2 → message_ok msg →
  Inv (set_tasks (l1 ++ TFeed msg :: l2) (set_received (received s ++ [msg]) s)).
Proof using Type.
  intros [H1 H2 H3 H4 H5 H6 H7] Hts Hok. rewrite Hts in *. split; simpl; try done.
  - apply Forall_app in H1 as [Ha [_ Hb]%Forall_cons]. apply Forall_app; split; [done|by constructor].
  - pose proof (request_tasks_TFeed msg) as Hm.
    change (TFeed msg :: l2) with ([TFeed msg] ++ l2).
    unfold requests, task_requests in *. rewrite !omap_app, H3, !omap_app, Hm. simpl. solve_Permutation.
Qed.

(** A goroutine goes from [t] to [ts'], which hold the same requests but for
    those that fail. *)
Lemma replace_task_Inv l1 t ts' l2 fs w s :
  Inv s → tasks s = l1 ++ t :: l2 → Forall task_ok ts' →
  task_requests [t] ≡ₚ task_requests ts' ++ requests fs →
  Inv (set_tasks (l1 ++ ts' ++ l2) (set_failed (failed s ++ fs) (set_world w s))).
Proof using Type.
  intros [H1 H2 H3 H4 H5 H6 H7] Hts Hok Hr. rewrite Hts in *. split; simpl; try done.
  - rewrite !Forall_app in *. rewrite Forall_cons in H1. tauto.
  - change (t :: l2) with ([t] ++ l2) in H3.
    unfold requests, task_requests in *. rewrite !omap_app in *. rewrite H3, Hr. solve_Permutation.
Qed.

Lemma set_failed_nil w s : set_failed (failed s ++ []) (set_world w s) = set_world w s.
Proof using Type. by rewrite app_nil_r. Qed.

Lemma queue_Inv s o ts :
  Inv s → answer_ok o → Forall task_ok ts → (length (sendChannel s) < 100)%nat →
  task_requests (tasks s) ≡ₚ out_requests [o] ++ task_requests ts →
  Inv (set_tasks ts (set_queue (sendChannel s ++ [o]) s)).
Proof using Type.
  intros [H1 H2 H3 H4 H5 H6 H7] Ho Hts Hlen Hr. split; simpl; try done.
  - rewrite !Forall_app in *. rewrite Forall_singleton. tauto.
  - unfold out_requests in *. rewrite !omap_app in *. rewrite H3, Hr. solve_Permutation.
  - rewrite length_app; simpl. lia.
Qed.

Lemma done_Inv s e ts :
  Inv s → Forall task_ok ts → (length (done_channel s) < 10)%nat →
  task_requests (tasks s) ≡ₚ task_requests ts →
  Inv (set_tasks ts (set_done (done_channel s ++ [e]) s)).
Proof using Type.
  intros [H1 H2 H3 H4 H5 H6 H7] Hts Hlen Hr. split; simpl; try done.
  - by rewrite <- Hr.
  - rewrite length_app; simpl. lia.
Qed.

(** The body of [run_task] for [TFeed]. *)
Lemma feed_Inv i l1 l2 msg s s' :
  responder → Inv s → tasks s = l1 ++ TFeed msg :: l2 →
  delete i (tasks s) = l1 ++ l2 → (∀ t', <[i := t']> (tasks s) = l1 ++ t' :: l2) →
  match feed msg (world s) with
  | None => None
  | Some (Panic p, _) => Some (Panic p)
  | Some (Ret (_, Some err), w) =>
      mret (set_tasks (<[i := TDone (Some (ErrorWithMessage "actor.Feed" err))]> (tasks s))
        (set_failed (failed s ++ [msg]) (set_world w s)))
  | Some (Ret (Some resmsg, None), w) =>
      mret (set_tasks (<[i := TSend (Answer msg resmsg)]> (tasks s)) (set_world w s))
  | Some (Ret (None, None), w) => mret (set_tasks (delete i (tasks s)) (set_world w s))
  end = (Some (Ret s') : comp panic session) → Inv s'.
Proof using Type.
  intros Hresp HI Hts Hdel Hins.
  assert (message_ok msg) as Hok.
  { pose proof (inv_tasks s HI) as H1. rewrite Hts, Forall_app, Forall_cons in H1. tauto. }
  destruct (feed msg (world s)) as [[[[reply err]|p] w]|] eqn:Hf; [|done..].
  pose proof (Hresp _ _ _ _ Hok Hf) as Hans.
  assert (∀ ts', Forall task_ok ts' → task_requests [TFeed msg] ≡ₚ task_requests ts' →
    Inv (set_tasks (l1 ++ ts' ++ l2) (set_world w s))) as Hkeep.
  { intros ts' Hts' Hr. pose proof (replace_task_Inv l1 (TFeed msg) ts' l2 [] w s HI Hts Hts') as H.
    rewrite set_failed_nil in H. apply H. by rewrite app_nil_r. }
  destruct reply as [resmsg|], err as [err|]; rewrite ?Hins, ?Hdel; intros Hs'; injection Hs' as <-.
  1, 3: apply (replace_task_Inv l1 (TFeed msg) [TDone _] l2 [msg] w s HI Hts); [by constructor|];
    by rewrite request_tasks_TFeed.
  - apply (Hkeep [TSend (Answer msg resmsg)]); destruct msg as [m|m|m|m]; try done.
    apply answered_request in Hans as [(resp & [= <-] & Hr)|(? & ?)]; [|done].
    constructor; [by exists m|done].
  - apply (Hkeep []); [done|]. destruct msg as [m|m|m|m]; try done.
    by apply answered_request in Hans as [(? & ? & _)|(? & ?)].
Qed.

Lemma run_task_Inv i s s' : responder → Inv s → run_task i s = Some (Ret s') → Inv s'.
Proof using Type.
  intros Hresp HI. unfold run_task. destruct (tasks s !! i) as [t|] eqn:Ht; [|done].
  destruct (tasks_split _ _ _ Ht) as (l1 & l2 & Hts & Hdel & Hins).
  pose proof (inv_tasks s HI) as H1. rewrite Hts, Forall_app, Forall_cons in H1.
  destruct t as [msgBytes|msg|o|err].
  - unfold ParseBytes. destruct (DecodeMessage (scan_text msgBytes) []) as [[r d']|] eqn:Hd; [|done].
    cbn. destruct r as [err|msg]; rewrite Hins; intros [= <-].
    + pose proof (replace_task_Inv l1 (TBytes msgBytes) [TDone (Some (ErrorString "bad jsonrpc message"))]
        l2 [] (world s) s HI Hts) as H.
      rewrite set_failed_nil in H. destruct s. by apply H; [constructor|].
    + eapply parsed_frame_Inv; [done|done|]. by eapply parsed_ok.
  - destruct (server_nil s); [done|]. by apply (feed_Inv i l1 l2).
  - destruct (Nat.ltb_spec (length (sendChannel s)) 100); [|done]. rewrite Hdel. intros [= <-].
    apply queue_Inv; [done|apply H1|apply Forall_app; tauto|done|]. rewrite Hts.
    unfold task_requests, out_requests. rewrite !omap_app. destruct o; simpl; [|done].
    by rewrite <- Permutation_middle.
  - destruct (Nat.ltb_spec (length (done_channel s)) 10); [|done]. rewrite Hdel. intros [= <-].
    apply done_Inv; [done|apply Forall_app; tauto|done|]. rewrite Hts.
    unfold task_requests. by rewrite !omap_app.
Qed.

Lemma sendLoop_Inv werr s s' : Inv s → sendLoop werr s = Some s' → Inv s'.
Proof using Type.
  intros [H1 H2 H3 H4 H5 H6 H7]. unfold sendLoop. destruct (sending s) eqn:Hs; [|done].
  destruct (sendChannel s) as [|o q] eqn:Hq; [done|].
  pose proof (H4 eq_refl) as Hu. rewrite Hu in H2, H3. simpl in *.
  assert (∀ ws us, ws ++ us = written s ++ [o] → ∀ r snd, (snd = true → us = []) →
    Inv (mkSession (world s) (conn s) r snd (tasks s) q (done_channel s) ws us (received s) (failed s)
      (closes s))) as Hkeep.
  { intros ws us Hws r snd Hsnd.
    assert (ws ++ us ++ q = written s ++ o :: q) as Heq by (by rewrite (app_assoc ws), Hws, <- app_assoc).
    split; simpl; rewrite ?Heq; try done. lia. }
  destruct (MessageBytes (out_message o)), werr; intros [= <-];
    apply Hkeep; simpl; rewrite ?Hu, ?app_nil_r; done.
Qed.

Lemma session_step_Inv l s s' : responder → Inv s → step l s = Some (Ret s') → Inv s'.
Proof using Type.
  intros Hresp HI. pose proof HI as [H1 H2 H3 H4 H5 H6 H7].
  destruct l; cbn [step]; unfold Send, wait_done, wait_cancelled, detach, close.
  - by apply recvLoop_Inv.
  - by apply run_task_Inv.
  - destruct (Nat.ltb_spec (length (sendChannel s)) 100); [|done]. intros [= <-]. split; simpl; try done.
    + rewrite !Forall_app in *. rewrite Forall_singleton. simpl; tauto.
    + unfold out_requests in *. rewrite !omap_app in *. rewrite H3. simpl. by rewrite app_nil_r.
    + rewrite length_app; simpl. lia.
  - destruct (sendLoop werr s) eqn:Hsend; [|done]. intros [= <-]. by eapply sendLoop_Inv.
  - destruct (sending s); [|done]. intros [= <-]. split; simpl; rewrite ?app_nil_r; done.
  - destruct (conn s) eqn:Hc, (done_channel s) eqn:Hd; try done. intros [= <-].
    split; simpl in *; try done. lia.
  - destruct (conn s) eqn:Hc; try done. by intros [= <-].
  - destruct (conn s) eqn:Hc, (detaches kind); try done. by intros [= <-].
  - case_bool_decide as Hc; [|done]. destruct (HandleClose (world s)) as [[[[]|p] w]|]; try done.
    intros [= <-]. split; simpl; try done. rewrite H7, Hc. by destruct (detaches kind).
Qed.

Lemma session_Inv s : responder → reachable s → Inv s.
Proof using Type.
  intros Hresp. induction 1 as [w|w s _ IH|l s s' _ IH Hs]; [|by destruct IH|by eapply session_step_Inv].
  by split; simpl; try constructor; try lia.
Qed.

(** ** Without goroutines *)

(** At most one message is being handled, and answers queue up in order. *)
Definition Ordered (s : session) : Prop :=
  (length (tasks s) ≤ 1)%nat ∧
  (requests (failed s) = [] →
    requests (received s) = out_requests (written s ++ unsent s ++ sendChannel s) ++ task_requests (tasks s)).

Lemma one_task (ts : list task) i t : (length ts ≤ 1)%nat → ts !! i = Some t → ts = [t] ∧ i = 0%nat.
Proof using Type. destruct ts as [|t' [|]]; simpl; [done| |lia]. destruct i; [by intros _ [= ->]|done]. Qed.

(** The fields of a session after a step. *)
Ltac session_fields :=
  unfold Ordered, add_task;
  cbn [tasks set_tasks set_received set_failed set_world set_queue set_done stop_reading stop_sending
       add_written failed received written unsent sendChannel app length].

Lemma recvLoop_Ordered ev s s' :
  spawns kind = false → Ordered s → recvLoop ev s = Some (Ret s') → Ordered s'.
Proof using Type.
  intros Hk [Hlen Hord]. unfold recvLoop. rewrite Hk. destruct (tasks s) as [|t ts] eqn:Hts;
    [|by destruct (reading s)]. destruct (reading s); [|done]. cbn [andb orb].
  assert (∀ t r, task_requests [t] = [] →
    Ordered (add_task t (if r : bool then stop_reading s else s))) as Hadd.
  { intros t r Ht. destruct r; session_fields; rewrite Hts; cbn [app]; by rewrite Ht. }
  destruct ev as [is_text msgBytes|d|err], (reads_frames kind); try done.
  - destruct is_text; [|intros [= <-]; unfold Ordered; rewrite Hts; done]. cbn [negb].
    destruct (server_nil s); [done|]. intros [= <-]. by apply (Hadd _ false).
  - destruct (DecodeMessage d []) as [[[err|msg] d']|] eqn:Hd; cbn; [| |done]; intros [= <-].
    + by apply (Hadd _ true).
    + session_fields. rewrite Hts. split; [simpl; lia|]. intros Hf. cbn [app].
      rewrite request_tasks_TFeed. unfold requests in *. rewrite omap_app, Hord by done.
      by rewrite app_nil_r.
  - intros [= <-]. by apply (Hadd _ true).
  - intros [= <-]. by apply (Hadd _ true).
Qed.

Lemma run_task_Ordered i s s' :
  responder → Inv s → Ordered s → run_task i s = Some (Ret s') → Ordered s'.
Proof using Type.
  intros Hresp HI [Hlen Hord]. unfold run_task. destruct (tasks s !! i) as [t|] eqn:Ht; [|done].
  destruct (one_task _ _ _ Hlen Ht) as [Hts ->]. pose proof (inv_tasks s HI) as Hok.
  rewrite Hts in *.
  change (delete 0%nat [t]) with (@nil task).
  destruct t as [msgBytes|msg|o|err]; cbn [insert list_insert].
  - destruct (ParseBytes (scan_text msgBytes) []) as [[err|msg]|]; cbn; [| |done]; intros [= <-];
      session_fields;
      [done|]. split; [lia|]. intros Hf. rewrite request_tasks_TFeed. unfold requests in *.
    rewrite omap_app, Hord by done. by rewrite app_nil_r.
  - destruct (server_nil s); [done|].
    destruct (feed msg (world s)) as [[[[reply err]|p] w]|] eqn:Hf; [|done..].
    apply Forall_cons in Hok as [Hok _]. pose proof (Hresp _ _ _ _ Hok Hf) as Hans.
    rewrite request_tasks_TFeed in Hord.
    destruct reply as [resmsg|], err as [err|]; intros Hs'; injection Hs' as <-;
      session_fields; (split; [lia|]).
    1, 3: intros Hfl; unfold requests in Hfl, Hord; rewrite omap_app in Hfl;
      apply app_eq_nil in Hfl as [Hfl Hm]; specialize (Hord Hfl); by rewrite Hm in Hord.
    + intros Hfl. specialize (Hord Hfl). destruct msg as [m|m|m|m]; try done.
    + intros Hfl. specialize (Hord Hfl). destruct msg as [m|m|m|m]; try done.
      by apply answered_request in Hans as [(? & ? & _)|(? & ?)].
  - destruct (length (sendChannel s) <? 100)%nat; [|done]. intros [= <-]. session_fields. split; [lia|].
    intros Hfl. rewrite (Hord Hfl). unfold out_requests, task_requests. rewrite !omap_app, <- !app_assoc.
    do 3 f_equal. by destruct o.
  - destruct (length (done_channel s) <? 10)%nat; [|done]. intros [= <-]. session_fields. split; [lia|]. done.
Qed.

Lemma sendLoop_Ordered werr s s' : Inv s → Ordered s → sendLoop werr s = Some s' → Ordered s'.
Proof using Type.
  intros HI [Hlen Hord]. unfold sendLoop. destruct (sending s) eqn:Hs; [|done].
  destruct (sendChannel s) as [|o q] eqn:Hq; [done|]. pose proof (inv_unsent s HI Hs) as Hu.
  rewrite Hu in Hord.
  destruct (MessageBytes (out_message o)), werr; intros [= <-]; unfold Ordered; simpl;
    (split; [done|]); intros Hfl; rewrite (Hord Hfl), Hu, <- ?app_assoc; done.
Qed.

Lemma step_Ordered l s s' :
  spawns kind = false → responder → Inv s → Ordered s → step l s = Some (Ret s') → Ordered s'.
Proof using Type.
  intros Hk Hresp HI Ho. pose proof Ho as [Hlen Hord].
  destruct l; cbn [step]; unfold Send, wait_done, wait_cancelled, detach, close.
  - by apply recvLoop_Ordered.
  - by apply run_task_Ordered.
  - destruct (length (sendChannel s) <? 100)%nat; [|done]. intros [= <-]. split; simpl; [done|].
    intros Hfl. rewrite (Hord Hfl). unfold out_requests. rewrite !omap_app. simpl. by rewrite app_nil_r.
  - destruct (sendLoop werr s) eqn:Hsend; [|done]. intros [= <-]. by eapply sendLoop_Ordered.
  - destruct (sending s); [|done]. intros [= <-]. split; simpl; rewrite ?app_nil_r; done.
  - destruct (conn s), (done_channel s); try done. by intros [= <-].
  - destruct (conn s); try done. by intros [= <-].
  - destruct (conn s), (detaches kind); try done. by intros [= <-].
  - case_bool_decide; [|done]. destruct (HandleClose (world s)) as [[[[]|p] w]|]; try done. by intros [= <-].
Qed.

Lemma reachable_Ordered s : spawns kind = false → responder → reachable s → Ordered s.
Proof using Type.
  intros Hk Hresp. induction 1 as [w|w s _ IH|l s s' Hr IH Hs]; [by split; simpl; [lia|]|exact IH|].
  eapply step_Ordered; [done|done| |exact IH|exact Hs]. by apply session_Inv.
Qed.

(** Once the send loop has ended nothing is written any more. *)
Lemma step_mute l s s' :
  sending s = false → step l s = Some (Ret s') → sending s' = false ∧ written s' = written s.
Proof using Type.
  intros Hs. destruct l; cbn [step]; unfold Send, wait_done, wait_cancelled, detach, close.
  - unfold recvLoop. destruct (reading s && _); [|done].
    destruct ev as [[] b|d|err], (reads_frames kind); try done; try (by intros [= <-]).
    + cbn [negb]. destruct (server_nil s); [done|]. by intros [= <-].
    + destruct (DecodeMessage d []) as [[[err|msg] d']|]; cbn; [| |done]; by intros [= <-].
  - unfold run_task. destruct (tasks s !! i) as [[b|msg|o|e]|]; [| | | |done].
    + destruct (ParseBytes (scan_text b) []) as [[err|msg]|]; cbn; [| |done]; by intros [= <-].
    + destruct (server_nil s); [done|].
      destruct (feed msg (world s)) as [[[[[r|] [err|]]|p] w]|]; try done; by intros [= <-].
    + destruct (length (sendChannel s) <? 100)%nat; [|done]. by intros [= <-].
    + destruct (length (done_channel s) <? 10)%nat; [|done]. by intros [= <-].
  - destruct (length (sendChannel s) <? 100)%nat; [|done]. by intros [= <-].
  - unfold sendLoop. by rewrite Hs.
  - by rewrite Hs.
  - destruct (conn s), (done_channel s); try done. by intros [= <-].
  - destruct (conn s); try done. by intros [= <-].
  - destruct (conn s), (detaches kind); try done. by intros [= <-].
  - case_bool_decide; [|done]. destruct (HandleClose (world s)) as [[[[]|p] w]|]; try done. by intros [= <-].
Qed.

Lemma run_mute ls s s' :
  sending s = false → run ls s = Some (Ret s') → sending s' = false ∧ written s' = written s.
Proof using Type.
  revert s. induction ls as [|l ls IH]; intros s Hs; cbn [run]; [by intros [= <-]|].
  destruct (step l s) as [[s1|p]|] eqn:Hl; try done. intros Hr.
  destruct (step_mute l s s1 Hs Hl) as [Hs1 Hw1]. destruct (IH s1 Hs1 Hr) as [? ?]. split; congruence.
Qed.
End session.

(** ** Sessions over an actor *)

(** The request that a session feeds to its actor. *)
Definition session_request {Ctx HReq Sess} (kind : session_kind) (ctx : Ctx) (httpRequest : option HReq)
    (self : Sess) (msg : Message) : RPCRequest Ctx HReq Sess :=
  let req := NewRPCRequest ctx msg (session_transport kind) in
  WithSession self match httpRequest with Some r => WithHTTPRequest r req | None => req end.

Lemma session_request_msg {Ctx HReq Sess} kind (ctx : Ctx) (r : option HReq) (self : Sess) msg :
  request_msg (session_request kind ctx r self msg) = msg.
Proof. by destruct r. Qed.

(** An actor in good order keeps the promise that sessions rely on. *)
Lemma actor_responder {W Ctx HReq Sess S : Type} (h : @Heap W Ctx HReq Sess S)
    `{HD : MapDecoder, !MapDecoderOk, HS : SchemaOps S, !SchemaLaws S} kind ctx r self fuel l :
  (∀ msg l a, h !! l = Some a → actor_ready (session_request kind ctx r self msg) a) →
  responder (λ msg, Feed h fuel l (session_request kind ctx r self msg)).
Proof.
  intros Hready msg w res w' Hok Hf.
  pose proof (Feed_answered h fuel l (session_request kind ctx r self msg) w res w') as Hans.
  rewrite session_request_msg in Hans. apply Hans; [|done|done]. intros l' a. apply Hready.
Qed.

(** The invariant in the words of the theorem below. *)
Lemma Inv_answers {W : Type} (s : session W) :
  Inv s →
  requests (received s) ≡ₚ
    out_requests (written s ++ unsent s ++ sendChannel s) ++ task_requests (tasks s) ++ requests (failed s) ∧
  (∀ req resmsg, Answer req resmsg ∈ written s →
    req ∈ received s ∧ ∃ m, req = MRequest m ∧ reply_to m resmsg) ∧
  (length (sendChannel s) ≤ 100)%nat ∧ (length (done_channel s) ≤ 10)%nat ∧ (closes s ≤ 1)%nat.
Proof.
  intros [H1 H2 H3 H4 H5 H6 H7].
  split; [done|]. split; [|split_and!; [done..|rewrite H7; case_decide; lia]].
  intros req resmsg Hin. split.
  - assert (req ∈ requests (received s)) as Hreq.
    { rewrite H3. apply elem_of_app. left. apply list_elem_of_omap. exists (Answer req resmsg).
      split; [|done]. apply elem_of_app. by left. }
    apply list_elem_of_omap in Hreq as (req' & Hreq & Heq). by destruct req'; [injection Heq as <-|..].
  - rewrite Forall_app, Forall_forall in H2. by apply (proj1 H2) in Hin.
Qed.



(** *** An actor for examples: [echo], and [func], whose result has no JSON form *)

Definition func_callback : @RequestCallback nat unit unit unit := λ _ _ w, Some (Ret (Val AFunc, None), S w).

Definition stream_heap : @Heap nat unit unit unit Schema :=
  {[ 0%nat := mkActor true true [("echo", mkHandler demo_callback None); ("func", mkHandler func_callback None)]
                None None [] ]}.

Definition stream_feed (kind : session_kind) (msg : Message) : act nat panic feed_result :=
  @Feed nat unit unit unit Schema stream_heap _ struct_decoder 1 0 (session_request kind tt None tt msg).

Definition no_close : act nat panic unit := mret tt.

Lemma stream_feed_responder kind : responder (stream_feed kind).
Proof.
  apply (@actor_responder nat unit unit unit Schema stream_heap struct_decoder struct_decoder_ok
    Schema_ops Schema_laws). intros msg l a. unfold stream_heap, Heap.
  intros Ha. apply lookup_singleton_Some in Ha as [_ <-].
  split; [done|]. split; [|done]. intros method handler.
  unfold getHandler. simpl. case_decide; [|case_decide; [|done]]; intros [= <-]; (split; [|done]);
    intros params w; by eexists _, _.
Qed.

Definition call_json (method : string) (id : Z) : decoder :=
  [ScanValue (JObj [("jsonrpc", JStr "2.0"); ("id", JNum (Itoa id)); ("method", JStr method);
                    ("params", JArr [])])].

(** A request is read, handled, answered and written. *)
Definition one_call (kind : session_kind) (method : string) (id : Z) : list label :=
  [LRead (ReadStream (call_json method id)); LTask 0; LTask 0; LWrite None].

Definition session_end (kind : session_kind) (ls : list label) : session nat :=
  match run kind (stream_feed kind) no_close ls (new_session 0%nat) with
  | Some (Ret s) => s
  | _ => new_session 0%nat
  end.

Lemma session_run_reachable {W : Type} kind (feed : Message → act W panic feed_result) HandleClose ls s s' :
  reachable kind feed HandleClose s → run kind feed HandleClose ls s = Some (Ret s') →
  reachable kind feed HandleClose s'.
Proof.
  revert s. induction ls as [|l ls IH]; intros s Hs; cbn [run]; [by intros [= <-]|].
  destruct (step kind feed HandleClose l s) as [[s1|p]|] eqn:Hl; try done. cbn [mbind comp_mbind].
  apply IH. by eapply reach_step.
Qed.

Lemma session_end_reachable kind ls : reachable kind (stream_feed kind) no_close (session_end kind ls).
Proof.
  unfold session_end. destruct (run _ _ _ _ _) as [[s|p]|] eqn:Hr; [|apply reach_new..].
  eapply session_run_reachable; [apply reach_new|done].
Qed.

Definition two_calls : session nat :=
  session_end TCPSession (one_call TCPSession "echo" 1 ++ one_call TCPSession "echo" 2).


Definition two_calls_in_order : session nat :=
  session_end (Http2Session false)
    (one_call (Http2Session false) "echo" 1 ++ one_call (Http2Session false) "echo" 2).


(** ** Hazards *)

(** C36. One bad result silences a session.  When a handler returns a result
    without a JSON form, the send loop ends but the session does not: it goes
    on reading and calling handlers (the second request has been handled and
    its answer waits), and whatever happens afterwards, no answer is written
    any more. *)
Theorem session_mute :
  ∃ s, run TCPSession (stream_feed TCPSession) no_close
      (one_call TCPSession "func" 1 ++ [LRead (ReadStream (call_json "echo" 2)); LTask 0; LTask 0])
      (new_session 0%nat) = Some (Ret s) ∧
    conn s = Waiting ∧ reading s = true ∧ done_channel s = [] ∧ tasks s = [] ∧
    world s = 2%nat ∧ length (sendChannel s) = 1%nat ∧ written s = [] ∧
    ∀ ls s', run TCPSession (stream_feed TCPSession) no_close ls s = Some (Ret s') → written s' = [].
Proof.
  eexists. split; [by vm_compute|]. split_and!; [done..|].
  intros ls s' Hrun. by apply run_mute in Hrun as [_ Hw].
Qed.

(** C37. A frame can crash the server.  When a WebSocket session has ended,
    because its peer sent a frame that is not JSON-RPC, its server pointer is
    set to nil before the connection is closed; if the receive loop reads
    another text frame in between, it dereferences the nil pointer, in a
    goroutine that recovers from nothing. *)
Theorem ws_session_crash {W : Type} SpawnGoroutine (feed : Message → act W panic feed_result) HandleClose w :
  ∃ s, run (WSSession SpawnGoroutine) feed HandleClose
      [LRead (ReadFrame true ""); LTask 0; LTask 0; LDone; LDetach] (new_session w) = Some (Ret s) ∧
    world s = w ∧
    ∀ msgBytes, step (WSSession SpawnGoroutine) feed HandleClose (LRead (ReadFrame true msgBytes)) s
      = Some (Panic nil_deref).
Proof. destruct SpawnGoroutine; eexists; (split; [by vm_compute|]); by split. Qed.
