(* ===== verification/Servers.v ===== *)
(** * The four stream servers

    Each server is a session of its kind: net/tcp_server.go,
    net/vsock_server.go, net/ws_server.go and net/http2_server.go with
    net/http2_session.go.  This file has the four instances of Session.v and
    the choice that the HTTP/2 handler and the gateway make before a session
    starts. *)

From S2P Require Import Prelude GoMap Strconv Values Messages Parse JsonText.
From S2P Require Import Methods Schema Validator Actor Http Http1 Session.
From stdpp Require Import options.
#[local] Open Scope Z_scope.

(** The goroutines of each session, [session.wait] and what its caller does
    afterwards: [spawn] is the option SpawnGoroutine. *)

Section sessions.
Context {W : Type} (feed : Message → act W panic feed_result) (HandleClose : act W panic unit).

Definition TCPSession_step : label → session W → comp panic (session W) :=
  step TCPSession feed HandleClose.

Definition VsockSession_step : label → session W → comp panic (session W) :=
  step VsockSession feed HandleClose.

Definition WSSession_step (spawn : bool) : label → session W → comp panic (session W) :=
  step (WSSession spawn) feed HandleClose.

Definition Http2Session_step (spawn : bool) : label → session W → comp panic (session W) :=
  step (Http2Session spawn) feed HandleClose.

(** Over TCP and vsock a session has no pointer to lose: none of its steps
    panics unless the actor does. *)
Lemma stream_session_safe kind l (s : session W) p :
  detaches kind = false → step kind feed HandleClose l s = Some (Panic p) →
  (∃ msg w, feed msg (world s) = Some (Panic p, w)) ∨ ∃ w, HandleClose (world s) = Some (Panic p, w).
Proof using Type.
  intros Hk. assert (server_nil kind s = false) as Hn by (unfold server_nil; by destruct (conn s)).
  assert (∀ d opts, ∃ r, DecodeMessage d opts = Ret r) as Hdec.
  { intros d opts. destruct (DecodeMessage_total d opts) as (r & d' & ->). by eexists. }
  destruct l; cbn [step].
  - unfold recvLoop. rewrite Hn. destruct (reading s && _); [|done].
    destruct ev as [[] b|d|err], (reads_frames kind); try done.
    destruct (Hdec d []) as [[[err|msg] d'] ->]; done.
  - unfold run_task. rewrite Hn. destruct (tasks s !! i) as [[b|msg|o|e]|]; [| | | |done].
    + unfold ParseBytes. destruct (Hdec (scan_text b) []) as [[[err|msg] d'] ->]; done.
    + destruct (feed msg (world s)) as [[[[[m|] [err|]]|p'] w]|] eqn:Hf; try done.
      intros [= <-]. left. by exists msg, w.
    + by destruct (length (sendChannel s) <? 100)%nat.
    + by destruct (length (done_channel s) <? 10)%nat.
  - by destruct (Send msg s).
  - by destruct (sendLoop werr s).
  - by destruct (sending s).
  - by destruct (wait_done s).
  - by destruct (wait_cancelled s).
  - by destruct (detach kind s).
  - unfold close. case_bool_decide; [|done]. destruct (HandleClose (world s)) as [[[|p'] w]|]; try done.
    intros [= <-]. right. by exists w.
Qed.
End sessions.

(** ** Before an HTTP/2 session *)

(** What [Http2Handler.ServeHTTP] does with a request: the HTTP/1 handler
    serves it, it is refused, or a session starts on the response. *)
Inductive http2_start : Type :=
  | Fallback
  | Refused (w : ResponseWriter)
  | Streaming (w : ResponseWriter).

(** [is_flusher]: the ResponseWriter is an http.Flusher. *)
Definition Http2_ServeHTTP {Auth} (UseHttp2C is_flusher : bool) (w : ResponseWriter)
    (r : http_Request Auth) : result http2_start :=
  if negb UseHttp2C && negb (ProtoAtLeast r 2 0) then Ret Fallback
  else if negb is_flusher then
    w ← WriteHeader 400 w; Ret (Refused (rw_Write "http2 not supported" w))
  else w ← WriteHeader 200 w; Ret (Streaming w).

(** A gateway over TLS serves each request by the protocol it came with: an
    HTTP/2 request starts a session, an HTTP/1 request never does, not even
    when it asks to be upgraded to h2c. *)
Lemma gateway_protocols {Auth} (r : http_Request Auth) w :
  rw_sent w = None →
  match Gateway_ServeHTTP r with
  | H2Handler => ∃ o, Http2_ServeHTTP false true w r = Ret o ∧
                   (o = Fallback ↔ ProtoAtLeast r 2 0 = false)
  | WSHandler => ProtoAtLeast r 2 0 = false ∧ header_Get "Upgrade" (hr_Header r) = "websocket"
  | H1Handler => ProtoAtLeast r 2 0 = false
  end.
Proof.
  intros Hw. unfold Gateway_ServeHTTP, Http2_ServeHTTP, WriteHeader. rewrite Hw.
  destruct (ProtoAtLeast r 2 0); [by eexists|]. simpl.
  case_bool_decide; [done|]. case_bool_decide; [by eexists|done].
Qed.
