(* ===== verification/TypeWrap.v ===== *)
(** * Typed handlers: net/typewrap.go and OnTyped, OnTypedRequest,
      OnTypedContext, WithSchemaJson, WithSchemaYaml of net/request.go

    A typed handler is a Go function of any type; [wrapTyped] checks its
    shape with reflection and makes a callback that decodes the parameters
    into values of the function's types, calls it and decodes its result.

    [gotype] has what the code asks of a reflect.Type.  A reflect.Value is a
    type and data ([rvalue]); the zero Value is [None].  [reflect_Call] is
    reflect.Value.Call with its panics, whose values are strings, not errors.
    The mapstructure package and the data of Go values are parameters. *)

From S2P Require Import Prelude GoMap Strconv Values Messages Parse JsonText WireText.
From S2P Require Import Methods Schema Validator Builder Describe Actor.
From stdpp Require Import gmap.
From stdpp Require Import options.
#[local] Open Scope Z_scope.

(** ** Schemas given as texts *)

Section schema_setters.
Context {W Ctx HReq Sess : Type}.
Abbreviation HandlerSetter := (@HandlerSetter W Ctx HReq Sess Schema).

Definition build_panic (err : build_error) : panic := PanicError (ErrorString "schema build error").

Definition schema_setter (s : B Schema) : result HandlerSetter :=
  match s with inl err => Panic (build_panic err) | inr s => Ret (WithSchema (Some s)) end.

Definition BuildBytes_text (data : string) : B Schema :=
  BuildBytes match (decoder_Decode (scan_text data)).1 with inr v => Some v | inl _ => None end.

Definition WithSchemaJson (jsonSchema : string) : result HandlerSetter :=
  schema_setter (BuildBytes_text jsonSchema).

(** [yaml_Unmarshal] is the yaml package, decoding into a map[any]any. *)
Context (yaml_Unmarshal : string → option any).

Definition BuildYamlBytes (bytes : string) : B Schema :=
  match yaml_Unmarshal bytes with None => inl BuildJsonError | Some data => BuildYamlInterface data end.

Definition WithSchemaYaml (yamlSchema : string) : result HandlerSetter :=
  schema_setter (BuildYamlBytes yamlSchema).

(** The text that describes a schema gives a handler this schema. *)
Lemma WithSchemaJson_described s :
  describable s → (∀ j, SchemaToString s = Ret j → (json_depth j ≤ maxNestingDepth)%nat) →
  ∃ j s', SchemaToString s = Ret j ∧ schema_eqv s' s ∧
    WithSchemaJson (json_text j) = Ret (WithSchema (Some s')).
Proof using Type.
  intros Hs Hdepth. destruct (describe_and_build s Hs) as (j & s' & Hj & Hs' & Heq). exists j, s'.
  split_and!; [done|done|].
  assert (json_ok j) as Hjok.
  { revert Hj. unfold SchemaToString. destruct (Map s); [|done]. cbn [mbind outcome_mbind outcome_bind].
    destruct (Marshal (AMap _)) as [j'|] eqn:Hm; [|done]. intros [= <-]. by apply (Marshal_ok _ _ Hm). }
  unfold WithSchemaJson, BuildBytes_text.
  rewrite <- (string_app_nil_r (json_text j)), scan_json_text by (done || by apply Hdepth).
  cbn [decoder_Decode fst]. by rewrite Hs'.
Qed.
End schema_setters.

(** ** Types *)

Inductive gotype : Type :=
  | GBasic (name : string)                            (** bool, int, string, ... *)
  | GSlice (elem : gotype)
  | GMap (elem : gotype)                              (** map[string]elem *)
  | GPtr (elem : gotype)
  | GStruct (name : string)
  | GInterface (name : string) (methods : list string)
  | GFunc (name : string).

#[export] Instance gotype_eq_dec : EqDecision gotype.
Proof. solve_decision. Defined.

Definition GAny : gotype := GInterface "interface {}" [].
Definition GError : gotype := GInterface "error" ["Error"].
Definition GContext : gotype :=
  GInterface "context.Context" ["Deadline"; "Done"; "Err"; "Value"].
Definition GRPCRequest : gotype := GPtr (GStruct "jsoffnet.RPCRequest").

Fixpoint typeIsStruct (tp : gotype) : bool :=
  match tp with
  | GStruct _ => true
  | GPtr elem => typeIsStruct elem
  | _ => false
  end.

(** [tp.String()] *)
Fixpoint type_String (tp : gotype) : string :=
  match tp with
  | GBasic name | GStruct name | GInterface name _ | GFunc name => name
  | GSlice elem => "[]" +:+ type_String elem
  | GMap elem => "map[string]" +:+ type_String elem
  | GPtr elem => "*" +:+ type_String elem
  end.

Definition is_interface (tp : gotype) : bool :=
  match tp with GInterface _ _ => true | _ => false end.

(** ** Functions and calls *)

Section typed.
Context {W Ctx HReq Sess S D : Type}.
Context (method_set : gotype → list string).   (** of types that are not interfaces *)
Context (Error : error → string).              (** the text of an error *)

Abbreviation RPCRequest := (@RPCRequest Ctx HReq Sess).
Abbreviation RequestCallback := (@RequestCallback W Ctx HReq Sess).
Abbreviation Actor := (@Actor W Ctx HReq Sess S).
Abbreviation HandlerSetter := (@HandlerSetter W Ctx HReq Sess S).

Record rvalue := mkValue { rv_type : gotype; rv_data : D }.

Record gofunc := mkFunc {
  fn_in : list gotype;
  fn_variadic : bool;
  fn_out : list gotype;
  fn_body : list rvalue → act W panic (option rvalue * option error) }.

(** What is registered: a function, or a value of another type. *)
Inductive tvalue : Type := TFunc (f : gofunc) | TOther.

(** [tp.Implements(i)], where [i] has the methods [ms]. *)
Definition Implements (tp : gotype) (ms : list string) : bool :=
  bool_decide (ms ⊆ match tp with GInterface _ ms' => ms' | _ => method_set tp end).

(** [tp.AssignableTo(target)] *)
Definition AssignableTo (tp target : gotype) : bool :=
  bool_decide (tp = target) ||
  match target with GInterface _ ms => Implements tp ms | _ => false end.

Definition zero_value_panic : panic := PanicValue "reflect: Call using zero Value argument".

(** Every argument but the zero Value. *)
Fixpoint valid_args (args : list (option rvalue)) : option (list rvalue) :=
  match args with
  | [] => Some []
  | None :: _ => None
  | Some v :: args => vs ← valid_args args; Some (v :: vs)
  end.

(** The types that the arguments of a call must have: a variadic parameter
    takes any number of arguments of its element type. *)
Definition arg_types (f : gofunc) (n : nat) : list gotype :=
  if fn_variadic f then
    let fixed := Nat.pred (length (fn_in f)) in
    take fixed (fn_in f) ++
      replicate (n - fixed)
        match drop fixed (fn_in f) with GSlice elem :: _ => elem | tp :: _ => tp | [] => GAny end
  else fn_in f.

Definition args_assignable (vs : list rvalue) (ts : list gotype) : bool :=
  bool_decide (length vs = length ts) &&
  forallb (λ vt, AssignableTo (rv_type vt.1) vt.2) (zip vs ts).

Definition reflect_Call (f : gofunc) (args : list (option rvalue))
    : act W panic (option rvalue * option error) :=
  match valid_args args with
  | None => act_of_outcome (Panic zero_value_panic)
  | Some vs =>
      if args_assignable vs (arg_types f (length vs)) then fn_body f vs
      else act_of_outcome (Panic (PanicValue "reflect: Call using a value of a wrong type"))
  end.

(** ** mapstructure *)

(** [decode_arg out a]: the content of the interface variable [out] after
    decoding [a] into it; [decode_res out v] the same for the result [v] of a
    function, as a value the library can send. *)
Record Mapstructure := mkMapstructure {
  zero : gotype → D;
  decode_arg : option rvalue → any → error + option rvalue;
  decode_res : option rvalue → option rvalue → error + any }.

Context (ms : Mapstructure).

(** [reflect.Zero(tp).Interface()]: nil when [tp] is an interface type. *)
Definition zero_Interface (tp : gotype) : option rvalue :=
  if is_interface tp then None else Some (mkValue tp (zero ms tp)).

Definition interfaceToValue (a : any) (outputType : gotype) : error + option rvalue :=
  decode_arg ms (zero_Interface outputType) a.

Definition valueToInterface (tp : gotype) (val : option rvalue) : error + any :=
  let output := if typeIsStruct tp then Some (mkValue (GMap GAny) (zero ms (GMap GAny)))
                else zero_Interface tp in
  decode_res ms output val.

(** ** First arguments *)

Inductive FirstArgSpec : Type := ReqSpec | ContextSpec.

Definition spec_Check (spec : FirstArgSpec) (firstArgType : gotype) : bool :=
  match spec with
  | ReqSpec =>
      match firstArgType with
      | GPtr _ => bool_decide (type_String firstArgType = type_String GRPCRequest)
      | _ => false
      end
  | ContextSpec => is_interface firstArgType && Implements firstArgType ["Deadline"; "Done"; "Err"; "Value"]
  end.

Definition spec_String (spec : FirstArgSpec) : string :=
  match spec with ReqSpec => "*jsoffnet.RPCRequest" | ContextSpec => "context.Context" end.

(** The request and its context as reflect.Values. *)
Context (req_value ctx_value : RPCRequest → rvalue).

Definition spec_Value (spec : FirstArgSpec) (req : RPCRequest) : rvalue :=
  match spec with ReqSpec => req_value req | ContextSpec => ctx_value req end.

(** ** [wrapTyped] *)

(** The loop over the parameters of the function; [i] counts from zero. *)
Fixpoint convert_params (i : nat) (ts : list gotype) (params : list any)
    : RPCError + list (option rvalue) :=
  match ts, params with
  | tp :: ts, param :: params =>
      match interfaceToValue param tp with
      | inl err => inl (ParamsError ("params " +:+ Itoa (Z.of_nat i + 1) +:+ " " +:+ Error err))
      | inr v => match convert_params (Datatypes.S i) ts params with
                 | inl err => inl err
                 | inr vs => inr (v :: vs)
                 end
      end
  | _, _ => inr []
  end.

Definition firstArgNum (spec : option FirstArgSpec) : nat :=
  match spec with Some _ => 1%nat | None => 0%nat end.

Definition first_args (spec : option FirstArgSpec) (req : RPCRequest) : list (option rvalue) :=
  match spec with Some spec => [Some (spec_Value spec req)] | None => [] end.

(** The result of the call as the result of the callback. *)
Definition wrap_result (f : gofunc) (res : option rvalue * option error) : value * option error :=
  match res.2 with
  | Some err => (Val ANil, Some err)
  | None =>
      match valueToInterface (default GAny (head (fn_out f))) res.1 with
      | inl err => (Val ANil, Some err)
      | inr v => (Val v, None)
      end
  end.

Definition typed_handler (f : gofunc) (spec : option FirstArgSpec) : RequestCallback := λ req params,
  if (length params + firstArgNum spec <? length (fn_in f))%nat then
    mret (Val ANil, Some (ErrorRPC (ParamsError "no enough params size")))
  else
    match convert_params (firstArgNum spec) (drop (firstArgNum spec) (fn_in f)) params with
    | inl err => mret (Val ANil, Some (ErrorRPC err))
    | inr args => res ← reflect_Call f (first_args spec req ++ args); mret (wrap_result f res)
    end.

Definition check_first (f : gofunc) (spec : option FirstArgSpec) : option error :=
  match spec with
  | None => None
  | Some spec =>
      match fn_in f with
      | [] => Some (ErrorString "func must have 1 more arguments")
      | tp :: _ => if spec_Check spec tp then None
                   else Some (ErrorString ("the first arg must be " +:+ spec_String spec))
      end
  end.

Definition wrapTyped (tfunc : tvalue) (spec : option FirstArgSpec) : error + RequestCallback :=
  match tfunc with
  | TOther => inl (ErrorString "tfunc is not func type")
  | TFunc f =>
      match check_first f spec with
      | Some err => inl err
      | None =>
          match fn_out f with
          | [_; errType] =>
              if Implements errType ["Error"] then inr (typed_handler f spec)
              else inl (ErrorString "second output does not implement error")
          | _ => inl (ErrorString "func return number must be 2")
          end
      end
  end.

(** ** Registration *)

Definition OnTyped (a : Actor) (method : string) (typedHandler : tvalue) (setters : list HandlerSetter)
    : result Actor :=
  match wrapTyped typedHandler None with
  | inl err => Panic (PanicError err)
  | inr handler => panic_on_error (OnRequest a method handler setters)
  end.

Definition OnTypedRequest (a : Actor) (method : string) (typedHandler : tvalue)
    (setters : list HandlerSetter) : error + Actor :=
  handler ← wrapTyped typedHandler (Some ReqSpec); OnRequest a method handler setters.

Definition OnTypedContext (a : Actor) (method : string) (typedHandler : tvalue)
    (setters : list HandlerSetter) : error + Actor :=
  handler ← wrapTyped typedHandler (Some ContextSpec); OnRequest a method handler setters.

(** ** Calls are well typed *)

(** What mapstructure documents: decoding into an interface variable that holds
    a value keeps the type of that value, and decoding nil changes nothing. *)
Record mapstructure_laws : Prop := {
  decode_arg_typed tp d a o :
    decode_arg ms (Some (mkValue tp d)) a = inr o → ∃ d', o = Some (mkValue tp d');
  decode_arg_nil out : decode_arg ms out ANil = inr out }.

Context (Hms : mapstructure_laws).

Definition has_type (v : rvalue) (tp : gotype) : Prop := rv_type v = tp.

Lemma AssignableTo_refl tp : AssignableTo tp tp = true.
Proof using Type. unfold AssignableTo. by rewrite bool_decide_true. Qed.

Lemma convert_params_error i ts params err :
  convert_params i ts params = inl err → RPCError_Code err = -32602.
Proof using Type.
  revert i params. induction ts as [|tp ts IH]; intros i [|a params]; try done. cbn [convert_params].
  destruct (interfaceToValue a tp); [by intros [= <-]|].
  destruct (convert_params _ ts params) eqn:Hc; [|done]. intros [= <-]. by eapply IH.
Qed.

Lemma convert_params_typed i ts params vs :
  (∀ tp, tp ∈ ts → is_interface tp = false) → (length ts ≤ length params)%nat →
  convert_params i ts params = inr vs →
  ∃ rs, vs = Some <$> rs ∧ Forall2 has_type rs ts.
Proof using Hms.
  revert i params vs. induction ts as [|tp ts IH]; intros i [|a params] vs Hi Hlen; simpl in Hlen;
    try lia; [by intros [= <-]; exists []..|].
  cbn [convert_params]. unfold interfaceToValue, zero_Interface. rewrite Hi by by left.
  destruct (decode_arg ms _ a) as [err|v] eqn:Hd; [done|].
  destruct (decode_arg_typed Hms _ _ _ _ Hd) as (d & ->).
  destruct (convert_params _ ts params) as [err|vs'] eqn:Hc; [done|]. intros [= <-].
  apply IH in Hc as (rs & -> & Hrs); [|intros tp' Htp'; apply Hi; by right|lia].
  exists (mkValue tp d :: rs). split; [done|]. by constructor.
Qed.

Lemma valid_args_Some rs : valid_args (Some <$> rs) = Some rs.
Proof using Type. induction rs as [|r rs IH]; [done|]. rewrite fmap_cons. cbn [valid_args]. by rewrite IH. Qed.

Lemma args_assignable_spec vs ts :
  Forall2 (λ v tp, AssignableTo (rv_type v) tp = true) vs ts → args_assignable vs ts = true.
Proof using Type.
  intros Hall. unfold args_assignable. rewrite (Forall2_length _ _ _ Hall), bool_decide_true by done.
  cbn [andb]. induction Hall as [|v tp vs ts Hv _ IH]; [done|]. cbn. by rewrite Hv.
Qed.

(** A call with arguments of the parameter types is a call of the function. *)
Lemma reflect_Call_typed f rs :
  fn_variadic f = false → Forall2 (λ v tp, AssignableTo (rv_type v) tp = true) rs (fn_in f) →
  reflect_Call f (Some <$> rs) = fn_body f rs.
Proof using Type.
  intros Hv Hall. unfold reflect_Call. rewrite valid_args_Some. unfold arg_types. rewrite Hv.
  by rewrite args_assignable_spec.
Qed.

(** The value that [spec] gives fits the first parameter. *)
Definition spec_fits (f : gofunc) (spec : option FirstArgSpec) : Prop :=
  ∀ sp req tp, spec = Some sp → head (fn_in f) = Some tp →
    AssignableTo (rv_type (spec_Value sp req)) tp = true.

Lemma typed_handler_call f spec req params :
  fn_variadic f = false → spec_fits f spec → (firstArgNum spec ≤ length (fn_in f))%nat →
  (∀ tp, tp ∈ drop (firstArgNum spec) (fn_in f) → is_interface tp = false) →
  (length (fn_in f) ≤ length params + firstArgNum spec)%nat →
  (∃ err, typed_handler f spec req params = mret (Val ANil, Some (ErrorRPC err)) ∧
    RPCError_Code err = -32602) ∨
  (∃ rs, Forall2 (λ v tp, AssignableTo (rv_type v) tp = true) rs (fn_in f) ∧
    Forall2 has_type (drop (firstArgNum spec) rs) (drop (firstArgNum spec) (fn_in f)) ∧
    typed_handler f spec req params = (res ← fn_body f rs; mret (wrap_result f res))).
Proof using Hms.
  intros Hv Hfit Hfirst Hi Hlen. unfold typed_handler.
  replace (length params + firstArgNum spec <? length (fn_in f))%nat with false
    by (symmetry; apply Nat.ltb_ge; lia).
  destruct (convert_params _ _ params) as [err|vs] eqn:Hc.
  { left. exists err. split; [done|]. by eapply convert_params_error. }
  right. apply convert_params_typed in Hc as (rs & -> & Hrs); [|done|rewrite length_drop; lia].
  assert (Forall2 (λ v tp, AssignableTo (rv_type v) tp = true) rs (drop (firstArgNum spec) (fn_in f))) as Hass.
  { eapply Forall2_impl; [exact Hrs|]. intros v tp <-. apply AssignableTo_refl. }
  destruct spec as [sp|]; cbn [firstArgNum first_args] in *.
  - destruct (fn_in f) as [|tp ts] eqn:Hin; [simpl in Hfirst; lia|].
    assert (AssignableTo (rv_type (spec_Value sp req)) tp = true) as Htp
      by (apply Hfit; [done|by rewrite Hin]).
    exists (spec_Value sp req :: rs). split_and!; [by constructor|done|].
    by rewrite <- (reflect_Call_typed f) by (done || (rewrite Hin; by constructor)).
  - exists rs. split_and!; [done|done|]. by rewrite <- (reflect_Call_typed f).
Qed.

Lemma wrapTyped_inr tfunc spec handler :
  wrapTyped tfunc spec = inr handler →
  ∃ f, tfunc = TFunc f ∧ handler = typed_handler f spec ∧ check_first f spec = None ∧
    ∃ tp errType, fn_out f = [tp; errType] ∧ Implements errType ["Error"] = true.
Proof using Type.
  unfold wrapTyped. destruct tfunc as [f|]; [|done]. destruct (check_first f spec) eqn:Hc; [done|].
  destruct (fn_out f) as [|tp [|errType []]] eqn:Ho; try done.
  destruct (Implements errType ["Error"]) eqn:Hi; [|done]. intros [= <-].
  exists f. split_and!; [done..|]. by exists tp, errType.
Qed.
End typed.


(** A null for an interface parameter ends the process.  wrapTyped accepts a
    function with a parameter of an interface type, such as [any]; when a
    request has null there, the decoded argument is the zero Value, with which
    reflection panics with a string.  The function is not called, and the
    actor, also one that recovers from panics, panics in turn, since it
    recovers from errors only. *)
Theorem null_interface_param_panics {W Ctx HReq Sess S D : Type} method_set Error (ms : @Mapstructure D)
    (req_value ctx_value : RPCRequest Ctx HReq Sess → rvalue) f tp
    (handler : @RequestCallback W Ctx HReq Sess) (a : @Actor W Ctx HReq Sess S) schema req w :
  mapstructure_laws ms → fn_in f = [tp] → is_interface tp = true →
  wrapTyped method_set Error ms req_value ctx_value (TFunc f) None = inr handler →
  recoverCallHandler a (mkHandler handler schema) req [ANil] w = Some (Panic zero_value_panic, w).
Proof.
  intros Hms Hin Hi Hwrap. apply wrapTyped_inr in Hwrap as (f' & [= <-] & -> & _).
  assert (typed_handler method_set Error ms req_value ctx_value f None req [ANil] w
    = Some (Panic zero_value_panic, w)) as Hp.
  { unfold typed_handler. rewrite Hin. cbn. unfold interfaceToValue, zero_Interface.
    by rewrite Hi, (decode_arg_nil _ Hms). }
  unfold recoverCallHandler, recovering, call_and_wrap. cbn [callback].
  destruct (RecoverFromPanic a); by rewrite (act_bind_Panic _ _ _ _ _ Hp).
Qed.

(** *** A decoder of strings, and examples *)

Definition GString : gotype := GBasic "string".

Definition string_ms : @Mapstructure any := mkMapstructure (λ _, AString "")
  (λ out a, match a, out with
            | ANil, _ => inr out
            | AString s, Some (mkValue tp _) =>
                if bool_decide (tp = GString) then inr (Some (mkValue tp (AString s)))
                else inl (ErrorString "expected another type")
            | _, None => inr (Some (mkValue GString a))
            | _, _ => inl (ErrorString "expected a string")
            end)
  (λ _ v, inr match v with Some v => rv_data v | None => ANil end).

Lemma string_ms_laws : mapstructure_laws string_ms.
Proof.
  split; [|done]. intros tp d a o. cbn. destruct a; try done; [by intros [= <-]; exists d|].
  case_bool_decide; [|done]. intros [= <-]. by eexists.
Qed.

(** A function from a string, or anything, to itself, which counts its calls. *)
Definition echo_func (tp : gotype) : @gofunc nat any :=
  mkFunc [tp] false [GString; GError] (λ vs w, Some (Ret (head vs, None), Datatypes.S w)).

Definition error_text (err : error) : string := "error".

Definition no_value (req : RPCRequest unit unit unit) : @rvalue any := mkValue GRPCRequest ANil.

Definition echo_handler (tp : gotype) : @RequestCallback nat unit unit unit :=
  typed_handler (λ _, []) error_text string_ms no_value no_value (echo_func tp) None.


Lemma null_interface_param_panics_witness :
  @recoverCallHandler nat unit unit unit Schema (mkActor true true [] None None [])
    (mkHandler (echo_handler GAny) None) (demo_request [ANil]) [ANil] 0%nat
  = Some (Panic zero_value_panic, 0%nat).
Proof.
  apply (null_interface_param_panics (λ _, []) error_text string_ms no_value no_value (echo_func GAny) GAny).
  - exact string_ms_laws.
  - done.
  - done.
  - by vm_compute.
Defined.
