(* ===== verification/Texts.v ===== *)
(** * What errors and log entries say

    The texts of the library's own error types, with the part of package fmt
    they use, and the fields of log entries.  [fmt_other] stands for what fmt
    makes of maps with keys of any type, which it sorts by the addresses of
    types, and of functions. *)

From S2P Require Import Prelude GoMap Strconv Values Messages Parse Schema Convert Validator Builder Actor.
From stdpp Require Import options.
#[local] Open Scope Z_scope.

(** ** fmt: the verbs v and s *)

Section fmt.
Context (fmt_other : any → string).

(** Items with spaces between them. *)
Definition spaced (l : list string) : string := String.concat " " l.

(** The entries of a map, in the order of the keys. *)
Definition fmt_entries (m : gomap string) : string :=
  "map[" +:+ spaced ((λ kv, kv.1 +:+ ":" +:+ kv.2) <$> map_sort m) +:+ "]".

(** A value inside another: [atom] prints those without parts. *)
Fixpoint fmt_value (atom : any → string) (v : any) : string :=
  match v with
  | AList l => "[" +:+ spaced (fmt_value atom <$> l) +:+ "]"
  | AMap m => fmt_entries ((λ kv, (kv.1, fmt_value atom kv.2)) <$> m)
  | AMapList l => "[" +:+ spaced ((λ m, fmt_entries ((λ kv, (kv.1, fmt_value atom kv.2)) <$> m)) <$> l) +:+ "]"
  | AStrList l => "[" +:+ spaced l +:+ "]"
  | v => atom v
  end.

Definition atom_v (v : any) : string :=
  match v with
  | ANil => "<nil>"
  | ABool b => if b then "true" else "false"
  | AInt z | AInt64 z => Itoa z
  | AFloat f => FormatG f
  | ANumber s | AString s => s
  | v => fmt_other v
  end.

(** For the verb s, other types than texts are mistakes. *)
Definition atom_s (v : any) : string :=
  match v with
  | ABool _ => "%!s(bool=" +:+ atom_v v +:+ ")"
  | AInt _ => "%!s(int=" +:+ atom_v v +:+ ")"
  | AInt64 _ => "%!s(int64=" +:+ atom_v v +:+ ")"
  | AFloat _ => "%!s(float64=" +:+ atom_v v +:+ ")"
  | v => atom_v v
  end.

Definition fmt_v : any → string := fmt_value atom_v.

Definition fmt_s (v : any) : string :=
  match v with ANil => "%!s(<nil>)" | v => fmt_value atom_s v end.

(** ** Errors *)

Definition RPCError_Error (e : RPCError) : string :=
  "code=" +:+ Itoa (RPCError_Code e) +:+ ", message=" +:+ RPCError_Message e +:+
  ", data=" +:+ fmt_s (RPCError_Data e).

Definition decodeErrorT_Error (errmsg : string) : string := "error decode: " +:+ errmsg.

Definition WrappedResponse_Error (resp : http_response) : string :=
  "wrapped response " +:+ Itoa (StatusCode resp).

Definition SimpleResponse_Error (code : Z) (body : string) : string := Itoa code +:+ "/" +:+ body.

(** [Error] of the errors that building a schema returns; those of encoding/json
    are not the library's. *)
Definition build_error_Error (err : build_error) : option string :=
  match err with
  | SchemaBuildError info paths =>
      Some ("SchemaBuildError " +:+ info +:+ ", paths: " +:+ String.concat "" paths)
  | NonStringMap paths key =>
      Some ("not string key " +:+ String.concat "" (paths ++ ["." +:+ fmt_v key]))
  | BuildJsonError | OutOfFuel => None
  end.

(** [Error] of the errors of the library; errors.Wrap puts a text in front.
    The texts of the standard library and of other packages are arguments. *)
Fixpoint error_Error (other : error → string) (err : error) : string :=
  match err with
  | ErrorString msg => msg
  | ErrorDecode errmsg => decodeErrorT_Error errmsg
  | ErrorRPC e => RPCError_Error e
  | ErrorPosition paths hint => ErrorPos_Error (mkErrorPos paths hint)
  | ErrorWrapped resp _ => WrappedResponse_Error resp
  | ErrorSimple code body => SimpleResponse_Error code body
  | ErrorWithMessage msg cause => msg +:+ ": " +:+ error_Error other cause
  | ErrorJson _ | ErrorEOF | ErrorRuntime _ => other err
  end.

Definition standard_errors : list RPCError :=
  [ErrServerError; ErrMethodNotFound; ErrEmptyMethod; ErrParseMessage; ErrInvalidRequest; ErrInternalError;
   ErrMessageType; ErrTimeout; ErrBadResource; ErrLiveExit; ErrNotAllowed; ErrAuthFailed; ErrInvalidSchema].

(** The data of an error is printed with the verb for texts: every error without
    data, as all standard ones are, says that nothing is no text. *)
Lemma standard_error_texts e :
  e ∈ standard_errors → RPCError_Error e =
    "code=" +:+ Itoa (RPCError_Code e) +:+ ", message=" +:+ RPCError_Message e +:+ ", data=%!s(<nil>)".
Proof using Type.
  unfold standard_errors. rewrite !elem_of_cons. intros H.
  repeat (destruct H as [->|H]; [done|]). by apply elem_of_nil in H.
Qed.

(** Data of texts alone is printed as it is. *)
Lemma fmt_s_texts l : fmt_s (AList (AString <$> l)) = fmt_s (AStrList l).
Proof using Type.
  cbn. do 2 f_equal. rewrite <- list_fmap_compose. by rewrite <- (list_fmap_id l) at 2.
Qed.
End fmt.

Example texts_of_errors other :
  RPCError_Error other (mkRPCError 7 "no" (AMap [("b", AInt 1); ("a", AList [AString "x"; ANil; ABool true])]))
    = "code=7, message=no, data=map[a:[x <nil> %!s(bool=true)] b:%!s(int=1)]" ∧
  error_Error other (λ _, "EOF") (ErrorWithMessage "RPC(m)" ErrorEOF) = "RPC(m): EOF" ∧
  error_Error other (λ _, "") (ErrorSimple 404 "not found") = "404/not found" ∧
  build_error_Error other (NonStringMap [".items"] (AInt 5)) = Some "not string key .items.5".
Proof. by vm_compute. Qed.

(** ** Log entries *)

(** [Log] of a message: the fields of the entry. *)
Definition Log (msg : Message) : gomap any :=
  match msg with
  | MRequest m => [("traceid", AString (traceId (req_base m))); ("msgtype", AString "request");
                   ("msgid", req_Id m); ("method", AString (req_Method m))]
  | MNotify m => [("traceid", AString (traceId (ntf_base m))); ("msgtype", AString "notify");
                  ("method", AString (ntf_Method m))]
  | MResult m => [("traceid", AString (traceId (res_base m))); ("msgtype", AString "result");
                  ("msgid", res_Id m)]
  | MError m => [("traceid", AString (traceId (err_base m))); ("msgtype", AString "error");
                 ("msgid", err_Id m)]
  end.

(** Fields that are added to an entry. *)
Definition WithFields (fields entry : gomap any) : gomap any :=
  foldr (λ kv entry, map_set kv.1 kv.2 entry) entry fields.

(** [RPCRequest.Log]; [RemoteAddr] is the field of an http.Request. *)
Definition RPCRequest_Log {Ctx HReq Sess} (RemoteAddr : HReq → string) (req : RPCRequest Ctx HReq Sess)
    : gomap any :=
  let remoteAddr := match http_request req with Some r => RemoteAddr r | None => "" end in
  WithFields [("ttype", AString (transportType req)); ("remoteAddr", AString remoteAddr)] (Log (request_msg req)).

(** Logger of net/server_utils.go. *)
Definition Logger {HReq} (RemoteAddr : HReq → string) (r : HReq) : gomap any :=
  [("remoteAddr", AString (RemoteAddr r))].

(** The fields tell the id of a message: those with one, as [MustId] has it. *)
Lemma Log_id msg id : MustId msg = Ret id ↔ map_get "msgid" (Log msg) = Some id.
Proof. destruct msg; cbn; naive_solver. Qed.
