(* ===== verification/Utils.v ===== *)
(** * Guessed values, big integers and parameters by field: utils.go

    The command-line tools guess the parameters of a request from their
    arguments ([GuessJson]).  [Bigint] is an integer of any size that travels
    as a JSON string.  [DecodeParams] fills the fields of a struct from a list
    of parameters, with the types and the mapstructure package of TypeWrap.v. *)

From Stdlib Require Import Ascii SpecFloat.
From S2P Require Import Prelude GoMap Strconv Values Messages Parse JsonText WireText TypeWrap.
From stdpp Require Import options.
#[local] Open Scope Z_scope.

(** [NewUuid]: what the package uuid makes, without its dashes. *)
Fixpoint without_dashes (s : string) : string :=
  match s with
  | EmptyString => ""
  | String c s => if (c =? "-")%char then without_dashes s else String c (without_dashes s)
  end.

Definition NewUuid (uuid : string) : string := without_dashes uuid.

(** ** [GuessJson] *)

Definition syntax_error : error := ErrorJson "invalid character".

(** [decoder.Decode(&v)] of the first value of a text, into a variable that
    takes the values [want] accepts. *)
Definition decode_text (want : json → bool) (text : string) : error + any :=
  match (decoder_Decode (scan_text text)).1 with
  | inl err => inl err
  | inr j => if want j then inr (json_value j) else inl unmarshal_error
  end.

Definition is_array (j : json) : bool := match j with JArr _ | JNull => true | _ => false end.
Definition is_object (j : json) : bool := match j with JObj _ | JNull => true | _ => false end.
Definition is_string (j : json) : bool := match j with JStr _ | JNull => true | _ => false end.

Section guess.
(** [os.Open] and reading a file: its text or an error. *)
Context (os_Open : string → error + string).

Definition GuessJson (input : string) : error + any :=
  match input with
  | EmptyString => inr (AString "")
  | String c rest =>
      if bool_decide (input = "true" ∨ input = "false") then inr (ABool (bool_decide (input = "true")))
      else if bool_decide (input = "null") then inr ANil
      else match ParseInt input with
      | Some iv => inr (AInt64 iv)
      | None =>
          let '(fv, ok) := ParseFloat input in
          if ok : bool then inr (AFloat fv)
          else if is_chr 64 c then text ← os_Open rest; decode_text (λ _, true) text
          else if is_chr 91 c then decode_text is_array input
          else if is_chr 123 c then decode_text is_object input
          else if is_chr 34 c then decode_text is_string input
          else inr (AString input)
      end
  end.

(** The values guessed so far, and the error that ended the loop. *)
Fixpoint GuessJsonArray (inputArr : list string) : list any * option error :=
  match inputArr with
  | [] => ([], None)
  | input :: inputArr =>
      match GuessJson input with
      | inl err => ([], Some err)
      | inr v => let '(arr, err) := GuessJsonArray inputArr in (v :: arr, err)
      end
  end.
End guess.

(** ** [Bigint] *)

(** [SetString(s, 10)] of math/big. *)
Definition SetString (s : string) : option Z :=
  let '(neg, r) := strip_sign s in
  u ← ParseUint r; Some (if (neg : bool) then - u else u).

Definition Bigint_MarshalJSON (bn : Z) : string := quote_text +:+ Itoa bn +:+ quote_text.

(** [sd[1:len(sd)-1]] of a text of two bytes or more; a single one panics. *)
Definition unquoted (sd : string) : string := String.substring 1 (String.length sd - 2) sd.
Definition slice_range : panic := PanicError (ErrorRuntime "slice bounds out of range").

(** [None]: the text is not a number, and the value undefined; the error that
    is returned is nil all the same. *)
Definition Bigint_UnmarshalJSON (data : string) : result (option Z) :=
  if String.prefix quote_text data then
    if bool_decide (data = quote_text) then Panic slice_range else Ret (SetString (unquoted data))
  else Ret (SetString data).

(** [Value] is the number, [String] its text. *)
Definition Bigint_String (bn : Z) : string := Itoa bn.

Definition Bigint_Load (repr : string) : option Z := SetString repr.

(** The values the tests of the repository guess. *)
Definition no_files (path : string) : error + string := inl (ErrorString "no such file").

Example guesses_of_the_tests :
  GuessJson no_files "5" = inr (AInt64 5) ∧ GuessJson no_files "-5" = inr (AInt64 (-5)) ∧
  GuessJson no_files "false" = inr (ABool false) ∧ GuessJson no_files "null" = inr ANil ∧
  GuessJson no_files "[aaa" = inl syntax_error ∧
  GuessJson no_files "[166, null, [666.99]]" =
    inr (AList [ANumber "166"; ANil; AList [ANumber "666.99"]]) ∧
  GuessJson no_files "@nosuchfile" = inl (ErrorString "no such file") ∧
  GuessJsonArray no_files ["5"; "hahah"] = ([AInt64 5; AString "hahah"], None).
Proof. by vm_compute. Qed.

(** ** Integers are guessed exactly or not as integers *)

Lemma digit_not_mark c :
  is_digit c = true →
  (c =? "_")%char = false ∧ (c =? ".")%char = false ∧ (c =? "+")%char = false ∧ (c =? "-")%char = false.
Proof. intros Hc. by repeat split; apply Ascii.eqb_neq; intros ->. Qed.

(** The mantissa loop on digits, after the first one that is not zero. *)
Lemma read_mantissa_digits m s v :
  digits s = true → digits_value (mt_value m) s = Some v →
  0 < mt_nd m → mt_dot m = false → mt_digits m = true →
  read_mantissa false m s =
    (Mantissa v (mt_nd m + Z.of_nat (String.length s)) (mt_frac m) false true (mt_underscores m), "").
Proof.
  revert m. induction s as [|c s IH]; intros m Hs Hv Hnd Hdot Hdig.
  - injection Hv as <-. cbn [read_mantissa]. destruct m; simpl in *; subst. do 2 f_equal. lia.
  - apply digit_head in Hs as [Hc Hs]. cbn [digits_value] in Hv. rewrite Hc in Hv. cbn [read_mantissa].
    destruct (digit_not_mark c Hc) as (-> & -> & _). rewrite Hc.
    rewrite (IH (mantissa_digit 10 (digit_val c) m)); try done;
      cbn [mantissa_digit mt_nd mt_dot mt_frac mt_underscores].
    + rewrite (proj2 (Z.eqb_neq (mt_nd m) 0)) by lia. rewrite andb_false_r, Hdot. do 2 f_equal.
      change (String.length (String c s)) with (S (String.length s)). lia.
    + rewrite (proj2 (Z.eqb_neq (mt_nd m) 0)) by lia. rewrite andb_false_r. lia.
Qed.

Definition digit_count (z : Z) : Z := Z.of_nat (String.length (Itoa (Z.abs z))).

Lemma strip_sign_digit c d : is_digit c = true → strip_sign (String c d) = (false, String c d).
Proof.
  intros Hc. destruct (digit_not_mark c Hc) as (_ & _ & Hp & Hm). apply Ascii.eqb_neq in Hp, Hm.
  unfold strip_sign. by destruct c as [[] [] [] [] [] [] [] []].
Qed.

Lemma lower_digit c : is_digit c = true → to_lower c = c.
Proof.
  intros Hc. unfold to_lower. destruct (is_upper c) eqn:Hu; [|done].
  apply in_range_le in Hc, Hu. lia.
Qed.

Lemma special_digit c d :
  is_digit c = true → special_float (String c d) = None ∧ special_float (String "-" (String c d)) = None.
Proof.
  intros Hc. unfold special_float. rewrite strip_sign_digit by done.
  change (strip_sign (String "-" (String c d))) with (true, String c d). cbn [lower_string].
  rewrite lower_digit by done. change (to_lower "-") with "-"%char.
  split; repeat (case_bool_decide; [destruct_or?; simplify_eq|]); done.
Qed.

(** ParseFloat in two steps: the base prefix, then the number. *)
Definition hex_split (r : string) : bool * string :=
  match r with
  | String "0" (String x ((String _ _) as r')) =>
      if (to_lower x =? "x")%char then (true, r') else (false, r)
  | _ => (false, r)
  end%char.

Lemma hex_split_digit c d : is_chr 48 c = false → hex_split (String c d) = (false, String c d).
Proof.
  intros Hc. assert (c ≠ "0"%char) as Hne by (by intros ->).
  unfold hex_split. by destruct c as [[] [] [] [] [] [] [] []].
Qed.

Lemma ParseFloat_decimal s neg c d m :
  special_float s = None → strip_sign s = (neg, String c d) → is_chr 48 c = false →
  read_mantissa false mantissa0 (String c d) = (m, "") → mt_digits m = true → mt_underscores m = false →
  ParseFloat s =
    let f := decimal_to_float neg (mt_value m) (0 - mt_frac m) (mt_nd m) in (f, negb (float_is_inf f)).
Proof.
  intros Hs Hsign Hc Hm Hd Hu.
  assert (∀ G : bool → string → float64 * bool,
    (let '(hex, r) := hex_split (String c d) in G hex r) = G false (String c d)) as Hhex
    by (intros G; by rewrite hex_split_digit).
  unfold ParseFloat. rewrite Hs, Hsign. etrans; [apply Hhex|]. cbv beta zeta. by rewrite Hm, Hd, Hu.
Qed.

(** The texts of integers as floats. *)
Lemma ParseFloat_unsigned p (neg : bool) :
  ParseFloat ((if neg then "-" else "") +:+ Itoa (Zpos p)) =
    let f := decimal_to_float neg (Zpos p) 0 (digit_count (Zpos p)) in (f, negb (float_is_inf f)).
Proof.
  destruct (Itoa_int (Zpos p)) as (_ & Hdig & Hpos); [lia|].
  destruct (Hpos ltac:(lia)) as (c & d & Htxt & H48).
  assert (digits_value 0 (Itoa (Zpos p)) = Some (Zpos p)) as Hval.
  { pose proof (ParseUint_pretty_N (Npos p)) as Hu. change (pretty_N (Npos p)) with (Itoa (Zpos p)) in Hu.
    by rewrite Htxt in *. }
  unfold digit_count. change (Z.abs (Zpos p)) with (Zpos p). rewrite Htxt in *. clear Htxt Hpos.
  apply digit_head in Hdig as [Hc Hd]. cbn [digits_value] in Hval. rewrite Hc in Hval.
  destruct (special_digit c d Hc) as [Hs1 Hs2]. destruct (digit_not_mark c Hc) as (H_ & Hdot & _).
  assert (digit_val c ≠ 0) as Hne.
  { unfold is_chr in H48. apply N.eqb_neq in H48. unfold digit_val. apply in_range_le in Hc. lia. }
  assert (read_mantissa false mantissa0 (String c d) =
    (Mantissa (Zpos p) (1 + Z.of_nat (String.length d)) 0 false true false, "")) as Hm.
  { cbn [read_mantissa]. rewrite H_, Hdot, Hc.
    assert (mt_nd (mantissa_digit 10 (digit_val c) mantissa0) = 1) as Hnd.
    { cbn. by rewrite (proj2 (Z.eqb_neq (digit_val c) 0) Hne). }
    rewrite (read_mantissa_digits _ d (Zpos p)); try done; [by rewrite Hnd|by rewrite Hnd]. }
  replace (Z.of_nat (String.length (String c d))) with (1 + Z.of_nat (String.length d)) by (simpl; lia).
  destruct neg.
  - exact (ParseFloat_decimal _ true c d _ Hs2 eq_refl H48 Hm eq_refl eq_refl).
  - exact (ParseFloat_decimal _ false c d _ Hs1 (strip_sign_digit c d Hc) H48 Hm eq_refl eq_refl).
Qed.

(** What [GuessJson] makes of the text of an integer. *)
Definition guessed_integer (z : Z) : any :=
  let f := if 310 <? digit_count z then S754_infinity (z <? 0) else float_of_Z z in
  if is_int64 z then AInt64 z else if float_is_inf f then AString (Itoa z) else AFloat f.

Lemma decimal_integer p (neg : bool) n :
  0 < n →
  decimal_to_float neg (Zpos p) 0 n =
    if 310 <? n then S754_infinity neg else float_of_Z (if neg then Zneg p else Zpos p).
Proof.
  intros Hn. unfold decimal_to_float. cbn [Z.eqb]. rewrite Z.add_0_r. destruct (310 <? n); [done|].
  replace (n <? -330) with false by (symmetry; apply Z.ltb_ge; lia).
  unfold float_of_Z. cbn [Z.leb]. change (0 <=? 0) with true. cbv iota.
  replace ((if neg then -1 else 1) * Zpos p * 10 ^ 0) with (if neg then Zneg p else Zpos p)
    by (destruct neg; lia).
  by destruct neg.
Qed.

Lemma digit_count_pos z : 0 < digit_count z.
Proof.
  unfold digit_count. destruct (number_head _ (Itoa_valid (Z.abs z))) as (c & s & -> & _). simpl. lia.
Qed.

(** C28. Integers on the command line.  The text of an integer is guessed to be
    that integer if it fits into 64 bits; a larger one becomes the nearest
    float, and stays a text if it exceeds the floats too.  In particular no
    guess is an integer outside 64 bits. *)
Theorem GuessJson_integers os_Open :
  (∀ z, GuessJson os_Open (Itoa z) = inr (guessed_integer z)) ∧
  (∀ s z, GuessJson os_Open s = inr (AInt64 z) → min_int64 ≤ z ≤ max_int64).
Proof.
  split.
  - intros z. destruct (number_head _ (Itoa_valid z)) as (c & r & Htxt & Hc). unfold GuessJson. rewrite Htxt.
    destruct (number_head_chars c Hc) as (_ & H91 & _ & H123 & _ & _ & _ & H34 & _).
    rewrite !bool_decide_false by naive_solver. rewrite <- Htxt, ParseInt_Itoa_cases.
    unfold guessed_integer. destruct (is_int64 z) eqn:Hz; [done|].
    assert (∃ p, z = Zpos p ∨ z = Zneg p) as (p & Hp)
      by (destruct z as [|p|p]; [done|by exists p; left|by exists p; right]).
    pose proof (digit_count_pos (Zpos p)) as Hn.
    assert (ParseFloat (Itoa z) =
      let f := if 310 <? digit_count z then S754_infinity (z <? 0) else float_of_Z z in
      (f, negb (float_is_inf f))) as ->.
    { destruct Hp as [-> | ->].
      - etrans; [exact (ParseFloat_unsigned p false)|]. by rewrite decimal_integer.
      - etrans; [exact (ParseFloat_unsigned p true)|]. by rewrite decimal_integer. }
    cbv zeta. destruct (float_is_inf _); [|done]. cbn [negb].
    assert (is_chr 64 c = false) as -> by (destruct (is_chr 64 c) eqn:H64; [|done];
      by apply is_chr_eq in H64 as ->).
    by rewrite H91, H123, H34.
  - intros s z. unfold GuessJson. destruct s as [|c rest]; [done|]. case_bool_decide; [done|].
    case_bool_decide; [done|]. destruct (ParseInt _) as [iv|] eqn:Hiv; [intros [= <-];
      by eapply ParseInt_range|].
    assert (∀ want text, decode_text want text = inr (AInt64 z) → min_int64 ≤ z ≤ max_int64) as Hdec.
    { intros want text. unfold decode_text. destruct (decoder_Decode _).1 as [err|j]; [done|].
      by destruct (want j), j. }
    destruct (ParseFloat _) as [fv []]; [done|].
    destruct (is_chr 64 c); [destruct (os_Open rest); [done|apply Hdec]|].
    destruct (is_chr 91 c); [apply Hdec|]. destruct (is_chr 123 c); [apply Hdec|].
    by destruct (is_chr 34 c); [apply Hdec|].
Qed.

Lemma GuessJson_integers_witness :
  GuessJson no_files (Itoa (2 ^ 63 - 1)) = inr (AInt64 (2 ^ 63 - 1)) ∧
  GuessJson no_files (Itoa (2 ^ 63)) = inr (AFloat (float_of_Z (2 ^ 63))) ∧
  min_int64 ≤ 5 ≤ max_int64.
Proof.
  split; [|split].
  - rewrite (proj1 (GuessJson_integers no_files)). by vm_compute.
  - rewrite (proj1 (GuessJson_integers no_files)). by vm_compute.
  - apply (proj2 (GuessJson_integers no_files) "5"). by vm_compute.
Defined.

(** [Bigint] survives the trip as a JSON string, at any size. *)
Lemma SetString_Itoa z : SetString (Itoa z) = Some z.
Proof.
  destruct z as [|p|p]; [done|..].
  - pose proof (ParseUint_pretty_N (Npos p)) as Hu. change (pretty_N (Npos p)) with (Itoa (Zpos p)) in Hu.
    destruct (ParseUint_head_digit _ _ Hu) as (c & r & Heq & Hc). unfold SetString. rewrite Heq in *.
    by rewrite strip_sign_digit, Hu.
  - assert (Itoa (Zneg p) = String "-" (pretty_N (Npos p))) as -> by done.
    unfold SetString. change (strip_sign (String "-" ?x)) with (true, x). cbv beta iota.
    by rewrite ParseUint_pretty_N.
Qed.

Lemma substring_app p s : String.substring 0 (String.length p) (p +:+ s) = p.
Proof.
  induction p as [|c p IH]; [by destruct s|]. rewrite string_app_cons. cbn [String.length String.substring].
  by rewrite IH.
Qed.

Lemma unquoted_quoted s : unquoted (quote_text +:+ s +:+ quote_text) = s.
Proof.
  unfold unquoted. rewrite !string_length_app. change (String.length quote_text) with 1%nat.
  replace (1 + (String.length s + 1) - 2)%nat with (String.length s) by lia.
  change (quote_text +:+ s +:+ quote_text) with (String quote_char (s +:+ quote_text)). cbn [String.substring].
  apply substring_app.
Qed.

Lemma Bigint_roundtrip z : Bigint_UnmarshalJSON (Bigint_MarshalJSON z) = Ret (Some z).
Proof.
  unfold Bigint_UnmarshalJSON, Bigint_MarshalJSON.
  assert (String.prefix quote_text (quote_text +:+ Itoa z +:+ quote_text) = true) as ->.
  { cbn. by destruct (Itoa z +:+ quote_text). }
  rewrite bool_decide_false, unquoted_quoted, SetString_Itoa; [done|].
  intros Hq. apply (f_equal String.length) in Hq. rewrite !string_length_app in Hq. simpl in Hq. lia.
Qed.

(** So does its text. *)
Lemma Bigint_Load_String z : Bigint_Load (Bigint_String z) = Some z.
Proof. apply SetString_Itoa. Qed.

(** Words that ParseFloat reads as numbers but JSON cannot write. *)
Lemma guessed_infinity os_Open :
  GuessJson os_Open "infinity" = inr (AFloat (S754_infinity false)) ∧
  GuessJson os_Open "nan" = inr (AFloat S754_nan) ∧
  Marshal (AFloat (S754_infinity false)) = None ∧ Marshal (AFloat S754_nan) = None.
Proof. done. Qed.

(** ** [DecodeParams] *)

Record field := mkField { IsExported : bool; field_type : gotype }.

Section decode_params.
Context {D : Type} (ms : @Mapstructure D).

(** [reflect.VisibleFields] of the struct type of a name. *)
Context (VisibleFields : string → list field).

(** Setting a field to the zero Value. *)
Definition zero_Set_panic : panic :=
  PanicError (ErrorRuntime "reflect: call of reflect.Value.Set on zero Value").

(** The loop over the fields from the [i]-th on: the values of the fields that
    were set, and the error that ended the loop. *)
Fixpoint decode_fields (i : nat) (fields : list field) (params : list any) (output : list (nat * @rvalue D))
    : result (list (nat * @rvalue D) * option error) :=
  match fields with
  | [] => Ret (output, None)
  | f :: fields =>
      match IsExported f, params with
      | true, param :: params =>
          match interfaceToValue ms param (field_type f) with
          | inl err => Ret (output, Some (ErrorWithMessage "mapstruct.Decode" err))
          | inr None => Panic zero_Set_panic
          | inr (Some ov) => decode_fields (S i) fields params (output ++ [(i, ov)])
          end
      | _, _ => decode_fields (S i) fields params output
      end
  end.

Definition DecodeParams (params : list any) (outputPtr : gotype)
    : result (list (nat * @rvalue D) * option error) :=
  match outputPtr with
  | GPtr (GStruct name) => decode_fields 0 (VisibleFields name) params []
  | GPtr _ => Ret ([], Some (ErrorString "output is not pointer of struct"))
  | _ => Ret ([], Some (ErrorString "output is not a pointer"))
  end.

(** The exported fields, with their places. *)
Fixpoint exported (i : nat) (fields : list field) : list (nat * gotype) :=
  match fields with
  | [] => []
  | f :: fields => (if IsExported f then [(i, field_type f)] else []) ++ exported (S i) fields
  end.

Context (Hms : mapstructure_laws ms).

Definition field_set (s : nat * @rvalue D) (f : nat * gotype) : Prop := s.1 = f.1 ∧ rv_type s.2 = f.2.

Lemma decode_fields_nil i fields output : decode_fields i fields [] output = Ret (output, None).
Proof using Type. revert i. induction fields as [|f fields IH]; intros i; [done|]. cbn.
  by destruct (IsExported f). Qed.

(** Without fields of interface types nothing panics: either a parameter cannot
    be decoded, or each parameter has gone into one exported field, in order,
    as a value of the type of the field. *)
Lemma decode_fields_typed i fields params output :
  (∀ f, f ∈ fields → is_interface (field_type f) = false) →
  ∃ set err, decode_fields i fields params output = Ret (output ++ set, err) ∧
    Forall2 field_set set (take (length set) (exported i fields)) ∧
    (err = None → length set = (length params `min` length (exported i fields))%nat).
Proof using Hms.
  revert i params output. induction fields as [|f fields IH]; intros i params output Hi.
  { exists [], None. rewrite app_nil_r. split_and!; [done|constructor|]. simpl. lia. }
  assert (∀ f', f' ∈ fields → is_interface (field_type f') = false) as Hi' by (intros f' Hf'; apply Hi;
    by right).
  destruct params as [|param params].
  { exists [], None. rewrite decode_fields_nil, app_nil_r. by split_and!. }
  cbn [decode_fields exported]. destruct (IsExported f) eqn:Hx; [|by apply IH].
  unfold interfaceToValue, zero_Interface. rewrite (Hi f) by by left.
  destruct (decode_arg ms _ param) as [err|ov] eqn:Hd.
  { exists [], (Some (ErrorWithMessage "mapstruct.Decode" err)). rewrite app_nil_r. by split_and!. }
  destruct (decode_arg_typed ms Hms _ _ _ _ Hd) as (d & ->).
  destruct (IH (S i) params (output ++ [(i, mkValue (field_type f) d)]) Hi') as (set & err & -> & Hset & Hlen).
  exists ((i, mkValue (field_type f) d) :: set), err. rewrite <- app_assoc.
  split_and!; [done|by constructor|]. intros He. simpl. by rewrite Hlen.
Qed.
End decode_params.
