(* ===== verification/Clients.v ===== *)
(** * Making clients and moving messages: net/client_factory.go,
      net/client_util.go, net/ws_client.go, net/http2_client.go,
      net/tcp_client.go and net/vsock_client.go

    [NewClient] chooses a client by the scheme of a URL.  The transports carry
    the messages of a StreamingClient: they connect, write and read, and turn
    the errors of the network into those StreamingClient.v knows.  The network
    is an argument of each operation: what dialling, writing and reading give.

    A net_error says what errors.Is and errors.As find in an error. *)

From Stdlib Require Import Ascii.
From S2P Require Import Prelude GoMap Strconv Values Messages Parse JsonText WireText.
From S2P Require Import StreamingClient Http Auth Session.
From stdpp Require Import options.
#[local] Open Scope Z_scope.

(** ** Flags for headers *)

Fixpoint trim_left (s : string) : string :=
  match s with
  | String c r => if decide (c = space) then trim_left r else s
  | EmptyString => ""
  end.

Fixpoint trim_right (s : string) : string :=
  match s with
  | String c r =>
      let r := trim_right r in
      if bool_decide (c = space ∧ r = "") then "" else String c r
  | EmptyString => ""
  end.

(** [strings.Trim(s, SP)] for a space SP. *)
Definition Trim (s : string) : string := trim_right (trim_left s).

Abbreviation HeaderFlags := (list string).

Definition HeaderFlags_Set (value : string) (flag : HeaderFlags) : HeaderFlags := flag ++ [value].

(** The loop of [Parse]. *)
Fixpoint parse_flags (header : http_header) (flag : HeaderFlags) : error + http_header :=
  match flag with
  | [] => inr header
  | hr :: flag =>
      match cut colon hr with
      | None => inl (ErrorString "invalid http header")
      | Some (name, value) => parse_flags (header_Add (Trim name) (Trim value) header) flag
      end
  end.

Definition HeaderFlags_Parse (flag : HeaderFlags) : error + http_header := parse_flags [] flag.

Example flags_of_a_command_line :
  HeaderFlags_Parse (HeaderFlags_Set "x-id:  7:8 " ["Accept: text"; "X-ID: 6"]) =
    inr [("Accept", ["text"]); ("X-Id", ["6"; "7:8"])] ∧
  HeaderFlags_Parse ["novalue"] = inl (ErrorString "invalid http header").
Proof. by vm_compute. Qed.

Record TLSConfig := mkTLSConfig { Certfile : string; Keyfile : string }.

Definition TLS_ValidateValues (cfg : TLSConfig) : option error :=
  if bool_decide (Certfile cfg = "") then Some (ErrorString "certfile is empty")
  else if bool_decide (Keyfile cfg = "") then Some (ErrorString "keyfile is empty")
  else None.

(** The first configuration that is not nil. *)
Definition chosen_config (tlsConfigs : list (option TLSConfig)) : option TLSConfig :=
  match omap id tlsConfigs with cfg :: _ => Some cfg | [] => None end.

(** ** Clients *)

(** What the library asks of a url.URL. *)
Record URL := mkURL { Scheme : string; Hostname : string; Port : string }.

Definition set_Scheme (scheme : string) (u : URL) : URL := mkURL scheme (Hostname u) (Port u).

Record ClientOptions := mkClientOptions { options_Timeout : Z }.

Inductive any_client : Type :=
  | HTTP1 (serverUrl : URL) (clientOptions : ClientOptions)
  | WS (serverUrl : URL)
  | HTTP2 (serverUrl : URL) (UseHttp2C : bool)
  | TCP (serverUrl : URL)
  | Vsock (serverUrl : URL).

(** [IsStreaming] of each kind of client. *)
Definition IsStreaming (c : any_client) : bool :=
  match c with
  | HTTP1 _ _ => false
  | WS _ | HTTP2 _ _ | TCP _ | Vsock _ => true
  end.

(** [String] of the streaming ones; [url_String] is the String of a net/url URL. *)
Definition client_String (url_String : URL → string) (c : any_client) : option string :=
  match c with
  | HTTP1 _ _ => None
  | WS serverUrl => Some ("websocket client " +:+ url_String serverUrl)
  | HTTP2 serverUrl _ => Some ("http2 client " +:+ url_String serverUrl)
  | TCP serverUrl => Some ("tcp client " +:+ url_String serverUrl)
  | Vsock serverUrl => Some ("vsock client " +:+ url_String serverUrl)
  end.

(** [log.Panicf] panics with a log entry, not with an error. *)
Definition log_panic (msg : string) : panic := PanicValue msg.

Definition NewHttp1Client (serverUrl : URL) (optlist : list ClientOptions) : result any_client :=
  if bool_decide (Scheme serverUrl ≠ "http" ∧ Scheme serverUrl ≠ "https") then
    Panic (log_panic "server url is not http")
  else Ret (HTTP1 serverUrl (match optlist with o :: _ => o | [] => mkClientOptions 0 end)).

Definition NewWSClient (serverUrl : URL) : result any_client :=
  if bool_decide (Scheme serverUrl ≠ "ws" ∧ Scheme serverUrl ≠ "wss") then
    Panic (log_panic "server url is not websocket")
  else Ret (WS serverUrl).

Definition NewTCPClient (serverUrl : URL) : result any_client :=
  if bool_decide (Scheme serverUrl ≠ "tcp") then Panic (log_panic "server url is not tcp")
  else Ret (TCP serverUrl).

Definition NewVsockClient (serverUrl : URL) : result any_client :=
  if bool_decide (Scheme serverUrl ≠ "vsock") then Panic (log_panic "server url is not vsock")
  else Ret (Vsock serverUrl).

(** [copied] is what parsing the text of the URL again gives. *)
Definition NewHttp2Client (copied : error + URL) : result any_client :=
  match copied with
  | inl _ => Panic (log_panic "copy url error")
  | inr newUrl =>
      let '(newUrl, useh2c) :=
        if bool_decide (Scheme newUrl = "h2") then (set_Scheme "https" newUrl, false)
        else if bool_decide (Scheme newUrl = "h2c") then (set_Scheme "http" newUrl, true)
        else (newUrl, false) in
      if bool_decide (Scheme newUrl ≠ "https" ∧ Scheme newUrl ≠ "http") then
        Panic (log_panic "server url is not http2")
      else Ret (HTTP2 newUrl useh2c)
  end.

(** [parsed] is the result of [url.Parse(serverUrl)]; [copy] parses the text of
    a URL again. *)
Definition NewClient (copy : URL → error + URL) (parsed : error + URL) (optlist : list ClientOptions)
    : result (error + any_client) :=
  match parsed with
  | inl err => Ret (inl (ErrorWithMessage "url.Parse" err))
  | inr u =>
      if bool_decide (Scheme u ∈ ["http"; "https"]) then inr <$> NewHttp1Client u optlist
      else if bool_decide (Scheme u ∈ ["ws"; "wss"]) then inr <$> NewWSClient u
      else if bool_decide (Scheme u ∈ ["h2"; "h2c"]) then inr <$> NewHttp2Client (copy u)
      else if bool_decide (Scheme u = "tcp") then inr <$> NewTCPClient u
      else if bool_decide (Scheme u = "vsock") then inr <$> NewVsockClient u
      else Ret (inl (ErrorString "url scheme not supported"))
  end.

Lemma NewClient_total copy parsed optlist :
  (∀ u, copy u = inr u) → ∃ r, NewClient copy parsed optlist = Ret r.
Proof.
  intros Hcopy. destruct parsed as [err|u]; [by eexists|]. unfold NewClient.
  case_bool_decide as H1.
  { unfold NewHttp1Client. rewrite bool_decide_false by set_solver. by eexists. }
  case_bool_decide as H2.
  { unfold NewWSClient. rewrite bool_decide_false by set_solver. by eexists. }
  case_bool_decide as H3.
  { rewrite Hcopy. unfold NewHttp2Client.
    rewrite elem_of_cons, list_elem_of_singleton in H3. destruct H3 as [->| ->]; by eexists. }
  case_bool_decide as H4; [unfold NewTCPClient; rewrite bool_decide_false by tauto; by eexists|].
  case_bool_decide as H5; [unfold NewVsockClient; rewrite bool_decide_false by tauto; by eexists|].
  by eexists.
Qed.

(** ** Errors of the network *)

Record net_error := mkNetError {
  is_io_EOF : bool;      (** errors.Is(err, io.EOF) *)
  is_OpError : bool;     (** errors.As finds a *net.OpError *)
  is_url_Error : bool;   (** a *url.Error *)
  is_CloseError : bool;  (** a *websocket.CloseError *)
  net_text : string }.

(** The error as a value of StreamingClient.v, when it is only passed on. *)
Definition net_error_value (e : net_error) : error :=
  if is_io_EOF e then ErrorEOF else ErrorString (net_text e).

Definition handleWebsocketError (e : net_error) : error :=
  if is_io_EOF e then TransportClosed
  else if is_CloseError e then TransportClosed
  else ErrorWithMessage "handleWebsocketError" (net_error_value e).

Definition handleTCPError (e : net_error) : error :=
  if is_io_EOF e then TransportClosed else ErrorWithMessage "handleTCPError" (net_error_value e).

(** That of the vsock transport is the same. *)
Definition vsock_handleTCPError (e : net_error) : error :=
  if is_io_EOF e then TransportClosed else ErrorWithMessage "handleTCPError" (net_error_value e).

Definition handleHttp2Error (e : net_error) : error :=
  if is_io_EOF e then TransportClosed
  else if is_url_Error e then TransportClosed
  else ErrorWithMessage "h2transport.handleHttp2Error" (net_error_value e).

(** ** [Connect]: an error or a connection, as StreamingClient's [dial] *)

(** A failed dial, to be wrapped as [what]. *)
Definition dial_error (what : string) (e : net_error) : error :=
  if is_OpError e then TransportConnectFailed else ErrorWithMessage what (net_error_value e).

Definition ws_Connect (dial : option net_error) : option error := dial_error "wstransport.connect" <$> dial.
Definition tcp_Connect (dial : option net_error) : option error := dial_error "tcp.connect" <$> dial.
Definition h2_Connect (Do : option net_error) : option error := handleHttp2Error <$> Do.

(** [strconv.ParseUint(s, 10, 32)] *)
Definition ParseUint32 (s : string) : option Z :=
  u ← ParseUint s; if u <? 2 ^ 32 then Some u else None.

(** [vsock_dial] dials a context and a port. *)
Definition vsock_Connect (vsock_dial : Z → Z → option net_error) (serverUrl : URL) : option error :=
  match ParseUint32 (Hostname serverUrl) with
  | None => Some (ErrorWithMessage "vsock.parseContextId" (ErrorString "invalid syntax"))
  | Some contextID =>
      match ParseUint32 (Port serverUrl) with
      | None => Some (ErrorWithMessage "vsock.parsePort" (ErrorString "invalid syntax"))
      | Some port => dial_error "vsock.connect" <$> vsock_dial contextID port
      end
  end.

(** ** [WriteMessage]: the bytes that are written, or an error *)

Definition marshal_error : error := ErrorJson "unsupported value".

(** [handle] turns an error of the write into one of the transport. *)
Definition write_text (handle : net_error → error) (wrote : option net_error) (text : string)
    : error + string :=
  match wrote with Some e => inl (handle e) | None => inr text end.

Definition write_message (handle : net_error → error) (line_end : string) (wrote : option net_error)
    (msg : Message) : error + string :=
  match MessageBytes msg with
  | None => inl marshal_error
  | Some marshaled => write_text handle wrote (json_text marshaled +:+ line_end)
  end.

Definition ws_WriteMessage : option net_error → Message → error + string :=
  write_message handleWebsocketError "".
Definition tcp_WriteMessage : option net_error → Message → error + string :=
  write_message handleTCPError "".
Definition vsock_WriteMessage : option net_error → Message → error + string :=
  write_message vsock_handleTCPError "".
Definition h2_WriteMessage : option net_error → Message → error + string :=
  write_message handleHttp2Error (String (chr 10) "").

(** ** [ReadMessage] *)

Fixpoint contains (sub s : string) : bool :=
  String.prefix sub s || match s with EmptyString => false | String _ s => contains sub s end.

Section read.
Context (Error : error → string).   (** the text of an error *)

(** One frame: a message, none for a frame that is not text, or an error. *)
Definition ws_ReadMessage (frame : net_error + (bool * string)) : result (error + option Message) :=
  match frame with
  | inl e => Ret (inl (handleWebsocketError e))
  | inr (is_text, msgBytes) =>
      if negb is_text then Ret (inr None)
      else r ← ParseBytes (scan_text msgBytes) [];
           Ret (match r with inl err => inl err | inr msg => inr (Some msg) end)
  end.

(** The next message of a JSON stream, and the rest of the stream: the three
    transports without frames have the same [ReadMessage]. *)
Definition stream_ReadMessage (d : decoder) : result ((error + Message) * decoder) :=
  r ← DecodeMessage d [];
  Ret (match r.1 with
       | inl err =>
           if is_EOF err then inl TransportClosed
           else if contains "read/write on closed pipe" (Error err) then inl TransportClosed
           else inl err
       | inr msg => inr msg
       end, r.2).

Definition tcp_ReadMessage : decoder → result ((error + Message) * decoder) := stream_ReadMessage.
Definition vsock_ReadMessage : decoder → result ((error + Message) * decoder) := stream_ReadMessage.
Definition h2_ReadMessage : decoder → result ((error + Message) * decoder) := stream_ReadMessage.

(** All messages of a stream up to the first error. *)
Fixpoint read_stream (n : nat) (d : decoder) : result (list Message * option error) :=
  match n with
  | O => Ret ([], None)
  | S n =>
      r ← stream_ReadMessage d;
      match r.1 with
      | inl err => Ret ([], Some err)
      | inr msg => p ← read_stream n r.2; Ret (msg :: p.1, p.2)
      end
  end.

(** ** What one peer writes, the other reads *)

(** The text on a connection after writing messages. *)
Fixpoint written_text (WriteMessage : option net_error → Message → error + string) (msgs : list Message)
    : error + string :=
  match msgs with
  | [] => inr ""
  | msg :: msgs =>
      text ← WriteMessage None msg; rest ← written_text WriteMessage msgs; inr (text +:+ rest)
  end.

Definition stream_WriteMessages : list (option net_error → Message → error + string) :=
  [tcp_WriteMessage; vsock_WriteMessage; h2_WriteMessage].

Lemma scan_line_end line_end s :
  line_end = "" ∨ line_end = String (chr 10) "" → scan_text (line_end +:+ s) = scan_text s.
Proof using Type.
  intros [->| ->]; [done|]. unfold scan_text. change (String (chr 10) "" +:+ s) with (String (chr 10) s).
  by rewrite lex_space.
Qed.

(** A message at the head of a stream. *)
Lemma stream_ReadMessage_message WriteMessage msg rest :
  WriteMessage ∈ stream_WriteMessages → message_wire msg → shallow msg →
  ∃ text, WriteMessage None msg = inr text ∧
    stream_ReadMessage (scan_text (text +:+ rest)) = Ret (inr (message_norm msg), scan_text rest).
Proof using Type.
  intros Hwrite Hw Hs.
  destruct (message_roundtrip msg (mkMessageOptions false) Hw) as (j & Hj & Hd); [by left|].
  assert (∃ line_end, (line_end = "" ∨ line_end = String (chr 10) "") ∧
    WriteMessage None msg = inr (json_text j +:+ line_end)) as (line_end & Hend & ->).
  { unfold stream_WriteMessages in Hwrite. rewrite !elem_of_cons, elem_of_nil in Hwrite.
    destruct Hwrite as [->|[->|[->|[]]]];
      [exists ""|exists ""|exists (String (chr 10) "")]; (split; [by auto|]);
      unfold tcp_WriteMessage, vsock_WriteMessage, h2_WriteMessage, write_message; by rewrite Hj. }
  exists (json_text j +:+ line_end). split; [done|]. rewrite string_app_assoc.
  rewrite (scan_message msg) by (done || by apply Hs). rewrite scan_line_end by done.
  unfold stream_ReadMessage. by rewrite (DecodeMessage_value j _ [] _ Hd).
Qed.
End read.

(** C12. Messages cross a TCP, vsock or HTTP/2 connection unchanged.  Whatever
    well-formed messages that JSON carries one peer writes, in whatever number,
    the bytes on the connection are read by the other peer as the same messages
    in the same order, up to the order of map entries and without response
    headers, and the end of the connection after them as a closed transport. *)
Theorem stream_transfer Error WriteMessage msgs :
  WriteMessage ∈ stream_WriteMessages → Forall (λ msg, message_wire msg ∧ shallow msg) msgs →
  ∃ text, written_text WriteMessage msgs = inr text ∧
    read_stream Error (S (length msgs)) (scan_text text) =
      Ret (message_norm <$> msgs, Some TransportClosed).
Proof.
  intros Hwrite. induction 1 as [|msg msgs [Hw Hs] _ (text & Htext & Hread)]; [by exists ""|].
  destruct (stream_ReadMessage_message Error WriteMessage msg text Hwrite Hw Hs) as (t & Ht & Hmsg).
  exists (t +:+ text). cbn [written_text]. rewrite Ht, Htext. split; [done|].
  cbn [length]. remember (S (length msgs)) as n eqn:Hn. cbn [read_stream]. rewrite Hmsg.
  cbn [mbind outcome_mbind outcome_bind fst snd]. by rewrite Hread.
Qed.

Lemma stream_transfer_witness :
  ∃ text, written_text tcp_WriteMessage [sample_request; sample_request] = inr text ∧
    read_stream (λ _, "") 3 (scan_text text) =
      Ret ([message_norm sample_request; message_norm sample_request], Some TransportClosed).
Proof.
  apply (stream_transfer (λ _, "") tcp_WriteMessage [sample_request; sample_request]).
  - by left.
  - assert (message_wire sample_request ∧ shallow sample_request)
      by (split; [exact sample_request_wire|by apply is_shallow_spec]).
    by repeat (apply Forall_cons; split).
Defined.
