(* ===== verification/Listen.v ===== *)
(** * Servers and handlers: net/tcp_server.go, net/vsock_server.go,
      net/http1_server.go, net/ws_server.go, net/http2_server.go,
      net/gateway_handler.go and net/server_utils.go

    The first part is a server that listens by itself, over TCP or vsock: the
    loop of [Start], [Stop], and the sessions of the accepted connections,
    which run concurrently and share the world of the actor.  As in Session.v
    a [label] is one atomic action.  A listener is named by its place in
    [sockets], which says whether it is still open; [listener] is the field of
    the server.  [Start] may be called more than once.

    The second part is the handlers of net/http, which the gateway chooses
    from, as objects that refer to an actor in the heap. *)

From S2P Require Import Prelude GoMap Strconv Values Messages Parse JsonText.
From S2P Require Import Methods Schema Validator Actor StreamingClient Http Http1 Session Servers Clients.
From stdpp Require Import gmap.
From stdpp Require Import options.
#[local] Open Scope Z_scope.

(** ** Listening *)

(** A call of [Start]: before its test of [s.listener], in [listener.Accept()],
    or returned. *)
Inductive start_state : Type :=
  | Testing
  | Accepting (l : nat)
  | Ended (err : option error).

Record server (W : Type) := mkServer {
  server_world : W;
  listener : option nat;
  sockets : list bool;
  starts : list start_state;
  sessions : list (session W) }.
Arguments mkServer {_} _ _ _ _ _.
Arguments server_world {_} _.
Arguments listener {_} _.
Arguments sockets {_} _.
Arguments starts {_} _.
Arguments sessions {_} _.

Inductive server_label (W : Type) : Type :=
  | SStart (bound : option net_error)            (** [Start], up to the test of its loop *)
  | STest (i : nat)                              (** the test in the i-th call of [Start] *)
  | SAccept (i : nat) (accepted : option net_error)
  | SStop
  | SSession (n : nat) (l : label)               (** an action of the n-th session *)
  | SWorld (w : W).                              (** another user of the actor *)
Arguments SStart {_} _.
Arguments STest {_} _.
Arguments SAccept {_} _ _.
Arguments SStop {_}.
Arguments SSession {_} _ _.
Arguments SWorld {_} _.

Section server.
Context {W : Type}.
Context (kind : session_kind) (accept_what : string).
Context (feed : nat → Message → act W panic feed_result) (HandleClose : nat → act W panic unit).

Abbreviation server := (server W).
Abbreviation server_label := (server_label W).

Definition set_starts (ts : list start_state) (s : server) : server :=
  mkServer (server_world s) (listener s) (sockets s) ts (sessions s).

(** A server after NewTCPServer or NewVsockServer. *)
Definition new_server (w : W) : server := mkServer w None [] [] [].

(** [net.Listen], and the field. *)
Definition Start (bound : option net_error) (s : server) : server :=
  match bound with
  | Some err => set_starts (starts s ++ [Ended (Some (net_error_value err))]) s
  | None =>
      mkServer (server_world s) (Some (length (sockets s))) (sockets s ++ [true])
        (starts s ++ [Testing]) (sessions s)
  end.

(** [if listener := s.listener; listener != nil] *)
Definition start_test (i : nat) (s : server) : option server :=
  match starts s !! i with
  | Some Testing =>
      Some (set_starts (<[i := match listener s with Some l => Accepting l | None => Ended None end]> (starts s)) s)
  | _ => None
  end.

(** What Start returns when Accept fails. *)
Definition accept_failed (err : net_error) : option error :=
  if is_OpError err then None else Some (ErrorWithMessage accept_what (net_error_value err)).

(** [listener.Accept()]: a connection, whose session starts, or an error.  On a
    closed listener it fails with an OpError. *)
Definition start_accept (i : nat) (accepted : option net_error) (s : server) : option server :=
  match starts s !! i with
  | Some (Accepting l) =>
      match accepted with
      | None =>
          if default false (sockets s !! l) then
            Some (mkServer (server_world s) (listener s) (sockets s) (<[i := Testing]> (starts s))
                    (sessions s ++ [new_session (server_world s)]))
          else None
      | Some err =>
          if default false (sockets s !! l) || is_OpError err then
            Some (set_starts (<[i := Ended (accept_failed err)]> (starts s)) s)
          else None
      end
  | _ => None
  end.

Definition Stop (s : server) : server :=
  match listener s with
  | Some l => mkServer (server_world s) None (<[l := false]> (sockets s)) (starts s) (sessions s)
  | None => s
  end.

(** An action of a session, on the world that all sessions share. *)
Definition session_action (n : nat) (l : label) (s : server) : comp panic server :=
  match sessions s !! n with
  | None => None
  | Some x =>
      x ← step kind (feed n) (HandleClose n) l (set_world (server_world s) x);
      mret (mkServer (world x) (listener s) (sockets s) (starts s) (<[n := x]> (sessions s)))
  end.

Definition server_step (l : server_label) (s : server) : comp panic server :=
  match l with
  | SStart bound => mret (Start bound s)
  | STest i => Ret <$> start_test i s
  | SAccept i accepted => Ret <$> start_accept i accepted s
  | SStop => mret (Stop s)
  | SSession n l => session_action n l s
  | SWorld w => mret (mkServer w (listener s) (sockets s) (starts s) (sessions s))
  end.

Fixpoint server_run (ls : list server_label) (s : server) : comp panic server :=
  match ls with
  | [] => mret s
  | l :: ls => s ← server_step l s; server_run ls s
  end.

Inductive server_reachable : server → Prop :=
  | srv_new w : server_reachable (new_server w)
  | srv_step l s s' : server_reachable s → server_step l s = Some (Ret s') → server_reachable s'.

(** ** What every execution of a server keeps *)

(** The sessions are sessions as Session.v has them, for which the others are
    other users of the actor; an open listener is the one [Stop] closes, unless
    [Start] has been called again. *)
Record server_ok (s : server) : Prop := {
  so_sessions n x : sessions s !! n = Some x → reachable kind (feed n) (HandleClose n) x;
  so_listener l : listener s = Some l → sockets s !! l = Some true;
  so_open l : (length (sockets s) ≤ 1)%nat → sockets s !! l = Some true → listener s = Some l }.

Lemma new_server_ok w : server_ok (new_server w).
Proof using Type. by split. Qed.

Lemma Start_ok bound s : server_ok s → server_ok (Start bound s).
Proof using Type.
  intros [H1 H2 H3]. destruct bound as [err|]; [by split|]. split; cbn [Start sessions listener sockets].
  - done.
  - intros l [= <-]. by rewrite list_lookup_middle.
  - intros l Hlen Hl. rewrite length_app in Hlen. cbn in Hlen.
    apply lookup_lt_Some in Hl. rewrite length_app in Hl. cbn in Hl. f_equal. lia.
Qed.

Lemma Stop_ok s : server_ok s → server_ok (Stop s).
Proof using Type.
  intros [H1 H2 H3]. unfold Stop. destruct (listener s) as [l|] eqn:Hl; [|by split; rewrite ?Hl].
  split; cbn [sessions listener sockets]; [done|done|]. intros l' Hlen. rewrite length_insert in Hlen.
  destruct (decide (l' = l)) as [->|Hne].
  - rewrite list_lookup_insert_eq by (eapply lookup_lt_Some; by apply H2). done.
  - rewrite list_lookup_insert_ne by done. intros Hl'. specialize (H3 _ Hlen Hl'). congruence.
Qed.

Lemma server_step_ok l s s' : server_ok s → server_step l s = Some (Ret s') → server_ok s'.
Proof using Type.
  intros Hok. pose proof Hok as [H1 H2 H3].
  destruct l as [bound|i|i accepted| |n l|w]; cbn [server_step].
  - intros [= <-]. by apply Start_ok.
  - unfold start_test. destruct (starts s !! i) as [[]|]; try done. by intros [= <-].
  - unfold start_accept. destruct (starts s !! i) as [[|l|]|]; try done. destruct accepted as [err|].
    + destruct (_ || _); [|done]. by intros [= <-].
    + destruct (default false (sockets s !! l)); [|done]. intros [= <-].
      split; cbn [sessions listener sockets]; [|done|done]. intros n x [Hx|(_ & Hx)]%lookup_app_Some; [by eapply H1|].
      apply list_lookup_singleton_Some in Hx as [_ <-]. apply reach_new.
  - intros [= <-]. by apply Stop_ok.
  - unfold session_action. destruct (sessions s !! n) as [x|] eqn:Hx; [|done].
    destruct (step kind (feed n) (HandleClose n) l _) as [[x'|p]|] eqn:Hl; [|done..]. intros [= <-].
    split; cbn [sessions listener sockets]; [|done|done]. intros m y Hy.
    apply list_lookup_insert_Some in Hy as [(<- & <- & _)|[_ Hy]]; [|by eapply H1].
    eapply reach_step; [|exact Hl]. apply reach_world. by eapply H1.
  - by intros [= <-].
Qed.

Lemma server_reachable_ok s : server_reachable s → server_ok s.
Proof using Type. induction 1; [apply new_server_ok|by eapply server_step_ok]. Qed.

Lemma server_run_reachable ls s s' :
  server_reachable s → server_run ls s = Some (Ret s') → server_reachable s'.
Proof using Type.
  revert s. induction ls as [|l ls IH]; intros s Hs; cbn [server_run]; [by intros [= <-]|].
  destruct (server_step l s) as [[s1|p]|] eqn:Hl; try done. cbn [mbind comp_mbind].
  apply IH. by eapply srv_step.
Qed.

(** ** After [Stop] *)

Definition stopped (s : server) : Prop := listener s = None ∧ Forall (λ open, open = false) (sockets s).

Lemma Stop_stopped s : server_ok s → (length (sockets s) ≤ 1)%nat → stopped (Stop s).
Proof using Type.
  intros Hok Hlen. pose proof (Stop_ok s Hok) as [_ _ H3].
  assert (listener (Stop s) = None) as Hn by (unfold Stop; by destruct (listener s) eqn:?).
  assert (length (sockets (Stop s)) ≤ 1)%nat as Hlen'.
  { unfold Stop. destruct (listener s); cbn [sockets]; by rewrite ?length_insert. }
  split; [done|]. apply Forall_lookup. intros l [] Hl; [|done]. specialize (H3 l Hlen' Hl). congruence.
Qed.

Lemma stopped_closed s l : stopped s → default false (sockets s !! l) = false.
Proof using Type. intros [_ H]. destruct (sockets s !! l) as [b|] eqn:Hl; [|done]. by eapply Forall_lookup in H. Qed.

(** A call of Start ends without an error, or has not moved. *)
Definition ends_quietly (st st' : start_state) : Prop := st' = st ∨ st' = Ended None.

#[local] Instance ends_quietly_preorder : PreOrder ends_quietly.
Proof using Type. split; [by left|]. intros x y z [->| ->] [->| ->]; by (left + right). Qed.

Lemma ends_quietly_insert i (ts : list start_state) : Forall2 ends_quietly ts (<[i := Ended None]> ts).
Proof using Type.
  apply Forall2_same_length_lookup_2; [by rewrite length_insert|]. intros j st st' Hst.
  intros [(_ & <- & _)|[_ Hst']]%list_lookup_insert_Some; [by right|left; congruence].
Qed.

Lemma stopped_step l s s' :
  stopped s → (∀ bound, l ≠ SStart bound) → server_step l s = Some (Ret s') →
  stopped s' ∧ length (sessions s') = length (sessions s) ∧ Forall2 ends_quietly (starts s) (starts s').
Proof using Type.
  intros Hs Hl. pose proof Hs as [Hn Hall].
  destruct l as [bound|i|i accepted| |n l|w]; cbn [server_step]; [by destruct (Hl bound)|..].
  - unfold start_test. rewrite Hn. destruct (starts s !! i) as [[]|]; try done. intros [= <-].
    split_and!; [done|done|apply ends_quietly_insert].
  - unfold start_accept. destruct (starts s !! i) as [[|l|]|]; try done. rewrite stopped_closed by done.
    destruct accepted as [err|]; [|done]. cbn [orb]. unfold accept_failed.
    destruct (is_OpError err); [|done]. intros [= <-].
    split_and!; [done|done|apply ends_quietly_insert].
  - unfold Stop. rewrite Hn. by intros [= <-].
  - unfold session_action. destruct (sessions s !! n) as [x|]; [|done].
    destruct (step kind (feed n) (HandleClose n) l _) as [[x'|p]|]; [|done..]. intros [= <-].
    split_and!; [done|apply length_insert|done].
  - by intros [= <-].
Qed.

Lemma stopped_run ls s s' :
  stopped s → (∀ bound, SStart bound ∉ ls) → server_run ls s = Some (Ret s') →
  stopped s' ∧ length (sessions s') = length (sessions s) ∧ Forall2 ends_quietly (starts s) (starts s').
Proof using Type.
  revert s. induction ls as [|l ls IH]; intros s Hs Hls; cbn [server_run].
  - intros [= <-]. by split_and!.
  - destruct (server_step l s) as [[s1|p]|] eqn:Hl; try done. cbn [mbind comp_mbind]. intros Hr.
    apply stopped_step in Hl as (Hs1 & Hlen & Hst); [|done|by intros bound ->; destruct (Hls bound); left].
    destruct (IH s1 Hs1) as (Hs' & Hlen' & Hst'); [by intros bound ?; destruct (Hls bound); right|done|].
    split_and!; [done|congruence|]. by transitivity (starts s1).
Qed.

(** Once all calls of Start have returned there are no new sessions. *)
Lemma ended_run ls s s' :
  (∀ bound, SStart bound ∉ ls) → Forall (λ st, ∃ err, st = Ended err) (starts s) →
  server_run ls s = Some (Ret s') → length (sessions s') = length (sessions s).
Proof using Type.
  revert s. induction ls as [|l ls IH]; intros s Hls Hall; cbn [server_run]; [by intros [= <-]|].
  destruct (server_step l s) as [[s1|p]|] eqn:Hl; try done. cbn [mbind comp_mbind]. intros Hr.
  assert (starts s1 = starts s ∧ length (sessions s1) = length (sessions s)) as [Hst Hlen].
  { destruct l as [bound|i|i accepted| |n l|w]; cbn [server_step] in Hl.
    - destruct (Hls bound). by left.
    - unfold start_test in Hl. destruct (starts s !! i) as [st|] eqn:Hi; [|done].
      by destruct (proj1 (Forall_lookup _ _) Hall _ _ Hi) as [err ->].
    - unfold start_accept in Hl. destruct (starts s !! i) as [st|] eqn:Hi; [|done].
      by destruct (proj1 (Forall_lookup _ _) Hall _ _ Hi) as [err ->].
    - injection Hl as <-. unfold Stop. by destruct (listener s).
    - unfold session_action in Hl. destruct (sessions s !! n) as [x|]; [|done].
      destruct (step kind (feed n) (HandleClose n) l _) as [[x'|p]|]; [|done..]. injection Hl as <-.
      split; [done|apply length_insert].
    - by injection Hl as <-. }
  rewrite (IH s1); [done|by intros bound ?; destruct (Hls bound); right|by rewrite Hst|done].
Qed.

(** A call of Start that has not returned can always do so. *)
Lemma stopped_ends s i st :
  stopped s → starts s !! i = Some st →
  (∃ err, st = Ended err) ∨
  ∃ l s', server_step l s = Some (Ret s') ∧ starts s' !! i = Some (Ended None).
Proof using Type.
  intros Hs Hi. pose proof (lookup_lt_Some _ _ _ Hi) as Hlt. destruct st as [|l|err]; [right|right|by left; eexists].
  - exists (STest i). cbn [server_step]. unfold start_test. rewrite Hi, (proj1 Hs). eexists. split; [done|].
    by apply list_lookup_insert_eq.
  - exists (SAccept i (Some (mkNetError false true false false "use of closed network connection"))).
    cbn [server_step]. unfold start_accept. rewrite Hi, stopped_closed by done. eexists. split; [done|].
    by apply list_lookup_insert_eq.
Qed.
End server.


(** C11. [Stop] stops a server that was started once.  Afterwards no
    connection becomes a session any more, and each call of [Start] either has
    returned as it did or returns without an error: as long as it has not, it
    can, and it does nothing else. *)
Theorem Stop_stops {W : Type} kind accept_what (feed : nat → Message → act W panic feed_result) HandleClose
    s ls s' :
  server_reachable kind accept_what feed HandleClose s → (length (sockets s) ≤ 1)%nat →
  (∀ bound, SStart bound ∉ ls) →
  server_run kind accept_what feed HandleClose ls (Stop s) = Some (Ret s') →
  length (sessions s') = length (sessions s) ∧
  ∀ i st, starts s !! i = Some st →
    ∃ st', starts s' !! i = Some st' ∧ (st' = st ∨ st' = Ended None) ∧
      ((∃ err, st' = Ended err) ∨
       ∃ l s'', server_step kind accept_what feed HandleClose l s' = Some (Ret s'') ∧
         starts s'' !! i = Some (Ended None)).
Proof.
  intros Hs Hlen Hls Hrun. apply server_reachable_ok in Hs.
  destruct (stopped_run _ _ _ _ _ _ _ (Stop_stopped _ _ _ s Hs Hlen) Hls Hrun) as (Hs' & Hl & Hst).
  assert (sessions (Stop s) = sessions s ∧ starts (Stop s) = starts s) as [Hse Hsta]
    by (unfold Stop; by destruct (listener s)).
  rewrite Hse in Hl. rewrite Hsta in Hst. split; [done|]. intros i st Hi.
  destruct (Forall2_lookup_l _ _ _ _ _ Hst Hi) as (st' & Hi' & Hq). exists st'. split_and!; [done|done|].
  by apply stopped_ends.
Qed.

(** *** A server with two sessions *)

Definition demo_session (n : nat) (id : Z) : list (server_label nat) :=
  SSession n <$> one_call TCPSession "echo" id.

Definition two_sessions : list (server_label nat) :=
  [SStart None; STest 0; SAccept 0 None; STest 0; SAccept 0 None; STest 0]
    ++ take 2 (demo_session 0 1) ++ demo_session 1 1 ++ drop 2 (demo_session 0 1).

Definition demo_step := server_run TCPSession "tcp.Accept" (λ _, stream_feed TCPSession) (λ _, no_close).

Definition demo_server : server nat :=
  match demo_step two_sessions (new_server 0%nat) with Some (Ret s) => s | _ => new_server 0%nat end.

Lemma demo_server_reachable :
  server_reachable TCPSession "tcp.Accept" (λ _, stream_feed TCPSession) (λ _, no_close) demo_server.
Proof.
  unfold demo_server, demo_step.
  destruct (server_run _ _ _ _ _ _) as [[s|p]|] eqn:Hr; [|apply srv_new..].
  eapply server_run_reachable; [apply srv_new|exact Hr].
Qed.


(** Stop while [Start] is in [Accept]; afterwards the first session goes on. *)
Definition after_stop : list (server_label nat) :=
  SAccept 0 (Some (mkNetError false true false false "use of closed network connection")) :: demo_session 0 2.

Lemma Stop_stops_witness :
  ∃ s', demo_step after_stop (Stop demo_server) = Some (Ret s') ∧
    starts demo_server = [Accepting 0] ∧ starts s' = [Ended None] ∧
    length (sessions s') = length (sessions demo_server).
Proof.
  eexists. split; [by vm_compute|]. split_and!; [by vm_compute..|].
  eapply (Stop_stops TCPSession "tcp.Accept" (λ _, stream_feed TCPSession) (λ _, no_close) demo_server after_stop).
  - apply demo_server_reachable.
  - by vm_compute; lia.
  - intros bound Hin%list_elem_of_In. cbv in Hin. decompose [or] Hin; congruence.
  - by vm_compute.
Defined.

(** A server panics only where its actor does: no step of Start, Stop or the
    sessions has a panic of its own. *)
Lemma server_safe {W : Type} kind accept_what (feed : nat → Message → act W panic feed_result) HandleClose
    l (s : server W) p :
  detaches kind = false → server_step kind accept_what feed HandleClose l s = Some (Panic p) →
  ∃ n, (∃ msg w, feed n msg (server_world s) = Some (Panic p, w)) ∨
       ∃ w, HandleClose n (server_world s) = Some (Panic p, w).
Proof.
  intros Hk. destruct l as [bound|i|i accepted| |n l|w]; cbn [server_step]; [done| | |done| |done].
  - by destruct (start_test i s).
  - by destruct (start_accept _ i accepted s).
  - unfold session_action. destruct (sessions s !! n) as [x|]; [|done].
    destruct (step kind (feed n) (HandleClose n) l _) as [[x'|q]|] eqn:Hl; try done.
    cbn. intros [= ->]. exists n. by apply (stream_session_safe (feed n) (HandleClose n)) in Hl.
Qed.

(** ** Hazards *)

(** C39. An error of the operating system ends a server silently.  Start takes
    every OpError of Accept, and the net package returns no other, for a Stop:
    after one such error, say for too many open files, the server has returned
    without an error and accepts no connection any more, while its listener is
    open, so that clients still connect, and their requests wait for ever. *)
Theorem accept_error_ends_server {W : Type} kind accept_what (feed : nat → Message → act W panic feed_result)
    HandleClose w
    is_io_EOF is_url_Error is_CloseError net_text :
  let err := mkNetError is_io_EOF true is_url_Error is_CloseError net_text in
  ∃ s, server_run kind accept_what feed HandleClose [SStart None; STest 0; SAccept 0 (Some err)] (new_server w)
      = Some (Ret s) ∧
    starts s = [Ended None] ∧ listener s = Some 0%nat ∧ sockets s = [true] ∧
    ∀ ls s', (∀ bound, SStart bound ∉ ls) → server_run kind accept_what feed HandleClose ls s = Some (Ret s') →
      sessions s' = [].
Proof.
  intros err. eexists. split; [by cbn|]. split_and!; [done..|]. intros ls.
  intros s' Hls Hrun. apply ended_run in Hrun; [by apply nil_length_inv|done|].
  repeat constructor. by eexists.
Qed.

(** ** The handlers of net/http *)

(** A location for a new object. *)
Lemma fresh_location {A} (h : gmap nat A) : h !! fresh (dom h) = None.
Proof. apply not_elem_of_dom, is_fresh. Qed.

Module Handlers.

Record Http1Handler := mkHttp1Handler { h1_Actor : nat }.

Record WSHandler := mkWSHandler { ws_Actor : nat; ws_SpawnGoroutine : bool }.

(** [fallbackHandler] is made once. *)
Record Http2Handler := mkHttp2Handler {
  h2_Actor : nat;
  h2_SpawnGoroutine : bool;
  UseHttp2C : bool;
  fallbackHandler : option Http1Handler }.

Record GatewayHandler := mkGatewayHandler {
  h1Handler : Http1Handler;
  wsHandler : WSHandler;
  h2Handler : Http2Handler;
  gateway_Actor : nat;
  insecure : bool }.

(** What serving a request comes to: a response, or a session of some kind,
    with the actor it feeds. *)
Inductive service : Type :=
  | Page (w : ResponseWriter)
  | Session (kind : session_kind) (actor : nat).

Section handlers.
Context {W Auth Sess S : Type} `{HD : MapDecoder, HS : SchemaOps S}.

Abbreviation Heap := (@Heap W (option Auth) (http_Request Auth) Sess S).

(** [if actor == nil { actor = NewActor() }] *)
Definition actor_or_new (actor : option nat) (h : Heap) : nat * Heap :=
  match actor with
  | Some l => (l, h)
  | None => let l := fresh (dom h) in (l, <[l := NewActor]> h)
  end.

(** The actor of a new server. *)
Definition NewTCPServer : option nat → Heap → nat * Heap := actor_or_new.
Definition NewVsockServer : option nat → Heap → nat * Heap := actor_or_new.

Definition NewHttp1Handler (actor : option nat) (h : Heap) : Http1Handler * Heap :=
  let '(l, h) := actor_or_new actor h in (mkHttp1Handler l, h).

Definition NewWSHandler (actor : option nat) (h : Heap) : WSHandler * Heap :=
  let '(l, h) := actor_or_new actor h in (mkWSHandler l true, h).

Definition NewHttp2Handler (actor : option nat) (h : Heap) : Http2Handler * Heap :=
  let '(l, h) := actor_or_new actor h in (mkHttp2Handler l true false None, h).

(** [Http2CHandler], before h2c.NewHandler wraps the handler. *)
Definition Http2CHandler (hd : Http2Handler) : Http2Handler :=
  mkHttp2Handler (h2_Actor hd) (h2_SpawnGoroutine hd) true (fallbackHandler hd).

Definition FallbackHandler (hd : Http2Handler) (h : Heap) : Http1Handler * Http2Handler * Heap :=
  match fallbackHandler hd with
  | Some fb => (fb, hd, h)
  | None =>
      let '(fb, h) := NewHttp1Handler (Some (h2_Actor hd)) h in
      (fb, mkHttp2Handler (h2_Actor hd) (h2_SpawnGoroutine hd) (UseHttp2C hd) (Some fb), h)
  end.

Definition NewGatewayHandler (actor : option nat) (insecure : bool) (h : Heap) : GatewayHandler * Heap :=
  let '(l, h) := actor_or_new actor h in
  let '(h1, h) := NewHttp1Handler (Some l) h in
  let '(ws, h) := NewWSHandler (Some l) h in
  let '(h2, h) := NewHttp2Handler (Some l) h in
  (mkGatewayHandler h1 ws (if insecure then Http2CHandler h2 else h2) l insecure, h).

(** [WSHandler.ServeHTTP]: [Upgrade] is that of the WebSocket package, which
    may have answered the request when it fails. *)
Definition WS_ServeHTTP (Upgrade : ResponseWriter → http_Request Auth → bool * ResponseWriter)
    (hd : WSHandler) (w : ResponseWriter) (r : http_Request Auth) : result service :=
  let '(upgraded, w) := Upgrade w r in
  if upgraded then Ret (Session (WSSession (ws_SpawnGoroutine hd)) (ws_Actor hd))
  else w ← WriteHeader 400 w; Ret (Page (rw_Write "ws upgrade failed" w)).

Definition H1_ServeHTTP (fuel : nat) (h : Heap) (hd : Http1Handler) (w : ResponseWriter)
    (r : http_Request Auth) : act W panic service :=
  w ← Http1_ServeHTTP h fuel (h1_Actor hd) w r; mret (Page w).

Definition H2_ServeHTTP (fuel : nat) (is_flusher : bool) (h : Heap) (hd : Http2Handler) (w : ResponseWriter)
    (r : http_Request Auth) : act W panic service :=
  start ← act_of_outcome (Http2_ServeHTTP (UseHttp2C hd) is_flusher w r);
  match start with
  | Fallback => let '(fb, _, h) := FallbackHandler hd h in H1_ServeHTTP fuel h fb w r
  | Refused w => mret (Page w)
  | Streaming _ => mret (Session (Http2Session (h2_SpawnGoroutine hd)) (h2_Actor hd))
  end.

(** [GatewayHandler.ServeHTTP]: [h2c] is what h2c.NewHandler makes of a handler. *)
Definition GW_ServeHTTP (fuel : nat) (Upgrade : ResponseWriter → http_Request Auth → bool * ResponseWriter)
    (h2c : (ResponseWriter → http_Request Auth → act W panic service) →
           ResponseWriter → http_Request Auth → act W panic service)
    (is_flusher : bool) (h : Heap) (g : GatewayHandler) (w : ResponseWriter) (r : http_Request Auth)
    : act W panic service :=
  match Gateway_ServeHTTP r with
  | H2Handler =>
      let serve := H2_ServeHTTP fuel is_flusher h (h2Handler g) in
      (if insecure g then h2c serve else serve) w r
  | Http1.WSHandler => act_of_outcome (WS_ServeHTTP Upgrade (wsHandler g) w r)
  | H1Handler => H1_ServeHTTP fuel h (h1Handler g) w r
  end.

Lemma actor_or_new_spec actor h l h' :
  actor_or_new actor h = (l, h') →
  match actor with
  | Some l' => l = l' ∧ h' = h
  | None => h !! l = None ∧ h' = <[l := NewActor]> h
  end.
Proof using Type.
  destruct actor as [l'|]; intros [= <- <-]; split; try done.
  apply fresh_location.
Qed.
End handlers.
End Handlers.

(** C7. A gateway over TLS serves every protocol with one actor, the one it
    was given or a new one.  An HTTP/2 request becomes an HTTP/2 session, a
    WebSocket request a WebSocket session, each feeding that actor from
    goroutines of their own; every other HTTP/1 request, also one that asks for
    h2c, is answered as the HTTP/1 server with that actor answers it. *)
Theorem gateway_one_actor {W Auth Sess S : Type} `{HD : MapDecoder, HS : SchemaOps S} fuel Upgrade h2c actor
    (h h' : @Heap W (option Auth) (http_Request Auth) Sess S) g w r :
  Handlers.NewGatewayHandler actor false h = (g, h') →
  let l := Handlers.gateway_Actor g in
  let serve := Handlers.GW_ServeHTTP fuel Upgrade h2c true h' g w r in
  (∀ l', actor = Some l' → l = l' ∧ h' = h) ∧
  (actor = None → h !! l = None ∧ h' = <[l := NewActor]> h) ∧
  (rw_sent w = None → ProtoAtLeast r 2 0 = true →
    serve = mret (Handlers.Session (Http2Session true) l)) ∧
  (ProtoAtLeast r 2 0 = false → header_Get "Upgrade" (hr_Header r) = "websocket" → (Upgrade w r).1 = true →
    serve = mret (Handlers.Session (WSSession true) l)) ∧
  (ProtoAtLeast r 2 0 = false → header_Get "Upgrade" (hr_Header r) ≠ "websocket" →
    serve = w' ← Http1_ServeHTTP h' fuel l w r; mret (Handlers.Page w')).
Proof.
  unfold Handlers.NewGatewayHandler.
  destruct (Handlers.actor_or_new actor h) as [l h1] eqn:Hl. apply Handlers.actor_or_new_spec in Hl.
  intros [= <- <-]. cbn [Handlers.gateway_Actor]. unfold Handlers.GW_ServeHTTP, Gateway_ServeHTTP.
  split_and!.
  - by intros l' ->.
  - by intros ->.
  - intros Hw Hp. unfold Handlers.H2_ServeHTTP, Http2_ServeHTTP, WriteHeader. cbn. by rewrite Hp, Hw.
  - intros -> -> HU. unfold Handlers.WS_ServeHTTP. cbn. destruct (Upgrade w r) as [b w1]. cbn in HU. by subst b.
  - intros Hp Hu. unfold Handlers.H2_ServeHTTP, Http2_ServeHTTP. cbn.
    rewrite Hp, bool_decide_false by done. by case_bool_decide.
Qed.

(** Three requests to a gateway with the actor of Http1.v: HTTP/2, WebSocket and
    a post that asks for h2c. *)
Definition demo_upgrade (w : ResponseWriter) (r : http_Request unit) : bool * ResponseWriter := (true, w).

Definition demo_request (major : Z) (upgrade : string) : http_Request unit :=
  mkHttpRequest "POST" major 0 [("Upgrade", [upgrade])] (hr_Body echo_post) None.

Definition demo_gateway := (Handlers.NewGatewayHandler (Some 0%nat) false echo_heap).1.

Definition demo_serve :=
  @Handlers.GW_ServeHTTP nat unit unit Schema struct_decoder Schema_ops 3 demo_upgrade (λ serve, serve) true
    echo_heap demo_gateway NewResponseWriter.

Lemma gateway_one_actor_witness :
  demo_serve (demo_request 2 "") = mret (Handlers.Session (Http2Session true) 0) ∧
  demo_serve (demo_request 1 "websocket") = mret (Handlers.Session (WSSession true) 0) ∧
  (∃ w', demo_serve (demo_request 1 "h2c") 0%nat = Some (Ret (Handlers.Page w'), 1%nat) ∧
     (fst <$> rw_sent w') = Some 200).
Proof.
  pose proof (λ r, @gateway_one_actor nat unit unit Schema struct_decoder Schema_ops 3 demo_upgrade
    (λ serve, serve) (Some 0%nat) echo_heap echo_heap demo_gateway NewResponseWriter r eq_refl) as Hg.
  destruct (Hg (demo_request 2 "")) as (_ & _ & H2 & _).
  destruct (Hg (demo_request 1 "websocket")) as (_ & _ & _ & Hws & _).
  destruct (Hg (demo_request 1 "h2c")) as (_ & _ & _ & _ & H1).
  split_and!.
  - by apply H2.
  - by apply Hws.
  - unfold demo_serve. rewrite H1 by done. eexists. by split; vm_compute.
Defined.

(** ** ListenAndServe *)

(** [net.Listen] gives an error or a listener; [Serve] and [ServeTLS] are
    those of http.Server, which return the error they end with. *)
Definition ListenAndServe (listen : option net_error) (Serve : option error)
    (ServeTLS : string → string → option error) (tlsConfigs : list (option TLSConfig)) : option error :=
  match listen with
  | Some err => Some (net_error_value err)
  | None =>
      match chosen_config tlsConfigs with
      | Some cfg => ServeTLS (Certfile cfg) (Keyfile cfg)
      | None => ErrorWithMessage "server.Serve" <$> Serve
      end
  end.
