(* ===== verification/Links.v ===== *)
(** * Links: what one end of a connection writes, the other end reads

    A transport puts the text of each message on a connection; what the other
    end reads next depends on the kind of connection: WebSocket hands over one
    text at a time, the other three a stream of bytes in which a JSON decoder
    finds the values.  A [link] is a transport of the client with its kind of
    connection.  Each direction of a connection is the list of the texts
    written to it, and a reader has a place in it. *)

From S2P Require Import Prelude GoMap Strconv Values Messages Parse JsonText WireText.
From S2P Require Import Actor StreamingClient Session Clients.
From stdpp Require Import options.
#[local] Open Scope Z_scope.

Record link := mkLink {
  link_WriteMessage : option net_error → Message → error + string;
  link_frames : bool }.

Definition ws_link : link := mkLink ws_WriteMessage true.
Definition tcp_link : link := mkLink tcp_WriteMessage false.
Definition vsock_link : link := mkLink vsock_WriteMessage false.
Definition h2_link : link := mkLink h2_WriteMessage false.

Definition links : list link := [ws_link; tcp_link; vsock_link; h2_link].

Definition new_line : string := String (chr 10) "".

(** The bytes of a stream. *)
Fixpoint stream_bytes (texts : list string) : string :=
  match texts with [] => "" | text :: texts => text +:+ stream_bytes texts end.

Section link.
Context (L : link) (Error : error → string).

(** What a session appends to the text of a message. *)
Definition session_line_end : string := if link_frames L then "" else new_line.

(** What the [n]-th read of a session gives, [None] when there is nothing to
    read yet. *)
Definition session_reads (texts : list string) (n : nat) : option read_event :=
  if link_frames L then ReadFrame true <$> texts !! n
  else match drop n (scan_text (stream_bytes texts)) with
       | [] => None
       | d => Some (ReadStream d)
       end.

(** What a session reads once the client has closed the connection. *)
Definition session_reads_end : read_event :=
  if link_frames L then ReadError (ErrorWithMessage "ws.ReadMessage()" (ErrorString "websocket: close"))
  else ReadStream [].

(** What the [n]-th [ReadMessage] of the client gives. *)
Definition client_reads (texts : list string) (n : nat) : option (result (error + option Message)) :=
  if link_frames L then (λ text, ws_ReadMessage (inr (true, text))) <$> texts !! n
  else match drop n (scan_text (stream_bytes texts)) with
       | [] => None
       | d => Some (r ← stream_ReadMessage Error d;
                    Ret match r.1 with inl err => inl err | inr msg => inr (Some msg) end)
       end.
End link.

(** ** The texts of messages *)

Definition text_of (line_end : string) (j : json) : string := json_text j +:+ line_end.

Definition message_json (msg : Message) (j : json) : Prop :=
  MessageBytes msg = Some j ∧ (json_depth j ≤ maxNestingDepth)%nat.

Lemma scan_texts line_end msgs js :
  line_end = "" ∨ line_end = new_line → Forall2 message_json msgs js →
  scan_text (stream_bytes (text_of line_end <$> js)) = ScanValue <$> js.
Proof.
  intros Hend. induction 1 as [|msg j msgs js [Hj Hd] _ IH]; [done|].
  rewrite !fmap_cons. cbn [stream_bytes]. unfold text_of at 1. rewrite string_app_assoc.
  rewrite (scan_message msg) by done. rewrite scan_line_end by done. by f_equal.
Qed.

(** A transport writes the JSON of a message and the end of its line, which is
    empty for frames. *)
Record link_ok (L : link) (line_end : string) : Prop := {
  link_line_end : line_end = "" ∨ line_end = new_line;
  link_frame_end : link_frames L = true → line_end = "";
  link_writes wrote msg text : link_WriteMessage L wrote msg = inr text →
    wrote = None ∧ ∃ j, MessageBytes msg = Some j ∧ text = text_of line_end j;
  link_can_write msg j : MessageBytes msg = Some j → link_WriteMessage L None msg = inr (text_of line_end j) }.

Lemma links_ok L : L ∈ links → ∃ line_end, link_ok L line_end.
Proof.
  unfold links. rewrite !elem_of_cons, elem_of_nil. intros [->|[->|[->|[->|[]]]]];
    [exists ""|exists ""|exists ""|exists new_line];
    (split; [by auto|by auto| |]); intros *; cbn [link_WriteMessage ws_link tcp_link vsock_link h2_link];
    unfold ws_WriteMessage, tcp_WriteMessage, vsock_WriteMessage, h2_WriteMessage, write_message.
  all: try (intros ->; done).
  all: destruct (MessageBytes msg) as [j|], wrote; try done; intros [= <-]; split; [done|by exists j].
Qed.

Lemma session_line_end_ok L : session_line_end L = "" ∨ session_line_end L = new_line.
Proof. unfold session_line_end. destruct (link_frames L); auto. Qed.

Lemma session_frame_end L : link_frames L = true → session_line_end L = "".
Proof. unfold session_line_end. by intros ->. Qed.

(** ** What is read was written *)

(** The next value of a stream. *)
Lemma next_value msgs js n d :
  Forall2 message_json msgs js → d = drop n (ScanValue <$> js) → d ≠ [] →
  ∃ msg j, msgs !! n = Some msg ∧ message_json msg j ∧ d = ScanValue j :: drop (S n) (ScanValue <$> js).
Proof.
  intros Hjs -> Hne. destruct (js !! n) as [j|] eqn:Hj.
  - destruct (Forall2_lookup_r _ _ _ _ _ Hjs Hj) as (msg & Hm & Hmj). exists msg, j.
    split_and!; [done|done|]. apply drop_S. by rewrite list_lookup_fmap, Hj.
  - destruct Hne. apply drop_ge. rewrite length_fmap. by apply lookup_ge_None.
Qed.

(** The text of one message holds its JSON and nothing else. *)
Lemma scan_text_of msg j : message_json msg j → scan_text (text_of "" j) = [ScanValue j].
Proof. intros [Hj Hd]. unfold text_of. by rewrite (scan_message msg) by done. Qed.

(** The messages found in what a session reads. *)
Definition frame_message (msgBytes : string) : option Message :=
  match ParseBytes (scan_text msgBytes) [] with Ret (inr msg) => Some msg | _ => None end.

Definition event_message (ev : read_event) : option Message :=
  match ev with
  | ReadFrame true msgBytes => frame_message msgBytes
  | ReadStream d => match DecodeMessage d [] with Ret (inr msg, _) => Some msg | _ => None end
  | _ => None
  end.

Lemma session_reads_message L line_end msgs js n ev :
  line_end = "" ∨ line_end = new_line → (link_frames L = true → line_end = "") →
  Forall2 message_json msgs js → session_reads L (text_of line_end <$> js) n = Some ev →
  ∃ msg j, msgs !! n = Some msg ∧ message_json msg j ∧
    ((link_frames L = true ∧ ev = ReadFrame true (text_of "" j)) ∨
     (link_frames L = false ∧ ∃ rest, ev = ReadStream (ScanValue j :: rest))).
Proof.
  intros Hend Hframe Hjs. unfold session_reads. destruct (link_frames L) eqn:Hl.
  - rewrite Hframe by done. intros (text & Ht & ->)%fmap_Some.
    apply list_lookup_fmap_Some in Ht as (j & -> & Hj).
    destruct (Forall2_lookup_r _ _ _ _ _ Hjs Hj) as (msg & Hm & Hmj). exists msg, j. auto.
  - rewrite (scan_texts _ msgs) by done.
    destruct (drop n (ScanValue <$> js)) as [|e d] eqn:Hd; [done|]. intros [= <-].
    destruct (next_value _ _ _ _ Hjs (eq_sym Hd)) as (msg & j & Hm & Hmj & ->); [done|].
    exists msg, j. split_and!; [done|done|]. right. eauto.
Qed.

Lemma event_message_value j ev m :
  decode_value j (mkMessageOptions false) = Ret m → scan_text (text_of "" j) = [ScanValue j] →
  ev = ReadFrame true (text_of "" j) ∨ (∃ rest, ev = ReadStream (ScanValue j :: rest)) →
  event_message ev = match m with inr msg => Some msg | inl _ => None end.
Proof.
  intros Hd Hs [->|(rest & ->)]; cbn [event_message]; unfold frame_message, ParseBytes; rewrite ?Hs;
    rewrite (DecodeMessage_value j _ [] _ Hd); cbn; by destruct m.
Qed.

(** Nothing is left to read: all that was written has been read. *)
Lemma session_reads_None L line_end msgs js n :
  line_end = "" ∨ line_end = new_line → Forall2 message_json msgs js →
  session_reads L (text_of line_end <$> js) n = None → (length msgs ≤ n)%nat.
Proof.
  intros Hend Hjs. rewrite (Forall2_length _ _ _ Hjs). unfold session_reads. destruct (link_frames L).
  - intros Hn%fmap_None%lookup_ge_None. by rewrite length_fmap in Hn.
  - rewrite (scan_texts _ msgs) by done.
    destruct (drop n (ScanValue <$> js)) as [|e d] eqn:Hd; [|done]. intros _.
    apply (f_equal length) in Hd. rewrite length_drop, length_fmap in Hd. simpl in Hd. lia.
Qed.

(** What the client reads is what decoding gives, or some error. *)
Lemma client_reads_message L Error line_end msgs js n r :
  line_end = "" ∨ line_end = new_line → (link_frames L = true → line_end = "") →
  Forall2 message_json msgs js → client_reads L Error (text_of line_end <$> js) n = Some r →
  ∃ msg j m, msgs !! n = Some msg ∧ message_json msg j ∧
    decode_value j (mkMessageOptions false) = Ret m ∧
    ((∃ msg', m = inr msg' ∧ r = Ret (inr (Some msg'))) ∨ (∃ e err, m = inl e ∧ r = Ret (inl err))).
Proof.
  intros Hend Hframe Hjs. unfold client_reads.
  assert (∀ j rest, ∃ m, decode_value j (mkMessageOptions false) = Ret m ∧
    DecodeMessage (ScanValue j :: rest) [] = Ret (m, rest)) as Hdec.
  { intros j rest. destruct (DecodeMessage_total (ScanValue j :: rest) []) as (m & d & Hm).
    pose proof Hm as Hd. unfold DecodeMessage, decode_value in *. cbn in Hd |- *.
    destruct (decode_union j) as [err|un]; [eexists; split; [done|]; done|].
    destruct (union_message un _) as [m'|p]; [|done]. exists m'. by injection Hd as -> _. }
  destruct (link_frames L) eqn:Hl.
  - rewrite Hframe by done. intros (text & Ht & ->)%fmap_Some.
    apply list_lookup_fmap_Some in Ht as (j & -> & Hj).
    destruct (Forall2_lookup_r _ _ _ _ _ Hjs Hj) as (msg & Hm & Hmj).
    destruct (Hdec j []) as (m & Hmd & Hd). exists msg, j, m. split_and!; [done..|].
    unfold ws_ReadMessage, ParseBytes. cbn [negb]. rewrite (scan_text_of msg) by done. rewrite Hd.
    destruct m as [err|msg']; [right|left]; eauto.
  - rewrite (scan_texts _ msgs) by done.
    destruct (drop n (ScanValue <$> js)) as [|e d] eqn:Hd; [done|].
    destruct (next_value _ _ _ _ Hjs (eq_sym Hd)) as (msg & j & Hm & Hmj & ->); [done|].
    destruct (Hdec j (drop (S n) (ScanValue <$> js))) as (m & Hmd & Hdm).
    intros [= <-]. exists msg, j, m. split_and!; [done..|].
    unfold stream_ReadMessage. rewrite Hdm. cbn.
    destruct m as [err|msg']; [right; exists err|left; eauto].
    destruct (is_EOF err); [eauto|]. destruct (contains _ _); eauto.
Qed.

Lemma client_reads_None L Error line_end msgs js n :
  line_end = "" ∨ line_end = new_line → Forall2 message_json msgs js →
  client_reads L Error (text_of line_end <$> js) n = None → (length msgs ≤ n)%nat.
Proof.
  intros Hend Hjs Hn. apply (session_reads_None L line_end msgs js n Hend Hjs).
  unfold client_reads, session_reads in *. destruct (link_frames L).
  - apply fmap_None in Hn. by rewrite Hn.
  - by destruct (drop n _).
Qed.
