(* ===== verification/Provenance.v ===== *)
(** * Where messages come from

    What StreamingClient.v and Session.v keep about the messages that pass
    through them, for the composition of the two in Network.v: a message a call
    gets was read by the client under the id of the request it sent; an answer
    a session writes is what the actor gave for a message it read; the id of a
    message survives the wire.  The requests each call sent ([issued]) and the
    messages read ([reads]) are histories beside the states. *)

From S2P Require Import Prelude GoMap Strconv Values Messages Parse JsonText WireText.
From S2P Require Import Methods Schema Validator Actor Http StreamingClient Session Clients Links.
From stdpp Require Import gmap.
From stdpp Require Import options.
#[local] Open Scope Z_scope.

(** ** A message on its way *)

(** [msg'] is what the peer reads when [msg] is written. *)
Definition crosses (msg msg' : Message) : Prop :=
  ∃ j, MessageBytes msg = Some j ∧ decode_value j (mkMessageOptions false) = Ret (inr msg').

Lemma crosses_wire msg : message_wire msg → crosses msg (message_norm msg).
Proof.
  intros Hw. destruct (message_roundtrip msg (mkMessageOptions false) Hw) as (j & Hj & Hd); [by left|].
  by exists j.
Qed.

Lemma traceid_keeps_id un t un' :
  union_members un (field_omitempty "traceid" t) = inr un' → un_IdSt un' = un_IdSt un.
Proof.
  unfold field_omitempty. case_bool_decide; [by intros [= <-]|]. destruct un. simpl. by intros [= <-].
Qed.

(** The id of a template is the id of what it decodes to. *)
Lemma decode_id ji i un pre k jr t :
  msgIdT_UnmarshalJSON ji = inr i → k ∈ ["params"; "result"; "error"] →
  (pre = [] ∨ ∃ mt, pre = field_string "method" mt) →
  decode_union (JObj (field_string "jsonrpc" "2.0" ++ pre ++ [("id", ji); (k, jr)]
    ++ field_omitempty "traceid" t)) = inr un → un_IdSt un = i.
Proof.
  intros Hi Hk Hpre. rewrite !elem_of_cons, elem_of_nil in Hk.
  destruct Hpre as [->|(mt & ->)], Hk as [->|[->|[->|[]]]]; unfold field_string, decode_union;
    cbn [app union_members]; repeat decode_members_step; rewrite Hi; decode_members_step;
    by intros ->%traceid_keeps_id.
Qed.

Lemma crosses_id msg msg' id :
  MustId msg = Ret id → wire_id id → crosses msg msg' → IsNotify msg' = false → MustId msg' = Ret id.
Proof.
  intros Hid Hw (j & Hj & Hd) Hn. destruct (wire_id_roundtrip id Hw) as (ji & Hji & Hdi).
  unfold decode_value in Hd. destruct (decode_union j) as [err|un] eqn:Hun; [done|].
  destruct (union_message_spec un (mkMessageOptions false) (decode_union_ok _ _ Hun)) as (r & Hr & Hok).
  rewrite Hd in Hr. injection Hr as <-. rewrite (uro_id _ _ _ (Hok msg' eq_refl) Hn).
  assert (un_IdSt un = mkMsgId id true) as ->; [|done].
  unfold MessageBytes in Hj. destruct msg as [m|m|m|m]; simpl in Hid; try done; injection Hid as Hid;
    cbn -[RPCError_json field_string field_omitempty] in Hj; rewrite Hid in Hj.
  all: apply bind_Some in Hj as (ji' & Hji' & Hj); rewrite Hji in Hji'; injection Hji' as <-;
    apply bind_Some in Hj as (jr & _ & Hj); injection Hj as <-.
  - refine (decode_id ji _ un (field_string "method" _) "params" jr _ Hdi _ _ Hun); [set_solver|eauto].
  - refine (decode_id ji _ un [] "result" jr _ Hdi _ _ Hun); [set_solver|eauto].
  - refine (decode_id ji _ un [] "error" jr _ Hdi _ _ Hun); [set_solver|eauto].
Qed.

Lemma crosses_ok msg msg' : crosses msg msg' → message_ok msg'.
Proof.
  intros (j & _ & Hd). unfold decode_value in Hd. destruct (decode_union j) as [err|un] eqn:Hun; [done|].
  destruct (union_message_spec un (mkMessageOptions false) (decode_union_ok _ _ Hun)) as (r & Hr & Hok).
  rewrite Hd in Hr. injection Hr as <-. by apply (uro_ok _ _ _ (Hok msg' eq_refl)).
Qed.

Lemma response_not_notify msg : IsResultOrError msg = true → IsNotify msg = false.
Proof.
  unfold IsResultOrError, IsResult, IsError, IsNotify.
  by destruct (kind (base_of msg)) as [|[[[]|[]|]|[[]|[]|]|]|].
Qed.

(** A request or notification does not become a response. *)
Definition call_method (msg : Message) : option string :=
  match msg with
  | MRequest m => Some (req_Method m)
  | MNotify m => Some (ntf_Method m)
  | _ => None
  end.

Lemma traceid_keeps_call un t un' :
  union_members un (field_omitempty "traceid" t) = inr un' →
  un_Error un' = un_Error un ∧ un_Result un' = un_Result un ∧ un_Method un' = un_Method un.
Proof.
  unfold field_omitempty. case_bool_decide; [by intros [= <-]|]. destruct un. simpl. by intros [= <-].
Qed.

Lemma decode_call id mt jp un t :
  id = [] ∨ (∃ ji, id = [("id", ji)]) →
  decode_union (JObj (field_string "jsonrpc" "2.0" ++ field_string "method" mt
    ++ id ++ [("params", jp)] ++ field_omitempty "traceid" t)) = inr un →
  un_Error un = None ∧ un_Result un = None ∧ un_Method un = coerceUTF8 mt.
Proof.
  intros [->|(ji & ->)]; unfold field_string, decode_union; cbn [app union_members];
    repeat decode_members_step; [|destruct (msgIdT_UnmarshalJSON ji); [done|]; decode_members_step];
    by intros H%traceid_keeps_call.
Qed.

Lemma crosses_call msg msg' mt :
  call_method msg = Some mt → mt ≠ "" → crosses msg msg' → IsResultOrError msg' = false.
Proof.
  intros Hmt Hne (j & Hj & Hd).
  unfold decode_value in Hd. destruct (decode_union j) as [err|un] eqn:Hun; [done|].
  destruct (union_message_spec un (mkMessageOptions false) (decode_union_ok _ _ Hun)) as (r & Hr & Hok).
  rewrite Hd in Hr. injection Hr as <-. pose proof (uro_response _ _ _ (Hok msg' eq_refl)) as Hresp.
  assert (un_Error un = None ∧ un_Result un = None ∧ un_Method un = coerceUTF8 mt) as (He & Hr & Hm).
  { unfold MessageBytes in Hj. destruct msg as [m|m|m|m]; try done; injection Hmt as Hmt;
      cbn -[field_string field_omitempty] in Hj; rewrite ?Hmt in Hj.
    - apply bind_Some in Hj as (ji & _ & Hj). apply bind_Some in Hj as (jp & _ & Hj). injection Hj as <-.
      refine (decode_call [("id", ji)] mt jp un _ _ Hun). eauto.
    - apply bind_Some in Hj as (jp & _ & Hj). injection Hj as <-.
      refine (decode_call [] mt jp un _ _ Hun). eauto. }
  rewrite bool_decide_true in Hresp.
  - unfold IsResponse, IsRequest, IsNotify, IsResultOrError, IsResult, IsError in *.
    destruct (kind (base_of msg')) as [|[[[]|[]|]|[[]|[]|]|]|]; done.
  - split_and!; [done|done|]. rewrite Hm. intros H0. pose proof (coerce_length 0 mt) as Hlen.
    unfold coerceUTF8 in H0. rewrite H0 in Hlen. destruct mt; [done|]. simpl in Hlen. lia.
Qed.

(** ** Where the messages of a call come from *)

(** The request a call sends while it is under way. *)
Definition phase_request (p : StreamingClient.phase) : option RequestMessage :=
  match p with
  | Loaded sent | Stored sent | Sent sent => Some sent
  | StreamingClient.Waiting _ | StreamingClient.Returned _ => None
  end.

(** The messages a call has got. *)
Definition messages_of (x : call) : list Message :=
  resultChannel x ++ match call_phase x with StreamingClient.Returned (inr m) => [m] | _ => [] end.

(** A request goes out as it is or as a clone with a fresh id. *)
Definition issued_as (x : call) (sent : RequestMessage) : Prop :=
  sent = call_req x ∨ ∃ uuid, Clone (call_req x) (AString uuid) = Ret sent.

(** [m] is a time-out, or a message that was read with the id of the request
    sent, under the id of the caller. *)
Definition timeout_of (x : call) (m : Message) : Prop :=
  ∃ e, ToMessage ErrTimeout (call_req x) = Ret e ∧ m = MError e.

Definition read_for (reads : list Message) (sent : RequestMessage) (x : call) (m : Message) : Prop :=
  ∃ ans id k, ans ∈ reads ∧ IsResultOrError ans = true ∧ MustId ans = Ret id ∧
    key_of id = Some k ∧ key_of (req_Id sent) = Some k ∧
    (m = ans ∨ ReplaceId ans (req_Id (call_req x)) = Ret m).

Definition got (issued : gmap nat RequestMessage) (reads : list Message) (c : nat) (x : call)
    (m : Message) : Prop :=
  timeout_of x m ∨ ∃ sent, issued !! c = Some sent ∧ read_for reads sent x m.

(** The messages written, and those on their way to the send loop. *)
Definition outbox (s : client) : list Message :=
  StreamingClient.written s ++ default [] (StreamingClient.sendChannel s).

(** What a user may give to [Send]: a message that JSON carries, not a
    request, whose answer no call would wait for. *)
Definition sendable (msg : Message) : Prop :=
  (∀ m, msg ≠ MRequest m) ∧ message_wire msg ∧ shallow msg.

Record client_ok (issued : gmap nat RequestMessage) (reads : list Message) (s : client) : Prop := {
  co_phase c x sent :
    calls s !! c = Some x → phase_request (call_phase x) = Some sent → issued !! c = Some sent;
  co_issued c sent : issued !! c = Some sent → ∃ x, calls s !! c = Some x ∧ issued_as x sent;
  co_pending k c : (k, c) ∈ pendingRequests s →
    ∃ sent, issued !! c = Some sent ∧ key_of (req_Id sent) = Some k;
  co_got c x m : calls s !! c = Some x → m ∈ messages_of x → got issued reads c x m;
  co_out msg : msg ∈ outbox s → (∃ c sent, issued !! c = Some sent ∧ msg = MRequest sent) ∨ sendable msg }.

Lemma got_req issued reads c x x' m :
  call_req x' = call_req x → got issued reads c x m → got issued reads c x' m.
Proof. unfold got, timeout_of, read_for. by intros ->. Qed.

Lemma client_ok_reads issued reads reads' s :
  reads ⊆ reads' → client_ok issued reads s → client_ok issued reads' s.
Proof.
  intros Hsub [H1 H2 H3 H4 H5]. split; [done..| |done]. intros c x m Hx Hm.
  destruct (H4 c x m Hx Hm) as [?|(sent & ? & ans & id & k & ? & ?)]; [by left|right].
  exists sent. split; [done|]. exists ans, id, k. split; [by apply Hsub|done].
Qed.

(** *** Actions on one call *)

Lemma client_ok_update issued reads s s' c x x' :
  client_ok issued reads s → calls s !! c = Some x → calls s' = <[c := x']> (calls s) →
  call_req x' = call_req x →
  (∀ sent, phase_request (call_phase x') = Some sent → phase_request (call_phase x) = Some sent) →
  (∀ m, m ∈ messages_of x' → m ∈ messages_of x ∨ got issued reads c x m) →
  (∀ k d, (k, d) ∈ pendingRequests s' → (k, d) ∈ pendingRequests s ∨
    d = c ∧ ∃ sent, phase_request (call_phase x) = Some sent ∧ key_of (req_Id sent) = Some k) →
  (∀ msg, msg ∈ outbox s' → msg ∈ outbox s ∨
    ∃ sent, phase_request (call_phase x) = Some sent ∧ msg = MRequest sent) →
  client_ok issued reads s'.
Proof.
  intros [H1 H2 H3 H4 H5] Hx Hcalls Hreq Hph Hmsg Hpend Hout. split; rewrite ?Hcalls.
  - intros d y sent. destruct (decide (d = c)) as [->|Hne].
    + rewrite (lookup_insert_eq (M:=gmap nat)). intros [= <-] Hs. eauto.
    + rewrite (lookup_insert_ne (M:=gmap nat)) by done. eauto.
  - intros d sent Hs. destruct (H2 d sent Hs) as (y & Hy & Hi).
    destruct (decide (d = c)) as [->|Hne].
    + rewrite (lookup_insert_eq (M:=gmap nat)). exists x'. split; [done|]. simplify_eq.
      unfold issued_as in *. by rewrite Hreq.
    + rewrite (lookup_insert_ne (M:=gmap nat)) by done. eauto.
  - intros k d Hin. destruct (Hpend k d Hin) as [?|(-> & sent & Hs & Hk)]; eauto.
  - intros d y m. destruct (decide (d = c)) as [->|Hne].
    + rewrite (lookup_insert_eq (M:=gmap nat)). intros [= <-] Hm. apply (got_req _ _ _ x); [done|].
      destruct (Hmsg m Hm); eauto.
    + rewrite (lookup_insert_ne (M:=gmap nat)) by done. eauto.
  - intros msg Hin. destruct (Hout msg Hin) as [?|(sent & Hs & ->)]; [by apply H5|left; eauto].
Qed.

(** *** Actions on no call *)

Definition quiet (s s' : client) : Prop := same_calls s s' ∧ outbox s' ⊆ outbox s.

Lemma client_ok_quiet issued reads s s' : quiet s s' → client_ok issued reads s → client_ok issued reads s'.
Proof.
  intros [[Hc Hp] Ho] [H1 H2 H3 H4 H5]. split; rewrite ?Hc, ?Hp; auto.
Qed.

Lemma quiet_trans s1 s2 s3 : quiet s1 s2 → quiet s2 s3 → quiet s1 s3.
Proof. intros [[??] ?] [[??] ?]. split; [split; congruence|set_solver]. Qed.

Lemma Connect_quiet dial s s' : Connect dial s = inr s' → quiet s s'.
Proof.
  intros Hc. split; [by eapply Connect_same|]. revert Hc. unfold Connect.
  destruct (connected s); [by intros [= <-]|]. destruct dial; [done|]. intros [= <-].
  unfold outbox. simpl. set_solver.
Qed.

Lemma Reset_quiet err s s' : Reset err s = Some s' → quiet s s'.
Proof.
  intros Hr. split; [by eapply Reset_same|]. revert Hr. unfold Reset.
  destruct (cancelFunc s); cbn [closeChannel set_cancel];
    (destruct (closeChannel s) as [ch|]; [case_match; [|done]|]); intros [= <-];
    unfold outbox; simpl; set_solver.
Qed.

Lemma Close_quiet s s' : Close s = Some s' → quiet s s'.
Proof. unfold Close. destruct (connected s); [apply Reset_quiet|by intros [= <-]]. Qed.

Lemma Wait_quiet err s s' : Wait s = Some (err, s') → quiet s s'.
Proof.
  intros Hw. split; [by eapply Wait_same|]. revert Hw. unfold Wait.
  destruct (closeChannel s) as [ch|]; [|by intros [= _ <-]].
  destruct (closeChannels s !! ch) as [[|e q]|]; try done. by intros [= _ <-].
Qed.

Lemma handleError_quiet err s s' : handleError err s = Some s' → quiet s s'.
Proof.
  unfold handleError. intros (s1 & H1 & H2)%bind_Some. injection H2 as <-.
  by apply Reset_quiet in H1.
Qed.

Lemma sendLoop_quiet werr s s' : sendLoop_write werr s = Some s' → quiet s s'.
Proof.
  intros Hs. split; [by eapply sendLoop_same|]. revert Hs. unfold sendLoop_write.
  destruct (connected s); [|done].
  destruct (StreamingClient.sendChannel s) as [[|msg q]|] eqn:Hq; try done. destruct werr.
  - intros [_ H]%handleError_quiet. etrans; [exact H|]. unfold outbox. rewrite Hq. simpl. set_solver.
  - intros [= <-]. unfold outbox. rewrite Hq. simpl. set_solver.
Qed.

Lemma Send_outbox dial msg s s' :
  StreamingClient.Send dial msg s = Some (inr s') → same_calls s s' ∧ outbox s' ⊆ msg :: outbox s.
Proof.
  intros Hs. split; [by eapply Send_same|]. revert Hs. unfold StreamingClient.Send.
  destruct (Connect dial s) as [err|s1] eqn:Hc; [done|]. apply Connect_quiet in Hc as [_ Hc].
  unfold push_message. destruct (StreamingClient.sendChannel s1) as [q|] eqn:Hq; [|done]. cbn.
  case_match; [|done]. intros [= <-]. unfold outbox in *. rewrite Hq in Hc. simpl in *. set_solver.
Qed.

Lemma set_phase_ok issued reads s c x p :
  client_ok issued reads s → calls s !! c = Some x →
  (∀ sent, phase_request p = Some sent → phase_request (call_phase x) = Some sent) →
  (∀ m, p ≠ StreamingClient.Returned (inr m)) →
  client_ok issued reads (set_phase c p s).
Proof.
  intros Hok Hx Hp Hr. rewrite (set_phase_calls _ _ x) by done.
  eapply (client_ok_update _ _ s _ c x); [done|done|done|done|done| |by left|by left].
  intros m. unfold messages_of. simpl. rewrite !elem_of_app. intros [?|Hm]; [by left; left|].
  destruct p as [| | | |[e|m']]; try by apply elem_of_nil in Hm. by destruct (Hr m').
Qed.

(** *** The actions of the client *)

(** The history of the requests sent, after an action that led to [s']. *)
Definition issue (l : StreamingClient.label) (s' : client) (issued : gmap nat RequestMessage)
    : gmap nat RequestMessage :=
  match l with
  | LRequest c _ _ _ =>
      match call_phase <$> calls s' !! c with
      | Some (Loaded sent) => <[c := sent]> issued
      | _ => issued
      end
  | _ => issued
  end.

(** A new call, which has sent [new] or nothing. *)
Lemma client_ok_new issued reads s s1 c x new :
  client_ok issued reads s → calls s !! c = None → quiet s s1 →
  phase_request (call_phase x) = new → messages_of x = [] →
  (∀ sent, new = Some sent → issued_as x sent) →
  client_ok (match new with Some sent => <[c := sent]> issued | None => issued end) reads (set_call c x s1).
Proof.
  intros Hok Hc Hq Hp Hm Hi. apply (client_ok_quiet _ _ _ _ Hq) in Hok as [H1 H2 H3 H4 H5].
  destruct Hq as [[Hcalls _] _]. rewrite <- Hcalls in Hc.
  assert (issued !! c = None) as Hnone.
  { destruct (issued !! c) as [sent|] eqn:Hs; [|done]. destruct (H2 c sent Hs) as (y & Hy & _). congruence. }
  assert (∀ d sent, issued !! d = Some sent →
    match new with Some sent => <[c := sent]> issued | None => issued end !! d = Some sent) as Hkeep.
  { intros d sent Hs. destruct new; [|done]. rewrite (lookup_insert_ne (M:=gmap nat)); [done|congruence]. }
  split; cbn [calls set_call pendingRequests].
  - intros d y sent. destruct (decide (d = c)) as [->|Hne].
    + rewrite (lookup_insert_eq (M:=gmap nat)). intros [= <-]. rewrite Hp. intros ->.
      apply (lookup_insert_eq (M:=gmap nat)).
    + rewrite (lookup_insert_ne (M:=gmap nat)) by done. eauto.
  - intros d sent Hs. destruct (decide (d = c)) as [->|Hne].
    + rewrite (lookup_insert_eq (M:=gmap nat)). exists x. split; [done|]. destruct new; [|congruence].
      rewrite (lookup_insert_eq (M:=gmap nat)) in Hs. injection Hs as ->. by apply Hi.
    + rewrite (lookup_insert_ne (M:=gmap nat)) by done. apply H2. destruct new; [|done].
      by rewrite (lookup_insert_ne (M:=gmap nat)) in Hs.
  - intros k d Hin. destruct (H3 k d Hin) as (sent & ? & ?). eauto.
  - intros d y m. destruct (decide (d = c)) as [->|Hne].
    + rewrite (lookup_insert_eq (M:=gmap nat)). intros [= <-]. rewrite Hm. by intros ?%elem_of_nil.
    + rewrite (lookup_insert_ne (M:=gmap nat)) by done. intros Hy Hin.
      destruct (H4 d y m Hy Hin) as [?|(sent & ? & ?)]; [by left|right; eauto].
  - intros msg Hin. destruct (H5 msg Hin) as [(d & sent & ? & ->)|?]; [left; eauto|by right].
Qed.

Lemma request_start_ok issued reads c reqmsg dial uuid s s' :
  client_ok issued reads s → request_start c reqmsg dial uuid s = Some (Ret s') →
  client_ok (issue (LRequest c reqmsg dial uuid) s' issued) reads s'.
Proof.
  intros Hok. unfold request_start. destruct (calls s !! c) eqn:Hc; [done|].
  destruct (Connect dial s) as [err|s1] eqn:Hconn.
  { intros [= <-]. cbn [issue calls set_call]. rewrite (lookup_insert_eq (M:=gmap nat)).
    by apply (client_ok_new issued reads s s c _ None). }
  intros (k & _ & H)%comp_bind_Ret. apply comp_bind_Ret in H as (sent & Hsent & H). injection H as <-.
  cbn [issue calls set_call]. rewrite (lookup_insert_eq (M:=gmap nat)).
  apply (client_ok_new issued reads s s1 c _ (Some sent)); [done|done|by eapply Connect_quiet|done|done|].
  intros ? [= <-]. unfold issued_as. cbn [call_req].
  destruct (pending_get k (pendingRequests s1)); [|injection Hsent as <-; by left].
  right. exists uuid. by injection Hsent.
Qed.

Lemma request_store_ok issued reads c s s' :
  client_ok issued reads s → request_store c s = Some (Ret s') → client_ok issued reads s'.
Proof.
  intros Hok. unfold request_store. intros (x & Hx%maybe_Ret & H)%comp_bind_Ret.
  destruct (call_phase x) as [sent| | | |] eqn:Hp; try done.
  apply comp_bind_Ret in H as (k & Hk%key_res_Ret & H). injection H as <-.
  rewrite (set_phase_calls _ _ x) by done.
  eapply (client_ok_update _ _ s _ c x); [done|done|done|done|by rewrite Hp|..].
  - intros m. unfold messages_of. rewrite Hp. by left.
  - intros k' d [Hin|Hin]%elem_of_cons; [injection Hin as -> ->; right; rewrite Hp; eauto|].
    left. by eapply pending_del_elem.
  - by left.
Qed.

Lemma request_send_ok issued reads c dial s s' :
  client_ok issued reads s → request_send c dial s = Some (Ret s') → client_ok issued reads s'.
Proof.
  intros Hok. unfold request_send. intros (x & Hx%maybe_Ret & H)%comp_bind_Ret.
  destruct (call_phase x) as [|sent| | |] eqn:Hp; try done.
  apply comp_bind_Ret in H as (r & Hr%maybe_Ret & H). destruct r as [err|s1].
  { injection H as <-. by eapply set_phase_ok. }
  injection H as <-. apply Send_outbox in Hr as [[Hc Hpend] Ho].
  rewrite (set_phase_calls _ _ x) by (by rewrite Hc).
  eapply (client_ok_update _ _ s _ c x); [done|done|by cbn; rewrite Hc|done|by rewrite Hp|..].
  - intros m. unfold messages_of. rewrite Hp. by left.
  - intros k d. cbn. rewrite Hpend. by left.
  - intros msg [->|Hin]%Ho%elem_of_cons; [right; rewrite Hp; eauto|by left].
Qed.

Lemma request_arm_ok issued reads c s s' :
  client_ok issued reads s → request_arm c s = Some (Ret s') → client_ok issued reads s'.
Proof.
  intros Hok. unfold request_arm. intros (x & Hx%maybe_Ret & H)%comp_bind_Ret.
  destruct (call_phase x) as [| |sent| |] eqn:Hp; try done.
  apply comp_bind_Ret in H as (k & _ & H). injection H as <-.
  eapply set_phase_ok; [by apply (client_ok_quiet _ _ s)|done|done|done].
Qed.

Lemma request_result_ok issued reads c s s' :
  client_ok issued reads s → request_result c s = Some (Ret s') → client_ok issued reads s'.
Proof.
  intros Hok. unfold request_result. intros (x & Hx%maybe_Ret & H)%comp_bind_Ret.
  destruct (call_phase x) eqn:Hp; try done. destruct (resultChannel x) as [|m rest] eqn:Hm; [done|].
  injection H as <-. eapply (client_ok_update _ _ s _ c x); [done|done|done|done|done| |by left|by left].
  intros m'. unfold messages_of. rewrite Hp, Hm. cbn. left. set_solver.
Qed.

Lemma request_closed_ok issued reads c s s' :
  client_ok issued reads s → request_closed c s = Some (Ret s') → client_ok issued reads s'.
Proof.
  intros Hok. unfold request_closed. intros (x & Hx%maybe_Ret & H)%comp_bind_Ret.
  destruct (call_phase x) as [| | |[ch|]|]; try done.
  destruct (closeChannels s !! ch) as [[|e q]|]; try done. injection H as <-.
  eapply set_phase_ok; [by apply (client_ok_quiet _ _ s)|done|done|done].
Qed.

(** A message that the holder of an entry gets. *)
Lemma deliver_ok issued reads s s' k c x m :
  client_ok issued reads s → pending_get k (pendingRequests s) = Some c → calls s !! c = Some x →
  (∀ sent, issued !! c = Some sent → key_of (req_Id sent) = Some k → got issued reads c x m) →
  deliver_comp c m (set_pending (pending_del k (pendingRequests s)) s) = Some (Ret s') →
  client_ok issued reads s'.
Proof.
  intros Hok Hk Hx Hm Hd. apply deliver_Ret in Hd as (x' & Hx' & ->).
  cbn [calls set_pending] in Hx'. rewrite Hx in Hx'. injection Hx' as <-.
  destruct (co_pending _ _ _ Hok k c) as (sent & Hs & Hkey); [by apply pending_get_elem|].
  eapply (client_ok_update _ _ s _ c x); [done|done|done|done|done|..].
  - intros m'. unfold messages_of. simpl. rewrite !elem_of_app, list_elem_of_singleton.
    intros [[?| ->]|?]; eauto.
  - intros k' d Hin. left. exact (pending_del_elem _ _ _ _ Hin).
  - by left.
Qed.

Lemma receive_ok issued reads msg s s' :
  client_ok issued reads s → receive msg s = Some (Ret s') → client_ok issued (reads ++ [msg]) s'.
Proof.
  intros Hok. apply (client_ok_reads _ _ (reads ++ [msg])) in Hok; [|set_solver].
  unfold receive. destruct (IsResultOrError msg) eqn:Hkind; cbn [negb];
    [|intros [= <-]; by apply (client_ok_quiet _ _ s)].
  unfold handleResult. intros H. apply comp_bind_Ret in H as (msgId & Hid & H). injection Hid as Hid.
  apply comp_bind_Ret in H as (k & Hk%key_res_Ret & H).
  destruct (pending_get k (pendingRequests s)) as [c|] eqn:Hg;
    [|injection H as <-; by apply (client_ok_quiet _ _ s)].
  cbn [calls set_pending] in H. destruct (calls s !! c) as [x|] eqn:Hx; [|done].
  assert (∀ m sent, m = msg ∨ ReplaceId msg (req_Id (call_req x)) = Ret m → issued !! c = Some sent →
    key_of (req_Id sent) = Some k → got issued (reads ++ [msg]) c x m) as Hgot.
  { intros m sent Hm Hs Hkey. right. exists sent. split; [done|]. exists msg, msgId, k.
    split_and!; try done. apply elem_of_app. right. by left. }
  destruct (decide (key_of (req_Id (call_req x)) = Some k)).
  - eapply deliver_ok; [exact Hok|exact Hg|exact Hx| |exact H]. eauto.
  - apply comp_bind_Ret in H as (resmsg & Hr & H). injection Hr as Hr.
    eapply deliver_ok; [exact Hok|exact Hg|exact Hx| |exact H]. eauto.
Qed.

Lemma expire_ok issued reads k s s' :
  client_ok issued reads s → expire k s = Some (Ret s') → client_ok issued reads s'.
Proof.
  intros Hok. unfold expire. destruct (pending_get k (pendingRequests s)) as [c|] eqn:Hg;
    [|by intros [= <-]].
  cbn [calls set_pending]. destruct (calls s !! c) as [x|] eqn:Hx; [|done].
  intros (timeout & Ht & H)%comp_bind_Ret. injection Ht as <-.
  eapply deliver_ok; [exact Hok|exact Hg|exact Hx| |exact H]. intros. left. by eexists.
Qed.

(** The messages a client has read after an action. *)
Definition read_by (l : StreamingClient.label) (reads : list Message) : list Message :=
  match l with StreamingClient.LRead msg => reads ++ [msg] | _ => reads end.

Definition label_sendable (l : StreamingClient.label) : Prop :=
  match l with LSendMessage _ msg => sendable msg | _ => True end.

Lemma client_step_ok issued reads l s s' :
  client_ok issued reads s → label_sendable l → StreamingClient.step l s = Some (Ret s') →
  client_ok (issue l s' issued) (read_by l reads) s'.
Proof.
  intros Hok Hl. destruct l; cbn [StreamingClient.step read_by].
  - intros [= <-]. cbn [issue]. destruct (Connect dial s) eqn:Hc; [done|].
    eapply client_ok_quiet; [by eapply Connect_quiet|done].
  - by apply request_start_ok.
  - by apply request_store_ok.
  - by apply request_send_ok.
  - by apply request_arm_ok.
  - by apply request_result_ok.
  - by apply request_closed_ok.
  - intros (r & Hr%maybe_Ret & H)%comp_bind_Ret. injection H as <-. destruct r as [|s1]; [done|].
    apply Send_outbox in Hr as [[Hc Hp] Ho]. destruct Hok as [H1 H2 H3 H4 H5].
    split; cbn [registered issue]; rewrite ?Hc, ?Hp; [done..|].
    intros msg' [->|Hin]%Ho%elem_of_cons; [by right|by apply H5].
  - destruct (register_hooks h s) as [hs ->]. intros [= <-]. by apply (client_ok_quiet _ _ s).
  - intros H%maybe_Ret. apply fmap_Some in H as ([err s1] & Hw & ->).
    eapply client_ok_quiet; [by eapply Wait_quiet|done].
  - intros H%maybe_Ret. eapply client_ok_quiet; [by eapply Close_quiet|done].
  - intros H%maybe_Ret. eapply client_ok_quiet; [by eapply sendLoop_quiet|done].
  - destruct (cancelled s) as [|n]; [done|]. intros H%maybe_Ret.
    eapply client_ok_quiet; [by eapply (Close_quiet _ _ H)|]. by apply (client_ok_quiet _ _ s).
  - destruct (connected s); [|done]. intros H%maybe_Ret.
    eapply client_ok_quiet; [by eapply (Close_quiet _ _ H)|]. by apply (client_ok_quiet _ _ s).
  - destruct (connected s); [|done]. by apply receive_ok.
  - destruct (connected s); [|done]. intros H%maybe_Ret.
    eapply client_ok_quiet; [by eapply handleError_quiet|done].
  - intros ([k d] & _ & H)%comp_bind_Ret. cbn [fst snd] in H.
    destruct (d <=? now s); [|done]. eapply expire_ok; [|exact H]. by apply (client_ok_quiet _ _ s).
  - intros [= <-]. by apply (client_ok_quiet _ _ s).
Qed.

(** A request that has been issued stays so. *)
Lemma issue_sub issued reads l s s' :
  client_ok issued reads s → StreamingClient.step l s = Some (Ret s') → issued ⊆ issue l s' issued.
Proof.
  intros Hok Hs. destruct l; try done. cbn [issue StreamingClient.step] in *.
  destruct (call_phase <$> calls s' !! c) as [[sent| | | |]|]; try done.
  apply insert_subseteq. destruct (issued !! c) as [sent'|] eqn:Hi; [|done].
  destruct (co_issued _ _ _ Hok c sent' Hi) as (x & Hx & _). unfold request_start in Hs.
  by rewrite Hx in Hs.
Qed.

Lemma client_ok_init s : calls s = ∅ → pendingRequests s = [] → outbox s = [] → client_ok ∅ [] s.
Proof.
  intros Hc Hp Ho. split; rewrite ?Hc, ?Hp, ?Ho; intros *;
    rewrite ?(lookup_empty (M:=gmap nat)), ?elem_of_nil; done.
Qed.

(** ** Where the answers of a session come from *)

(** What a user of a session may push: a request or notification. *)
Definition pushable (msg : Message) : Prop :=
  (∃ mt, call_method msg = Some mt ∧ mt ≠ "") ∧ shallow msg.

Section session.
Context {W : Type}.
Context (kind : session_kind).
Context (feed : Message → act W panic feed_result) (HandleClose : act W panic unit).

(** An answer is what the actor gave for a message that was read. *)
Definition fed_out (ms : list Message) (o : outgoing) : Prop :=
  match o with
  | Answer req resmsg => req ∈ ms ∧ ∃ w w', feed req w = Some (Ret (Some resmsg, None), w')
  | Push msg => pushable msg
  end.

Definition fed_task (ms : list Message) (t : task) : Prop :=
  match t with
  | TBytes msgBytes => is_Some (frame_message msgBytes)
  | TFeed msg => msg ∈ ms
  | TSend o => fed_out ms o
  | TDone _ => True
  end.

Definition session_fed (s : session W) : Prop :=
  Forall (fed_task (Session.received s)) (tasks s) ∧
  Forall (fed_out (Session.received s)) (Session.written s ++ Session.sendChannel s).

Definition label_pushable (l : Session.label) : Prop :=
  match l with Session.LSend msg => pushable msg | _ => True end.

Lemma fed_out_more ms msg o : fed_out ms o → fed_out (ms ++ [msg]) o.
Proof using Type. destruct o; simpl; [|done]. rewrite elem_of_app. tauto. Qed.

Lemma fed_task_more ms msg t : fed_task ms t → fed_task (ms ++ [msg]) t.
Proof using Type. destruct t; simpl; [done|rewrite elem_of_app; tauto|apply fed_out_more|done]. Qed.

Lemma session_fed_read msg s :
  session_fed s →
  session_fed (add_task (TFeed msg) (set_received (Session.received s ++ [msg]) s)).
Proof using Type.
  intros [H1 H2]. split; simpl.
  - apply Forall_app; split; [eapply Forall_impl; [exact H1|]; intros t; apply fed_task_more|].
    constructor; [|done]. simpl. apply elem_of_app. right. by left.
  - eapply Forall_impl; [exact H2|]. intros o. apply fed_out_more.
Qed.

(** The messages that have arrived: received, or in a frame that has not been
    parsed yet. *)
Definition parsing : list task → list Message :=
  omap (λ t, match t with TBytes msgBytes => frame_message msgBytes | _ => None end).

Definition arrived (s : session W) : list Message := Session.received s ++ parsing (tasks s).

Lemma parsing_app ts ts' : parsing (ts ++ ts') = parsing ts ++ parsing ts'.
Proof using Type. apply omap_app. Qed.

(** A goroutine goes on with other tasks. *)
Lemma replace_fed ms l1 t l2 ts' :
  Forall (fed_task ms) (l1 ++ t :: l2) → Forall (fed_task ms) ts' → Forall (fed_task ms) (l1 ++ ts' ++ l2).
Proof using Type. rewrite !Forall_app, Forall_cons. tauto. Qed.

Lemma run_task_fed i s s' :
  session_fed s → run_task kind feed i s = Some (Ret s') →
  session_fed s' ∧ arrived s' ≡ₚ arrived s ∧ Session.written s' = Session.written s.
Proof using Type.
  intros [H1 H2]. unfold run_task. destruct (tasks s !! i) as [t|] eqn:Ht; [|done].
  destruct (tasks_split _ _ _ Ht) as (l1 & l2 & Hts & Hdel & Hins).
  assert (fed_task (Session.received s) t) as Hfed by exact (proj1 (Forall_lookup _ _) H1 i t Ht).
  rewrite Hts in H1. rewrite Hdel.
  assert (arrived s = Session.received s ++ parsing (l1 ++ t :: l2)) as -> by (unfold arrived; by rewrite Hts).
  (* a task that is not a frame becomes [ts'] *)
  assert (∀ ts' w f, Forall (fed_task (Session.received s)) ts' → parsing [t] = parsing ts' →
    session_fed (set_tasks (l1 ++ ts' ++ l2) (set_failed f (set_world w s))) ∧
    arrived (set_tasks (l1 ++ ts' ++ l2) (set_failed f (set_world w s))) ≡ₚ
      Session.received s ++ parsing (l1 ++ t :: l2)) as Hgo.
  { intros ts' w f Hts' Hp. split.
    - split; [by eapply replace_fed|done].
    - unfold arrived. cbn [Session.received tasks set_tasks]. change (t :: l2) with ([t] ++ l2).
      by rewrite !parsing_app, Hp. }
  destruct t as [msgBytes|msg|o|err]; cbn [fed_task] in Hfed.
  - destruct Hfed as [msg Hmsg]. unfold frame_message in Hmsg.
    destruct (ParseBytes (scan_text msgBytes) []) as [[err|msg']|] eqn:Hp; try done. injection Hmsg as ->.
    cbn [mbind comp_mbind]. rewrite Hins. intros [= <-]. split; [|split; [|done]].
    + split; simpl.
      * apply (replace_fed _ l1 (TBytes msgBytes) l2 [TFeed msg]); [|by repeat constructor; set_solver].
        eapply Forall_impl; [exact H1|]. intros t. apply fed_task_more.
      * eapply Forall_impl; [exact H2|]. intros o. apply fed_out_more.
    + unfold arrived. cbn [Session.received tasks set_tasks set_received].
      change (TFeed msg :: l2) with ([TFeed msg] ++ l2). change (TBytes msgBytes :: l2) with ([TBytes msgBytes] ++ l2).
      rewrite !parsing_app. cbn. unfold frame_message. rewrite Hp. solve_Permutation.
  - destruct (server_nil kind s); [done|].
    destruct (feed msg (world s)) as [[[[[resmsg|] [err|]]|p] w]|] eqn:Hf; try done; rewrite ?Hins;
      intros [= <-].
    1, 3: destruct (Hgo [TDone (Some (ErrorWithMessage "actor.Feed" err))] w (failed s ++ [msg])
      ltac:(by repeat constructor) eq_refl) as [? ?]; done.
    + destruct (Hgo [TSend (Answer msg resmsg)] w (failed s)
        ltac:(repeat constructor; simpl; eauto) eq_refl) as [[? ?] ?]. done.
    + by destruct (Hgo [] w (failed s) ltac:(done) eq_refl) as [[? ?] ?].
  - destruct (length (Session.sendChannel s) <? 100)%nat; [|done]. intros [= <-].
    destruct (Hgo [] (world s) (failed s) ltac:(done) eq_refl) as [[Hg1 _] Hg2]. cbn [app] in *. split; [|done].
    split; simpl; [done|]. rewrite app_assoc, Forall_app. by split; [|constructor].
  - destruct (length (done_channel s) <? 10)%nat; [|done]. intros [= <-].
    by destruct (Hgo [] (world s) (failed s) ltac:(done) eq_refl) as [[Hg1 _] Hg2].
Qed.

(** Actions that neither read nor write. *)
Lemma session_step_fed l s s' :
  match l with Session.LRead _ | Session.LWrite _ => False | _ => True end → label_pushable l →
  session_fed s → Session.step kind feed HandleClose l s = Some (Ret s') →
  session_fed s' ∧ arrived s' ≡ₚ arrived s ∧ Session.written s' = Session.written s.
Proof using Type.
  intros Hl Hpush Hfed. pose proof Hfed as [H1 H2].
  destruct l; try done; cbn [Session.step]; unfold Session.Send, wait_done, wait_cancelled, detach, close.
  - by apply run_task_fed.
  - destruct (length (Session.sendChannel s) <? 100)%nat; [|done]. intros [= <-]. split; [|done].
    split; simpl; [done|]. rewrite app_assoc, Forall_app. by split; [|constructor].
  - destruct (sending s); [|done]. by intros [= <-].
  - destruct (conn s), (done_channel s); try done. by intros [= <-].
  - destruct (conn s); try done. by intros [= <-].
  - destruct (conn s), (detaches kind); try done. by intros [= <-].
  - case_bool_decide; [|done]. destruct (HandleClose (world s)) as [[[[]|p] w]|]; try done. by intros [= <-].
Qed.

(** Reading: the message, if there is one, arrives. *)
Lemma session_read_fed ev s s' :
  session_fed s → (∀ msgBytes, ev = ReadFrame true msgBytes → is_Some (frame_message msgBytes)) →
  Session.step kind feed HandleClose (Session.LRead ev) s = Some (Ret s') →
  session_fed s' ∧ Session.written s' = Session.written s ∧
  arrived s' ≡ₚ arrived s ++ match event_message ev with Some msg => [msg] | None => [] end.
Proof using Type.
  intros Hfed Hev. cbn [Session.step]. unfold recvLoop. destruct (reading s && _); [|done].
  assert (∀ t (b : bool), fed_task (Session.received s) t →
    let s' := add_task t (if b then stop_reading s else s) in
    session_fed s' ∧ Session.written s' = Session.written s ∧ arrived s' ≡ₚ arrived s ++ parsing [t]) as Hadd.
  { intros t b Ht. destruct Hfed as [H1 H2]. unfold arrived.
    destruct b; cbn; (split_and!; [|done|by rewrite parsing_app, app_assoc]);
      (split; simpl; [apply Forall_app; split; [done|by constructor]|done]). }
  destruct ev as [[] msgBytes|d|err], (reads_frames kind); try done; cbn [negb event_message].
  - destruct (server_nil kind s); [done|]. intros [= <-]. destruct (Hev msgBytes eq_refl) as [msg Hmsg].
    rewrite Hmsg. destruct (Hadd (TBytes msgBytes) false) as (? & ? & H); [by eexists|].
    cbn in H. rewrite Hmsg in H. done.
  - intros [= <-]. by rewrite app_nil_r.
  - destruct (DecodeMessage d []) as [[[err|msg] d']|] eqn:Hd; cbn; [| |done]; intros [= <-].
    + by apply (Hadd (TDone _) true).
    + split_and!; [by apply session_fed_read|done|].
      unfold arrived. cbn. rewrite parsing_app. cbn. solve_Permutation.
  - intros [= <-]. by apply (Hadd (TDone _) true).
  - intros [= <-]. by apply (Hadd (TDone _) true).
Qed.

(** Writing: the first message of the channel, or nothing. *)
Lemma session_write_fed werr s s' :
  session_fed s → Session.step kind feed HandleClose (Session.LWrite werr) s = Some (Ret s') →
  ∃ o q, Session.sendChannel s = o :: q ∧ session_fed s' ∧ arrived s' = arrived s ∧
    Session.written s' = Session.written s ++
      match MessageBytes (out_message o), werr with Some _, None => [o] | _, _ => [] end.
Proof using Type.
  intros [H1 H2]. cbn [Session.step]. unfold Session.sendLoop. destruct (sending s); [|done].
  destruct (Session.sendChannel s) as [|o q] eqn:Hq; [done|]. intros H. exists o, q. split; [done|].
  apply Forall_app in H2 as [H2 [Ho H3]%Forall_cons].
  destruct (MessageBytes (out_message o)), werr; injection H as <-;
    (split; [split; simpl; [done|]|]); rewrite ?app_nil_r; try done.
  all: rewrite ?Forall_app, ?Forall_singleton; tauto.
Qed.
End session.

(** ** What the client has written *)

Lemma Connect_written dial s s' :
  Connect dial s = inr s' → StreamingClient.written s' = StreamingClient.written s.
Proof.
  unfold Connect. destruct (connected s); [by intros [= <-]|]. destruct dial; [done|]. by intros [= <-].
Qed.

Lemma Reset_written err s s' : Reset err s = Some s' → StreamingClient.written s' = StreamingClient.written s.
Proof.
  unfold Reset. destruct (cancelFunc s); cbn [closeChannel set_cancel];
    (destruct (closeChannel s) as [ch|]; [case_match; [|done]|]); by intros [= <-].
Qed.

Lemma Close_written s s' : Close s = Some s' → StreamingClient.written s' = StreamingClient.written s.
Proof. unfold Close. destruct (connected s); [apply Reset_written|by intros [= <-]]. Qed.

Lemma handleError_written err s s' :
  handleError err s = Some s' → StreamingClient.written s' = StreamingClient.written s.
Proof.
  unfold handleError. intros (s1 & H1 & H2)%bind_Some. injection H2 as <-.
  by apply Reset_written in H1.
Qed.

Lemma Send_written dial msg s s' :
  StreamingClient.Send dial msg s = Some (inr s') → StreamingClient.written s' = StreamingClient.written s.
Proof.
  unfold StreamingClient.Send. destruct (Connect dial s) as [err|s1] eqn:Hc; [done|].
  apply Connect_written in Hc. unfold push_message.
  destruct (StreamingClient.sendChannel s1); [|done]. cbn. case_match; [|done]. by intros [= <-].
Qed.

Lemma set_phase_written c p s : StreamingClient.written (set_phase c p s) = StreamingClient.written s.
Proof. unfold set_phase. by destruct (calls s !! c). Qed.

Lemma deliver_written c msg s s' :
  deliver_comp c msg s = Some (Ret s') → StreamingClient.written s' = StreamingClient.written s.
Proof. by intros (x & _ & ->)%deliver_Ret. Qed.

Lemma handleResult_written msg s s' :
  handleResult msg s = Some (Ret s') → StreamingClient.written s' = StreamingClient.written s.
Proof.
  unfold handleResult. intros (id & _ & H)%comp_bind_Ret. apply comp_bind_Ret in H as (k & _ & H).
  destruct (pending_get k _); [|by injection H as <-]. destruct (calls _ !! _); [|done].
  case_decide; [by apply deliver_written in H|].
  apply comp_bind_Ret in H as (resmsg & _ & H). by apply deliver_written in H.
Qed.

Lemma expire_written k s s' :
  expire k s = Some (Ret s') → StreamingClient.written s' = StreamingClient.written s.
Proof.
  unfold expire. destruct (pending_get k _); [|by intros [= <-]]. destruct (calls _ !! _); [|done].
  intros (timeout & _ & H)%comp_bind_Ret. by apply deliver_written in H.
Qed.

(** Only the send loop writes. *)
Lemma client_step_written l s s' :
  l ≠ StreamingClient.LWrite None → StreamingClient.step l s = Some (Ret s') →
  StreamingClient.written s' = StreamingClient.written s.
Proof.
  intros Hl. destruct l; cbn [StreamingClient.step].
  - intros [= <-]. destruct (Connect dial s) eqn:Hc; [done|]. by eapply Connect_written.
  - unfold request_start. destruct (calls s !! c); [done|].
    destruct (Connect dial s) as [|s1] eqn:Hc; [by intros [= <-]|]. apply Connect_written in Hc.
    intros (k & _ & H)%comp_bind_Ret. apply comp_bind_Ret in H as (sent & _ & H). by injection H as <-.
  - unfold request_store. intros (x & _ & H)%comp_bind_Ret. destruct (call_phase x); try done.
    apply comp_bind_Ret in H as (k & _ & H). injection H as <-. by rewrite set_phase_written.
  - unfold request_send. intros (x & _ & H)%comp_bind_Ret. destruct (call_phase x); try done.
    apply comp_bind_Ret in H as ([err|s1] & Hr%maybe_Ret & H); injection H as <-; rewrite set_phase_written;
      [done|by eapply Send_written].
  - unfold request_arm. intros (x & _ & H)%comp_bind_Ret. destruct (call_phase x); try done.
    apply comp_bind_Ret in H as (k & _ & H). injection H as <-. by rewrite set_phase_written.
  - unfold request_result. intros (x & _ & H)%comp_bind_Ret. destruct (call_phase x); try done.
    destruct (resultChannel x); [done|]. by injection H as <-.
  - unfold request_closed. intros (x & _ & H)%comp_bind_Ret. destruct (call_phase x) as [| | |[ch|]|]; try done.
    destruct (closeChannels s !! ch) as [[|e q]|]; try done. injection H as <-. by rewrite set_phase_written.
  - intros ([err|s1] & Hr%maybe_Ret & H)%comp_bind_Ret; injection H as <-; [done|by eapply Send_written].
  - destruct (register_hooks h s) as [hs ->]. by intros [= <-].
  - intros H%maybe_Ret. apply fmap_Some in H as ([err s1] & Hw & ->). revert Hw. unfold Wait.
    destruct (closeChannel s) as [ch|]; [|by intros [= _ <-]].
    destruct (closeChannels s !! ch) as [[|e q]|]; try done. by intros [= _ <-].
  - intros H%maybe_Ret. by eapply Close_written.
  - intros H%maybe_Ret. revert H. unfold sendLoop_write. destruct (connected s); [|done].
    destruct (StreamingClient.sendChannel s) as [[|msg q]|]; try done. destruct werr; [|done].
    by intros H%handleError_written.
  - destruct (cancelled s); [done|]. intros H%maybe_Ret. by apply Close_written in H.
  - destruct (connected s); [|done]. intros H%maybe_Ret. by apply Close_written in H.
  - destruct (connected s); [|done]. unfold receive. destruct (negb _); [by intros [= <-]|].
    apply handleResult_written.
  - destruct (connected s); [|done]. intros H%maybe_Ret. by eapply handleError_written.
  - intros ([k d] & _ & H)%comp_bind_Ret. cbn [fst snd] in H. destruct (d <=? now s); [|done].
    by apply expire_written in H.
  - by intros [= <-].
Qed.

Lemma client_write_written s s' msg q :
  StreamingClient.sendChannel s = Some (msg :: q) →
  StreamingClient.step (StreamingClient.LWrite None) s = Some (Ret s') →
  StreamingClient.written s' = StreamingClient.written s ++ [msg].
Proof.
  intros Hq. cbn [StreamingClient.step]. intros H%maybe_Ret. revert H. unfold sendLoop_write.
  destruct (connected s); [|done]. rewrite Hq. by intros [= <-].
Qed.

(** ** The connection of the client *)

Lemma Reset_disconnects err s s' : Reset err s = Some s' → connected s' = false.
Proof.
  unfold Reset. destruct (cancelFunc s); cbn [closeChannel set_cancel];
    (destruct (closeChannel s) as [ch|]; [case_match; [|done]|]); by intros [= <-].
Qed.

Lemma handleError_disconnects err s s' : handleError err s = Some s' → connected s' = false.
Proof.
  unfold handleError. intros (s1 & H1 & H2)%bind_Some. injection H2 as <-.
  by apply Reset_disconnects in H1.
Qed.

Lemma read_error_disconnects err s s' :
  StreamingClient.step (LReadError err) s = Some (Ret s') → connected s' = false.
Proof.
  cbn [StreamingClient.step]. destruct (connected s); [|done]. intros H%maybe_Ret.
  by eapply handleError_disconnects.
Qed.

Lemma Close_connected s s' : Close s = Some s' → connected s' = true → connected s = true.
Proof. unfold Close. destruct (connected s) eqn:Hc; [done|]. intros [= <-]. by rewrite Hc. Qed.

Lemma set_phase_connected c p s : connected (set_phase c p s) = connected s.
Proof. unfold set_phase. by destruct (calls s !! c). Qed.

Lemma deliver_connected c msg s s' : deliver_comp c msg s = Some (Ret s') → connected s' = connected s.
Proof. by intros (x & _ & ->)%deliver_Ret. Qed.

Lemma handleResult_connected msg s s' :
  handleResult msg s = Some (Ret s') → connected s' = connected s.
Proof.
  unfold handleResult. intros (id & _ & H)%comp_bind_Ret. apply comp_bind_Ret in H as (k & _ & H).
  destruct (pending_get k _); [|by injection H as <-]. destruct (calls _ !! _); [|done].
  case_decide; [by apply deliver_connected in H|].
  apply comp_bind_Ret in H as (resmsg & _ & H). by apply deliver_connected in H.
Qed.

Lemma expire_connected k s s' : expire k s = Some (Ret s') → connected s' = connected s.
Proof.
  unfold expire. destruct (pending_get k _); [|by intros [= <-]]. destruct (calls _ !! _); [|done].
  intros (timeout & _ & H)%comp_bind_Ret. by apply deliver_connected in H.
Qed.

(** The actions that would dial, successfully. *)
Definition redials (l : StreamingClient.label) : bool :=
  match l with
  | LConnect None | LRequest _ _ None _ | StreamingClient.LSend _ None | LSendMessage None _ => true
  | _ => false
  end.

(** Without dialling there is no new connection. *)
Lemma Connect_no_dial err s s' : Connect (Some err) s = inr s' → s' = s.
Proof. unfold Connect. destruct (connected s); [by intros [= <-]|done]. Qed.

Lemma Send_connected err msg s s' :
  StreamingClient.Send (Some err) msg s = Some (inr s') → connected s' = connected s.
Proof.
  unfold StreamingClient.Send. destruct (Connect (Some err) s) as [|s1] eqn:Hc; [done|].
  apply Connect_no_dial in Hc as ->. unfold push_message.
  destruct (StreamingClient.sendChannel s); [|done]. cbn. case_match; [|done]. by intros [= <-].
Qed.

Lemma client_step_connected l s s' :
  redials l = false → StreamingClient.step l s = Some (Ret s') → connected s' = true → connected s = true.
Proof.
  intros Hl. destruct l; cbn [StreamingClient.step].
  - destruct dial as [err|]; [|done]. intros [= <-].
    destruct (Connect (Some err) s) eqn:Hc; [done|]. by apply Connect_no_dial in Hc as ->.
  - destruct dial as [err|]; [|done]. unfold request_start. destruct (calls s !! c); [done|].
    destruct (Connect (Some err) s) as [|s1] eqn:Hc; [by intros [= <-]|]. apply Connect_no_dial in Hc as ->.
    intros (k & _ & H)%comp_bind_Ret. apply comp_bind_Ret in H as (sent & _ & H). by injection H as <-.
  - unfold request_store. intros (x & _ & H)%comp_bind_Ret. destruct (call_phase x); try done.
    apply comp_bind_Ret in H as (k & _ & H). injection H as <-. by rewrite set_phase_connected.
  - destruct dial as [err|]; [|done]. unfold request_send. intros (x & _ & H)%comp_bind_Ret.
    destruct (call_phase x); try done.
    apply comp_bind_Ret in H as ([e|s1] & Hr%maybe_Ret & H); injection H as <-;
      rewrite set_phase_connected; [done|by rewrite (Send_connected _ _ _ _ Hr)].
  - unfold request_arm. intros (x & _ & H)%comp_bind_Ret. destruct (call_phase x); try done.
    apply comp_bind_Ret in H as (k & _ & H). injection H as <-. by rewrite set_phase_connected.
  - unfold request_result. intros (x & _ & H)%comp_bind_Ret. destruct (call_phase x); try done.
    destruct (resultChannel x); [done|]. by injection H as <-.
  - unfold request_closed. intros (x & _ & H)%comp_bind_Ret. destruct (call_phase x) as [| | |[ch|]|]; try done.
    destruct (closeChannels s !! ch) as [[|e q]|]; try done. injection H as <-. by rewrite set_phase_connected.
  - destruct dial as [err|]; [|done].
    intros ([e|s1] & Hr%maybe_Ret & H)%comp_bind_Ret; injection H as <-; [done|].
    by rewrite (Send_connected _ _ _ _ Hr).
  - destruct (register_hooks h s) as [hs ->]. by intros [= <-].
  - intros H%maybe_Ret. apply fmap_Some in H as ([err s1] & Hw & ->). revert Hw. unfold Wait.
    destruct (closeChannel s) as [ch|]; [|by intros [= _ <-]].
    destruct (closeChannels s !! ch) as [[|e q]|]; try done. by intros [= _ <-].
  - intros H%maybe_Ret. by eapply Close_connected.
  - intros H%maybe_Ret. revert H. unfold sendLoop_write. by destruct (connected s).
  - destruct (cancelled s); [done|]. intros H%maybe_Ret Hc. by apply (Close_connected _ _ H).
  - by destruct (connected s).
  - by destruct (connected s).
  - by destruct (connected s).
  - intros ([k d] & _ & H)%comp_bind_Ret. cbn [fst snd] in H. destruct (d <=? now s); [|done].
    by apply expire_connected in H as ->.
  - by intros [= <-].
Qed.
