(* ===== verification/Transports.v ===== *)
(** * The transports as objects: net/ws_client.go, net/http2_client.go,
      net/tcp_client.go and net/vsock_client.go

    The interface [Transport] of net/streaming_client.go as a class with its
    laws, and the four transports of the library as instances: each is a record
    of pointers, which Connect sets and Close sets to nil.  The streaming client
    asks Connected before it reads or writes; StreamingClient.v has a flag in the
    place of the transport, which this file justifies.

    A connection is named by a number.  What dialling, writing and reading
    give is an argument, as in Clients.v. *)

From S2P Require Import Prelude GoMap Strconv Values Messages Parse JsonText WireText.
From S2P Require Import StreamingClient Http Session Clients Provenance.
From stdpp Require Import gmap.
From stdpp Require Import options.
#[local] Open Scope Z_scope.

(** ** The interface *)

(** [Dial] is what dialling is given and gives, [Input] what there is to read;
    the error of [t_Connect] and the transport after it; [t_ReadMessage] gives
    an error or, unless there is nothing of use, a message. *)
Class Transport (T Dial Input : Type) := {
  t_new : T;
  t_dialled : Dial → option error;
  t_Connect : Dial → nat → T → option error * T;
  t_Close : T → T;
  t_Connected : T → bool;
  t_WriteMessage : option net_error → Message → T → result (error + string);
  t_ReadMessage : Input → T → result (error + option Message) }.

(** What the streaming client relies on.  [t_ok] holds of a transport that was
    made by the operations. *)
Class TransportLaws (T Dial Input : Type) `{Transport T Dial Input} := {
  t_ok : T → Prop;
  t_new_ok : t_ok t_new;
  t_new_Connected : t_Connected t_new = false;
  t_Connect_spec dial conn t : t_ok t →
    (t_Connect dial conn t).1 = t_dialled dial ∧ t_ok (t_Connect dial conn t).2 ∧
    t_Connected (t_Connect dial conn t).2 = bool_decide (t_dialled dial = None) || t_Connected t;
  t_Close_spec t : t_ok t → t_ok (t_Close t) ∧ t_Connected (t_Close t) = false;
  t_Close_idemp t : t_Close (t_Close t) = t_Close t;
  t_WriteMessage_ok wrote msg t : t_ok t → t_Connected t = true → ∃ r, t_WriteMessage wrote msg t = Ret r;
  t_ReadMessage_ok input t : t_ok t → t_Connected t = true → ∃ r, t_ReadMessage input t = Ret r }.

(** ** The four transports *)

(** [json.NewDecoder] has been given a connection. *)
Definition with_decoder {A} (decoder : option nat) (r : result A) : result A :=
  match decoder with Some _ => r | None => Panic nil_deref end.

(** The marshalling of [WriteMessage] comes before the pointer is used; [nil]
    is what writing gives when the pointer is nil. *)
Definition write_through (nil : result (error + string)) (WriteMessage : error + string) (ptr : option nat)
    (msg : Message) : result (error + string) :=
  match MessageBytes msg, ptr with
  | None, _ => Ret (inl marshal_error)
  | Some _, Some _ => Ret WriteMessage
  | Some _, None => nil
  end.

Definition read_value (r : result ((error + Message) * decoder)) : result (error + option Message) :=
  r ← r; Ret match r.1 with inl err => inl err | inr msg => inr (Some msg) end.

Record wsTransport := mkWsTransport { ws : option nat }.
Record tcpTransport := mkTcpTransport { tcp_conn : option nat; tcp_decoder : option nat }.
Record vsockTransport := mkVsockTransport { vsock_conn : option nat; vsock_decoder : option nat }.
Record h2Transport := mkH2Transport {
  resp : option nat; h2_decoder : option nat; writer : option nat; flusher : option nat }.

(** A [Connected] that asks whether a pointer is set, after unfolding. *)
Ltac pointer_laws :=
  repeat match goal with
         | t : wsTransport |- _ => destruct t
         | t : tcpTransport |- _ => destruct t
         | t : vsockTransport |- _ => destruct t
         | t : h2Transport |- _ => destruct t
         end; cbn in *; repeat case_match; cbn in *; repeat case_bool_decide; naive_solver.

Lemma write_through_Ret nil r ptr msg : ptr ≠ None → ∃ r', write_through nil r ptr msg = Ret r'.
Proof. intros Hp. unfold write_through. destruct (MessageBytes msg), ptr; try done; by eexists. Qed.

Section ws.
(** What the methods of a nil [*websocket.Conn] do. *)
Context (nil_ws_Read : result (error + option Message)) (nil_ws_Write : result (error + string)).

Definition ws_transport_Connect (dial : option net_error) (conn : nat) (t : wsTransport)
    : option error * wsTransport :=
  match ws_Connect dial with Some err => (Some err, t) | None => (None, mkWsTransport (Some conn)) end.

Definition ws_transport_Close (t : wsTransport) : wsTransport :=
  match ws t with Some _ => mkWsTransport None | None => t end.

Definition ws_Connected (t : wsTransport) : bool := bool_decide (ws t ≠ None).

#[export] Instance ws_Transport : Transport wsTransport (option net_error) (net_error + (bool * string)) := {
  t_new := mkWsTransport None;
  t_dialled := ws_Connect;
  t_Connect := ws_transport_Connect;
  t_Close := ws_transport_Close;
  t_Connected := ws_Connected;
  t_WriteMessage wrote msg t := write_through nil_ws_Write (ws_WriteMessage wrote msg) (ws t) msg;
  t_ReadMessage frame t := match ws t with Some _ => ws_ReadMessage frame | None => nil_ws_Read end }.

Lemma ws_ReadMessage_Ret frame : ∃ r, ws_ReadMessage frame = Ret r.
Proof using Type.
  destruct frame as [e|[[] b]]; cbn; [by eexists| |by eexists]. unfold ParseBytes.
  destruct (DecodeMessage_total (scan_text b) []) as (m & d' & ->). by eexists.
Qed.

#[export] Instance ws_Transport_laws : TransportLaws wsTransport (option net_error) (net_error + (bool * string)).
Proof using Type.
  refine {| t_ok _ := True |}; try solve [intros; unfold t_Close, t_Connect, t_Connected, ws_Transport, ws_Connected,
    ws_transport_Connect, ws_transport_Close; pointer_laws].
  - intros wrote msg t _ Ht%bool_decide_eq_true. by apply write_through_Ret.
  - intros frame t _ Ht%bool_decide_eq_true. cbn. destruct (ws t); [apply ws_ReadMessage_Ret|done].
Defined.

End ws.

Section streams.
(** The text of an error, and what writing to a nil [*vsock.Conn] does. *)
Context (Error : error → string) (nil_vsock_Write : result (error + string)).

Definition tcp_transport_Connect (dial : option net_error) (conn : nat) (t : tcpTransport)
    : option error * tcpTransport :=
  match tcp_Connect dial with
  | Some err => (Some err, t)
  | None => (None, mkTcpTransport (Some conn) (Some conn))
  end.

(** The decoder stays. *)
Definition tcp_transport_Close (t : tcpTransport) : tcpTransport :=
  match tcp_conn t with Some _ => mkTcpTransport None (tcp_decoder t) | None => t end.

Definition tcp_Connected (t : tcpTransport) : bool := bool_decide (tcp_conn t ≠ None).

(** Writing to a nil [net.Conn] calls a method of a nil interface. *)
#[export] Instance tcp_Transport : Transport tcpTransport (option net_error) decoder := {
  t_new := mkTcpTransport None None;
  t_dialled := tcp_Connect;
  t_Connect := tcp_transport_Connect;
  t_Close := tcp_transport_Close;
  t_Connected := tcp_Connected;
  t_WriteMessage wrote msg t := write_through (Panic nil_deref) (tcp_WriteMessage wrote msg) (tcp_conn t) msg;
  t_ReadMessage d t := with_decoder (tcp_decoder t) (read_value (tcp_ReadMessage Error d)) }.

(** A vsock connection is dialled by a context and a port of a URL. *)
Definition vsock_transport_Connect (dial : (Z → Z → option net_error) * URL) (conn : nat) (t : vsockTransport)
    : option error * vsockTransport :=
  match vsock_Connect dial.1 dial.2 with
  | Some err => (Some err, t)
  | None => (None, mkVsockTransport (Some conn) (Some conn))
  end.

Definition vsock_transport_Close (t : vsockTransport) : vsockTransport :=
  match vsock_conn t with Some _ => mkVsockTransport None (vsock_decoder t) | None => t end.

Definition vsock_Connected (t : vsockTransport) : bool := bool_decide (vsock_conn t ≠ None).

#[export] Instance vsock_Transport :
  Transport vsockTransport ((Z → Z → option net_error) * URL) decoder := {
  t_new := mkVsockTransport None None;
  t_dialled dial := vsock_Connect dial.1 dial.2;
  t_Connect := vsock_transport_Connect;
  t_Close := vsock_transport_Close;
  t_Connected := vsock_Connected;
  t_WriteMessage wrote msg t :=
    write_through nil_vsock_Write (vsock_WriteMessage wrote msg) (vsock_conn t) msg;
  t_ReadMessage d t := with_decoder (vsock_decoder t) (read_value (vsock_ReadMessage Error d)) }.

(** The flusher of a new connection is not set. *)
Definition h2_transport_Connect (Do : option net_error) (conn : nat) (t : h2Transport)
    : option error * h2Transport :=
  match h2_Connect Do with
  | Some err => (Some err, t)
  | None => (None, mkH2Transport (Some conn) (Some conn) (Some conn) (flusher t))
  end.

Definition h2_transport_Close (t : h2Transport) : h2Transport :=
  match resp t with Some _ => mkH2Transport None (h2_decoder t) None None | None => t end.

Definition h2_Connected (t : h2Transport) : bool := bool_decide (resp t ≠ None).

#[export] Instance h2_Transport : Transport h2Transport (option net_error) decoder := {
  t_new := mkH2Transport None None None None;
  t_dialled := h2_Connect;
  t_Connect := h2_transport_Connect;
  t_Close := h2_transport_Close;
  t_Connected := h2_Connected;
  t_WriteMessage wrote msg t := write_through (Panic nil_deref) (h2_WriteMessage wrote msg) (writer t) msg;
  t_ReadMessage d t := with_decoder (h2_decoder t) (read_value (h2_ReadMessage Error d)) }.

Lemma read_value_Ret d : ∃ r, read_value (stream_ReadMessage Error d) = Ret r.
Proof using Type.
  unfold read_value, stream_ReadMessage. destruct (DecodeMessage_total d []) as (m & d' & ->). by eexists.
Qed.

(** What the pointers of a transport have in common: those set together. *)
Definition tcp_ok (t : tcpTransport) : Prop := tcp_conn t ≠ None → tcp_decoder t ≠ None.
Definition vsock_ok (t : vsockTransport) : Prop := vsock_conn t ≠ None → vsock_decoder t ≠ None.
Definition h2_ok (t : h2Transport) : Prop := resp t ≠ None → h2_decoder t ≠ None ∧ writer t ≠ None.

Lemma with_decoder_Ret {A} decoder (r : result A) :
  decoder ≠ None → (∃ x, r = Ret x) → ∃ x, with_decoder decoder r = Ret x.
Proof using Type. by destruct decoder. Qed.

#[local] Hint Resolve write_through_Ret read_value_Ret with_decoder_Ret : transports.

#[export] Instance tcp_Transport_laws : TransportLaws tcpTransport (option net_error) decoder.
Proof using Type.
  refine {| t_ok := tcp_ok |}; try solve [unfold tcp_ok, t_Close, t_Connect, t_Connected, tcp_Transport, tcp_Connected,
    tcp_transport_Connect, tcp_transport_Close; intros; pointer_laws].
  - intros wrote msg t _ Ht%bool_decide_eq_true. cbn. auto with transports.
  - intros d t Hok Ht%bool_decide_eq_true. cbn. auto with transports.
Defined.

#[export] Instance vsock_Transport_laws :
  TransportLaws vsockTransport ((Z → Z → option net_error) * URL) decoder.
Proof using Type.
  refine {| t_ok := vsock_ok |}; try solve [unfold vsock_ok, t_Close, t_Connect, t_Connected, vsock_Transport,
    vsock_Connected,
    vsock_transport_Connect, vsock_transport_Close; intros; pointer_laws].
  - intros wrote msg t _ Ht%bool_decide_eq_true. cbn. auto with transports.
  - intros d t Hok Ht%bool_decide_eq_true. cbn. auto with transports.
Defined.

#[export] Instance h2_Transport_laws : TransportLaws h2Transport (option net_error) decoder.
Proof using Type.
  refine {| t_ok := h2_ok |}; try solve [unfold h2_ok, t_Close, t_Connect, t_Connected, h2_Transport, h2_Connected,
    h2_transport_Connect, h2_transport_Close; intros; pointer_laws].
  - intros wrote msg t Hok Ht%bool_decide_eq_true. apply write_through_Ret. by apply Hok.
  - intros d t Hok Ht%bool_decide_eq_true. cbn. apply with_decoder_Ret; [by apply Hok|]. auto with transports.
Defined.
End streams.

(** ** The streaming client over a transport

    [Connect], [Close], [Reset] and the rounds of the two loops as the source
    has them, with the transport in the place of the flag. *)

Section client.
Context `{TransportLaws T Dial Input}.

(** A client with its transport: the flag is what Connected returns. *)
Definition agrees (t : T) (s : client) : Prop := t_ok t ∧ t_Connected t = connected s.

(** [Connect]: a transport that is connected is left alone; otherwise it is
    dialled and, if that succeeds, the client gets new channels. *)
Definition transport_Connect (dial : Dial) (conn : nat) (t : T) (s : client) : option error * (T * client) :=
  if t_Connected t then (None, (t, s))
  else match t_Connect dial conn t with
       | (Some err, t) => (Some err, (t, s))
       | (None, t) =>
           let ch := size (closeChannels s) in
           (None, (t, set_cancel true (cancelled s)
                        (set_closeChannel (Some ch)
                          (set_closeChannels (<[ch := []]> (closeChannels s))
                            (set_hooks (call_connected (hooks s)) (set_connection true (Some []) s))))))
       end.

Lemma transport_Connect_refines dial conn t s :
  agrees t s →
  match transport_Connect dial conn t s, Connect (t_dialled dial) s with
  | (None, (t', s')), inr s'' => s' = s'' ∧ agrees t' s'
  | (Some err, (t', s')), inl err' => err = err' ∧ s' = s ∧ agrees t' s
  | _, _ => False
  end.
Proof using Type*.
  intros [Hok Hc]. unfold transport_Connect, Connect, agrees. rewrite Hc.
  destruct (connected s) eqn:Hs; [split_and!; congruence|].
  destruct (t_Connect_spec dial conn t Hok) as (H1 & H2 & H3).
  destruct (t_Connect dial conn t) as [r t']. cbn in *. subst r. rewrite Hc in H3.
  destruct (t_dialled dial) as [err|]; by split_and!.
Qed.

(** [Reset] closes the transport. *)
Lemma Reset_refines err t s s' : agrees t s → Reset err s = Some s' → agrees (t_Close t) s'.
Proof using Type*.
  intros [Hok _] Hr. destruct (t_Close_spec t Hok) as [H1 H2]. split; [done|].
  by rewrite H2, (Reset_disconnects _ _ _ Hr).
Qed.

(** [Close] asks the transport first. *)
Definition transport_Close (t : T) (s : client) : option (T * client) :=
  if t_Connected t then s ← Reset None s; Some (t_Close t, s) else Some (t, s).

Lemma transport_Close_refines t s :
  agrees t s → snd <$> transport_Close t s = Close s ∧
    ∀ t' s', transport_Close t s = Some (t', s') → agrees t' s' ∧ t_Connected t' = false.
Proof using Type*.
  intros Ha. pose proof Ha as [Hok Hc]. unfold transport_Close, Close. rewrite Hc.
  destruct (connected s) eqn:Hs; [|split; [done|]; intros t' s' [= <- <-]; split; [done|congruence]].
  destruct (Reset None s) as [s1|] eqn:Hr; [|done]. split; [done|]. intros t' s' [= <- <-].
  split; [by eapply Reset_refines|]. by apply t_Close_spec.
Qed.

(** A round of the send loop that has a message, and of the receive loop: the
    test, what others do to the transport in the meantime, the operation. *)
Definition send_round (meanwhile : T → T) (wrote : option net_error) (msg : Message) (t : T)
    : result (option (error + string)) :=
  if t_Connected t then Some <$> t_WriteMessage wrote msg (meanwhile t) else Ret None.

Definition receive_round (meanwhile : T → T) (input : Input) (t : T)
    : result (option (error + option Message)) :=
  if t_Connected t then Some <$> t_ReadMessage input (meanwhile t) else Ret None.

(** When nothing happens in between, the loops do not panic. *)
Lemma rounds_safe wrote msg input t :
  t_ok t → (∃ r, send_round id wrote msg t = Ret r) ∧ (∃ r, receive_round id input t = Ret r).
Proof using Type*.
  intros Hok. unfold send_round, receive_round. destruct (t_Connected t) eqn:Hc; [|by split; eexists].
  destruct (t_WriteMessage_ok wrote msg t Hok Hc) as [r1 H1], (t_ReadMessage_ok input t Hok Hc) as [r2 H2].
  unfold id. rewrite H1, H2. by split; eexists.
Qed.
End client.

(** C38. Closing a connection can crash the client.  Between the test of the
    send loop and the write nothing keeps others from closing the transport:
    the user, or the receive loop when the peer is gone.  Over TCP and HTTP/2
    the write then calls a method of a nil interface, for every message that
    has a JSON form, in a goroutine that recovers from nothing.  Without the
    close the round does not panic. *)
Theorem close_under_send_loop Error wrote msg j conn :
  MessageBytes msg = Some j →
  let tcp := (tcp_transport_Connect None conn (mkTcpTransport None None)).2 in
  let h2 := (h2_transport_Connect None conn (mkH2Transport None None None None)).2 in
  (∃ r, @send_round _ _ _ (tcp_Transport Error) id wrote msg tcp = Ret (Some r)) ∧
  (∃ r, @send_round _ _ _ (h2_Transport Error) id wrote msg h2 = Ret (Some r)) ∧
  @send_round _ _ _ (tcp_Transport Error) tcp_transport_Close wrote msg tcp = Panic nil_deref ∧
  @send_round _ _ _ (h2_Transport Error) h2_transport_Close wrote msg h2 = Panic nil_deref.
Proof.
  intros Hj. unfold send_round. cbn. unfold write_through. rewrite Hj. split_and!; by try eexists.
Qed.

Lemma close_under_send_loop_witness :
  @send_round _ _ _ (tcp_Transport (λ _, "")) tcp_transport_Close None sample_request
    (mkTcpTransport (Some 0%nat) (Some 0%nat)) = Panic nil_deref.
Proof.
  destruct (MessageBytes sample_request) as [j|] eqn:Hj; [|by vm_compute in Hj].
  by apply (close_under_send_loop (λ _, "") None sample_request j 0 Hj).
Defined.

(** ** The settings of a client, and the http.Client of an HTTP/2 client *)

(** The fields of a StreamingClient that its user sets, which the transport
    uses when it dials; ServerURL and ClientTLSConfig are the projections. *)
Record client_settings (TLS : Type) := mkSettings {
  ServerURL : URL;
  extraHeader : http_header;
  ClientTLSConfig : option TLS }.
Arguments mkSettings {_} _ _ _.
Arguments ServerURL {_} _.
Arguments extraHeader {_} _.
Arguments ClientTLSConfig {_} _.

Definition SetExtraHeader {TLS} (h : http_header) (c : client_settings TLS) : client_settings TLS :=
  mkSettings (ServerURL c) h (ClientTLSConfig c).

Definition SetClientTLSConfig {TLS} (cfg : option TLS) (c : client_settings TLS) : client_settings TLS :=
  mkSettings (ServerURL c) (extraHeader c) cfg.

(** The settings of an http2.Transport: over h2c DialTLS dials without TLS,
    otherwise the TLS settings of the client apply. *)
Inductive http2_settings (TLS : Type) : Type :=
  | DialPlain
  | DialTLS (TLSClientConfig : option TLS).
Arguments DialPlain {_}.
Arguments DialTLS {_} _.

Record Http2Client (TLS : Type) := mkHttp2Client {
  httpClient : option (http2_settings TLS);   (** made once *)
  h2_UseHttp2C : bool;
  h2_settings : client_settings TLS }.
Arguments mkHttp2Client {_} _ _ _.
Arguments httpClient {_} _.
Arguments h2_UseHttp2C {_} _.
Arguments h2_settings {_} _.

Definition HTTPClient {TLS} (c : Http2Client TLS) : http2_settings TLS * Http2Client TLS :=
  match httpClient c with
  | Some client => (client, c)
  | None =>
      let client := if h2_UseHttp2C c then DialPlain else DialTLS (ClientTLSConfig (h2_settings c)) in
      (client, mkHttp2Client (Some client) (h2_UseHttp2C c) (h2_settings c))
  end.

Definition configure {TLS} (f : client_settings TLS → client_settings TLS) (c : Http2Client TLS) : Http2Client TLS :=
  mkHttp2Client (httpClient c) (h2_UseHttp2C c) (f (h2_settings c)).

(** TLS settings count until the first connection, and for h2 only. *)
Lemma HTTPClient_settings {TLS} (cfg cfg' : option TLS) useh2c st :
  let c := configure (SetClientTLSConfig cfg) (mkHttp2Client None useh2c st) in
  let '(client, c') := HTTPClient c in
  client = (if useh2c then DialPlain else DialTLS cfg) ∧
  (HTTPClient (configure (SetClientTLSConfig cfg') c')).1 = client.
Proof. by destruct useh2c. Qed.
