(* ===== verification/Delivery.v ===== *)
(** * No call is forgotten

    What a streaming client keeps about calls that have not returned, beyond
    Provenance.v: a call that has stored its entry holds the entry or has got a
    message; its request is not sent before; and once an answer to it has been
    read the entry is gone.  The calls must use different ids.  Progress.v draws
    from it that calls return. *)

From S2P Require Import Prelude GoMap Strconv Values Messages Parse JsonText WireText.
From S2P Require Import Actor StreamingClient Session Clients Links Provenance.
From stdpp Require Import gmap.
From stdpp Require Import options.
#[local] Open Scope Z_scope.

(** An answer with this id has been read. *)
Definition answered_key (reads : list Message) (k : key) : Prop :=
  ∃ m id, m ∈ reads ∧ IsResultOrError m = true ∧ MustId m = Ret id ∧ key_of id = Some k.

Definition keys_distinct (issued : gmap nat RequestMessage) : Prop := ∀ c c' sent sent' k,
  issued !! c = Some sent → issued !! c' = Some sent' →
  key_of (req_Id sent) = Some k → key_of (req_Id sent') = Some k → c = c'.

(** The call has an entry, or has got a message in its place. *)
Definition tracked (p : StreamingClient.phase) : Prop :=
  match p with Stored _ | Sent _ | StreamingClient.Waiting _ => True | _ => False end.

Definition will_send (p : StreamingClient.phase) : Prop :=
  match p with Loaded _ | Stored _ => True | _ => False end.

Record call_live (reads : list Message) (s : client) (c : nat) (x : call) (sent : RequestMessage) (k : key)
    : Prop := {
  cv_tracked : tracked (call_phase x) → (0 < StreamingClient.received x)%nat ∨ (k, c) ∈ pendingRequests s;
  cv_unsent : will_send (call_phase x) → MRequest sent ∉ outbox s;
  cv_answered : MRequest sent ∈ outbox s → answered_key reads k → (k, c) ∉ pendingRequests s }.

Definition live (issued : gmap nat RequestMessage) (reads : list Message) (s : client) : Prop :=
  ∀ c x sent k, calls s !! c = Some x → issued !! c = Some sent → key_of (req_Id sent) = Some k →
    call_live reads s c x sent k.

(** *** Steps that change one call *)

(** What the other calls see of a step. *)
Record frames_call (s s' : client) (d : nat) (sent : RequestMessage) (k : key) : Prop := {
  fc_pending : (k, d) ∈ pendingRequests s' ↔ (k, d) ∈ pendingRequests s;
  fc_out : MRequest sent ∈ outbox s' → MRequest sent ∈ outbox s }.

Lemma frame_call_live reads s s' c x sent k :
  frames_call s s' c sent k → call_live reads s c x sent k → call_live reads s' c x sent k.
Proof. intros [H1 H2] [L1 L2 L3]. split; rewrite ?H1; tauto. Qed.

Lemma live_frame issued reads s s' c :
  live issued reads s → (∀ d, d ≠ c → calls s' !! d = calls s !! d) →
  (∀ d sent k, d ≠ c → issued !! d = Some sent → key_of (req_Id sent) = Some k → frames_call s s' d sent k) →
  (∀ x sent k, calls s' !! c = Some x → issued !! c = Some sent → key_of (req_Id sent) = Some k →
    call_live reads s' c x sent k) →
  live issued reads s'.
Proof.
  intros Hl Hcalls Hframe Hc d x sent k Hx Hs Hk. destruct (decide (d = c)) as [->|Hne]; [by apply Hc|].
  rewrite Hcalls in Hx by done. eapply frame_call_live; [by apply Hframe|by eapply Hl].
Qed.

Lemma live_quiet issued reads s s' : quiet s s' → live issued reads s → live issued reads s'.
Proof.
  intros [[Hc Hp] Ho] Hl c x sent k. rewrite Hc. intros Hx Hs Hkey.
  apply (frame_call_live _ s); [|by eapply Hl]. split; [by rewrite Hp|apply Ho].
Qed.

(** The request of a call in the outbox was sent by this call. *)
Lemma out_request issued reads s sent :
  client_ok issued reads s → MRequest sent ∈ outbox s → ∃ d, issued !! d = Some sent.
Proof.
  intros Hok Hin. destruct (co_out _ _ _ Hok _ Hin) as [(d & sent' & Hd & [= ->])|(Hnot & _)]; [eauto|].
  by destruct (Hnot sent).
Qed.

Lemma pending_get_None k p : pending_get k p = None → ∀ c, (k, c) ∉ p.
Proof.
  induction p as [|[k' c'] p IH]; cbn; [by intros _ c ?%elem_of_nil|]. case_decide as Hk; [done|].
  intros H c [[= <- <-]|Hin]%elem_of_cons; [done|by eapply IH].
Qed.

(** *** The steps of a call *)

Section steps.
Context (issued : gmap nat RequestMessage) (reads : list Message) (s : client).
Context (Hok : client_ok issued reads s) (Hlive : live issued reads s).
Context (Hkeys : keys_distinct issued).

(** A call that only changes in its phase and channel. *)
Lemma live_phase s' c x x' :
  calls s !! c = Some x → calls s' = <[c := x']> (calls s) → pendingRequests s' = pendingRequests s →
  outbox s' = outbox s →
  (∀ sent k, issued !! c = Some sent → call_live reads s c x sent k → call_live reads s c x' sent k) →
  live issued reads s'.
Proof using Hlive.
  intros Hx Hc Hp Ho Hstep. eapply (live_frame _ _ s _ c); [done|..].
  - intros d Hne. rewrite Hc. by apply (lookup_insert_ne (M:=gmap nat)).
  - intros d sent k _ _ _. split; rewrite ?Hp, ?Ho; done.
  - intros y sent k. rewrite Hc, (lookup_insert_eq (M:=gmap nat)). intros [= <-] Hs Hk.
    destruct (Hstep sent k Hs (Hlive _ _ _ _ Hx Hs Hk)) as [L1 L2 L3].
    by split; rewrite ?Hp, ?Ho.
Qed.

(** A call that has returned. *)
Lemma call_live_returned c x x' sent k :
  ¬ tracked (call_phase x') → ¬ will_send (call_phase x') →
  call_live reads s c x sent k → call_live reads s c x' sent k.
Proof using Type. intros ?? []. by split. Qed.

Lemma request_start_live c reqmsg dial uuid s' :
  let l := LRequest c reqmsg dial uuid in
  keys_distinct (issue l s' issued) → request_start c reqmsg dial uuid s = Some (Ret s') →
  live (issue l s' issued) reads s'.
Proof using Hok Hlive.
  intros l Hkeys'. unfold request_start. destruct (calls s !! c) eqn:Hc; [done|].
  assert (issued !! c = None) as Hnone.
  { destruct (issued !! c) as [sent|] eqn:Hs; [|done].
    destruct (co_issued _ _ _ Hok c sent Hs) as (y & Hy & _). congruence. }
  destruct (Connect dial s) as [e|s1] eqn:Hconn.
  { intros [= <-]. cbn [l issue calls set_call] in *. rewrite (lookup_insert_eq (M:=gmap nat)) in *.
    eapply (live_frame _ _ s _ c); [done| |by split|].
    - intros d Hne. by apply (lookup_insert_ne (M:=gmap nat)).
    - intros x sent k _ Hs. cbn in Hs. congruence. }
  apply Connect_quiet in Hconn as [[Hcalls Hpend] Hout].
  intros (k & _ & H)%comp_bind_Ret. apply comp_bind_Ret in H as (sent & _ & H). injection H as <-.
  cbn [l issue calls set_call] in *. rewrite (lookup_insert_eq (M:=gmap nat)) in *.
  cbn [fmap option_fmap option_map call_phase] in *.
  intros d x sent' k'. cbn [calls set_call]. rewrite Hcalls. destruct (decide (d = c)) as [->|Hne].
  - rewrite !(lookup_insert_eq (M:=gmap nat)). intros [= <-] [= <-] Hk'.
    split; cbn; [done|intros _ Hin%Hout|intros Hin%Hout].
    all: destruct (out_request _ _ _ _ Hok Hin) as [d Hd].
    all: assert (d ≠ c) as Hne by (intros ->; congruence).
    all: exfalso; apply Hne, (Hkeys' d c sent sent k'); [|apply (lookup_insert_eq (M:=gmap nat))|done|done];
      by rewrite (lookup_insert_ne (M:=gmap nat)).
  - rewrite !(lookup_insert_ne (M:=gmap nat)) by done. intros Hx Hs Hk'.
    apply (frame_call_live _ s); [|by eapply Hlive]. split; [by cbn; rewrite Hpend|apply Hout].
Qed.

Lemma request_store_live c s' : request_store c s = Some (Ret s') → live issued reads s'.
Proof using Hok Hlive Hkeys.
  unfold request_store. intros (x & Hx%maybe_Ret & H)%comp_bind_Ret.
  destruct (call_phase x) as [sent| | | |] eqn:Hp; try done.
  assert (issued !! c = Some sent) as Hs by (eapply co_phase; [done|done|by rewrite Hp]).
  apply comp_bind_Ret in H as (k & Hk%key_res_Ret & H). injection H as <-.
  rewrite (set_phase_calls _ _ x) by done.
  eapply (live_frame _ _ s _ c); [done|..].
  - intros d Hne. by apply (lookup_insert_ne (M:=gmap nat)).
  - intros d sent' k' Hne Hs' Hk'. split; [|done]. cbn. unfold pending_set, pending_del.
    rewrite elem_of_cons, list_elem_of_filter. cbn. split.
    + by intros [[= -> ->]|[_ ?]].
    + intros Hin. right. split; [|done]. intros ->. destruct Hne. by eapply Hkeys.
  - intros y sent' k'. cbn. rewrite (lookup_insert_eq (M:=gmap nat)), Hs. intros [= <-] [= <-] Hk'.
    rewrite Hk in Hk'. injection Hk' as ->. destruct (Hlive _ _ _ _ Hx Hs Hk) as [_ L2 _].
    rewrite Hp in L2. split; cbn; [intros _; right; by left|intros _; by apply L2|].
    intros Hin. by destruct (L2 I).
Qed.

Lemma request_send_live c dial s' :
  (∀ k, answered_key reads k → ∃ d sent, issued !! d = Some sent ∧ key_of (req_Id sent) = Some k ∧
    MRequest sent ∈ outbox s) →
  request_send c dial s = Some (Ret s') → live issued reads s'.
Proof using Hok Hlive Hkeys.
  intros Horigin. unfold request_send. intros (x & Hx%maybe_Ret & H)%comp_bind_Ret.
  destruct (call_phase x) as [|sent| | |] eqn:Hp; try done.
  assert (issued !! c = Some sent) as Hs by (eapply co_phase; [done|done|by rewrite Hp]).
  apply comp_bind_Ret in H as (r & Hr%maybe_Ret & H). destruct r as [e|s1].
  { injection H as <-. rewrite (set_phase_calls _ _ x) by done. eapply (live_phase _ c x); try done.
    intros sent' k' _. by apply call_live_returned; cbn; intros []. }
  injection H as <-. apply Send_outbox in Hr as [[Hc Hpend] Ho].
  rewrite (set_phase_calls _ _ x) by (by rewrite Hc).
  eapply (live_frame _ _ s _ c); [done|..].
  - intros d Hne. cbn. rewrite Hc. by apply (lookup_insert_ne (M:=gmap nat)).
  - intros d sent' k' Hne Hs' Hk'. split; [cbn; by rewrite Hpend|].
    intros [[= ->]|?]%Ho%elem_of_cons; [|done]. destruct Hne. by eapply Hkeys.
  - intros y sent' k'. cbn [calls set_call]. rewrite (lookup_insert_eq (M:=gmap nat)), Hs. intros [= <-] [= <-] Hk'.
    destruct (Hlive _ _ _ _ Hx Hs Hk') as [L1 L2 _].
    unfold StreamingClient.received in L1. rewrite Hp in L1, L2.
    split; cbn [pendingRequests set_call call_phase]; rewrite ?Hpend.
    + intros _. by apply L1.
    + done.
    + intros _ Hans. destruct (Horigin k' Hans) as (d & sent' & Hd & Hkd & Hin).
      pose proof (Hkeys _ _ _ _ _ Hd Hs Hkd Hk') as ->. rewrite Hs in Hd. injection Hd as <-.
      by destruct (L2 I).
Qed.

(** A message that the holder of an entry gets. *)
Lemma deliver_live s' k c m x reads' :
  pending_get k (pendingRequests s) = Some c → calls s !! c = Some x →
  (∀ k', answered_key reads' k' → answered_key reads k' ∨ k' = k) →
  deliver_comp c m (set_pending (pending_del k (pendingRequests s)) s) = Some (Ret s') →
  live issued reads' s'.
Proof using Hok Hlive Hkeys.
  intros Hg Hx Hreads Hd. apply deliver_Ret in Hd as (x' & Hx' & ->).
  cbn [calls set_pending] in Hx'. rewrite Hx in Hx'. injection Hx' as <-.
  destruct (co_pending _ _ _ Hok k c) as (sent & Hs & Hk); [by apply pending_get_elem|].
  assert (∀ k' d, (k', d) ∈ pending_del k (pendingRequests s) ↔ k' ≠ k ∧ (k', d) ∈ pendingRequests s) as Hdel.
  { intros k' d. unfold pending_del. by rewrite list_elem_of_filter. }
  intros d y sent' k'. cbn [calls set_call set_pending]. destruct (decide (d = c)) as [->|Hne].
  - rewrite (lookup_insert_eq (M:=gmap nat)). intros [= <-] Hs' Hk'. rewrite Hs in Hs'. injection Hs' as <-.
    rewrite Hk in Hk'. injection Hk' as <-. destruct (Hlive _ _ _ _ Hx Hs Hk) as [L1 L2 L3].
    split; cbn; [|done|].
    + intros _. left. unfold StreamingClient.received. cbn. rewrite length_app. simpl. lia.
    + intros _ _. rewrite Hdel. tauto.
  - rewrite (lookup_insert_ne (M:=gmap nat)) by done. intros Hy Hs' Hk'.
    assert (k' ≠ k) as Hkk by (intros ->; destruct Hne; by eapply Hkeys).
    destruct (Hlive _ _ _ _ Hy Hs' Hk') as [L1 L2 L3].
    split; cbn; rewrite ?Hdel; [intros [?|?]%L1; auto|done|].
    intros Hin Hans [_ Hp]. destruct (Hreads k' Hans) as [?|?]; [by apply L3|done].
Qed.

Lemma live_reads reads' :
  (∀ k, answered_key reads' k → answered_key reads k ∨ ∀ c, (k, c) ∉ pendingRequests s) →
  live issued reads' s.
Proof using Hlive.
  intros Hreads c x sent k Hx Hs Hk. destruct (Hlive _ _ _ _ Hx Hs Hk) as [L1 L2 L3].
  split; [done..|]. intros Hin Hans. destruct (Hreads k Hans) as [?|?]; auto.
Qed.

Lemma receive_live msg s' :
  receive msg s = Some (Ret s') → live issued (reads ++ [msg]) s'.
Proof using Hok Hlive Hkeys.
  assert (∀ k, answered_key (reads ++ [msg]) k → answered_key reads k ∨
    IsResultOrError msg = true ∧ ∃ id, MustId msg = Ret id ∧ key_of id = Some k) as Hans.
  { intros k (m & id & Hm & H). apply elem_of_app in Hm as [?| ->%list_elem_of_singleton].
    - left. by exists m, id.
    - right. destruct H as (? & ? & ?). eauto. }
  unfold receive. destruct (IsResultOrError msg) eqn:Hkind; cbn [negb].
  2: { intros [= <-]. apply (live_quiet _ _ s); [done|]. apply live_reads.
    intros k [?|[? _]]%Hans; [by left|done]. }
  unfold handleResult. intros H. apply comp_bind_Ret in H as (msgId & Hid & H). injection Hid as Hid.
  apply comp_bind_Ret in H as (k & Hk%key_res_Ret & H).
  assert (∀ k', answered_key (reads ++ [msg]) k' → answered_key reads k' ∨ k' = k) as Hans'.
  { intros k' [?|(_ & id & Hid' & Hk')]%Hans; [by left|right]. rewrite Hid in Hid'. injection Hid' as <-.
    congruence. }
  destruct (pending_get k (pendingRequests s)) as [c|] eqn:Hg.
  2: { injection H as <-. apply (live_quiet _ _ s); [done|]. apply live_reads.
    intros k' [?| ->]%Hans'; [by left|right].
    by apply pending_get_None. }
  cbn [calls set_pending] in H. destruct (calls s !! c) as [x|] eqn:Hx; [|done].
  destruct (decide _); [by eapply deliver_live|].
  apply comp_bind_Ret in H as (resmsg & _ & H). by eapply deliver_live.
Qed.

Lemma expire_live k s' : expire k s = Some (Ret s') → live issued reads s'.
Proof using Hok Hlive Hkeys.
  unfold expire. destruct (pending_get k (pendingRequests s)) as [c|] eqn:Hg; [|by intros [= <-]].
  cbn [calls set_pending]. destruct (calls s !! c) as [x|] eqn:Hx; [|done].
  intros (timeout & _ & H)%comp_bind_Ret. eapply deliver_live; [done|done| |exact H]. by left.
Qed.

Lemma request_end_live l s' :
  match l with LArm _ | LResult _ | LClosed _ => True | _ => False end →
  StreamingClient.step l s = Some (Ret s') → live issued reads s'.
Proof using Hlive.
  destruct l; try done; intros _; cbn [StreamingClient.step].
  - unfold request_arm. intros (x & Hx%maybe_Ret & H)%comp_bind_Ret.
    destruct (call_phase x) as [| |sent| |] eqn:Hp; try done. apply comp_bind_Ret in H as (k & _ & H).
    injection H as <-. rewrite (set_phase_calls _ _ x) by done. eapply (live_phase _ c x); try done.
    intros sent' k' _ [L1 L2 L3]. unfold StreamingClient.received in L1. rewrite Hp in *.
    split; cbn; [|done..]. by intros _; apply L1.
  - unfold request_result. intros (x & Hx%maybe_Ret & H)%comp_bind_Ret.
    destruct (call_phase x) eqn:Hp; try done. destruct (resultChannel x) as [|m rest] eqn:Hm; [done|].
    injection H as <-. eapply (live_phase _ c x); try done.
    intros sent' k' _. by apply call_live_returned; cbn; intros [].
  - unfold request_closed. intros (x & Hx%maybe_Ret & H)%comp_bind_Ret.
    destruct (call_phase x) as [| | |[ch|]|] eqn:Hp; try done.
    destruct (closeChannels s !! ch) as [[|e q]|]; try done. injection H as <-.
    rewrite (set_phase_calls _ _ x) by done. eapply (live_phase _ c x); try done.
    intros sent' k' _. by apply call_live_returned; cbn; intros [].
Qed.
End steps.

(** Every action keeps the calls alive, if what has been read answers requests
    that went out. *)
Lemma client_step_live issued reads l s s' :
  client_ok issued reads s → live issued reads s → keys_distinct (issue l s' issued) → issued ⊆ issue l s' issued →
  label_sendable l →
  (∀ k, answered_key reads k → ∃ d sent, issued !! d = Some sent ∧ key_of (req_Id sent) = Some k ∧
    MRequest sent ∈ outbox s) →
  StreamingClient.step l s = Some (Ret s') →
  live (issue l s' issued) (read_by l reads) s'.
Proof.
  intros Hok Hl Hkeys' Hsub Hsend Horigin.
  assert (keys_distinct issued) as Hkeys.
  { intros c c' sent sent' k H1 H2. eapply Hkeys'; by eapply lookup_weaken. }
  destruct l; try (cbn [issue read_by]; by apply request_end_live);
    cbn [StreamingClient.step read_by issue] in *; intros H.
  - injection H as <-. destruct (Connect dial s) eqn:Hc; [done|].
    by eapply live_quiet; [eapply Connect_quiet|].
  - by eapply request_start_live.
  - by eapply request_store_live.
  - by eapply request_send_live.
  - apply comp_bind_Ret in H as (r & Hr%maybe_Ret & H). injection H as <-.
    destruct r as [e|s1]; [done|]. apply Send_outbox in Hr as [[Hc Hp] Ho].
    cbn [registered]. intros c x sent k. rewrite Hc. intros Hx Hs Hk.
    apply (frame_call_live _ s); [|by eapply Hl]. split; [by rewrite Hp|].
    intros [<-|?]%Ho%elem_of_cons; [|done]. by destruct (proj1 Hsend sent).
  - destruct (register_hooks h s) as [hs Hh]. rewrite Hh in H. injection H as <-. by apply (live_quiet _ _ s).
  - apply maybe_Ret, fmap_Some in H as ([err s1] & Hw & ->). by eapply live_quiet; [eapply Wait_quiet|].
  - apply maybe_Ret in H. by eapply live_quiet; [eapply Close_quiet|].
  - apply maybe_Ret in H. by eapply live_quiet; [eapply sendLoop_quiet|].
  - destruct (cancelled s) as [|n]; [done|]. apply maybe_Ret in H.
    eapply live_quiet; [by eapply (Close_quiet _ _ H)|]. by apply (live_quiet _ _ s).
  - destruct (connected s); [|done]. apply maybe_Ret in H.
    eapply live_quiet; [by eapply (Close_quiet _ _ H)|]. by apply (live_quiet _ _ s).
  - destruct (connected s); [|done]. by eapply receive_live.
  - destruct (connected s); [|done]. apply maybe_Ret in H. by eapply live_quiet; [eapply handleError_quiet|].
  - apply comp_bind_Ret in H as ([k d] & _ & H). cbn [fst snd] in H. destruct (d <=? now s); [|done].
    eapply expire_live; [| |done|exact H]; [by apply (client_ok_quiet _ _ s)|by apply (live_quiet _ _ s)].
  - injection H as <-. by apply (live_quiet _ _ s).
Qed.
