(* ===== verification/Network.v ===== *)
(** * A client and a server

    The streaming client of StreamingClient.v, a session of Session.v and the
    connection between them, for each of the four transports.  A state holds
    both sides and the two directions of the connection: all texts written so
    far, and how many messages have been read from them.  A label is an action
    of one side, or of the network between them, which may fail at any time, or
    of other users of the actor, who change its world.  A client that has lost
    its connection may dial again, in Connect or with its next message; then
    the server has a new session for it, and nothing is under way.  The session
    it had is history from then on: what it still does to the world is an
    action of other users.  A write that fails has written nothing.

    The history fields say which request each call sent ([issued]) and which
    messages the client read ([reads]). *)

From S2P Require Import Prelude GoMap Strconv Values Messages Parse JsonText WireText.
From S2P Require Import Methods Schema Validator Actor Http StreamingClient Session Clients Links Provenance.
From stdpp Require Import gmap.
From stdpp Require Import options.
#[local] Open Scope Z_scope.

(** ** The system *)

Section system.
Context {W : Type}.
Context (L : link) (Error : error → string).
Context (kind : session_kind) (feed : Message → act W panic feed_result) (HandleClose : act W panic unit).

Record system := mkSystem {
  client_side : client;
  server_side : session W;
  up : list string;
  up_read : nat;
  down : list string;
  down_read : nat;
  issued : gmap nat RequestMessage;
  reads : list Message;
  before : nat;                     (** how much was written on earlier connections *)
  past : list (session W) }.        (** the sessions of earlier connections *)

(** What the client has written on this connection. *)
Definition here (s : system) : list Message := drop (before s) (StreamingClient.written (client_side s)).

Inductive sys_label : Type :=
  | Client (l : StreamingClient.label)        (** an action without the network *)
  | ClientWrite (wrote : option net_error)    (** the send loop writes *)
  | ClientRead                                (** the receive loop reads *)
  | ClientFail (err : error)                  (** or the network fails it *)
  | Server (l : Session.label)
  | ServerWrite (werr : option error)
  | ServerRead
  | ServerFail (err : error)
  | World (w : W).                            (** others use the actor *)

Definition client_network (l : StreamingClient.label) : bool :=
  match l with
  | StreamingClient.LRead _ | LReadError _ | StreamingClient.LWrite _ => true
  | _ => false
  end.

Definition server_network (l : Session.label) : bool :=
  match l with Session.LRead _ | Session.LWrite _ => true | _ => false end.

Definition set_up (texts : list string) (n : nat) (s : system) : system :=
  mkSystem (client_side s) (server_side s) texts n (down s) (down_read s) (issued s) (reads s) (before s) (past s).
Definition set_down (texts : list string) (n : nat) (s : system) : system :=
  mkSystem (client_side s) (server_side s) (up s) (up_read s) texts n (issued s) (reads s) (before s) (past s).
Definition set_server (x : session W) (s : system) : system :=
  mkSystem (client_side s) x (up s) (up_read s) (down s) (down_read s) (issued s) (reads s) (before s) (past s).
Definition set_client (l : StreamingClient.label) (c : client) (s : system) : system :=
  mkSystem c (server_side s) (up s) (up_read s) (down s) (down_read s)
    (issue l c (issued s)) (read_by l (reads s)) (before s) (past s).

(** The server accepts the new connection of the client. *)
Definition renew (s : system) : system :=
  mkSystem (client_side s) (new_session (world (server_side s))) [] 0 [] 0 (issued s) (reads s)
    (length (StreamingClient.written (client_side s))) (server_side s :: past s).

Definition client_step (l : StreamingClient.label) (s : system) : comp panic system :=
  c ← StreamingClient.step l (client_side s);
  let s' := set_client l c s in
  mret (if negb (connected (client_side s)) && connected c then renew s' else s').

Definition server_step (l : Session.label) (s : system) : comp panic system :=
  x ← Session.step kind feed HandleClose l (server_side s);
  mret (set_server x s).

Definition client_write (wrote : option net_error) (s : system) : comp panic system :=
  match StreamingClient.sendChannel (client_side s) with
  | Some (msg :: _) =>
      match link_WriteMessage L wrote msg with
      | inl err => client_step (StreamingClient.LWrite (Some err)) s
      | inr text => client_step (StreamingClient.LWrite None) (set_up (up s ++ [text]) (up_read s) s)
      end
  | _ => None
  end.

(** Without anything to read the read blocks, until the peer has closed. *)
Definition client_read (s : system) : comp panic system :=
  match client_reads L Error (down s) (down_read s) with
  | None =>
      if bool_decide (conn (server_side s) = Closed) then client_step (LReadError TransportClosed) s else None
  | Some r =>
      r ← (Some r : comp panic (error + option Message));
      let s := set_down (down s) (S (down_read s)) s in
      match r with
      | inl err => client_step (LReadError err) s
      | inr None => mret s
      | inr (Some msg) => client_step (StreamingClient.LRead msg) s
      end
  end.

Definition server_write (werr : option error) (s : system) : comp panic system :=
  match Session.sendChannel (server_side s) with
  | [] => None
  | o :: _ =>
      match MessageBytes (out_message o), werr with
      | Some j, None =>
          server_step (Session.LWrite None)
            (set_down (down s ++ [text_of (session_line_end L) j]) (down_read s) s)
      | _, _ => server_step (Session.LWrite werr) s
      end
  end.

Definition server_read (s : system) : comp panic system :=
  match session_reads L (up s) (up_read s) with
  | None => if connected (client_side s) then None else server_step (Session.LRead (session_reads_end L)) s
  | Some ev => server_step (Session.LRead ev) (set_up (up s) (S (up_read s)) s)
  end.

Definition sys_step (l : sys_label) (s : system) : comp panic system :=
  match l with
  | Client l => if client_network l then None else client_step l s
  | ClientWrite wrote => client_write wrote s
  | ClientRead => client_read s
  | ClientFail err => client_step (LReadError err) s
  | Server l => if server_network l then None else server_step l s
  | ServerWrite werr => server_write werr s
  | ServerRead => server_read s
  | ServerFail err => server_step (Session.LRead (ReadError err)) s
  | World w => mret (set_server (set_world w (server_side s)) s)
  end.

(** A client that has connected, and the session it talks to. *)
Definition connected_client : client := registered InitStreaming (Connect None InitStreaming).

Definition new_system (w : W) : system :=
  mkSystem connected_client (new_session w) [] 0 [] 0 ∅ [] 0 [].

Definition label_ok (l : sys_label) : Prop :=
  match l with
  | Client l => label_sendable l
  | Server l => label_pushable l
  | _ => True
  end.

Inductive sys_reachable : system → Prop :=
  | sys_new w : sys_reachable (new_system w)
  | sys_next l s s' :
      sys_reachable s → label_ok l → sys_step l s = Some (Ret s') → sys_reachable s'.

Fixpoint sys_run (ls : list sys_label) (s : system) : comp panic system :=
  match ls with
  | [] => mret s
  | l :: ls => s ← sys_step l s; sys_run ls s
  end.

(** ** What every execution of the system keeps *)

Context (line_end : string) (Hlink : link_ok L line_end).

(** The actor's answers are not nested deeper than decoders allow. *)
Definition shallow_answers : Prop := ∀ msg w resmsg err w',
  message_wire msg → shallow msg →
  feed (message_norm msg) w = Some (Ret (Some resmsg, err), w') → shallow resmsg.

Context (Hshallow : shallow_answers).

Definition good_requests (issued : gmap nat RequestMessage) : Prop := ∀ c sent,
  issued !! c = Some sent → message_wire (MRequest sent) ∧ shallow (MRequest sent).

Definition written_jsons (s : system) (js : list json) : Prop :=
  Forall2 message_json (out_message <$> Session.written (server_side s)) js.

(** A session of an earlier connection answered what the client had written. *)
Definition past_ok (s : system) (x : session W) : Prop :=
  session_fed feed x ∧
  ∀ req, req ∈ arrived x → req ∈ message_norm <$> StreamingClient.written (client_side s).

Record sys_ok (s : system) : Prop := {
  so_client : client_ok (issued s) (reads s) (client_side s);
  so_session : session_fed feed (server_side s);
  so_up : ∃ js, up s = text_of line_end <$> js ∧ Forall2 message_json (here s) js;
  so_up_read : (up_read s ≤ length (here s))%nat;
  so_arrived : arrived (server_side s) ≡ₚ message_norm <$> take (up_read s) (here s);
  so_down : ∃ js, down s = text_of (session_line_end L) <$> js ∧ written_jsons s js;
  so_down_read : (down_read s ≤ length (Session.written (server_side s)))%nat;
  so_reads m : m ∈ reads s →
    ∃ x o, x ∈ server_side s :: past s ∧ o ∈ Session.written x ∧ crosses (out_message o) m;
  so_all_read o : connected (client_side s) = true → o ∈ take (down_read s) (Session.written (server_side s)) →
    ∃ m, m ∈ reads s ∧ crosses (out_message o) m;
  so_before : (before s ≤ length (StreamingClient.written (client_side s)))%nat;
  so_past x : x ∈ past s → past_ok s x }.

(** Everything on this connection was written by the client. *)
Lemma take_here n s : take n (here s) ⊆ StreamingClient.written (client_side s).
Proof using Type. unfold here. intros m Hm%subseteq_take. by eapply subseteq_drop. Qed.

Lemma server_past s : sys_ok s → past_ok s (server_side s).
Proof using Type.
  intros Hok. split; [by apply so_session|]. intros req. rewrite (so_arrived s Hok).
  intros (m & -> & Hm)%list_elem_of_fmap. by eapply list_elem_of_fmap_2, take_here.
Qed.

(** A new connection. *)
Lemma renew_ok s : sys_ok s → sys_ok (renew s).
Proof using Type.
  intros Hok. pose proof (server_past s Hok) as Hpast. destruct Hok as [H1 H2 H3 H4 H5 H6 H7 H8 H9 H10 H11].
  split; unfold here, written_jsons, past_ok in *; cbn; rewrite ?drop_all; try done.
  - exists []. by repeat constructor.
  - exists []. by repeat constructor.
  - intros m Hm. destruct (H8 m Hm) as (x & o & Hx & Ho). exists x, o. split; [by right|done].
  - intros o _ Ho. by apply elem_of_nil in Ho.
  - intros x [->|Hx]%elem_of_cons; [done|by apply H11].
Qed.

(** A step of the client that writes nothing. *)
Lemma set_client_ok l c s :
  sys_ok s → label_sendable l → l ≠ StreamingClient.LWrite None →
  StreamingClient.step l (client_side s) = Some (Ret c) →
  (connected c = true → connected (client_side s) = true ∨ down_read s = 0%nat) →
  (∀ msg, l = StreamingClient.LRead msg →
    ∃ o, o ∈ Session.written (server_side s) ∧ crosses (out_message o) msg) →
  sys_ok (set_client l c s).
Proof using Type.
  intros [H1 H2 H3 H4 H5 H6 H7 H8 H9 H10 H11] Hl Hw Hc Hcon Hread.
  pose proof (client_step_written _ _ _ Hw Hc) as Hwr.
  assert (reads s ⊆ read_by l (reads s)) as Hsub
    by (destruct l; try done; intros m Hm; apply elem_of_app; by left).
  split; unfold here, past_ok in *; cbn; rewrite ?Hwr; try done; [by eapply client_step_ok| |].
  - intros m. destruct l; cbn; eauto. rewrite elem_of_app, list_elem_of_singleton. intros [?| ->]; [eauto|].
    destruct (Hread msg) as (o & Ho & Hx); [done|]. exists (server_side s), o. split; [by left|done].
  - intros o Hcon' Ho. destruct (Hcon Hcon') as [Hup|Hno].
    + destruct (H9 o Hup Ho) as (m & Hm & ?). eauto.
    + rewrite Hno in Ho. by apply elem_of_nil in Ho.
Qed.

(** The client keeps its connection, or makes one. *)
Lemma client_step_cases l s s' :
  client_step l s = Some (Ret s') →
  ∃ c, StreamingClient.step l (client_side s) = Some (Ret c) ∧
    ((connected c = true → connected (client_side s) = true) ∧ s' = set_client l c s ∨
     connected (client_side s) = false ∧ connected c = true ∧ s' = set_client l c (renew s)).
Proof using Type.
  unfold client_step. intros (c & Hc & H)%comp_bind_Ret. exists c. split; [done|].
  destruct (connected (client_side s)) eqn:Hs, (connected c) eqn:Hc'; cbn [negb andb] in H; injection H as <-.
  1,2,4: by left. right. split_and!; [done..|]. unfold renew, set_client. cbn.
  rewrite (client_step_written l (client_side s) c); [done| |done].
  intros ->. cbn [StreamingClient.step] in Hc. unfold sendLoop_write in Hc. by rewrite Hs in Hc.
Qed.

Lemma client_step_keeps l s s' :
  redials l = false → client_step l s = Some (Ret s') →
  ∃ c, StreamingClient.step l (client_side s) = Some (Ret c) ∧ s' = set_client l c s ∧
    (connected c = true → connected (client_side s) = true).
Proof using Type.
  intros Hl (c & Hc & [[Hcon ->]|(Hs & Hcon & _)])%client_step_cases; [by exists c|].
  rewrite (client_step_connected _ _ _ Hl Hc Hcon) in Hs. done.
Qed.

Lemma client_step_sys l s s' :
  sys_ok s → label_sendable l → l ≠ StreamingClient.LWrite None →
  (∀ msg, l = StreamingClient.LRead msg →
    ∃ o, o ∈ Session.written (server_side s) ∧ crosses (out_message o) msg) →
  client_step l s = Some (Ret s') → sys_ok s'.
Proof using Type.
  intros Hok Hl Hw Hread (c & Hc & [[Hcon ->]|(Hs & Hcon & ->)])%client_step_cases.
  - apply set_client_ok; try done. intros ?. left. auto.
  - apply set_client_ok; try done; [by apply renew_ok|by intros; right|].
    intros msg ->. cbn [StreamingClient.step] in Hc. by rewrite Hs in Hc.
Qed.

(** A step of the session that neither reads nor writes a message. *)
Lemma server_step_sys l s s' x :
  sys_ok s → Session.step kind feed HandleClose l (server_side s) = Some (Ret x) →
  session_fed feed x → arrived x ≡ₚ arrived (server_side s) →
  Session.written x = Session.written (server_side s) →
  server_step l s = Some (Ret s') → sys_ok s'.
Proof using Type.
  intros [H1 H2 H3 H4 H5 H6 H7 H8 H9 H10 H11] Hx Hfed Hr Hw. unfold server_step. rewrite Hx.
  intros H. injection H as <-. split; unfold written_jsons, here, past_ok in *; cbn; rewrite ?Hr, ?Hw; try done.
  intros m Hm. destruct (H8 m Hm) as (y & o & Hy & Ho & Hc). apply elem_of_cons in Hy as [->|Hy].
  - exists x, o. rewrite Hw. split; [by left|done].
  - exists y, o. split; [by right|done].
Qed.

Lemma new_system_ok w : sys_ok (new_system w).
Proof using Type.
  split; cbn; [by apply client_ok_init|by repeat constructor| |done|done| |done|by intros m ?%elem_of_nil|
    by intros o _ ?%elem_of_nil|done|by intros x ?%elem_of_nil];
    exists []; by repeat constructor.
Qed.

(** What the client writes is JSON that a decoder takes. *)
Lemma out_json issued reads c msg :
  client_ok issued reads c → good_requests issued → msg ∈ outbox c → message_wire msg ∧ shallow msg.
Proof using Type.
  intros Hok Hgood Hin. destruct (co_out _ _ _ Hok msg Hin) as [(d & sent & Hs & ->)|(_ & ? & ?)];
    [by apply (Hgood d)|done].
Qed.

Lemma client_write_sys wrote s s' :
  sys_ok s → good_requests (issued s) → client_write wrote s = Some (Ret s') → sys_ok s'.
Proof using Hlink.
  intros Hok Hgood. unfold client_write.
  destruct (StreamingClient.sendChannel (client_side s)) as [[|msg q]|] eqn:Hq; try done.
  destruct (link_WriteMessage L wrote msg) as [err|text] eqn:Hw;
    [by apply client_step_sys; [| | |intros ? [=]]|].
  intros (c & Hc & -> & Hcon)%client_step_keeps; [|done]. cbn [client_side set_up] in Hc, Hcon.
  pose proof (client_write_written _ _ _ _ Hq Hc) as Hwr.
  pose proof Hok as [H1 H2 (js & Hup & Hjs) H4 H5 H6 H7 H8 H9 H10 H11].
  destruct (out_json _ _ _ msg H1 Hgood) as [Hwire Hsh].
  { unfold outbox. rewrite Hq. apply elem_of_app. right. by left. }
  destruct (link_writes _ _ Hlink _ _ _ Hw) as (_ & j & Hj & ->).
  split; unfold here, past_ok in *; cbn; rewrite ?Hwr, ?drop_app_le by done; try done.
  - by apply (client_step_ok _ _ (StreamingClient.LWrite None) (client_side s)).
  - exists (js ++ [j]). rewrite fmap_app, Hup. split; [done|]. apply Forall2_app; [done|].
    constructor; [|done]. split; [done|]. by apply Hsh.
  - rewrite length_app. lia.
  - by rewrite take_app_le.
  - intros o ?. apply H9. auto.
  - rewrite length_app. lia.
  - intros x Hx. destruct (H11 x Hx) as [Hfed Harr]. split; [done|]. intros req Hreq.
    rewrite fmap_app. apply elem_of_app. left. by apply Harr.
Qed.

Lemma client_read_sys s s' :
  sys_ok s → client_read s = Some (Ret s') → sys_ok s'.
Proof using Type.
  intros Hok. unfold client_read. pose proof Hok as [H1 H2 H3 H4 H5 (js & Hdown & Hjs) H7 H8 H9 H10 H11].
  destruct (client_reads L Error (down s) (down_read s)) as [r|] eqn:Hr.
  2: { case_bool_decide; [|done]. intros Hs. by eapply client_step_sys; [exact Hok| | |intros ? [=]|exact Hs]. }
  rewrite Hdown in Hr.
  destruct (client_reads_message L Error _ _ _ _ _ (session_line_end_ok L) (session_frame_end L) Hjs Hr)
    as (msg & j & m & Hmsg & [Hj _] & Hdec & Hm).
  apply list_lookup_fmap_Some in Hmsg as (o & -> & Ho).
  destruct Hm as [(msg' & -> & ->)|(e & err & -> & ->)]; cbn [mbind comp_mbind];
    intros (c & Hc & -> & Hcon)%client_step_keeps; try done; cbn [client_side set_down] in Hc, Hcon.
  - assert (crosses (out_message o) msg') as Hcross by by exists j.
    pose proof (client_step_written (StreamingClient.LRead msg') _ _ ltac:(done) Hc) as Hwr.
    split; unfold here, past_ok in *; cbn; rewrite ?Hwr; try done.
    + by apply (client_step_ok _ _ (StreamingClient.LRead msg') (client_side s)).
    + by exists js.
    + by apply lookup_lt_Some in Ho.
    + intros m. rewrite elem_of_app, list_elem_of_singleton. intros [?| ->]; [eauto|].
      exists (server_side s), o. split_and!; [by left|by eapply list_elem_of_lookup_2|done].
    + intros o' Hcon'. rewrite (take_S_r _ _ o) by done.
      rewrite elem_of_app, list_elem_of_singleton. intros [Ho'| ->].
      * destruct (H9 o' (Hcon Hcon') Ho') as (m & ? & ?).
        exists m. split; [apply elem_of_app; by left|done].
      * exists msg'. split; [apply elem_of_app; right; by left|done].
  - pose proof (client_step_written (LReadError err) _ _ ltac:(done) Hc) as Hwr.
    split; unfold here, past_ok in *; cbn; rewrite ?Hwr; try done.
    + by apply (client_step_ok _ _ (LReadError err) (client_side s)).
    + by exists js.
    + by apply lookup_lt_Some in Ho.
    + intros o' Hcon'. by rewrite (read_error_disconnects _ _ _ Hc) in Hcon'.
Qed.

(** An answer of the session is what the actor gave to a message of the client. *)
Lemma answer_shallow s o :
  sys_ok s → good_requests (issued s) →
  o ∈ Session.written (server_side s) ++ Session.sendChannel (server_side s) → shallow (out_message o).
Proof using Hshallow.
  intros Hok Hgood Ho. destruct (so_session s Hok) as [_ Hout]. rewrite Forall_forall in Hout.
  apply Hout in Ho. destruct o as [req resmsg|msg]; [|apply Ho].
  destruct Ho as (Hreq & w & w' & Hf).
  assert (req ∈ arrived (server_side s)) as Harr by (apply elem_of_app; by left).
  rewrite (so_arrived s Hok) in Harr. apply list_elem_of_fmap in Harr as (msg & -> & Hmsg).
  destruct (out_json _ _ _ msg (so_client s Hok) Hgood) as [Hw Hsh].
  { apply elem_of_app. left. by eapply take_here. }
  by eapply Hshallow.
Qed.

Lemma server_write_sys werr s s' :
  sys_ok s → good_requests (issued s) → server_write werr s = Some (Ret s') → sys_ok s'.
Proof using Hshallow.
  intros Hok Hgood. unfold server_write.
  destruct (Session.sendChannel (server_side s)) as [|o q] eqn:Hq; [done|].
  assert (server_step (Session.LWrite werr) s = Some (Ret s') →
    match MessageBytes (out_message o), werr with Some _, None => False | _, _ => True end → sys_ok s')
    as Hlost.
  { intros Hs Hno. pose proof Hs as Hs'. unfold server_step in Hs. apply comp_bind_Ret in Hs as (x & Hx & _).
    destruct (session_write_fed kind feed HandleClose werr _ x (so_session s Hok) Hx)
      as (o' & q' & Hq' & Hfed & Hr & Hw). rewrite Hq in Hq'. injection Hq' as <- <-.
    eapply server_step_sys; [exact Hok|exact Hx|done|by rewrite Hr| |exact Hs'].
    rewrite Hw. destruct (MessageBytes _), werr; by rewrite ?app_nil_r. }
  destruct (MessageBytes (out_message o)) as [j|] eqn:Hj, werr as [err|]; try (intros Hs; by apply Hlost).
  clear Hlost. unfold server_step. intros (x & Hx & H)%comp_bind_Ret. injection H as <-.
  cbn [server_side set_down] in Hx.
  destruct (session_write_fed kind feed HandleClose None _ x (so_session s Hok) Hx)
    as (o' & q' & Hq' & Hfed & Hr & Hw). rewrite Hq in Hq'. injection Hq' as <- <-. rewrite Hj in Hw.
  assert (shallow (out_message o)) as Hsh.
  { apply (answer_shallow s); [done|done|]. rewrite Hq. apply elem_of_app. right. by left. }
  destruct Hok as [H1 H2 H3 H4 H5 (js & Hdown & Hjs) H7 H8 H9 H10 H11].
  split; unfold written_jsons, here, past_ok in *; cbn; rewrite ?Hr, ?Hw; try done.
  - exists (js ++ [j]). rewrite Hdown, !fmap_app. split; [done|].
    apply Forall2_app; [done|]. constructor; [|done]. split; [done|]. by apply Hsh.
  - rewrite length_app. lia.
  - intros m Hm. destruct (H8 m Hm) as (y & o' & [->|Hy]%elem_of_cons & Ho' & Hc).
    + exists x, o'. rewrite Hw. split_and!; [by left|apply elem_of_app; by left|done].
    + exists y, o'. split_and!; [by right|done..].
  - intros o' Hcon. rewrite take_app_le by done. by apply H9.
Qed.

(** The session after a read, and the messages that have arrived. *)
Lemma server_read_step ev n s s' :
  sys_ok s → (∀ msgBytes, ev = ReadFrame true msgBytes → is_Some (frame_message msgBytes)) →
  (n ≤ length (here s))%nat →
  arrived (server_side s) ++ match event_message ev with Some msg => [msg] | None => [] end ≡ₚ
    message_norm <$> take n (here s) →
  server_step (Session.LRead ev) (set_up (up s) n s) = Some (Ret s') → sys_ok s'.
Proof using Type.
  intros [H1 H2 H3 H4 H5 H6 H7 H8 H9 H10 H11] Hev Hn Hrec. unfold server_step. intros (x & Hx & H)%comp_bind_Ret.
  injection H as <-. cbn [server_side set_up] in Hx.
  destruct (session_read_fed kind feed HandleClose ev _ x H2 Hev Hx) as (Hfed & Hw & Hr).
  split; unfold written_jsons, here, past_ok in *; cbn; rewrite ?Hw, ?Hr; try done.
  intros m Hm. destruct (H8 m Hm) as (y & o & [->|Hy]%elem_of_cons & Ho & Hc).
  - exists x, o. rewrite Hw. split; [by left|done].
  - exists y, o. split; [by right|done].
Qed.

Lemma set_up_same s : set_up (up s) (up_read s) s = s.
Proof using Type. by destruct s. Qed.

Lemma server_read_sys s s' :
  sys_ok s → good_requests (issued s) → server_read s = Some (Ret s') → sys_ok s'.
Proof using Hlink.
  intros Hok Hgood. unfold server_read. pose proof Hok as [H1 H2 (js & Hup & Hjs) H4 H5 H6 H7 H8 H9 H10 H11].
  destruct (session_reads L (up s) (up_read s)) as [ev|] eqn:Hr.
  2: { destruct (connected (client_side s)); [done|]. rewrite <- (set_up_same s) at 1.
    apply server_read_step; [done|unfold session_reads_end; by destruct (link_frames L)|done|].
    unfold session_reads_end. destruct (link_frames L); cbn; by rewrite app_nil_r. }
  rewrite Hup in Hr.
  destruct (session_reads_message L line_end _ _ _ _ (link_line_end _ _ Hlink) (link_frame_end _ _ Hlink) Hjs Hr)
    as (msg & j & Hmsg & Hmj & Hev).
  destruct (out_json _ _ _ msg H1 Hgood) as [Hwire _].
  { apply elem_of_app. left. eapply subseteq_drop. by eapply list_elem_of_lookup_2. }
  destruct (crosses_wire msg Hwire) as (j' & Hj' & Hdec). rewrite (proj1 Hmj) in Hj'. injection Hj' as <-.
  assert (event_message ev = Some (message_norm msg)) as Hem.
  { rewrite (event_message_value j ev _ Hdec (scan_text_of msg j Hmj)); [done|]. naive_solver. }
  apply server_read_step; [done| | |].
  - intros msgBytes ->. cbn in Hem. by rewrite Hem.
  - by apply lookup_lt_Some in Hmsg.
  - by rewrite Hem, H5, (take_S_r _ _ msg), fmap_app.
Qed.

Lemma set_world_ok w s : sys_ok s → sys_ok (set_server (set_world w (server_side s)) s).
Proof using Type.
  intros [H1 H2 H3 H4 H5 H6 H7 H8 H9 H10 H11]. split; try done.
  intros m Hm. destruct (H8 m Hm) as (y & o & [->|Hy]%elem_of_cons & Ho & Hc).
  - eexists _, o. split; [by left|done].
  - exists y, o. split; [by right|done].
Qed.

Lemma sys_step_ok l s s' :
  sys_ok s → good_requests (issued s) → label_ok l → sys_step l s = Some (Ret s') → sys_ok s'.
Proof using Hlink Hshallow.
  intros Hok Hgood Hl. destruct l as [l|wrote| |err|l|werr| |err|w]; cbn [sys_step].
  - destruct (client_network l) eqn:Hg; [done|].
    apply client_step_sys; [done|done|by intros ->|by intros msg ->].
  - by apply client_write_sys.
  - by apply client_read_sys.
  - apply client_step_sys; [done|done|done|by intros ? [=]].
  - destruct (server_network l) eqn:Hg; [done|]. intros Hs. pose proof Hs as Hs'. unfold server_step in Hs.
    apply comp_bind_Ret in Hs as (x & Hx & _).
    destruct (session_step_fed kind feed HandleClose l (server_side s) x) as (Hfed & Hr & Hw);
      [by destruct l|done|by apply so_session|done|]. by eapply server_step_sys.
  - by apply server_write_sys.
  - by apply server_read_sys.
  - rewrite <- (set_up_same s) at 1. pose proof Hok as [H1 H2 H3 H4 H5 H6 H7 H8 H9 H10 H11].
    apply server_read_step; [done|done|done|]. cbn. by rewrite app_nil_r.
  - intros [= <-]. by apply set_world_ok.
Qed.

(** *** A step of the system is a step of one side *)

Definition same_client (s s' : system) : Prop :=
  client_side s' = client_side s ∧ issued s' = issued s ∧ reads s' = reads s.

Definition client_steps (s s' : system) : Prop :=
  ∃ l, label_sendable l ∧ StreamingClient.step l (client_side s) = Some (Ret (client_side s')) ∧
    issued s' = issue l (client_side s') (issued s) ∧ reads s' = read_by l (reads s).

Lemma client_step_steps l s s' :
  label_sendable l → client_step l s = Some (Ret s') → client_steps s s'.
Proof using Type. intros Hl (c & Hc & [[_ ->]|(_ & _ & ->)])%client_step_cases; by exists l. Qed.

Lemma server_step_steps l s s' : server_step l s = Some (Ret s') → same_client s s'.
Proof using Type. unfold server_step. intros (x & _ & H)%comp_bind_Ret. by injection H as <-. Qed.

Lemma sys_step_client l s s' :
  label_ok l → sys_step l s = Some (Ret s') → same_client s s' ∨ client_steps s s'.
Proof using Type.
  intros Hl. destruct l as [l|wrote| |err|l|werr| |err|w]; cbn [sys_step].
  - destruct (client_network l) eqn:Hg; [done|]. right. by eapply client_step_steps.
  - unfold client_write. destruct (StreamingClient.sendChannel _) as [[|msg q]|]; try done.
    destruct (link_WriteMessage L wrote msg); intros H; right;
      by apply (client_step_steps (StreamingClient.LWrite _)) in H.
  - unfold client_read. destruct (client_reads _ _ _ _) as [r|].
    2: { case_bool_decide; [|done]. intros Hs. right. by apply (client_step_steps (LReadError _)) in Hs. }
    destruct r as [[err|[msg|]]|]; [..|done]; cbn [mbind comp_mbind]; intros H.
    + right. by apply (client_step_steps (LReadError _)) in H.
    + right. by apply (client_step_steps (StreamingClient.LRead _)) in H.
    + left. by injection H as <-.
  - intros H. right. by apply (client_step_steps (LReadError _)) in H.
  - case_match; [done|]. left. by eapply server_step_steps.
  - unfold server_write. destruct (Session.sendChannel _) as [|o q]; [done|].
    destruct (MessageBytes _), werr; intros H; left; by apply server_step_steps in H.
  - unfold server_read. destruct (session_reads _ _ _); [|destruct (connected _); [done|]];
      intros H; left; by apply server_step_steps in H.
  - intros H. left. by apply server_step_steps in H.
  - intros [= <-]. by left.
Qed.

Lemma sys_reachable_client s :
  sys_reachable s → client_ok (issued s) (reads s) (client_side s) ∧ StreamingClient.reachable (client_side s).
Proof using Type.
  induction 1 as [w|l s s' _ [Hok Hr] Hl Hs].
  - split; [by apply client_ok_init|]. cbn. unfold connected_client.
    apply (StreamingClient.reach_step (LConnect None) InitStreaming); [apply reach_init|done].
  - destruct (sys_step_client _ _ _ Hl Hs) as [(-> & -> & ->)|(l' & Hl' & Hs' & -> & ->)]; [done|].
    split; [by eapply client_step_ok|by eapply StreamingClient.reach_step].
Qed.

(** On the other side the sessions of the system, the present one and those of
    earlier connections, are sessions of Session.v, so that its theorems hold
    here too. *)
Definition sessions_of (s : system) : list (session W) := server_side s :: past s.

Definition real_sessions (s : system) : Prop := Forall (Session.reachable kind feed HandleClose) (sessions_of s).

Lemma server_step_session l s s' : server_step l s = Some (Ret s') → real_sessions s → real_sessions s'.
Proof using Type.
  unfold server_step, real_sessions, sessions_of. intros (x & Hx & H)%comp_bind_Ret [Hr Hp]%Forall_cons.
  injection H as <-. constructor; [by eapply Session.reach_step|done].
Qed.

Lemma client_step_session l s s' : client_step l s = Some (Ret s') → real_sessions s → real_sessions s'.
Proof using Type.
  intros (c & _ & [[_ ->]|(_ & _ & ->)])%client_step_cases Hr; [done|].
  constructor; [by apply Session.reach_new|done].
Qed.

Lemma sys_reachable_sessions s : sys_reachable s → real_sessions s.
Proof using Type.
  induction 1 as [w|l s s' _ IH _ Hs]; [constructor; [by apply Session.reach_new|constructor]|].
  destruct l as [l|wrote| |err|l|werr| |err|w]; cbn [sys_step] in Hs.
  - case_match; [done|]. by eapply client_step_session.
  - unfold client_write in Hs. destruct (StreamingClient.sendChannel _) as [[|msg q]|]; try done.
    destruct (link_WriteMessage L wrote msg); by eapply client_step_session.
  - unfold client_read in Hs. destruct (client_reads _ _ _ _) as [r|].
    2: { case_bool_decide; [|done]. by eapply client_step_session. }
    destruct r as [[err|[msg|]]|]; [..|done]; cbn [mbind comp_mbind] in Hs;
      [by eapply client_step_session..|by injection Hs as <-].
  - by eapply client_step_session.
  - case_match; [done|]. by eapply server_step_session.
  - unfold server_write in Hs. destruct (Session.sendChannel _) as [|o q]; [done|].
    destruct (MessageBytes _), werr; by eapply server_step_session.
  - unfold server_read in Hs. destruct (session_reads _ _ _); [|destruct (connected _); [done|]];
      by eapply server_step_session.
  - by eapply server_step_session.
  - injection Hs as <-. apply Forall_cons in IH as [Hr Hp]. constructor; [by apply Session.reach_world|done].
Qed.

Lemma sys_reachable_session s :
  sys_reachable s → Session.reachable kind feed HandleClose (server_side s).
Proof using Type. by intros [Hr _]%sys_reachable_sessions%Forall_cons. Qed.

(** Requests that were issued stay so. *)
Lemma sys_step_issued l s s' :
  sys_reachable s → label_ok l → sys_step l s = Some (Ret s') → issued s ⊆ issued s'.
Proof using Type.
  intros [Hok _]%sys_reachable_client Hl Hs.
  destruct (sys_step_client _ _ _ Hl Hs) as [(_ & -> & _)|(l' & _ & Hs' & -> & _)]; [done|].
  by eapply issue_sub.
Qed.

Lemma sys_reachable_ok s : sys_reachable s → good_requests (issued s) → sys_ok s.
Proof using Hlink Hshallow.
  induction 1 as [w|l s s' Hr IH Hl Hs]; [intros; apply new_system_ok|]. intros Hgood.
  assert (good_requests (issued s)) as Hgood'.
  { intros c sent Hc. apply (Hgood c). eapply lookup_weaken; [done|]. by eapply sys_step_issued. }
  eapply sys_step_ok; [by apply IH|done|done|done].
Qed.

(** A message read by the client answers a request it has issued. *)
Lemma read_answers s ans id :
  sys_reachable s → good_requests (issued s) → responder feed → ans ∈ reads s →
  IsResultOrError ans = true → MustId ans = Ret id →
  ∃ c sent w w' resmsg, issued s !! c = Some sent ∧ req_Id sent = id ∧
    MRequest sent ∈ StreamingClient.written (client_side s) ∧
    feed (message_norm (MRequest sent)) w = Some (Ret (Some resmsg, None), w') ∧ crosses resmsg ans.
Proof using Hlink Hshallow.
  intros Hr Hgood Hresp Hans Hkd Hid. pose proof (sys_reachable_ok s Hr Hgood) as Hok.
  destruct (so_reads s Hok ans Hans) as (x & o & Hx & Ho & Hc).
  assert (past_ok s x) as [[_ H2] Harr]
    by (apply elem_of_cons in Hx as [->|Hx]; [by apply server_past|by apply (so_past s Hok)]).
  pose proof (so_client s Hok) as H1. rewrite Forall_app, Forall_forall in H2.
  apply (proj1 H2) in Ho. destruct o as [req resmsg|msg].
  2: { destruct Ho as [(mt & Hmt & Hne) _]. by rewrite (crosses_call _ _ _ Hmt Hne Hc) in Hkd. }
  destruct Ho as (Hreq & w & w' & Hf). cbn [out_message] in Hc.
  assert (req ∈ message_norm <$> StreamingClient.written (client_side s)) as Hw
    by (apply Harr, elem_of_app; by left).
  apply list_elem_of_fmap in Hw as (msg & -> & Hmsg).
  assert (msg ∈ outbox (client_side s)) as Hout by (apply elem_of_app; by left).
  destruct (out_json _ _ _ msg H1 Hgood Hout) as [Hwire _].
  pose proof (Hresp _ _ _ _ (crosses_ok _ _ (crosses_wire _ Hwire)) Hf) as Hanswered.
  destruct (co_out _ _ _ H1 msg Hout) as [(c & sent & Hs & ->)|(Hnot & _)].
  2: { destruct msg; try done. by destruct (Hnot m). }
  apply answered_request in Hanswered as [(resp & [= <-] & [Hrid _])|(err & ?)]; [|done].
  exists c, sent, w, w', resmsg. split_and!; [done| |done|done|done].
  pose proof (crosses_id _ _ _ Hrid (proj1 (proj2 (proj2 Hwire))) Hc (response_not_notify _ Hkd)) as Hid'.
  rewrite Hid in Hid'. by injection Hid' as ->.
Qed.
End system.

(** Different calls sent different ids. *)
Definition distinct_ids (issued : gmap nat RequestMessage) : Prop := ∀ c c' sent sent',
  issued !! c = Some sent → issued !! c' = Some sent' → req_Id sent = req_Id sent' → c = c'.

Lemma key_wire_inj v w k : wire_id v → wire_id w → key_of v = Some k → key_of w = Some k → v = w.
Proof. destruct v, w; simpl; try done; naive_solver. Qed.

(** What the actor answered to the request of a call, as it was read. *)
Definition answer_of {W : Type} (feed : Message → act W panic feed_result)
    (issued : gmap nat RequestMessage) (c : nat) (x : call) (msg : Message) : Prop :=
  ∃ sent w w' resmsg ans, issued !! c = Some sent ∧ issued_as x sent ∧
    feed (message_norm (MRequest sent)) w = Some (Ret (Some resmsg, None), w') ∧
    crosses resmsg ans ∧ (msg = ans ∨ ReplaceId ans (req_Id (call_req x)) = Ret msg).

(** What a call has returned. *)
Lemma returned_message {W : Type} L Error kind (feed : Message → act W panic feed_result)
    HandleClose s c x msg :
  L ∈ links → responder feed → shallow_answers feed →
  sys_reachable L Error kind feed HandleClose s →
  good_requests (issued s) → distinct_ids (issued s) →
  calls (client_side s) !! c = Some x → call_phase x = StreamingClient.Returned (inr msg) →
  own_id x msg ∧ (timeout_of x msg ∨ answer_of feed (issued s) c x msg).
Proof.
  intros HL Hresp Hshallow Hr Hgood Hdist Hx Hret. destruct (links_ok _ HL) as (line_end & Hlink).
  destruct (sys_reachable_client _ _ _ _ _ s Hr) as [Hok Hreach].
  split; [by apply (proj1 (reachable_Inv _ Hreach) c x Hx)|].
  destruct (co_got _ _ _ Hok c x msg Hx) as [?|(sent & Hs & ans & id & k & Hans & Hkd & Hid & Hk & Hks & Hm)].
  { unfold messages_of. rewrite Hret. apply elem_of_app. right. by left. }
  { by left. }
  right.
  destruct (read_answers L Error kind feed HandleClose line_end Hlink Hshallow s ans id Hr Hgood Hresp
    Hans Hkd Hid) as (c' & sent' & w & w' & resmsg & Hs' & Hsid & _ & Hf & Hc).
  destruct (Hgood _ _ Hs) as [(_ & _ & Hwid & _) _], (Hgood _ _ Hs') as [(_ & _ & Hwid' & _) _].
  rewrite Hsid in Hwid'. pose proof (key_wire_inj _ _ _ Hwid' Hwid Hk Hks) as ->.
  pose proof (Hdist _ _ _ _ Hs' Hs Hsid) as ->. rewrite Hs in Hs'. injection Hs' as <-.
  destruct (co_issued _ _ _ Hok c sent Hs) as (x' & Hx' & Hi). rewrite Hx in Hx'. injection Hx' as <-.
  by exists sent, w, w', resmsg, ans.
Qed.

(** C4. From the caller to the handler and back.  A streaming client and its
    server over WebSocket, TCP, vsock or HTTP/2, in every interleaving of their
    goroutines, of writes and reads of the bytes between them, of failures,
    after which the client may connect again to a new session, and of other
    users of the actor: when a call returns a message, the message has the id of the caller's request, and it
    is a time-out or what the actor answered to this very request, as it was
    sent (with a fresh id if its own was pending), marshalled, parsed, handled,
    marshalled and parsed again.
    The calls must send different ids and requests that JSON carries. *)
Theorem call_gets_answer {W : Type} L Error kind (feed : Message → act W panic feed_result)
    HandleClose s c x msg :
  L ∈ links → responder feed → shallow_answers feed →
  sys_reachable L Error kind feed HandleClose s →
  good_requests (issued s) → distinct_ids (issued s) →
  calls (client_side s) !! c = Some x → call_phase x = StreamingClient.Returned (inr msg) →
  own_id x msg ∧ (timeout_of x msg ∨ answer_of feed (issued s) c x msg).
Proof. apply returned_message. Qed.

(** *** Two calls at once, answered in the other order *)

(** An actor that answers every request with its method. *)
Definition method_feed (msg : Message) : act nat panic feed_result := λ w,
  match msg with
  | MRequest m =>
      Some (Ret (Some (MResult (mkResult (mkBase MKResult (traceId (req_base m))) (req_Id m)
        (AString (req_Method m)) None)), None), S w)
  | _ => Some (Ret (None, None), w)
  end.

Lemma method_feed_responder : responder method_feed.
Proof. intros msg w r w' _. destruct msg; intros [= <- <-]; [|done..]. left. eexists. by split. Qed.

Lemma method_feed_shallow : shallow_answers method_feed.
Proof.
  intros msg w resmsg err w' Hw _ Hf. destruct msg as [m|m|m|m]; try done. injection Hf as <- <- _.
  destruct Hw as (_ & _ & Hid & _). intros j Hj. unfold MessageBytes in Hj.
  destruct m as [[k t] id mt ps il], id; try done; cbn in Hj; injection Hj as <-;
    cbn -[maxNestingDepth]; unfold field_omitempty; case_bool_decide; cbn -[maxNestingDepth];
    apply Nat.leb_le; by vm_compute.
Qed.

Definition no_dial : option error := Some TransportConnectFailed.

Definition starts_call (c : nat) (id : Z) : list (@sys_label nat) :=
  Client <$> [LRequest c (ask id) no_dial "u"; LStore c; StreamingClient.LSend c no_dial; LArm c].

Definition two_calls_crossing : list (@sys_label nat) :=
  starts_call 0 1 ++ starts_call 1 2 ++
  [ClientWrite None; ClientWrite None; ServerRead; ServerRead;
   Server (Session.LTask 1); Server (Session.LTask 1); Server (Session.LTask 0); Server (Session.LTask 0);
   ServerWrite None; ServerWrite None; ClientRead; ClientRead; Client (LResult 0); Client (LResult 1)].

Definition demo_run (ls : list (@sys_label nat)) : @system nat :=
  match sys_run tcp_link (λ _, "") TCPSession method_feed no_close ls (new_system 0%nat) with
  | Some (Ret s) => s
  | _ => new_system 0%nat
  end.

Lemma sys_run_reachable {W : Type} L Error kind (feed : Message → act W panic feed_result)
    HandleClose ls s s' :
  sys_reachable L Error kind feed HandleClose s → Forall label_ok ls →
  sys_run L Error kind feed HandleClose ls s = Some (Ret s') →
  sys_reachable L Error kind feed HandleClose s'.
Proof.
  intros Hs Hls. revert s Hs. induction Hls as [|l ls Hl _ IH]; intros s Hs; cbn [sys_run]; [by intros [= <-]|].
  intros (s1 & H1 & H)%comp_bind_Ret. eapply IH; [|exact H]. by eapply sys_next.
Qed.

Lemma demo_run_reachable ls :
  Forall label_ok ls →
  sys_reachable tcp_link (λ _, "") TCPSession method_feed no_close (demo_run ls).
Proof.
  intros Hls. unfold demo_run. destruct (sys_run _ _ _ _ _ _ _) as [[s|p]|] eqn:Hr; [|apply sys_new..].
  eapply sys_run_reachable; [apply sys_new|done|exact Hr].
Qed.

Definition crossed : @system nat := demo_run two_calls_crossing.

Lemma crossed_issued : issued crossed = <[1%nat := ask 2]> {[0%nat := ask 1]}.
Proof. by vm_compute. Qed.

Lemma ask_wire id : is_int64 id = true → message_wire (MRequest (ask id)).
Proof.
  intros Hid. split; [split; [done|split; [done|by left]]|]. by repeat split.
Qed.

Lemma crossed_good : good_requests (issued crossed) ∧ distinct_ids (issued crossed).
Proof.
  rewrite crossed_issued. split.
  - intros c sent [[_ <-]|[_ [_ <-]%lookup_singleton_Some]]%lookup_insert_Some;
      (split; [by apply ask_wire|by apply is_shallow_spec]).
  - intros c c' sent sent'.
    intros [[<- <-]|[_ [<- <-]%lookup_singleton_Some]]%lookup_insert_Some
      [[<- <-]|[_ [<- <-]%lookup_singleton_Some]]%lookup_insert_Some; by intros [=].
Qed.

(** *** A call on a second connection *)

(** The first request is written and handled, but the connection fails before
    the answer is read; the second call dials again. *)
Definition lost_then_answered : list (@sys_label nat) :=
  starts_call 0 1 ++
  [ClientWrite None; ServerRead; Server (Session.LTask 0); Server (Session.LTask 0); ServerWrite None;
   ClientFail ErrorEOF; Client (LRequest 1 (ask 2) None "u"); Client (LStore 1);
   Client (StreamingClient.LSend 1 no_dial); Client (LArm 1);
   ClientWrite None; ServerRead; Server (Session.LTask 0); Server (Session.LTask 0); ServerWrite None;
   ClientRead; Client (LResult 1)].

Definition reconnected : @system nat := demo_run lost_then_answered.

Example reconnected_sessions :
  before reconnected = 1%nat ∧ (length ∘ Session.written <$> past reconnected) = [1%nat] ∧
  world (server_side reconnected) = 2%nat ∧ length (reads reconnected) = 1%nat.
Proof. by vm_compute. Qed.

Lemma reconnected_issued : issued reconnected = issued crossed.
Proof. by vm_compute. Qed.

Lemma call_gets_answer_witness :
  ∃ x msg, calls (client_side reconnected) !! 1%nat = Some x ∧
    call_phase x = StreamingClient.Returned (inr msg) ∧ own_id x msg ∧
    (timeout_of x msg ∨ answer_of method_feed (issued reconnected) 1%nat x msg).
Proof.
  eexists _, _. split; [by vm_compute|]. split; [done|].
  eapply (call_gets_answer tcp_link (λ _, "") TCPSession method_feed no_close reconnected 1%nat).
  - unfold links. set_solver.
  - apply method_feed_responder.
  - apply method_feed_shallow.
  - apply demo_run_reachable. by repeat constructor.
  - rewrite reconnected_issued. apply crossed_good.
  - rewrite reconnected_issued. apply crossed_good.
  - by vm_compute.
  - done.
Defined.
