(* ===== verification/Progress.v ===== *)
(** * Calls return

    Network.v shows that what a call returns is right; this file that it
    returns.  While the connection is up and no handler has failed, every
    action of the loops and handlers ([progress]) brings the system closer to a
    state where nothing is under way ([work]), and in such a state every call
    that waits has its answer.  So whatever order the scheduler runs them in,
    after at most [work] actions the answer is there. *)

From S2P Require Import Prelude GoMap Strconv Values Messages Parse JsonText WireText.
From S2P Require Import Methods Schema Validator Actor Http StreamingClient Session Clients Links.
From S2P Require Import Provenance Network Delivery.
From stdpp Require Import gmap.
From stdpp Require Import options.
#[local] Open Scope Z_scope.

(** ** The client takes what it reads *)

(** The calls are in the same phases. *)
Definition same_phases (s s' : client) : Prop := ∀ c,
  (λ x, (call_phase x, call_req x)) <$> calls s' !! c = (λ x, (call_phase x, call_req x)) <$> calls s !! c.

Lemma same_phases_lookup s s' c x :
  same_phases s s' → calls s !! c = Some x →
  ∃ x', calls s' !! c = Some x' ∧ call_phase x' = call_phase x ∧ call_req x' = call_req x.
Proof.
  intros H Hx. specialize (H c). rewrite Hx in H. apply fmap_Some in H as (x' & Hx' & H).
  exists x'. by injection H as <- <-.
Qed.

(** The same calls, with the same messages to send or sent. *)
Definition same_business (s s' : client) : Prop := same_phases s s' ∧ outbox s' = outbox s.

Lemma same_business_refl s s' : calls s' = calls s → outbox s' = outbox s → same_business s s'.
Proof. intros Hc Ho. split; [|done]. intros c. by rewrite Hc. Qed.

Lemma same_business_trans s1 s2 s3 : same_business s1 s2 → same_business s2 s3 → same_business s1 s3.
Proof. intros [H12 O12] [H23 O23]. split; [|congruence]. intros c. by rewrite (H23 c). Qed.

(** A message can be taken: an answer has an id that a map can hold. *)
Definition takeable (msg : Message) : Prop :=
  message_ok msg ∧ (IsResultOrError msg = true → ∃ id k, MustId msg = Ret id ∧ key_of id = Some k).

Lemma receive_returns s msg :
  StreamingClient.reachable s → takeable msg →
  ∃ s', receive msg s = Some (Ret s') ∧ connected s' = connected s ∧
    StreamingClient.sendChannel s' = StreamingClient.sendChannel s ∧
    StreamingClient.written s' = StreamingClient.written s ∧ same_phases s s'.
Proof.
  intros HI%reachable_Inv [Hok Hid]. unfold receive. destruct (IsResultOrError msg) eqn:Hkind; cbn [negb].
  2: { eexists. split_and!; [done..]. }
  destruct (Hid eq_refl) as (id & k & Hm & Hk).
  destruct (pending_get k (pendingRequests s)) as [c|] eqn:Hg.
  2: { unfold handleResult, key_res. rewrite Hm. cbn. rewrite Hk. cbn. rewrite Hg.
    eexists. by split_and!. }
  destruct (proj2 HI k c) as [x Hx]; [by apply pending_get_elem|].
  destruct (proj1 HI c x Hx) as (_ & _ & Hcount & _).
  pose proof (entries_of_taken c k _ Hg) as Htaken.
  assert (resultChannel x = []) as Hch
    by (apply length_zero_iff_nil; unfold StreamingClient.received in Hcount; lia).
  destruct (handleResult_delivers s msg id k c x) as (m & _ & _ & ->); [done..|].
  unfold deliver_comp, maybe, deliver. cbn [calls set_pending]. rewrite Hx. cbn [mbind option_bind].
  rewrite Hch. eexists. split_and!; [done..|]. intros d. cbn [calls set_call set_pending].
  destruct (decide (d = c)) as [->|Hne].
  - by rewrite (lookup_insert_eq (M:=gmap nat)), Hx.
  - by rewrite (lookup_insert_ne (M:=gmap nat)).
Qed.

(** A message that can be written, and that the client can take as it reads it. *)
Definition carried (msg : Message) : Prop :=
  ∃ j msg', MessageBytes msg = Some j ∧ decode_value j (mkMessageOptions false) = Ret (inr msg') ∧ takeable msg'.

Lemma wire_key id : wire_id id → ∃ k, key_of id = Some k.
Proof. destruct id; simpl; try done; eauto. Qed.

Lemma carried_wire msg : message_wire msg → carried msg.
Proof.
  intros Hw. pose proof (crosses_wire _ Hw) as Hc. pose proof (crosses_ok _ _ Hc) as Hok.
  destruct Hc as (j & Hj & Hd). exists j, (message_norm msg). split_and!; [done..|]. split; [done|].
  destruct Hw as (Hmsg & _ & Hw). destruct msg as [m|m|m|m]; cbn in *.
  - unfold IsResultOrError, IsResult, IsError. cbn. by rewrite (proj1 Hmsg).
  - unfold IsResultOrError, IsResult, IsError. cbn. by rewrite (proj1 Hmsg).
  - intros _. destruct (wire_key _ (proj1 Hw)) as [k Hk]. eauto.
  - intros _. destruct (wire_key _ (proj1 Hw)) as [k Hk]. eauto.
Qed.

(** ** The system *)

Section progress.
Context {W : Type}.
Context (L : link) (Error : error → string).
Context (kind : session_kind) (feed : Message → act W panic feed_result) (HandleClose : act W panic unit).
Context (line_end : string) (Hlink : link_ok L line_end) (Hshallow : shallow_answers feed).
Context (Hresp : responder feed).

Abbreviation system := (@system W).
Abbreviation sys_step := (sys_step L Error kind feed HandleClose).
Abbreviation sys_reachable := (sys_reachable L Error kind feed HandleClose).

(** On these messages the actor returns, without an error; what it answers is a
    result or an error message that JSON carries. *)
Definition prompt (msgs : list Message) : Prop := ∀ msg w, msg ∈ msgs → message_wire msg → shallow msg →
  ∃ r w', feed (message_norm msg) w = Some (Ret (r, None), w') ∧
    ∀ resmsg, r = Some resmsg → message_wire resmsg ∧ IsResultOrError resmsg = true.

Lemma good_keys issued : good_requests issued → distinct_ids issued → keys_distinct issued.
Proof using Type.
  intros Hgood Hdist c c' sent sent' k Hs Hs' Hk Hk'.
  destruct (Hgood _ _ Hs) as [(_ & _ & Hw & _) _], (Hgood _ _ Hs') as [(_ & _ & Hw' & _) _].
  eapply Hdist; [done|done|]. by eapply key_wire_inj.
Qed.

Lemma good_sub issued issued' : issued ⊆ issued' → good_requests issued' → good_requests issued.
Proof using Type. intros Hsub Hgood c sent Hs. eapply Hgood, lookup_weaken; done. Qed.

Lemma distinct_sub issued issued' : issued ⊆ issued' → distinct_ids issued' → distinct_ids issued.
Proof using Type. intros Hsub Hdist c c' sent sent' Hs Hs'. eapply Hdist; by eapply lookup_weaken. Qed.

(** In every execution the calls are alive in the sense of Delivery.v. *)
Lemma sys_reachable_live (s : system) :
  sys_reachable s → good_requests (issued s) → distinct_ids (issued s) →
  live (issued s) (reads s) (client_side s).
Proof using Hlink Hshallow Hresp.
  induction 1 as [w|l s s' Hr IH Hl Hs]; intros Hgood Hdist;
    [by intros c x sent k _; cbn; rewrite (lookup_empty (M:=gmap nat))|].
  pose proof (sys_step_issued _ _ _ _ _ _ _ _ Hr Hl Hs) as Hsub.
  pose proof (good_sub _ _ Hsub Hgood) as Hgood'. pose proof (distinct_sub _ _ Hsub Hdist) as Hdist'.
  specialize (IH Hgood' Hdist'). destruct (sys_reachable_client _ _ _ _ _ _ Hr) as [Hok _].
  destruct (sys_step_client _ _ _ _ _ _ _ _ Hl Hs) as [(-> & -> & ->)|(l' & Hl' & Hs' & Hi & ->)]; [done|].
  rewrite Hi in *. apply (client_step_live _ _ _ (client_side s)); try done; [by apply good_keys|].
  intros k (m & id & Hm & Hkd & Hid & Hk).
  destruct (read_answers L Error kind feed HandleClose line_end Hlink Hshallow s m id Hr Hgood' Hresp Hm Hkd Hid)
    as (d & sent & w & w' & resmsg & Hsd & Hsid & Hin & _).
  exists d, sent. split_and!; [done|by rewrite Hsid|]. apply elem_of_app. by left.
Qed.

(** *** A healthy system, and the work that is left in it *)

Definition task_healthy (t : task) : Prop :=
  match t with
  | TSend o => carried (out_message o)
  | TBytes _ | TFeed _ => True
  | TDone _ => False
  end.

(** The connection is up, the loops run, no handler has failed, and what is on
    its way to the client can be read by it. *)
Record healthy (s : system) : Prop := {
  hy_connected : connected (client_side s) = true;
  hy_reading : reading (server_side s) = true;
  hy_sending : sending (server_side s) = true;
  hy_waiting : conn (server_side s) = Waiting;
  hy_tasks : Forall task_healthy (tasks (server_side s));
  hy_queue : Forall (λ o, carried (out_message o)) (Session.sendChannel (server_side s));
  hy_unread : Forall (λ o, carried (out_message o)) (drop (down_read s) (Session.written (server_side s)));
  hy_failed : failed (server_side s) = [] }.

Definition task_work (t : task) : nat :=
  match t with TBytes _ => 6 | TFeed _ => 5 | TSend _ => 4 | TDone _ => 0 end.

Definition tasks_work (ts : list task) : nat := foldr (λ t n, task_work t + n)%nat 0%nat ts.

Definition client_queue (s : system) : list Message := default [] (StreamingClient.sendChannel (client_side s)).

(** Each message on its way counts for the actions it still needs. *)
Definition work (s : system) : nat :=
  8 * length (client_queue s) + 7 * (length (up s) - up_read s) + tasks_work (tasks (server_side s))
  + 3 * length (Session.sendChannel (server_side s)) + 2 * (length (down s) - down_read s).

(** The actions of the loops and of the handlers, when nothing fails. *)
Definition progress (l : @sys_label W) : bool :=
  match l with
  | ClientWrite None | ClientRead | ServerWrite None | ServerRead | Server (Session.LTask _) => true
  | _ => false
  end.

(** The action is possible, and brings the system closer to being idle. *)
Definition advances (l : sys_label) (s : system) : Prop := ∃ s',
  sys_step l s = Some (Ret s') ∧ healthy s' ∧ (work s' < work s)%nat ∧
  same_business (client_side s) (client_side s').

Lemma tasks_work_app ts ts' : tasks_work (ts ++ ts') = (tasks_work ts + tasks_work ts')%nat.
Proof using Type. induction ts; simpl; lia. Qed.

(** The numbers that make up the work. *)
Ltac work_fields := unfold work, client_queue; cbn -[Nat.mul Nat.sub tasks_work].

Section one_action.
Context (s : system) (Hprompt : prompt (outbox (client_side s))).
Context (Hok : sys_ok L feed line_end s) (Hgood : good_requests (issued s)) (Hy : healthy s).

Lemma up_length : length (up s) = length (here s).
Proof using Hok.
  destruct (so_up _ _ _ _ Hok) as (js & -> & Hjs). by rewrite length_fmap, (Forall2_length _ _ _ Hjs).
Qed.

Lemma down_length : length (down s) = length (Session.written (server_side s)).
Proof using Hok.
  destruct (so_down _ _ _ _ Hok) as (js & -> & Hjs). unfold written_jsons in Hjs.
  apply Forall2_length in Hjs. rewrite length_fmap in Hjs. by rewrite length_fmap.
Qed.

Lemma client_write_advances msg q :
  StreamingClient.sendChannel (client_side s) = Some (msg :: q) → advances (ClientWrite None) s.
Proof using Hok Hgood Hy Hlink.
  intros Hq. destruct (out_json _ _ _ msg (so_client _ _ _ _ Hok) Hgood) as [Hwire _].
  { unfold outbox. rewrite Hq. apply elem_of_app. right. by left. }
  destruct (crosses_wire _ Hwire) as (j & Hj & _).
  unfold advances. cbn [Network.sys_step]. unfold client_write.
  rewrite Hq, (link_can_write _ _ Hlink _ _ Hj). unfold client_step. cbn [StreamingClient.step client_side set_up].
  unfold sendLoop_write. rewrite (hy_connected _ Hy), Hq. cbn. eexists. split; [done|]. split_and!.
  - destruct Hy. by split.
  - work_fields. rewrite Hq, length_app. cbn.
    pose proof (so_up_read _ _ _ _ Hok). pose proof up_length. lia.
  - apply same_business_refl; [done|]. unfold outbox. cbn. by rewrite Hq, <- app_assoc.
Qed.

Lemma client_read_advances r :
  StreamingClient.reachable (client_side s) →
  client_reads L Error (down s) (down_read s) = Some r → advances ClientRead s.
Proof using Hok Hy.
  intros Hreach Hr. destruct (so_down _ _ _ _ Hok) as (js & Hdown & Hjs). pose proof Hr as Hr'.
  rewrite Hdown in Hr.
  destruct (client_reads_message L Error _ _ _ _ _ (session_line_end_ok L) (session_frame_end L) Hjs Hr)
    as (msg & j & m & Hmsg & [Hj _] & Hdec & Hm).
  apply list_lookup_fmap_Some in Hmsg as (o & -> & Ho).
  pose proof (hy_unread _ Hy) as Hun. rewrite (drop_S _ o) in Hun by done.
  apply Forall_cons in Hun as [(j' & msg' & Hj' & Hdec' & Htake) Hun].
  rewrite Hj in Hj'. injection Hj' as <-. rewrite Hdec in Hdec'. injection Hdec' as ->.
  destruct Hm as [(msg2 & [= <-] & ->)|(e & err & ? & _)]; [|done].
  destruct (receive_returns _ _ Hreach Htake) as (c & Hc & Hcon & Hsend & Hwr & Hph).
  unfold advances. cbn [Network.sys_step]. unfold client_read. rewrite Hr'. cbn [mbind comp_mbind].
  unfold client_step. cbn [StreamingClient.step client_side set_down]. rewrite (hy_connected _ Hy), Hc. cbn.
  eexists. split; [done|]. split_and!.
  - destruct Hy. split; try done. cbn. congruence.
  - work_fields. rewrite Hsend. apply lookup_lt_Some in Ho. pose proof down_length. lia.
  - split; [done|]. unfold outbox. cbn. by rewrite Hsend, Hwr.
Qed.

Lemma server_write_advances o q :
  Session.sendChannel (server_side s) = o :: q → advances (ServerWrite None) s.
Proof using Hok Hy.
  intros Hq. pose proof (hy_queue _ Hy) as Hqueue. rewrite Hq in Hqueue.
  apply Forall_cons in Hqueue as [Hcar Hqueue]. pose proof Hcar as (j & msg & Hj & _).
  unfold advances. cbn [Network.sys_step]. unfold server_write. rewrite Hq, Hj.
  unfold server_step. cbn [Session.step server_side set_down]. unfold Session.sendLoop.
  rewrite (hy_sending _ Hy), Hq, Hj. cbn. eexists. split; [done|].
  pose proof (so_down_read _ _ _ _ Hok) as Hle. split_and!.
  - destruct Hy. split; try done. cbn. rewrite drop_app_le by done. apply Forall_app. by split; [|constructor].
  - work_fields. rewrite Hq, length_app. cbn [length]. pose proof down_length. lia.
  - by apply same_business_refl.
Qed.

Lemma server_nil_waiting : server_nil kind (server_side s) = false.
Proof using Hy. unfold server_nil. by rewrite (hy_waiting _ Hy). Qed.

Lemma server_read_advances ev :
  reads_frames kind = link_frames L → spawns kind = true ∨ tasks (server_side s) = [] →
  session_reads L (up s) (up_read s) = Some ev → advances ServerRead s.
Proof using Hok Hgood Hy Hlink.
  intros Hkind Hspawn Hev. pose proof Hev as Hev'. destruct (so_up _ _ _ _ Hok) as (js & Hup & Hjs).
  rewrite Hup in Hev.
  destruct (session_reads_message L line_end _ _ _ _ (link_line_end _ _ Hlink) (link_frame_end _ _ Hlink) Hjs Hev)
    as (msg & j & Hmsg & Hmj & Hcase).
  destruct (out_json _ _ _ msg (so_client _ _ _ _ Hok) Hgood) as [Hwire _].
  { apply elem_of_app. left. eapply subseteq_drop. by eapply list_elem_of_lookup_2. }
  destruct (crosses_wire msg Hwire) as (j' & Hj' & Hdec). rewrite (proj1 Hmj) in Hj'. injection Hj' as <-.
  apply lookup_lt_Some in Hmsg. pose proof up_length as Hlen.
  assert (∀ t x, task_healthy t → (task_work t < 7)%nat → sendChannel x = sendChannel (server_side s) →
    tasks x = tasks (server_side s) ++ [t] →
    recvLoop kind ev (server_side s) = Some (Ret x) → conn x = conn (server_side s) →
    reading x = reading (server_side s) → sending x = sending (server_side s) →
    Session.written x = Session.written (server_side s) → failed x = failed (server_side s) →
    advances ServerRead s) as Hstep.
  { intros t x Ht Htw Hq Hts Hx Hc Hrd Hsn Hwr Hf. unfold advances. cbn [Network.sys_step].
    unfold server_read. rewrite Hev'. unfold server_step. cbn [Session.step server_side set_up]. rewrite Hx.
    eexists. split; [done|]. split_and!; [|..|by apply same_business_refl].
    - destruct Hy. split; cbn; rewrite ?Hc, ?Hrd, ?Hsn, ?Hwr, ?Hf, ?Hq, ?Hts; try done.
      apply Forall_app. by split; [|constructor].
    - work_fields. rewrite Hts, Hq, tasks_work_app. cbn [tasks_work foldr]. lia. }
  assert (reading (server_side s) && (spawns kind || match tasks (server_side s) with [] => true | _ => false end)
    = true) as Hgo.
  { rewrite (hy_reading _ Hy). destruct Hspawn as [->| ->]; [done|]. by destruct (spawns kind). }
  destruct Hcase as [[Hl ->]|(Hl & rest & ->)].
  - apply (Hstep (TBytes (text_of "" j)) (add_task (TBytes (text_of "" j)) (server_side s))); try done; [simpl; lia|].
    unfold recvLoop. by rewrite Hgo, Hkind, Hl, server_nil_waiting.
  - apply (Hstep (TFeed (message_norm msg)) (add_task (TFeed (message_norm msg))
      (set_received (Session.received (server_side s) ++ [message_norm msg]) (server_side s))));
      try done; [simpl; lia|].
    unfold recvLoop. by rewrite Hgo, Hkind, Hl, (DecodeMessage_value j rest [] _ Hdec).
Qed.

(** A goroutine that goes on with other tasks, which need fewer actions. *)
Lemma task_step_advances i x l1 t ts l2 o :
  tasks (server_side s) = l1 ++ t :: l2 → tasks x = l1 ++ ts ++ l2 →
  Forall task_healthy ts → Forall (λ o, carried (out_message o)) o →
  (tasks_work ts + 3 * length o < task_work t)%nat →
  run_task kind feed i (server_side s) = Some (Ret x) → sendChannel x = sendChannel (server_side s) ++ o →
  conn x = conn (server_side s) → reading x = reading (server_side s) → sending x = sending (server_side s) →
  Session.written x = Session.written (server_side s) → failed x = failed (server_side s) →
  advances (Server (Session.LTask i)) s.
Proof using Hy.
  intros Hts Hx Hhealthy Ho Hwork Hrun Hq Hc Hrd Hsn Hwr Hf. unfold advances. cbn [Network.sys_step server_network].
  unfold server_step. cbn [Session.step]. rewrite Hrun. eexists. split; [done|].
  split_and!; [|..|by apply same_business_refl].
  - destruct Hy as [H1 H2 H3 H4 H5 H6 H7 H8]. rewrite Hts in H5.
    apply Forall_app in H5 as [H5 [_ H5']%Forall_cons].
    split; cbn; rewrite ?Hc, ?Hrd, ?Hsn, ?Hwr, ?Hf, ?Hq, ?Hx; try done; by rewrite !Forall_app.
  - work_fields. rewrite Hx, Hts, Hq, length_app, !tasks_work_app. cbn [tasks_work foldr].
    fold (tasks_work l2). lia.
Qed.

Lemma task_advances i t :
  tasks (server_side s) !! i = Some t →
  (∀ o, t = TSend o → (length (Session.sendChannel (server_side s)) < 100)%nat) →
  advances (Server (Session.LTask i)) s.
Proof using Hok Hgood Hy Hprompt.
  intros Ht Hroom. destruct (tasks_split _ _ _ Ht) as (l1 & l2 & Hts & Hdel & Hins).
  destruct (so_session _ _ _ _ Hok) as [Hfed _]. pose proof (proj1 (Forall_lookup _ _) Hfed i t Ht) as Hft.
  pose proof (proj1 (Forall_lookup _ _) (hy_tasks _ Hy) i t Ht) as Hth.
  destruct t as [msgBytes|msg|o|err]; cbn [fed_task task_healthy] in *; [| | |done].
  - destruct Hft as [msg Hmsg]. unfold frame_message in Hmsg.
    destruct (ParseBytes (scan_text msgBytes) []) as [[err|msg']|] eqn:Hp; try done. injection Hmsg as ->.
    apply (task_step_advances i (set_tasks (l1 ++ [TFeed msg] ++ l2)
      (set_received (Session.received (server_side s) ++ [msg]) (server_side s)))
      l1 (TBytes msgBytes) [TFeed msg] l2 []);
      try done; [by repeat constructor|simpl; lia| |by rewrite app_nil_r].
    unfold run_task. rewrite Ht, Hp. cbn. by rewrite Hins.
  - assert (msg ∈ arrived (server_side s)) as Harr by (apply elem_of_app; by left).
    rewrite (so_arrived _ _ _ _ Hok) in Harr. apply list_elem_of_fmap in Harr as (sent & -> & Hsent).
    assert (sent ∈ outbox (client_side s)) as Hout
      by (apply elem_of_app; left; by eapply take_here).
    destruct (out_json _ _ _ sent (so_client _ _ _ _ Hok) Hgood) as [Hwire Hsh].
    { done. }
    destruct (Hprompt sent (world (server_side s))) as (r & w' & Hf & Hr); [done..|]. destruct r as [resmsg|].
    + pose (t' := TSend (Answer (message_norm sent) resmsg)).
      apply (task_step_advances i (set_tasks (l1 ++ [t'] ++ l2) (set_world w' (server_side s)))
        l1 (TFeed (message_norm sent)) [t'] l2 []); try done; [|simpl; lia| |by rewrite app_nil_r].
      * constructor; [|done]. by apply carried_wire, Hr.
      * unfold run_task. by rewrite Ht, server_nil_waiting, Hf, Hins.
    + apply (task_step_advances i (set_tasks (l1 ++ l2) (set_world w' (server_side s)))
        l1 (TFeed (message_norm sent)) [] l2 []); try done; [simpl; lia| |by rewrite app_nil_r].
      unfold run_task. by rewrite Ht, server_nil_waiting, Hf, Hdel.
  - specialize (Hroom o eq_refl).
    apply (task_step_advances i (set_tasks (l1 ++ l2)
      (set_queue (Session.sendChannel (server_side s) ++ [o]) (server_side s))) l1 (TSend o) [] l2 [o]);
      try done; [by constructor|simpl; lia|].
    unfold run_task. by rewrite Ht, (proj2 (Nat.ltb_lt _ _) Hroom), Hdel.
Qed.

Context (Hreach : StreamingClient.reachable (client_side s)) (Hkind : reads_frames kind = link_frames L).

(** An action is blocked or advances; it does not panic. *)
Lemma progress_advances l : progress l = true → sys_step l s = None ∨ advances l s.
Proof using Hok Hgood Hy Hprompt Hlink Hreach Hkind.
  destruct l as [l|[e|]| |err|l|[e|]| |err|w]; try done; cbn [progress Network.sys_step]; intros Hl.
  - unfold client_write. destruct (StreamingClient.sendChannel (client_side s)) as [[|msg q]|] eqn:Hq;
      [by left| |by left].
    right. by eapply client_write_advances.
  - unfold client_read. destruct (client_reads L Error (down s) (down_read s)) as [r|] eqn:Hr.
    + right. by eapply client_read_advances.
    + left. rewrite bool_decide_false; [done|]. by rewrite (hy_waiting _ Hy).
  - destruct l as [|i| | | | | | |]; try done. destruct (tasks (server_side s) !! i) as [t|] eqn:Ht.
    2: { left. unfold server_step. cbn [Session.step server_network]. unfold run_task. by rewrite Ht. }
    destruct (decide (length (Session.sendChannel (server_side s)) < 100)%nat) as [Hlt|Hge].
    { right. by eapply task_advances. }
    destruct t as [b|msg|o|e]; [right; by eapply task_advances..|left|].
    + unfold server_step. cbn [Session.step server_network]. unfold run_task.
      by rewrite Ht, (proj2 (Nat.ltb_ge _ _)) by lia.
    + by pose proof (proj1 (Forall_lookup _ _) (hy_tasks _ Hy) i _ Ht).
  - unfold server_write. destruct (Session.sendChannel (server_side s)) as [|o q] eqn:Hq; [by left|].
    right. by eapply server_write_advances.
  - unfold server_read. destruct (session_reads L (up s) (up_read s)) as [ev|] eqn:Hr.
    2: { left. by rewrite (hy_connected _ Hy). }
    destruct (spawns kind) eqn:Hs; [right; eapply server_read_advances; by eauto|].
    destruct (tasks (server_side s)) as [|t ts] eqn:Ht; [right; eapply server_read_advances; by eauto|].
    left. unfold server_step. cbn [Session.step server_side set_up]. unfold recvLoop. rewrite Hs, Ht.
    by destruct (reading (server_side s)).
Qed.

(** Nothing is under way, or some action advances. *)
Definition idle : Prop :=
  client_queue s = [] ∧ (length (up s) ≤ up_read s)%nat ∧ tasks (server_side s) = [] ∧
  Session.sendChannel (server_side s) = [] ∧ (length (down s) ≤ down_read s)%nat.

Lemma idle_or_advances : idle ∨ ∃ l, progress l = true ∧ advances l s.
Proof using Hok Hgood Hy Hprompt Hlink Hreach Hkind.
  destruct (Session.sendChannel (server_side s)) as [|o q] eqn:Hq.
  2: { right. exists (ServerWrite None). split; [done|]. by eapply server_write_advances. }
  destruct (tasks (server_side s)) as [|t ts] eqn:Ht.
  2: { right. exists (Server (Session.LTask 0)). split; [done|].
    apply (task_advances 0 t); [by rewrite Ht|]. rewrite Hq. simpl. lia. }
  destruct (session_reads L (up s) (up_read s)) as [ev|] eqn:Hev.
  { right. exists ServerRead. split; [done|]. eapply server_read_advances; by eauto. }
  destruct (client_reads L Error (down s) (down_read s)) as [r|] eqn:Hr.
  { right. exists ClientRead. split; [done|]. by eapply client_read_advances. }
  destruct (client_queue s) as [|msg q] eqn:Hcq.
  2: { right. exists (ClientWrite None). split; [done|]. apply (client_write_advances msg q).
    unfold client_queue in Hcq. destruct (StreamingClient.sendChannel (client_side s)); [|done].
    simpl in Hcq. by subst. }
  left. split_and!; try done.
  - destruct (so_up _ _ _ _ Hok) as (js & Hup & Hjs). rewrite up_length. rewrite Hup in Hev.
    by eapply session_reads_None; [apply Hlink|..].
  - destruct (so_down _ _ _ _ Hok) as (js & Hdown & Hjs). rewrite down_length. rewrite Hdown in Hr.
    unfold written_jsons in Hjs. rewrite <- (length_fmap out_message).
    by eapply client_reads_None; [apply (session_line_end_ok L)|..].
Qed.
End one_action.

(** The request of a call has been put on this connection, or is about to be. *)
Definition on_its_way (s : system) (sent : RequestMessage) : Prop := MRequest sent ∈ here s ++ client_queue s.

Lemma on_its_way_outbox (s : system) sent :
  sys_ok L feed line_end s → on_its_way s sent ↔ MRequest sent ∈ drop (before s) (outbox (client_side s)).
Proof using Type.
  intros Hok. unfold on_its_way, here, outbox. fold (client_queue s).
  by rewrite drop_app_le by apply (so_before _ _ _ _ Hok).
Qed.

(** Once nothing is under way, a waiting call has its answer. *)
Lemma idle_has_answer (s : system) c x sent ch :
  prompt (outbox (client_side s)) → sys_reachable s → good_requests (issued s) → distinct_ids (issued s) →
  healthy s → idle s →
  calls (client_side s) !! c = Some x → issued s !! c = Some sent →
  call_phase x = StreamingClient.Waiting ch → on_its_way s sent → resultChannel x ≠ [].
Proof using Hlink Hshallow Hresp.
  intros Hprompt Hr Hgood Hdist Hy (Hcq & Hup & Htasks & Hq & Hdown) Hx Hs Hph Hway.
  pose proof (sys_reachable_ok L Error kind feed HandleClose line_end Hlink Hshallow s Hr Hgood) as Hok.
  pose proof (sys_reachable_session _ _ _ _ _ _ Hr) as Hsess.
  destruct (session_Inv kind feed HandleClose _ Hresp Hsess) as [_ Hans Hcount Hunsent _ _ _].
  rewrite (Hunsent (hy_sending _ Hy)), (hy_failed _ Hy), Htasks, Hq in *. cbn in Hcount. rewrite !app_nil_r in *.
  destruct (Hgood c sent Hs) as [Hwire Hsh]. destruct (wire_key (req_Id sent)) as [k Hk]; [apply Hwire|].
  destruct (sys_reachable_live s Hr Hgood Hdist c x sent k Hx Hs Hk) as [L1 _ L3]. rewrite Hph in L1.
  unfold on_its_way in Hway. rewrite Hcq, app_nil_r in Hway.
  assert (MRequest sent ∈ outbox (client_side s)) as Hout
    by (unfold outbox; apply elem_of_app; left; by eapply subseteq_drop).
  (* the request has been received, answered, and the answer read *)
  assert (message_norm (MRequest sent) ∈ requests (Session.received (server_side s))) as Hrec.
  { apply list_elem_of_omap. exists (message_norm (MRequest sent)). split; [|done].
    pose proof (so_arrived _ _ _ _ Hok) as Harr. unfold arrived in Harr. rewrite Htasks in Harr. cbn in Harr.
    rewrite app_nil_r in Harr. rewrite Harr, take_ge by (rewrite (up_length s Hok) in Hup; lia).
    by apply list_elem_of_fmap_2. }
  rewrite Hcount in Hrec. apply list_elem_of_omap in Hrec as ([req resmsg|msg] & Ho & [= ->]).
  rewrite Forall_forall in Hans. destruct (Hans _ Ho) as (m & [= <-] & Hid & _).
  pose proof Ho as Ho'. rewrite (down_length s Hok) in Hdown. rewrite <- (take_ge _ _ Hdown) in Ho'.
  destruct (so_all_read _ _ _ _ Hok _ (hy_connected _ Hy) Ho') as (ans & Hread & Hcross).
  destruct (so_session _ _ _ _ Hok) as [_ Hfed]. rewrite Forall_app, Forall_forall in Hfed.
  destruct (proj1 Hfed _ Ho) as (_ & w & w' & Hf). cbn [out_message] in Hcross.
  destruct (Hprompt (MRequest sent) w) as (r & w2 & Hf' & Hres); [done..|]. cbn [message_norm] in Hf'.
  rewrite Hf in Hf'. injection Hf' as <- <-. destruct (Hres resmsg eq_refl) as [Hrw Hkd].
  pose proof (crosses_wire resmsg Hrw) as (j & Hj & Hd). destruct Hcross as (j' & Hj' & Hd').
  rewrite Hj in Hj'. injection Hj' as <-. rewrite Hd in Hd'. injection Hd' as <-.
  assert ((k, c) ∉ pendingRequests (client_side s)) as Hnone.
  { apply L3; [done|]. exists (message_norm resmsg), (req_Id sent). split_and!; [done|by destruct resmsg| |done].
    by destruct resmsg. }
  destruct (L1 I) as [Hgot|?]; [|done]. unfold StreamingClient.received in Hgot. rewrite Hph in Hgot.
  intros Hch. rewrite Hch in Hgot. simpl in Hgot. lia.
Qed.

(** *** Runs *)

Definition same_connection (s s' : system) : Prop := issued s' = issued s ∧ before s' = before s.

Lemma server_step_connection l (s s' : system) :
  Network.server_step kind feed HandleClose l s = Some (Ret s') → same_connection s s'.
Proof using Type. unfold Network.server_step. intros (x & _ & H)%comp_bind_Ret. by injection H as <-. Qed.

Lemma progress_connection l (s s' : system) :
  progress l = true → sys_step l s = Some (Ret s') → same_connection s s'.
Proof using Type.
  intros Hl Hs. destruct l as [l|wrote| |err|l|werr| |err|w]; try done; cbn [Network.sys_step] in Hs.
  - unfold client_write in Hs. destruct (StreamingClient.sendChannel _) as [[|msg q]|]; try done.
    destruct (link_WriteMessage L wrote msg); by apply client_step_keeps in Hs as (c & _ & -> & _).
  - unfold client_read in Hs. destruct (client_reads _ _ _ _) as [r|].
    2: { case_bool_decide; [|done]. by apply client_step_keeps in Hs as (c & _ & -> & _). }
    destruct r as [[err|[msg|]]|]; [..|done]; cbn [mbind comp_mbind] in Hs;
      [by apply client_step_keeps in Hs as (c & _ & -> & _)..|by injection Hs as <-].
  - destruct (server_network l); [done|]. by eapply server_step_connection.
  - unfold server_write in Hs. destruct (Session.sendChannel _) as [|o q]; [done|].
    destruct (MessageBytes _), werr; by apply server_step_connection in Hs.
  - unfold server_read in Hs. destruct (session_reads _ _ _); [|destruct (connected _); [done|]];
      by apply server_step_connection in Hs.
Qed.

Lemma progress_run ls (s s' : system) :
  prompt (outbox (client_side s)) → reads_frames kind = link_frames L → sys_reachable s →
  good_requests (issued s) → healthy s →
  Forall (λ l, progress l = true) ls → sys_run L Error kind feed HandleClose ls s = Some (Ret s') →
  sys_reachable s' ∧ healthy s' ∧ same_connection s s' ∧ same_business (client_side s) (client_side s') ∧
  (length ls + work s' ≤ work s)%nat.
Proof using Hlink Hshallow.
  intros Hprompt Hkind Hr Hgood Hy Hls. revert s Hprompt Hr Hgood Hy.
  induction Hls as [|l ls Hl _ IH]; intros s Hprompt Hr Hgood Hy; cbn [sys_run].
  { intros [= <-]. by split_and!. }
  intros (s1 & H1 & H)%comp_bind_Ret.
  pose proof (sys_reachable_ok L Error kind feed HandleClose line_end Hlink Hshallow s Hr Hgood) as Hok.
  destruct (sys_reachable_client _ _ _ _ _ _ Hr) as [_ Hreach].
  destruct (progress_advances s Hprompt Hok Hgood Hy Hreach Hkind l Hl) as [?|(s2 & H2 & Hy2 & Hwork & Hph)];
    [congruence|].
  rewrite H1 in H2. injection H2 as <-. destruct (progress_connection _ _ _ Hl H1) as [Hi Hb].
  destruct (IH s1) as (Hr' & Hy' & [Hi' Hb'] & Hph' & Hwork');
    [by rewrite (proj2 Hph)| |by rewrite Hi|done|done|].
  - eapply sys_next; [exact Hr| |exact H1]. by destruct l as [| | | |[]| | | |].
  - split_and!; [done|done|split; congruence|by eapply same_business_trans|simpl; lia].
Qed.

(** The call takes its answer. *)
Lemma take_answer (s : system) c x ch :
  calls (client_side s) !! c = Some x → call_phase x = StreamingClient.Waiting ch → resultChannel x ≠ [] →
  ∃ s' x' msg, sys_step (Client (LResult c)) s = Some (Ret s') ∧ calls (client_side s') !! c = Some x' ∧
    call_phase x' = StreamingClient.Returned (inr msg) ∧ issued s' = issued s.
Proof using Type.
  intros Hx Hph Hch. destruct (resultChannel x) as [|msg rest] eqn:Hm; [done|].
  cbn [Network.sys_step client_network]. unfold client_step. cbn [StreamingClient.step].
  unfold request_result. rewrite Hx. cbn. rewrite Hph, Hm. cbn. rewrite andb_negb_l. eexists _, _, msg.
  split; [done|]. split; [apply (lookup_insert_eq (M:=gmap nat))|]. done.
Qed.
End progress.

(** Calls return.  A client and a session on a connection, in any state they can
    reach, however often the client has lost its connection and made another,
    in which the connection is up and no handler has failed: as long as only
    the loops and handlers run and nothing fails, in whatever order, they take
    at most [work] actions and none of them panics; and as long as a waiting
    call whose request was put on this connection does not have its answer yet,
    one of these actions is possible.  The answer is the one of the actor to
    this call, or a time-out that was there before.  Handlers must return, with
    answers that JSON carries. *)
Lemma calls_return {W : Type} L Error kind (feed : Message → act W panic feed_result) HandleClose
    s c x sent ch ls s' :
  L ∈ links → reads_frames kind = link_frames L → responder feed → shallow_answers feed →
  prompt feed (outbox (client_side s)) →
  sys_reachable L Error kind feed HandleClose s → good_requests (issued s) → distinct_ids (issued s) →
  healthy s →
  calls (client_side s) !! c = Some x → call_phase x = StreamingClient.Waiting ch → issued s !! c = Some sent →
  on_its_way s sent →
  Forall (λ l, progress l = true) ls → sys_run L Error kind feed HandleClose ls s = Some (Ret s') →
  (length ls ≤ work s)%nat ∧
  (∀ l p, progress l = true → sys_step L Error kind feed HandleClose l s' ≠ Some (Panic p)) ∧
  ((∃ l s'', progress l = true ∧ sys_step L Error kind feed HandleClose l s' = Some (Ret s'')) ∨
   ∃ s'' x' msg, sys_step L Error kind feed HandleClose (Client (LResult c)) s' = Some (Ret s'') ∧
     calls (client_side s'') !! c = Some x' ∧ call_phase x' = StreamingClient.Returned (inr msg) ∧
     (timeout_of x' msg ∨ answer_of feed (issued s'') c x' msg)).
Proof.
  intros HL Hkind Hresp Hshallow Hprompt Hr Hgood Hdist Hy Hx Hph Hs Hway Hls Hrun.
  destruct (links_ok _ HL) as (line_end & Hlink).
  destruct (progress_run L Error kind feed HandleClose line_end Hlink Hshallow ls s s')
    as (Hr' & Hy' & [Hi Hb] & [Hphases Hout] & Hwork); [done..|].
  assert (on_its_way s' sent) as Hway'.
  { pose proof (sys_reachable_ok L Error kind feed HandleClose line_end Hlink Hshallow) as Hok.
    rewrite on_its_way_outbox in Hway by (by apply Hok). rewrite on_its_way_outbox by (apply Hok; by rewrite ?Hi).
    by rewrite Hb, Hout. }
  rewrite <- Hi in Hgood, Hdist, Hs. destruct (same_phases_lookup _ _ c x Hphases Hx) as (x' & Hx' & Hph' & _).
  rewrite <- Hout in Hprompt. rewrite Hph in Hph'.
  pose proof (sys_reachable_ok L Error kind feed HandleClose line_end Hlink Hshallow s' Hr' Hgood) as Hok.
  destruct (sys_reachable_client _ _ _ _ _ _ Hr') as [_ Hreach].
  split; [lia|]. split.
  { intros l p Hl. destruct (progress_advances L Error kind feed HandleClose line_end Hlink s' Hprompt Hok Hgood
      Hy' Hreach Hkind l Hl) as [->|(s2 & -> & _)]; done. }
  destruct (idle_or_advances L Error kind feed HandleClose line_end Hlink s' Hprompt Hok Hgood Hy' Hreach Hkind)
    as [Hidle|(l & Hl & s2 & H2 & _)]; [right|left; by exists l, s2].
  pose proof (idle_has_answer L Error kind feed HandleClose line_end Hlink Hshallow Hresp s' c x' sent ch Hprompt
    Hr' Hgood Hdist Hy' Hidle Hx' Hs Hph' Hway') as Hch.
  destruct (take_answer L Error kind feed HandleClose s' c x' ch Hx' Hph' Hch)
    as (s2 & y & msg & H2 & Hy2 & Hret & Hi2).
  exists s2, y, msg. split_and!; [done..|].
  apply (returned_message L Error kind feed HandleClose s2 c y msg); rewrite ?Hi2; try done.
  exact (sys_next L Error kind feed HandleClose (Client (LResult c)) s' s2 Hr' I H2).
Qed.
