(* ===== verification/ErrorTexts.v ===== *)
(** * The texts of validation errors

    No code of its own.  The text of an error that the validator reports is
    made of fixed hints and of the places of a path: indices, and names of
    properties.  When the names in the schema and in the data are UTF-8, so is
    the text, and JSON carries it to the caller as it is.  The rules follow the
    shape of the Scan methods, with [safe] for what they keep. *)

From S2P Require Import Prelude GoMap Strconv Values Messages Parse JsonText WireText.
From S2P Require Import Schema Convert Validator Actor.
From stdpp Require Import options.
#[local] Open Scope Z_scope.

(** ** Texts made of UTF-8 texts *)

Definition good_text (s : string) : Prop := utf8_ok s = true.

Lemma utf8_app s t : utf8 s → utf8 t → utf8 (s +:+ t).
Proof. intros Hs Ht. induction Hs as [|p r Hp _ IH]; [done|]. rewrite string_app_assoc. by constructor. Qed.

Lemma good_app s t : good_text s → good_text t → good_text (s +:+ t).
Proof. intros Hs Ht. apply utf8_utf8_ok, utf8_app; by apply utf8_ok_utf8. Qed.

Lemma good_concat l : Forall good_text l → good_text (String.concat "" l).
Proof.
  induction 1 as [|s l Hs Hl IH]; [done|]. cbn [String.concat]. destruct l; [done|]. by apply good_app, good_app.
Qed.

Lemma ascii_rune c : in_range 0 127 c = true → rune (String c "").
Proof. intros Hc. split; [done|]. intros t. rewrite string_app_cons. cbn. by rewrite Hc. Qed.

Lemma good_digits s : digits s = true → good_text s.
Proof.
  intros Hs. apply utf8_utf8_ok. revert Hs. induction s as [|c s IH]; [constructor|].
  intros [Hc Hs]%andb_prop. apply (utf8_rune (String c "") s); [|by apply IH].
  apply ascii_rune. destruct c as [[] [] [] [] [] [] [] []]; done.
Qed.

Lemma good_index i : good_text (index_path i).
Proof. apply good_app, good_app; [done| |done]. apply good_digits, Itoa_int. lia. Qed.

Definition good_pos (pos : ErrorPos) : Prop := Forall good_text (pos_paths pos) ∧ good_text (pos_hint pos).

Lemma good_error pos : good_pos pos → good_text (ErrorPos_Error pos).
Proof. intros [Hp Hh]. apply good_app, good_app, good_app; [done|by apply good_concat|done|done]. Qed.

(** ** What a schema and a value must have *)

Fixpoint good_names (v : any) : Prop :=
  match v with
  | AList l => list_all good_names l
  | AMap m => list_all (λ kv, good_text kv.1 ∧ good_names kv.2) m
  | _ => True
  end.

Lemma any_wire_names v : any_wire v → good_names (any_norm v).
Proof.
  induction v as [| | | | | | |l IH|m IH| | | |] using any_ind; try done.
  - cbn. rewrite !list_all_Forall, Forall_fmap. rewrite Forall_forall in IH. rewrite !Forall_forall. auto.
  - cbn. rewrite !list_all_Forall, map_sort_perm, Forall_fmap. rewrite Forall_forall in IH.
    rewrite !Forall_forall. intros [_ Hm] kv Hkv. destruct (Hm kv Hkv). split; [done|]. cbn. auto.
Qed.

Lemma good_names_get k m v : good_names (AMap m) → map_get k m = Some v → good_names v.
Proof.
  intros Hm Hk%map_get_Some_elem. cbn in Hm. rewrite list_all_elem_of in Hm. by apply Hm in Hk as [_ Hk].
Qed.

Definition node_names (s : Schema) : Prop :=
  match s with ObjectSchema _ props _ _ => Forall good_text (map_keys props) | _ => True end.

(** The names of all properties are UTF-8. *)
Definition schema_names : Schema → Prop := schema_all node_names.

(** ** What the validator keeps *)

(** The computation keeps the paths good, and its value is as [Q] says. *)
Definition safe {A} (Q : A → Prop) (m : V A) : Prop := ∀ paths a paths',
  Forall good_text paths → m paths = Ret (a, paths') → Forall good_text paths' ∧ Q a.

Abbreviation reports := (safe (opt_pred good_pos)).

Lemma safe_ret {A} (Q : A → Prop) a : Q a → safe Q (mret a).
Proof. by intros Ha paths ?? Hp [= <- <-]. Qed.

Lemma safe_bind {A B} (Q : A → Prop) (R : B → Prop) (m : V A) (f : A → V B) :
  safe Q m → (∀ a, Q a → safe R (f a)) → safe R (m ≫= f).
Proof.
  intros Hm Hf paths b paths' Hp H. unfold mbind, stateT_mbind in H.
  destruct (m paths) as [[a p1]|] eqn:Ha; [|done]. cbn in H.
  destruct (Hm _ _ _ Hp Ha) as [Hp1 HQ]. by eapply Hf.
Qed.

Lemma safe_panic {A} (Q : A → Prop) p : safe Q (v_panic p).
Proof. done. Qed.

Lemma safe_push path : good_text path → safe (λ _, True) (pushPath path).
Proof.
  intros Hpath paths ?? Hp [= <- <-]. split; [|done]. case_bool_decide; [done|]. by apply Forall_app_2; [|constructor].
Qed.

Lemma safe_pop path : safe (λ _, True) (popPath path).
Proof.
  intros paths [] paths' Hp. unfold popPath. case_bool_decide; [by intros [= <-]|].
  destruct (last paths); [|done]. case_bool_decide; [|done]. intros [= <-]. split; [by apply Forall_take|done].
Qed.

Lemma reports_fail hint : good_text hint → reports (fail hint).
Proof. by intros Hh paths ?? Hp [= <- <-]. Qed.

Lemma reports_none : reports (mret None).
Proof. by apply safe_ret. Qed.

Lemma reports_within path (m : V (option ErrorPos)) :
  good_text path → reports m → reports (_ ← pushPath path; errPos ← m; _ ← popPath path; mret errPos).
Proof.
  intros Hpath Hm. eapply safe_bind; [by apply safe_push|]. intros _ _. eapply safe_bind; [done|].
  intros e He. eapply safe_bind; [apply safe_pop|]. intros _ _. by apply safe_ret.
Qed.

Lemma reports_and_then m rest : reports m → reports rest → reports (and_then m rest).
Proof. intros Hm Hr. eapply safe_bind; [done|]. intros [e|] He; [by apply safe_ret|done]. Qed.

(** ** The Scan methods *)

Section scan.
Context (scan : Schema → any → V (option ErrorPos)).

Definition scans (s : Schema) : Prop := ∀ data, good_names data → reports (scan s data).

Lemma reports_Scan schema path data :
  opt_pred scans schema → good_text path → good_names data → reports (validator_Scan scan schema path data).
Proof using Type. intros Hs Hp Hd. apply reports_within; [done|]. destruct schema; [by apply Hs|apply safe_panic]. Qed.

Lemma reports_any_of cs data : Forall scans cs → good_names data → reports (AnyOfSchema_Scan scan cs data).
Proof using Type.
  intros Hcs Hd. induction Hcs as [|s cs Hs _ IH]; [by apply reports_fail|].
  eapply safe_bind; [by apply (reports_Scan (Some s))|]. intros [e|] _; [done|apply reports_none].
Qed.

Lemma reports_all_of cs data : Forall scans cs → good_names data → reports (AllOfSchema_Scan scan cs data).
Proof using Type.
  intros Hcs Hd. induction Hcs as [|s cs Hs _ IH]; [apply reports_none|].
  apply reports_and_then; [by apply (reports_Scan (Some s))|done].
Qed.

Lemma reports_not c data : opt_pred scans c → good_names data → reports (NotSchema_Scan scan c data).
Proof using Type.
  intros Hc Hd. eapply (safe_bind (opt_pred good_pos)); [destruct c; [by apply Hc|apply safe_panic]|].
  intros [e|] _; [apply reports_none|by apply reports_fail].
Qed.

Lemma reports_items schema i items :
  opt_pred scans schema → Forall good_names items → reports (scan_items scan schema i items).
Proof using Type.
  intros Hs Hl. revert i. induction Hl as [|d l Hd _ IH]; intros i; [apply reports_none|].
  apply reports_and_then; [|apply IH]. apply reports_Scan; [done|apply good_index|done].
Qed.

Lemma reports_children cs i items :
  Forall scans cs → Forall good_names items → reports (scan_children scan cs i items).
Proof using Type.
  intros Hcs Hl. revert i. induction Hcs as [|s cs Hs _ IH]; intros i; [apply reports_none|].
  apply (safe_bind good_names).
  - unfold index. destruct (items !! i) eqn:Hi; [|apply safe_panic]. by apply safe_ret, (Forall_lookup_1 _ _ _ _ Hl Hi).
  - intros d Hd. apply reports_and_then; [|apply IH]. apply reports_Scan; [done|apply good_index|done].
Qed.

Lemma reports_list it mn mx data : opt_pred scans it → good_names data → reports (ListSchema_Scan scan it mn mx data).
Proof using Type.
  intros Hs Hd. destruct data as [| | | | | | |items| | | | |]; try by apply reports_fail.
  unfold ListSchema_Scan. repeat case_match; [by apply reports_fail..|].
  by apply reports_items, list_all_Forall.
Qed.

Lemma reports_tuple cs add data :
  Forall scans cs → opt_pred scans add → good_names data → reports (TupleSchema_Scan scan cs add data).
Proof using Type.
  intros Hcs Ha Hd. destruct data as [| | | | | | |items| | | | |]; try by apply reports_fail.
  cbn in Hd. rewrite list_all_Forall in Hd. unfold TupleSchema_Scan.
  destruct add as [a|]; case_match; try by apply reports_fail.
  all: apply reports_and_then; [by apply reports_children|].
  - by apply reports_items, Forall_drop.
  - apply reports_none.
Qed.

Lemma reports_params ps add params :
  Forall scans ps → opt_pred scans add → Forall good_names params → reports (ScanParams scan ps add params).
Proof using Type.
  intros Hps Ha Hl. apply reports_within; [done|]. case_match; [by apply reports_fail|].
  apply reports_and_then; [by apply reports_children|]. case_match; [|apply reports_none].
  destruct add as [a|]; [by apply reports_items, Forall_drop|by apply reports_fail].
Qed.

(** Of the members of a message, the parameters and the result count. *)
Lemma reports_method ps ret add msg :
  Forall scans ps → opt_pred scans ret → opt_pred scans add →
  (∀ params, map_get "params" msg = Some (AList params) → Forall good_names params) →
  (∀ result, map_get "result" msg = Some result → good_names result) →
  reports (MethodSchema_Scan scan ps ret add (AMap msg)).
Proof using Type.
  intros Hps Hret Ha Hp Hr. unfold MethodSchema_Scan, convertAttrList.
  assert (reports match map_get "result" msg with
                  | Some result => ScanResult scan ret result
                  | None => fail "data is not a JSONRPC message"
                  end) as Hresult.
  { destruct (map_get "result" msg) as [result|]; [|by apply reports_fail].
    destruct ret as [r|]; [|apply reports_none]. apply reports_Scan; [done|done|by apply Hr]. }
  destruct (map_get "params" msg) as [[]|] eqn:Hget; try done. apply reports_params; [done..|by apply Hp].
Qed.

Lemma reports_props props reqs obj :
  Forall (λ kv, good_text kv.1 ∧ scans kv.2) props → good_names (AMap obj) → reports (scan_props scan props reqs obj).
Proof using Type.
  intros Hprops Hobj. induction Hprops as [|[prop s] props [Hn Hs] _ IH]; [apply reports_none|]. cbn [scan_props].
  assert (good_text ("." +:+ prop)) as Hpath by by apply good_app.
  destruct (map_get prop obj) as [v|] eqn:Hv.
  - apply reports_and_then; [|done]. apply reports_Scan; [done|done|]. by eapply good_names_get.
  - case_match; [|done]. apply reports_within; [done|by apply reports_fail].
Qed.

Lemma reports_additional add checked obj :
  opt_pred scans add → good_names (AMap obj) → reports (scan_additional scan add checked obj).
Proof using Type.
  intros Ha Hobj. induction obj as [|[prop v] obj IH]; [apply reports_none|]. destruct Hobj as [[Hn Hv] Hobj].
  cbn [scan_additional]. case_bool_decide; [by apply IH|].
  apply reports_and_then; [|by apply IH]. apply reports_Scan; [done|by apply good_app|done].
Qed.

Lemma reports_object props reqs add data :
  Forall (λ kv, good_text kv.1 ∧ scans kv.2) props → opt_pred scans add → good_names data →
  reports (ObjectSchema_Scan scan props reqs add data).
Proof using Type.
  intros Hprops Ha Hd. destruct data as [| | | | | | | |obj| | | |]; try by apply reports_fail.
  apply reports_and_then; [by apply reports_props|].
  destruct add as [a|]; [by apply reports_additional|apply reports_none].
Qed.
End scan.

Lemma reports_range {T} (le lt : T → T → bool) lo hi xlo xhi v : reports (checkRange le lt lo hi xlo xhi v).
Proof.
  unfold checkRange. repeat case_match; first [apply reports_none|by apply reports_fail].
Qed.

Lemma Scan_reports s : schema_names s → scans Scan s.
Proof.
  assert (∀ l, Forall (λ s, schema_names s → scans Scan s) l → list_all schema_names l → Forall (scans Scan) l) as Hl.
  { intros l. rewrite list_all_Forall, !Forall_forall. auto. }
  assert (∀ l : gomap Schema, Forall (λ kv, schema_names kv.2 → scans Scan kv.2) l →
    list_all (λ kv, schema_names kv.2) l → Forall good_text (map_keys l) →
    Forall (λ kv, good_text kv.1 ∧ scans Scan kv.2) l) as Hm.
  { intros l. unfold map_keys. rewrite list_all_Forall, Forall_fmap, !Forall_forall. cbn. auto. }
  assert (∀ o, opt_pred (λ s, schema_names s → scans Scan s) o → opt_pred schema_names o →
    opt_pred (scans Scan) o) as Ho by (intros [?|]; simpl; auto).
  induction s using Schema_ind; intros [Hn Hc] data Hd; fold schema_names in *; simpl in Hn; cbn [Scan]; destruct_and?.
  - apply reports_none.
  - destruct data; first [apply reports_none|by apply reports_fail].
  - destruct data; first [apply reports_none|by apply reports_fail].
  - unfold NumberSchema_Scan. case_match; [apply reports_range|by apply reports_fail].
  - unfold IntegerSchema_Scan. case_match; [apply reports_range|by apply reports_fail].
  - unfold StringSchema_Scan. repeat case_match; first [apply reports_none|by apply reports_fail].
  - apply reports_any_of; auto.
  - apply reports_all_of; auto.
  - apply reports_not; auto.
  - apply reports_list; auto.
  - apply reports_tuple; auto.
  - apply reports_object; auto.
  - destruct data as [| | | | | | | |msg| | | |]; try by apply reports_fail. apply reports_method; auto.
    + intros ps' Hget. apply list_all_Forall. exact (good_names_get _ _ _ Hd Hget).
    + intros r Hget. exact (good_names_get _ _ _ Hd Hget).
Qed.

(** ** The schema of a method and a request *)

Lemma template_names l islist params :
  Forall good_names l → template_params l islist = AList params → Forall good_names params.
Proof.
  intros Hl. destruct l as [|p0 l]; [by intros [= <-]|]. destruct islist; cbn; [by intros [= <-]|]. intros ->.
  apply list_all_Forall. by apply Forall_cons in Hl as [Hl _].
Qed.

(** Params and the result are all that a method's schema looks at, so what a
    request has besides its parameters does not matter. *)
Lemma method_schema_texts `{HD : MapDecoder, !MapDecoderOk} m m' mixin ps ret add data pos :
  schema_names (MethodSchema mixin ps ret add) →
  message_wire (MRequest m) → message_norm (MRequest m) = MRequest m' →
  MessageMap (MRequest m') = inr data →
  schema_validate (MethodSchema mixin ps ret add) (AMap data) = Ret (Some pos) →
  good_text (ErrorPos_Error pos).
Proof.
  intros [_ Hs] Hm [= <-] Hdata Hv. cbn in Hs. fold schema_names in Hs. destruct Hs as (Hps & Hret & Hadd).
  destruct Hm as (_ & _ & _ & _ & Hp). apply any_wire_names in Hp. cbn in Hp. rewrite list_all_Forall in Hp.
  assert (reports (Validate (Some (MethodSchema mixin ps ret add)) (AMap data))) as Hreports.
  { apply reports_within; [done|]. apply reports_method.
    - rewrite list_all_Forall in Hps. eapply Forall_impl; [exact Hps|]. apply Scan_reports.
    - destruct ret; [by apply Scan_reports|done].
    - destruct add; [by apply Scan_reports|done].
    - intros params. rewrite (MessageMap_field _ _ "params" _ Hdata ltac:(done) eq_refl).
      intros [= Hparams]. by eapply template_names.
    - intros result. rewrite (MessageMap_no_field _ _ "result" Hdata); [done|set_solver|done]. }
  apply good_error. cbn [schema_validate Schema_ops] in Hv.
  destruct (Validate _ _ NewSchemaValidator) as [[r paths']|] eqn:Hscan; [|done]. injection Hv as ->.
  exact (proj2 (Hreports _ _ _ (Forall_nil_2 _) Hscan)).
Qed.
