(* ===== verification/Service.v ===== *)
(** * A service answers its clients: all parts together

    Progress.v shows that calls return when the actor behind a connection
    returns.  This file shows it of actors as net/request.go has them, with
    handlers in good order: from the table of handlers to the caller. *)

From S2P Require Import Prelude GoMap Strconv Values Messages Parse JsonText WireText.
From S2P Require Import Methods Schema Validator Actor Http StreamingClient Session Clients Links.
From S2P Require Import Provenance Network Delivery Progress ErrorTexts.
From stdpp Require Import gmap.
From stdpp Require Import options.
#[local] Open Scope Z_scope.

(** ** Answers that JSON carries *)

Definition carried_answer (resp : Message) : Prop :=
  message_wire resp ∧ IsResultOrError resp = true ∧ shallow resp.

(** A value fits into a result message, an error into an error message. *)
Definition value_fits (v : any) : Prop :=
  any_wire v ∧ ∀ j, Marshal v = Some j → (S (json_depth j) ≤ maxNestingDepth)%nat.

Definition error_fits (e : RPCError) : Prop :=
  wire_error e ∧ ∀ j, Marshal (RPCError_Data e) = Some j → (2 + json_depth j ≤ maxNestingDepth)%nat.

(** The id of a message, as JSON. *)
Lemma id_json id j : wire_id id → msgIdT_MarshalJSON (mkMsgId id true) = Some j → json_depth j = 0%nat.
Proof. by destruct id; try done; intros _ [= <-]. Qed.

Lemma result_fits m :
  Messages.kind (res_base m) = MKResult → utf8_ok (traceId (res_base m)) = true → wire_id (res_Id m) →
  value_fits (res_Result m) → carried_answer (MResult m).
Proof.
  destruct m as [[k t] id r h]. cbn. intros -> Ht Hid [Hr Hd]. split_and!; try done.
  intros j. unfold MessageBytes. cbn -[maxNestingDepth].
  destruct (msgIdT_MarshalJSON (mkMsgId id true)) as [ji|] eqn:Hji; [|done]. cbn -[maxNestingDepth].
  destruct (Marshal r) as [jr|] eqn:Hjr; [|done]. cbn -[maxNestingDepth]. intros [= <-].
  specialize (Hd jr eq_refl). apply id_json in Hji; [|done].
  unfold field_omitempty. case_bool_decide; cbn -[maxNestingDepth]; rewrite Hji; lia.
Qed.

Lemma error_json_depth e jd j :
  Marshal (RPCError_Data e) = Some jd → RPCError_json e = Some j → (json_depth j ≤ S (json_depth jd))%nat.
Proof.
  unfold RPCError_json, field_string. destruct (RPCError_Data e); intros Hjd; rewrite ?Hjd; intros [= <-];
    cbn [app json_depth fmap list_fmap list_max foldr snd]; lia.
Qed.

Lemma error_fits_message m e :
  Messages.kind (err_base m) = MKError → utf8_ok (traceId (err_base m)) = true → wire_id (err_Id m) →
  err_Error m = Some e → error_fits e → carried_answer (MError m).
Proof.
  destruct m as [[k t] id e' h]. cbn. intros -> Ht Hid -> [He Hd].
  split_and!; [split_and!; try done; by exists e|done|].
  destruct (Marshal_wire (RPCError_Data e)) as (jd & Hjd & _); [apply He|]. specialize (Hd jd Hjd).
  intros j. unfold MessageBytes. cbn -[maxNestingDepth RPCError_json].
  destruct (msgIdT_MarshalJSON (mkMsgId id true)) as [ji|] eqn:Hji; [|done]. cbn -[maxNestingDepth RPCError_json].
  destruct (RPCError_json e) as [je|] eqn:Hje; [|done]. cbn -[maxNestingDepth]. intros [= <-].
  apply id_json in Hji; [|done]. pose proof (error_json_depth e jd je Hjd Hje).
  unfold field_omitempty. case_bool_decide; cbn -[maxNestingDepth]; rewrite Hji; lia.
Qed.

(** The errors that the actor makes itself. *)
Lemma text_error_fits code text :
  is_int64 code = true → utf8_ok text = true → error_fits (mkRPCError code text ANil).
Proof. intros Hc Ht. split; [done|]. cbn -[maxNestingDepth]. intros j [= <-]. apply Nat.leb_le. by vm_compute. Qed.

(** ** Handlers in good order *)

Section service.
Context {W Ctx HReq Sess S : Type} (h : @Heap W Ctx HReq Sess S).
Context `{HD : MapDecoder, !MapDecoderOk, HS : SchemaOps S, !SchemaLaws S}.

Abbreviation Actor := (@Actor W Ctx HReq Sess S).
Abbreviation RPCRequest := (RPCRequest Ctx HReq Sess).

(** What a handler comes to for a request: a value that JSON carries, a reply,
    or an error, returned or panicked with, that is no HTTP response. *)
Definition outcome_fits (m : RequestMessage) (x : outcome panic (value * option error)) : Prop :=
  match x with
  | Ret (Val v, None) => value_fits v
  | Ret (Msg resp, None) => carried_answer resp
  | Ret (_, Some err) | Panic (PanicError err) =>
      match as_RPCError err with
      | Some e => error_fits e
      | None => as_WrappedResponse err = None
      end
  | Panic (PanicValue _) => False
  end.

Definition handler_fits (m : RequestMessage) (c : act W panic (value * option error)) : Prop :=
  ∀ w, ∃ x w', c w = Some (x, w') ∧ outcome_fits m x.

(** The text of a validation error of the request is UTF-8. *)
Definition schema_texts (m : RequestMessage) (s : S) : Prop := ∀ data pos,
  MessageMap (MRequest m) = inr data →
  schema_validate s (AMap data) = Ret (Some pos) → utf8_ok (ErrorPos_Error pos) = true.

Definition actor_fits (m : RequestMessage) (req : RPCRequest) (a : Actor) : Prop :=
  RecoverFromPanic a = true ∧
  (∀ method handler, getHandler a method = Some handler →
    (∀ params, handler_fits m (callback handler req params)) ∧
    opt_pred (λ s, schema_fit s ∧ schema_texts m s) (handler_schema handler)) ∧
  opt_pred (λ missing, handler_fits m (missing req)) (missingHandler a).

(** The answer to a request, and nothing else. *)
Definition answers (c : act W panic feed_result) : Prop :=
  ∀ w, ∃ resp w', c w = Some (Ret (Some resp, None), w') ∧ carried_answer resp.

Context (m : RequestMessage).
Context (Hkind : Messages.kind (req_base m) = MKRequest) (Htrace : utf8_ok (traceId (req_base m)) = true).
Context (Hid : wire_id (req_Id m)).

Lemma error_answer e : error_fits e → ∃ em, ToMessage e m = Ret em ∧ carried_answer (MError em).
Proof using Htrace Hid.
  intros He. eexists. split; [done|]. by eapply (error_fits_message _ (mkRPCError _ _ _)); [..|destruct e].
Qed.

Lemma wrapResult_fits err :
  outcome_fits m (Panic (PanicError err)) →
  ∃ em, ∀ v, wrapResult v (Some err) (MRequest m) = Ret (Some (MError em), None) ∧ carried_answer (MError em).
Proof using Hkind Htrace Hid.
  cbn [outcome_fits]. unfold wrapResult, IsRequest, base_of. rewrite Hkind. cbn [negb Z.eqb MKRequest].
  destruct (as_RPCError err) as [e|].
  - intros He. destruct (error_answer e He) as (em & -> & Hem). by exists em.
  - intros ->. destruct (error_answer ErrInternalError) as (em & -> & Hem); [|by exists em].
    by apply text_error_fits.
Qed.

Lemma call_answers (a : Actor) (c : act W panic (value * option error)) :
  RecoverFromPanic a = true → handler_fits m c →
  answers (recovering a (MRequest m) (call_and_wrap (MRequest m) c)).
Proof using Hkind Htrace Hid.
  intros Hrec Hc w. unfold recovering. rewrite Hrec. destruct (Hc w) as (x & w' & Hx & Hfit).
  unfold call_and_wrap. destruct x as [[res [err|]]|[err|v]]; [| | |done].
  - rewrite (act_bind_Ret _ _ _ _ _ Hx). unfold act_of_outcome. cbn [fst snd].
    destruct (wrapResult_fits err) as (em & Hem); [by destruct res|].
    destruct (Hem res) as [-> ?]. by eexists _, w'.
  - rewrite (act_bind_Ret _ _ _ _ _ Hx). unfold act_of_outcome, wrapResult, IsRequest, base_of. cbn [fst snd].
    rewrite Hkind. cbn [negb Z.eqb MKRequest]. destruct res as [v|resp]; [|by exists resp, w'].
    eexists _, w'. split; [done|]. by apply result_fits.
  - rewrite (act_bind_Panic _ _ _ _ _ Hx). destruct (wrapResult_fits err Hfit) as (em & Hem).
    destruct (Hem (Val ANil)) as [-> ?]. by eexists _, w'.
Qed.

Lemma dispatch_answers (req : RPCRequest) method a handler :
  request_msg req = MRequest m → message_ok (MRequest m) → actor_fits m req a →
  getHandler a method = Some handler → answers (dispatch a handler req).
Proof using Type*.
  intros Hmsg Hok (Hrec & Hhandlers & _) Hg w. unfold dispatch. rewrite Hmsg.
  destruct (Hhandlers method handler Hg) as [Hcb Hschema].
  rewrite (act_bind_Ret _ _ w (req_Params m) w) by done.
  unfold check_schema. destruct (handler_schema handler) as [s|].
  2: { unfold recoverCallHandler. rewrite Hmsg. by apply call_answers. }
  destruct (ValidateSchema a).
  2: { unfold recoverCallHandler. rewrite Hmsg. by apply call_answers. }
  destruct Hschema as [Hfit Htexts]. destruct (MessageMap_inr (MRequest m)) as [mm Hmm].
  rewrite Hmm.
  destruct (schema_validate_spec s (AMap mm) Hfit) as (r & Hr & _). rewrite Hr.
  cbn [mbind outcome_mbind outcome_bind]. destruct r as [pos|].
  2: { cbn [act_of_outcome]. unfold recoverCallHandler. rewrite Hmsg. by apply call_answers. }
  destruct (error_answer (ErrorPos_RPCError pos)) as (em & Hem & Hc).
  { apply text_error_fits; [done|]. by eapply Htexts. }
  unfold ErrorPos_ToMessage. rewrite Hem. by eexists _, w.
Qed.

Lemma not_handled_answers (req : RPCRequest) a :
  request_msg req = MRequest m → actor_fits m req a → answers (not_handled a req).
Proof using Hkind Htrace Hid.
  intros Hmsg (Hrec & _ & Hmiss) w. unfold not_handled, recoverCallMissingHandler. rewrite Hmsg.
  destruct (missingHandler a) as [missing|]; [by apply call_answers|].
  unfold IsRequest, base_of. rewrite Hkind. eexists _, w. split; [done|].
  by eapply error_fits_message; [..|apply text_error_fits].
Qed.

(** The request finds its answer, below whatever actor it is fed to. *)
Lemma Feed_answers fuel l (req : RPCRequest) method r a0 :
  request_msg req = MRequest m → message_ok (MRequest m) → (∀ l' a, h !! l' = Some a → actor_fits m req a) →
  MustMethod (MRequest m) = Ret method → h !! l = Some a0 → find_handler h fuel l method = Some (Ret r) →
  answers (Feed h fuel l req).
Proof using Type*.
  intros Hmsg Hok Hfits Hmethod Ha0 Hfind w.
  rewrite (Feed_routed h fuel l req method a0 r w); rewrite ?Hmsg; try done.
  2: { unfold IsResponse, IsRequest, base_of. by rewrite Hkind. }
  destruct r as [[a handler]|]; [|by eapply not_handled_answers; eauto].
  destruct (find_handler_elem h _ _ _ _ _ Hfind) as (l' & Hl' & Hg). by eapply dispatch_answers; eauto.
Qed.
End service.

(** From some amount of fuel on, every method finds its handler or none. *)
Lemma find_handler_fuel {W Ctx HReq Sess S : Type} (h : @Heap W Ctx HReq Sess S) l :
  acyclic h → closed h → is_Some (h !! l) →
  ∃ n, ∀ fuel, (n ≤ fuel)%nat → ∀ method, ∃ r, find_handler h fuel l method = Some (Ret r).
Proof.
  intros Hac Hcl. induction (Hac l) as [l _ IH]. intros [a Ha].
  assert (∃ n, ∀ fuel, (n ≤ fuel)%nat → ∀ method,
    ∃ r, first_child (λ c, find_handler h fuel c method) (children a) = Some (Ret r)) as (n & Hn).
  { assert (∀ c, c ∈ children a → ∃ n, ∀ fuel, (n ≤ fuel)%nat → ∀ method,
      ∃ r, find_handler h fuel c method = Some (Ret r)) as Hc
      by (intros c Hc; apply IH; [by exists a|by eapply Hcl]).
    clear IH. induction (children a) as [|c cs IHcs]; [by exists 0%nat; eexists|].
    destruct (Hc c) as (n1 & H1); [by left|]. destruct IHcs as (n2 & H2); [intros d Hd; apply Hc; by right|].
    exists (Nat.max n1 n2). intros fuel Hf method. cbn [first_child].
    destruct (H1 fuel ltac:(lia) method) as [r ->]. unfold mbind, comp_mbind.
    destruct r; [by eexists|]. apply H2. lia. }
  exists (Datatypes.S n). intros [|fuel] Hf method; [lia|]. cbn [find_handler]. unfold deref. rewrite Ha.
  cbn [mbind comp_mbind mret comp_mret]. destruct (getHandler a method); [by eexists|]. apply Hn. lia.
Qed.

(** ** Runs in which nothing fails *)

(** The actions of callers and timers on a connection that stays. *)
Definition calm_client (l : StreamingClient.label) : bool :=
  match l with
  | LRequest _ _ (Some _) _ | LStore _ | StreamingClient.LSend _ (Some _) | LArm _ | LResult _
  | LRegister _ | LExpire _ | LTick => true
  | _ => false
  end.

(** They leave the connection alone, and send requests only. *)
Definition calls_more (s s' : client) : Prop :=
  connected s' = connected s ∧
  (outbox s' = outbox s ∨ ∃ m, outbox s' = outbox s ++ [MRequest m]).

Lemma calls_more_refl s s' : connected s' = connected s → outbox s' = outbox s → calls_more s s'.
Proof. by split; [|left]. Qed.

(** A message that is sent without dialling. *)
Lemma Send_appends err msg s s' :
  StreamingClient.Send (Some err) msg s = Some (inr s') → outbox s' = outbox s ++ [msg].
Proof.
  unfold StreamingClient.Send. destruct (Connect (Some err) s) as [|s1] eqn:Hc; [done|].
  apply Connect_no_dial in Hc as ->. unfold push_message.
  destruct (StreamingClient.sendChannel s) as [q|] eqn:Hq; [|done]. cbn. case_match; [|done]. intros [= <-].
  unfold outbox. cbn. by rewrite Hq, <- app_assoc.
Qed.

Lemma set_phase_outbox c p s : outbox (set_phase c p s) = outbox s.
Proof. unfold set_phase. by destruct (calls s !! c). Qed.

Lemma expire_outbox k s s' : expire k s = Some (Ret s') → outbox s' = outbox s.
Proof.
  unfold expire. destruct (pending_get k _); [|by intros [= <-]]. destruct (calls _ !! _); [|done].
  intros (timeout & _ & H)%comp_bind_Ret. by apply deliver_Ret in H as (x & _ & ->).
Qed.

Lemma calm_client_step l s s' :
  calm_client l = true → StreamingClient.step l s = Some (Ret s') → calls_more s s'.
Proof.
  destruct l as [|c m [err|] u|c|c [err|]|c|c|c| |h| | | | | | | |i|]; try done; cbn [StreamingClient.step]; intros _.
  - unfold request_start. destruct (calls s !! c); [done|].
    destruct (Connect (Some err) s) as [|s1] eqn:Hc; [intros [= <-]; by apply calls_more_refl|].
    apply Connect_no_dial in Hc as ->. intros (k & _ & H)%comp_bind_Ret.
    apply comp_bind_Ret in H as (sent & _ & H). injection H as <-. by apply calls_more_refl.
  - unfold request_store. intros (x & _ & H)%comp_bind_Ret. destruct (call_phase x); try done.
    apply comp_bind_Ret in H as (k & _ & H). injection H as <-.
    apply calls_more_refl; [by rewrite set_phase_connected|by rewrite set_phase_outbox].
  - unfold request_send. intros (x & _ & H)%comp_bind_Ret. destruct (call_phase x) as [|sent| | |]; try done.
    apply comp_bind_Ret in H as ([e|s1] & Hr%maybe_Ret & H); injection H as <-.
    + apply calls_more_refl; [by rewrite set_phase_connected|by rewrite set_phase_outbox].
    + split; [by rewrite set_phase_connected, (Send_connected _ _ _ _ Hr)|].
      right. exists sent. by rewrite set_phase_outbox, (Send_appends _ _ _ _ Hr).
  - unfold request_arm. intros (x & _ & H)%comp_bind_Ret. destruct (call_phase x); try done.
    apply comp_bind_Ret in H as (k & _ & H). injection H as <-.
    apply calls_more_refl; [by rewrite set_phase_connected|by rewrite set_phase_outbox].
  - unfold request_result. intros (x & _ & H)%comp_bind_Ret. destruct (call_phase x); try done.
    destruct (resultChannel x); [done|]. injection H as <-. by apply calls_more_refl.
  - destruct (register_hooks h s) as [hs ->]. intros [= <-]. by apply calls_more_refl.
  - intros ([k d] & _ & H)%comp_bind_Ret. cbn [fst snd] in H. destruct (d <=? now s); [|done].
    apply calls_more_refl; [by apply expire_connected in H as ->|by apply expire_outbox in H as ->].
  - intros [= <-]. by apply calls_more_refl.
Qed.

(** The request of a call is in the send channel, or has been written. *)
Definition has_sent (p : StreamingClient.phase) : Prop :=
  match p with Sent _ | StreamingClient.Waiting _ => True | _ => False end.

Definition call_sent (c : nat) (s : client) : Prop := ∃ x, calls s !! c = Some x ∧ has_sent (call_phase x).

(** Since the first [n] messages were sent, the call has not, or its request is
    among those sent later. *)
Definition sent_since (n : nat) (issued : gmap nat RequestMessage) (c : nat) (s : client) : Prop :=
  ∀ sent, call_sent c s → issued !! c = Some sent → MRequest sent ∈ drop n (outbox s).

Lemma call_sent_update c d y s s' :
  calls s' = <[d := y]> (calls s) → (has_sent (call_phase y) → call_sent d s) → call_sent c s' → call_sent c s.
Proof.
  intros Hs Hy (x & Hx & Hsent). rewrite Hs in Hx. destruct (decide (c = d)) as [->|Hne].
  - rewrite (lookup_insert_eq (M:=gmap nat)) in Hx. injection Hx as <-. auto.
  - rewrite (lookup_insert_ne (M:=gmap nat)) in Hx by done. by exists x.
Qed.

Lemma call_sent_phase c d p s : (has_sent p → call_sent d s) → call_sent c (set_phase d p s) → call_sent c s.
Proof.
  intros Hp. unfold set_phase. destruct (calls s !! d) as [y|] eqn:Hy; [|done].
  by eapply call_sent_update.
Qed.

(** Only sending a stored request makes a call one that has sent. *)
Lemma calm_call_sent l s s' c :
  calm_client l = true → StreamingClient.step l s = Some (Ret s') → call_sent c s' →
  call_sent c s ∨ ∃ x sent, calls s !! c = Some x ∧ call_phase x = Stored sent ∧
    outbox s' = outbox s ++ [MRequest sent].
Proof.
  destruct l as [|d m [err|] u|d|d [err|]|d|d|d| |h| | | | | | | |i|]; try done; cbn [StreamingClient.step];
    intros _ Hstep Hsent.
  - left. revert Hstep. unfold request_start. destruct (calls s !! d) eqn:Hd; [done|].
    destruct (Connect (Some err) s) as [|s1] eqn:Hc.
    { intros [= <-]. eapply call_sent_update; [|  |exact Hsent]; [done|by intros []]. }
    apply Connect_no_dial in Hc as ->. intros (k & _ & H)%comp_bind_Ret.
    apply comp_bind_Ret in H as (sent & _ & H). injection H as <-.
    eapply call_sent_update; [|  |exact Hsent]; [done|by intros []].
  - left. revert Hstep. unfold request_store. intros (x & _ & H)%comp_bind_Ret. destruct (call_phase x); try done.
    apply comp_bind_Ret in H as (k & _ & H). injection H as <-.
    by apply (call_sent_phase _ d (Stored sendmsg)) in Hsent; [|intros []].
  - revert Hstep. unfold request_send. intros (x & Hx%maybe_Ret & H)%comp_bind_Ret.
    destruct (call_phase x) as [|sent| | |] eqn:Hp; try done.
    apply comp_bind_Ret in H as ([e|s1] & Hr%maybe_Ret & H); injection H as <-.
    { left. by apply call_sent_phase in Hsent; [|intros []]. }
    destruct (decide (c = d)) as [->|Hne].
    + right. exists x, sent. split_and!; [done..|]. by rewrite set_phase_outbox, (Send_appends _ _ _ _ Hr).
    + left. apply Send_outbox in Hr as [[Hcalls _] _]. destruct Hsent as (y & Hy & Hs). exists y. split; [|done].
      rewrite <- Hcalls. unfold set_phase in Hy. destruct (calls s1 !! d); [|done]. cbn in Hy.
      by rewrite (lookup_insert_ne (M:=gmap nat)) in Hy.
  - left. revert Hstep. unfold request_arm. intros (x & Hx%maybe_Ret & H)%comp_bind_Ret.
    destruct (call_phase x) eqn:Hp; try done. apply comp_bind_Ret in H as (k & _ & H). injection H as <-.
    apply call_sent_phase in Hsent; [done|]. intros _. exists x. by rewrite Hp.
  - left. revert Hstep. unfold request_result. intros (x & _ & H)%comp_bind_Ret. destruct (call_phase x); try done.
    destruct (resultChannel x); [done|]. injection H as <-.
    eapply call_sent_update; [|  |exact Hsent]; [done|by intros []].
  - left. revert Hstep. destruct (register_hooks h s) as [hs ->]. by intros [= <-].
  - left. revert Hstep. intros ([k t] & _ & H)%comp_bind_Ret. cbn [fst snd] in H. destruct (t <=? now s); [|done].
    revert H. unfold expire. destruct (pending_get k _); [|by intros [= <-]]. destruct (calls _ !! _); [|done].
    intros (timeout & _ & H)%comp_bind_Ret. apply deliver_Ret in H as (x & Hx & ->).
    eapply call_sent_update; [|  |exact Hsent]; [done|]. by exists x.
  - left. by injection Hstep as <-.
Qed.

Lemma calm_sent_since n issued reads l s s' c :
  client_ok issued reads s → (n ≤ length (outbox s))%nat → calm_client l = true →
  StreamingClient.step l s = Some (Ret s') →
  sent_since n issued c s → sent_since n (issue l s' issued) c s'.
Proof.
  intros Hok Hn Hl Hs Hsince sent Hsent Hi.
  assert ((∃ x, calls s !! c = Some x) → issued !! c = Some sent) as Hold.
  { intros [x Hx]. destruct l; try done. cbn [issue StreamingClient.step] in *.
    destruct (call_phase <$> calls s' !! c0) as [[sent'| | | |]|]; try done.
    apply lookup_insert_Some in Hi as [[-> _]|[_ Hi]]; [|done]. unfold request_start in Hs. by rewrite Hx in Hs. }
  assert (outbox s' = outbox s ∨ ∃ m, outbox s' = outbox s ++ [MRequest m]) as Hout
    by by apply (calm_client_step l).
  destruct (calm_call_sent l s s' c Hl Hs Hsent) as [Hsent'|(x & sent' & Hx & Hp & ->)].
  - assert (MRequest sent ∈ drop n (outbox s)) as Hin
      by (apply Hsince; [done|apply Hold; destruct Hsent' as (x & Hx & _); by exists x]).
    destruct Hout as [->|(m & ->)]; [done|]. rewrite drop_app_le by done. apply elem_of_app. by left.
  - rewrite drop_app_le by done. apply elem_of_app. right.
    assert (issued !! c = Some sent) as Hc by (apply Hold; by exists x).
    rewrite (co_phase _ _ _ Hok c x sent' Hx) in Hc by by rewrite Hp. injection Hc as ->. by left.
Qed.

Section calm.
Context {W : Type} (L : link) (Error : error → string).
Context (kind : session_kind) (feed : Message → act W panic feed_result) (HandleClose : act W panic unit).
Context (line_end : string) (Hlink : link_ok L line_end) (Hshallow : shallow_answers feed).
Context (Hkind : reads_frames kind = link_frames L).
Context (Hprompt : ∀ m w, message_wire (MRequest m) → shallow (MRequest m) →
  ∃ resp w', feed (message_norm (MRequest m)) w = Some (Ret (Some resp, None), w') ∧
    message_wire resp ∧ IsResultOrError resp = true).

Abbreviation system := (@system W).

(** Callers call, others use the actor, and the loops and handlers run. *)
Definition calm (l : @sys_label W) : bool :=
  match l with
  | Client l => calm_client l
  | World _ => true
  | l => progress l
  end.

Definition only_calls (s : system) : Prop := Forall (λ msg, ∃ m, msg = MRequest m) (outbox (client_side s)).

Lemma only_calls_prompt s : only_calls s → prompt feed (outbox (client_side s)).
Proof using Hprompt.
  intros Hall msg w Hin Hw Hs. unfold only_calls in Hall. rewrite Forall_forall in Hall.
  destruct (Hall msg Hin) as [m ->]. destruct (Hprompt m w Hw Hs) as (resp & w' & Hf & Hr).
  exists (Some resp), w'. split; [done|]. by intros resmsg [= <-].
Qed.

Lemma calm_label_ok l : calm l = true → label_ok l.
Proof using Type. destruct l as [l| | | |l| | | |]; try done; by destruct l. Qed.

(** What calm runs keep: a healthy system, calls only, and that the call, if it
    has sent its request, has put it on this connection. *)
Record calm_state (c : nat) (s : system) : Prop := {
  cs_healthy : healthy s;
  cs_calls : only_calls s;
  cs_sent : sent_since (before s) (issued s) c (client_side s) }.

Lemma calm_step c l (s s' : system) :
  sys_reachable L Error kind feed HandleClose s → good_requests (issued s') → calm l = true →
  calm_state c s → sys_step L Error kind feed HandleClose l s = Some (Ret s') → calm_state c s'.
Proof using Hlink Hshallow Hkind Hprompt.
  intros Hr Hgood Hl [Hy Hcalls Hsent] Hs.
  assert (good_requests (issued s)) as Hgood'.
  { eapply good_sub; [|exact Hgood]. eapply sys_step_issued; [exact Hr|by apply calm_label_ok|exact Hs]. }
  pose proof (sys_reachable_ok L Error kind feed HandleClose line_end Hlink Hshallow s Hr Hgood') as Hok.
  assert (∀ l, progress l = true → sys_step L Error kind feed HandleClose l s = Some (Ret s') →
    calm_state c s') as Hprogress.
  { clear l Hl Hs. intros l Hl Hs.
    destruct (sys_reachable_client _ _ _ _ _ _ Hr) as [_ Hreach].
    destruct (progress_advances L Error kind feed HandleClose line_end Hlink s (only_calls_prompt s Hcalls) Hok
      Hgood' Hy Hreach Hkind l Hl) as [Hn|(s2 & H2 & Hy2 & _ & Hph & Hout)]; [congruence|].
    rewrite Hs in H2. injection H2 as <-.
    destruct (progress_connection L Error kind feed HandleClose l s s' Hl Hs) as [Hi Hb].
    split; [done|unfold only_calls; by rewrite Hout|]. rewrite Hi, Hb. intros sent (x' & Hx' & Hh). rewrite Hout.
    apply Hsent. specialize (Hph c). rewrite Hx' in Hph. symmetry in Hph.
    apply fmap_Some in Hph as (x & Hx & Hph). injection Hph as Hph _. exists x. by rewrite <- Hph. }
  destruct l as [l|wrote| |err|l|werr| |err|w]; cbn [calm] in Hl; try done; try by eapply Hprogress.
  - cbn [Network.sys_step] in Hs. destruct (client_network l); [done|].
    assert (redials l = false) as Hd by (by destruct l as [|? ? []| |? []| | | | | | | | | | | | | |]).
    destruct (client_step_keeps l s s' Hd Hs) as (x & Hx & -> & _).
    destruct (calm_client_step _ _ _ Hl Hx) as [Hcon Hout]. split.
    + destruct Hy. split; try done. cbn. congruence.
    + unfold only_calls in *. cbn [client_side set_client]. destruct Hout as [->|(m & ->)]; [done|].
      apply Forall_app. split; [done|]. repeat constructor. by exists m.
    + cbn. eapply calm_sent_since; [by apply so_client in Hok| |done..].
      pose proof (so_before _ _ _ _ Hok). unfold outbox. rewrite length_app. lia.
  - injection Hs as <-. split; [|done..]. by destruct Hy.
Qed.

(** A connection that has just been made is healthy. *)
Lemma new_system_healthy w : healthy (new_system w) ∧ only_calls (new_system w).
Proof using Type. split; [by split|constructor]. Qed.

Lemma dialled_healthy l (s s' : system) :
  connected (client_side s) = false → connected (client_side s') = true →
  sys_step L Error kind feed HandleClose (Client l) s = Some (Ret s') → healthy s'.
Proof using Type.
  cbn [Network.sys_step]. intros Hs Hs'. destruct (client_network l); [done|].
  intros (c & _ & [[Hcon ->]|(_ & Hcon & ->)])%client_step_cases.
  - cbn in Hs'. apply Hcon in Hs'. congruence.
  - by split.
Qed.

Lemma calm_run c ls (s s' : system) :
  Forall (λ l, calm l = true) ls → sys_reachable L Error kind feed HandleClose s → calm_state c s →
  sys_run L Error kind feed HandleClose ls s = Some (Ret s') → good_requests (issued s') →
  sys_reachable L Error kind feed HandleClose s' ∧ calm_state c s'.
Proof using Hlink Hshallow Hkind Hprompt.
  intros Hls Hr Hcalm. revert s Hr Hcalm.
  induction Hls as [|l ls Hl Hls IH]; intros s Hr Hcalm; cbn [sys_run].
  { by intros [= <-]. }
  intros (s1 & H1 & H)%comp_bind_Ret Hgood.
  assert (sys_reachable L Error kind feed HandleClose s1) as Hr1
    by (eapply sys_next; [exact Hr|by apply calm_label_ok|exact H1]).
  assert (issued s1 ⊆ issued s') as Hsub.
  { clear IH Hcalm H1 Hr. revert s1 Hr1 H. induction Hls as [|l' ls Hl' Hls IH]; intros s1 Hr1; cbn [sys_run].
    { by intros [= <-]. }
    intros (s2 & H2 & H)%comp_bind_Ret.
    etrans; [eapply sys_step_issued; [exact Hr1|by apply calm_label_ok|exact H2]|].
    apply (IH s2); [|done]. eapply sys_next; [exact Hr1|by apply calm_label_ok|exact H2]. }
  pose proof (calm_step c l s s1 Hr (good_sub _ _ Hsub Hgood) Hl Hcalm H1) as Hcalm1.
  by apply (IH s1).
Qed.
End calm.


(** *** A service with handlers that return, fail and panic *)

#[local] Existing Instance struct_decoder.

Definition ping_callback : @RequestCallback nat unit unit unit :=
  λ _ _ w, Some (Ret (Val (AString "pong"), None), Datatypes.S w).
Definition fail_callback : @RequestCallback nat unit unit unit :=
  λ _ _ w, Some (Ret (Val ANil, Some (ErrorRPC (mkRPCError 7 "no" ANil))), w).
Definition boom_callback : @RequestCallback nat unit unit unit :=
  λ _ _ w, Some (Panic (PanicError (ErrorString "boom")), w).

(** One integer, and perhaps texts after it. *)
Definition echo_schema : Schema := MethodSchema mixin0 [NewIntegerSchema] (Some NewStringSchema) (Some NewStringSchema).

Definition service_actor : demo_actor :=
  mkActor true true [("echo", mkHandler ping_callback (Some echo_schema)); ("fail", mkHandler fail_callback None);
    ("boom", mkHandler boom_callback None)] None None [].

Lemma service_handlers method handler :
  getHandler service_actor method = Some handler →
  handler_schema handler ∈ [None; Some echo_schema] ∧
  callback handler ∈ [ping_callback; fail_callback; boom_callback].
Proof.
  unfold getHandler. simpl. repeat (case_decide; [intros [= <-]; split; cbn; set_solver|]). done.
Qed.

Lemma service_schema_ok s : Some s ∈ [None; Some echo_schema] → s = echo_schema ∧ schema_ok s.
Proof. rewrite !elem_of_cons. intros [[=]|[[= ->]|[]%elem_of_nil]]. split; [done|]. by repeat split. Qed.

Lemma service_ready req l a : family service_actor !! l = Some a → actor_ready req a.
Proof.
  intros [[_ ->]|[_ ->]]%family_lookup; (split; [done|]); (split; [|done]); intros method handler; [done|].
  intros [Hs Hin]%service_handlers. split.
  - intros ps w. rewrite !elem_of_cons in Hin. destruct Hin as [->|[->|[->|[]%elem_of_nil]]]; by eexists _, _.
  - destruct (handler_schema handler) as [s|]; [by apply service_schema_ok|done].
Qed.

Lemma service_fits m m' req l a :
  message_wire (MRequest m) → message_norm (MRequest m) = MRequest m' →
  family service_actor !! l = Some a → actor_fits m' req a.
Proof.
  intros Hm Hm'.
  intros [[_ ->]|[_ ->]]%family_lookup; (split; [done|]); (split; [|done]); intros method handler; [done|].
  intros [Hs Hin]%service_handlers. split.
  - intros ps w.
    rewrite !elem_of_cons in Hin. destruct Hin as [->|[->|[->|[]%elem_of_nil]]]; eexists _, _; (split; [done|]).
    + split; [done|]. cbn -[maxNestingDepth]. intros j [= <-]. apply Nat.leb_le. by vm_compute.
    + by apply text_error_fits.
    + done.
  - destruct (handler_schema handler) as [s|]; [|done]. apply service_schema_ok in Hs as [-> Hs]. split; [done|].
    intros data pos Hdata. apply (method_schema_texts (H:=struct_decoder_ok) m m'); [by repeat split|done..].
Qed.

Definition service_feed (fuel : nat) (msg : Message) : act nat panic feed_result :=
  @Feed nat unit unit unit Schema (family service_actor) Schema_ops struct_decoder fuel 0
    (session_request (WSSession true) tt None tt msg).

Definition service_run (fuel : nat) := sys_run ws_link (λ _, "") (WSSession true) (service_feed fuel) no_close.

(** A call goes out over a WebSocket, the connection fails, and the client
    connects again. *)
Definition lost_and_dialled : list (@sys_label nat) :=
  starts_call 0 1 ++ [ClientFail ErrorEOF; Client (LConnect None)].

Definition demo_state (ls : list (@sys_label nat)) : @system nat :=
  match service_run 0 ls (new_system 0%nat) with Some (Ret s) => s | _ => new_system 0%nat end.

(** Then another call, which waits. *)
Definition two_waiting : @system nat := demo_state (lost_and_dialled ++ starts_call 1 2).

