(* ===== verification/Fifo.v ===== *)
(** * The example service: examples/fifo/main.go

    An actor with a list of values, which clients push to, pop from and list,
    and with the sessions that subscribed to what is pushed.  The list and the
    subscriptions are the world of its handlers, together with the messages in
    the send channel of each session; a session is named by its id.  The lock
    makes each handler one action.  Sending to a session whose channel is full
    blocks: the handler does not return ([None]).  Log entries are left out,
    and main, which starts a server. *)

From S2P Require Import Prelude GoMap Strconv Values Messages Parse JsonText.
From S2P Require Import Session Clients Listen Methods Schema Validator Builder Actor TypeWrap.
From stdpp Require Import gmap.
From stdpp Require Import options.
#[local] Open Scope Z_scope.

Record fifo_world := mkFifo {
  fifo : list any;
  subs : gomap string;                  (** session ids to sessions *)
  channels : gmap string (list Message) }.

Definition set_fifo (l : list any) (w : fifo_world) : fifo_world := mkFifo l (subs w) (channels w).
Definition set_subs (m : gomap string) (w : fifo_world) : fifo_world := mkFifo (fifo w) m (channels w).

Definition channel (w : fifo_world) (session : string) : list Message := default [] (channels w !! session).

Abbreviation fifo_act := (act fifo_world panic).
Abbreviation reply := (value * option error)%type.

Definition ok (v : any) : reply := (Val v, None).
Definition failure (text : string) : reply := (Val ANil, Some (ErrorRPC (mkRPCError (-400) text ANil))).

(** [session.Send(ntf)] *)
Definition session_Send (session : string) (msg : Message) : fifo_act unit := λ w,
  if (length (channel w session) <? 100)%nat then
    Some (Ret tt, mkFifo (fifo w) (subs w) (<[session := channel w session ++ [msg]]> (channels w)))
  else None.

Definition example_echo (params : list any) : fifo_act reply :=
  mret (ok match params with p :: _ => p | [] => AString "" end).

Definition example_willPanic (params : list any) : fifo_act reply :=
  act_of_outcome (Panic (PanicValue "just panic")).

Fixpoint push_to (sessions : list string) (ntf : Message) : fifo_act unit :=
  match sessions with
  | [] => mret tt
  | session :: sessions => _ ← session_Send session ntf; push_to sessions ntf
  end.

Fixpoint push_elems (elems : list any) : fifo_act unit := λ w,
  match elems with
  | [] => Some (Ret tt, w)
  | elem :: elems =>
      (ntf ← act_of_outcome (NewNotifyMessage "fifo_subscription" (AList [elem]));
       _ ← push_to (map_keys (subs w)) (MNotify ntf); push_elems elems) w
  end.

Definition fifo_push (params : list any) : fifo_act reply := λ w,
  match params with
  | [] => Some (Ret (failure "no object is given"), w)
  | _ => (_ ← push_elems params; mret (ok (AString "ok"))) (set_fifo (fifo w ++ params) w)
  end.

Definition fifo_pop (params : list any) : fifo_act reply := λ w,
  match fifo w with
  | [] => Some (Ret (failure "pop empty array"), w)
  | l => Some (Ret (ok (AString "ok")), set_fifo (take (length l - 1) l) w)
  end.

Definition fifo_list (params : list any) : fifo_act reply := λ w, Some (Ret (ok (AList (fifo w))), w).

Definition fifo_count (params : list any) : fifo_act reply := λ w,
  Some (Ret (ok (AInt (Z.of_nat (length (fifo w))))), w).

(** A typed handler: the value, or an error. *)
Definition fifo_get (at_ : Z) : fifo_act (option any * option error) := λ w,
  if (at_ <? 0) || (Z.of_nat (length (fifo w)) <=? at_) then
    Some (Ret (None, Some (ErrorRPC (mkRPCError (-400) "index out of range" ANil))), w)
  else Some (Ret (fifo w !! Z.to_nat at_, None), w).

Definition fifo_subscribe {Ctx HReq} (req : RPCRequest Ctx HReq string) (params : list any)
    : fifo_act reply := λ w,
  match session req with
  | None => Some (Ret (ok (AString "no sesion")), w)
  | Some session => Some (Ret (ok (AString "ok")), set_subs (map_set session session (subs w)) w)
  end.

(** The close handler; a nil session panics when its id is logged. *)
Definition fifo_unsub (session : option string) : fifo_act unit := λ w,
  match session with
  | None => Some (Panic nil_deref, w)
  | Some session => Some (Ret tt, set_subs (map_del session (subs w)) w)
  end.

(** ** The actor *)

Definition count_schema : string :=
  "{" +:+ quote "description" +:+ ": " +:+ quote "get the element count" +:+ ", "
    +:+ quote "params" +:+ ": [], " +:+ quote "returns" +:+ ": " +:+ quote "integer" +:+ "}".

Definition get_schema : string :=
  "{" +:+ quote "description" +:+ ": " +:+ quote "get an element at index" +:+ ", "
    +:+ quote "type" +:+ ": " +:+ quote "method" +:+ ", "
    +:+ quote "params" +:+ ": [" +:+ quote "integer" +:+ "]}".

Section fifo_actor.
Context {Ctx HReq : Type}.
Context (method_set : gotype → list string) (Error : error → string) (ms : @Mapstructure any).
Context (req_value ctx_value : RPCRequest Ctx HReq string → @rvalue any).

Abbreviation Actor := (@Actor fifo_world Ctx HReq string Schema).

Definition int_of (v : any) : Z := match v with AInt z => z | _ => 0 end.

Definition fifo_get_func : @gofunc fifo_world any :=
  mkFunc [GBasic "int"] false [GAny; GError] (λ vs,
    r ← fifo_get (default 0 (int_of ∘ rv_data <$> head vs));
    mret (mkValue GAny <$> r.1, r.2)).

Definition keep (a : Actor) (r : error + Actor) : Actor := match r with inr a => a | inl _ => a end.

Definition fifoActor : result Actor :=
  actor ← On NewActor "example_echo" example_echo [];
  actor ← On actor "example_willPanic" example_willPanic [];
  actor ← On actor "fifo_push" fifo_push [];
  actor ← On actor "fifo_pop" fifo_pop [];
  actor ← On actor "fifo_list" fifo_list [];
  setter ← WithSchemaJson count_schema;
  actor ← On actor "fifo_count" fifo_count [setter];
  setter ← WithSchemaJson get_schema;
  actor ← OnTyped method_set Error ms req_value ctx_value actor "fifo_get" (TFunc fifo_get_func) [setter];
  let actor := keep actor (OnRequest actor "fifo_subscribe" fifo_subscribe []) in
  Ret (keep actor (OnClose actor fifo_unsub)).

(** The schemas are accepted, no name is taken twice, and the typed handler has
    a type that [OnTyped] takes. *)
Lemma fifoActor_made :
  ∃ actor, fifoActor = Ret actor ∧ is_Some (closeHandler actor) ∧
    map_keys (methodHandlers actor) =
      ["example_echo"; "example_willPanic"; "fifo_push"; "fifo_pop"; "fifo_list"; "fifo_count"; "fifo_get";
       "fifo_subscribe"].
Proof using Type.
  eexists. split; [by vm_compute|]. by split; [eexists|].
Qed.
End fifo_actor.

(** ** What the handlers do *)

Definition ntf_of (elem : any) : Message :=
  MNotify (mkNotify (mkBase MKNotify "") "fifo_subscription" [elem] true).

Lemma notify_of elem : NewNotifyMessage "fifo_subscription" (AList [elem]) =
  Ret (mkNotify (mkBase MKNotify "") "fifo_subscription" [elem] true).
Proof. done. Qed.

(** A world after pushing a message to sessions. *)
Definition pushed (sessions : list string) (msgs : list Message) (w w' : fifo_world) : Prop :=
  fifo w' = fifo w ∧ subs w' = subs w ∧
  ∀ session, channel w' session =
    channel w session ++ if bool_decide (session ∈ sessions) then msgs else [].

Lemma session_Send_spec session msg w :
  (length (channel w session) < 100)%nat →
  ∃ w', session_Send session msg w = Some (Ret tt, w') ∧ pushed [session] [msg] w w'.
Proof.
  intros Hlen. unfold session_Send. rewrite (proj2 (Nat.ltb_lt _ _) Hlen). eexists. split; [done|].
  split_and!; [done..|]. intros session'. unfold channel at 1. cbn.
  destruct (decide (session' = session)) as [->|Hne].
  - rewrite (lookup_insert_eq (M:=gmap string)), bool_decide_true by (by left). done.
  - rewrite (lookup_insert_ne (M:=gmap string)), bool_decide_false, app_nil_r; [done| |done].
    by rewrite list_elem_of_singleton.
Qed.

Lemma push_to_spec sessions ntf w :
  NoDup sessions → (∀ session, session ∈ sessions → (length (channel w session) < 100)%nat) →
  ∃ w', push_to sessions ntf w = Some (Ret tt, w') ∧ pushed sessions [ntf] w w'.
Proof.
  intros Hdup. revert w. induction Hdup as [|session sessions Hnot _ IH]; intros w Hroom.
  { exists w. split; [done|]. split_and!; [done..|]. intros session. by rewrite app_nil_r. }
  destruct (session_Send_spec session ntf w) as (w1 & H1 & Hf1 & Hs1 & Hc1); [apply Hroom; by left|].
  destruct (IH w1) as (w2 & H2 & Hf2 & Hs2 & Hc2).
  { intros s Hs. rewrite Hc1, bool_decide_false, app_nil_r by (intros ->%list_elem_of_singleton; done).
    apply Hroom. by right. }
  exists w2. cbn [push_to]. rewrite (act_bind_Ret _ _ _ _ _ H1). split; [done|].
  split_and!; [congruence..|]. intros s. rewrite Hc2, Hc1, <- app_assoc. f_equal.
  destruct (decide (s = session)) as [->|Hne].
  - rewrite (bool_decide_true (session ∈ [session])) by by left.
    rewrite (bool_decide_true (session ∈ session :: sessions)) by by left. by rewrite bool_decide_false.
  - rewrite (bool_decide_false (s ∈ [session])) by (by rewrite list_elem_of_singleton). cbn.
    by rewrite (bool_decide_ext (s ∈ sessions) (s ∈ session :: sessions)) by set_solver.
Qed.

Lemma push_elems_spec elems w :
  NoDup (map_keys (subs w)) →
  (∀ session, session ∈ map_keys (subs w) → (length (channel w session) + length elems ≤ 100)%nat) →
  ∃ w', push_elems elems w = Some (Ret tt, w') ∧ pushed (map_keys (subs w)) (ntf_of <$> elems) w w'.
Proof.
  revert w. induction elems as [|elem elems IH]; intros w Hdup Hroom.
  { exists w. split; [done|]. split_and!; [done..|]. intros s. by case_bool_decide; rewrite app_nil_r. }
  destruct (push_to_spec (map_keys (subs w)) (ntf_of elem) w Hdup) as (w1 & H1 & Hf1 & Hs1 & Hc1).
  { intros s Hs. specialize (Hroom s Hs). simpl in Hroom. lia. }
  destruct (IH w1) as (w2 & H2 & Hf2 & Hs2 & Hc2).
  { by rewrite Hs1. }
  { rewrite Hs1. intros s Hs. rewrite Hc1, bool_decide_true, length_app by done.
    specialize (Hroom s Hs). simpl in *. lia. }
  exists w2. cbn [push_elems]. rewrite notify_of. split.
  - change ((_ ← push_to (map_keys (subs w)) (ntf_of elem); push_elems elems) w = Some (Ret tt, w2)).
    by rewrite (act_bind_Ret _ _ _ _ _ H1).
  - split_and!; [congruence..|]. intros s. rewrite Hc2, Hs1, Hc1, <- app_assoc. by case_bool_decide.
Qed.

(** C33. Pushing appends the values, and tells every subscriber of each of them, in
    order, if the channels have room. *)
Theorem fifo_push_spec params w :
  params ≠ [] → NoDup (map_keys (subs w)) →
  (∀ session, session ∈ map_keys (subs w) → (length (channel w session) + length params ≤ 100)%nat) →
  ∃ w', fifo_push params w = Some (Ret (ok (AString "ok")), w') ∧
    fifo w' = fifo w ++ params ∧ subs w' = subs w ∧
    ∀ session, channel w' session =
      channel w session ++ if bool_decide (session ∈ map_keys (subs w)) then ntf_of <$> params else [].
Proof.
  intros Hne Hdup Hroom. destruct (push_elems_spec params (set_fifo (fifo w ++ params) w) Hdup Hroom)
    as (w' & H & Hf & Hs & Hc).
  exists w'. split; [|done]. destruct params as [|p params]; [done|]. unfold fifo_push.
  by rewrite (act_bind_Ret _ _ _ _ _ H).
Qed.

Lemma fifo_push_spec_witness :
  ∃ w', fifo_push [AInt 1; AInt 2] (mkFifo [AInt 0] [("s1", "s1")] ∅)
      = Some (Ret (ok (AString "ok")), w') ∧
    fifo w' = [AInt 0; AInt 1; AInt 2] ∧ channel w' "s1" = ntf_of <$> [AInt 1; AInt 2].
Proof.
  destruct (fifo_push_spec [AInt 1; AInt 2] (mkFifo [AInt 0] [("s1", "s1")] ∅)) as (w' & H & Hf & _ & Hc).
  - done.
  - apply NoDup_singleton.
  - intros session _. vm_compute. lia.
  - exists w'. split_and!; [exact H|exact Hf|exact (Hc "s1")].
Defined.

(** A subscriber whose channel is full, because its peer does not read or its
    send loop has ended, makes [fifo_push] block, with the lock in its hand. *)
Theorem fifo_push_blocks params w session sessions :
  params ≠ [] → map_keys (subs w) = session :: sessions → (100 ≤ length (channel w session))%nat →
  fifo_push params w = None.
Proof.
  intros Hne Hs Hfull. destruct params as [|p params]; [done|].
  assert (session_Send session (ntf_of p) (set_fifo (fifo w ++ p :: params) w) = None) as H.
  { unfold session_Send. change (channel (set_fifo _ w) session) with (channel w session).
    by rewrite (proj2 (Nat.ltb_ge _ _) Hfull). }
  unfold fifo_push. cbn [push_elems]. rewrite notify_of.
  change (((_ ← (λ w0, (_ ← push_to (map_keys (subs w0)) (ntf_of p); push_elems params) w0);
    mret (ok (AString "ok"))) : fifo_act reply) (set_fifo (fifo w ++ p :: params) w) = None).
  unfold mbind, act_mbind. cbn [subs set_fifo]. rewrite Hs. cbn [push_to].
  unfold mbind, act_mbind. by rewrite H.
Qed.

(** The list is a stack: popping takes the value pushed last. *)
Theorem fifo_pop_last x w :
  fifo_pop [] (set_fifo (fifo w ++ [x]) w) = Some (Ret (ok (AString "ok")), w).
Proof.
  unfold fifo_pop. cbn [fifo set_fifo]. destruct (fifo w ++ [x]) as [|y l] eqn:Hl.
  { by destruct (fifo w). }
  rewrite <- Hl, length_app. simpl. replace (length (fifo w) + 1 - 1)%nat with (length (fifo w)) by lia.
  rewrite take_app_length. unfold set_fifo. by destruct w.
Qed.

Lemma fifo_get_spec i w :
  fifo_get i w = Some (match fifo w !! Z.to_nat i with
                       | Some v => if bool_decide (0 ≤ i) then Ret (Some v, None) else
                           Ret (None, Some (ErrorRPC (mkRPCError (-400) "index out of range" ANil)))
                       | None => Ret (None, Some (ErrorRPC (mkRPCError (-400) "index out of range" ANil)))
                       end, w).
Proof.
  unfold fifo_get. destruct (Z.ltb_spec i 0); cbn [orb].
  - rewrite bool_decide_false by lia. by destruct (fifo w !! _).
  - rewrite bool_decide_true by lia. destruct (Z.leb_spec (Z.of_nat (length (fifo w))) i).
    + by rewrite lookup_ge_None_2 by lia.
    + destruct (lookup_lt_is_Some_2 (fifo w) (Z.to_nat i)) as [v ->]; [lia|done].
Qed.

(** A session that has been closed is not told any more. *)
Lemma fifo_unsub_spec session w :
  ∃ w', fifo_unsub (Some session) w = Some (Ret tt, w') ∧ session ∉ map_keys (subs w') ∧ fifo w' = fifo w.
Proof. eexists. split; [done|]. split; [|done]. apply map_get_None, map_get_del_eq. Qed.

Lemma fifo_subscribe_keeps {Ctx HReq} (req : RPCRequest Ctx HReq string) params w :
  map_ok (subs w) →
  ∃ r w', fifo_subscribe req params w = Some (Ret r, w') ∧ map_ok (subs w') ∧ fifo w' = fifo w.
Proof.
  intros Hok. unfold fifo_subscribe. destruct (session req); eexists _, _; (split; [done|]); [|done].
  split; [by apply map_set_ok|done].
Qed.

(** ** Requests to the service *)

Definition int_ms : @Mapstructure any := mkMapstructure (λ _, AInt 0)
  (λ out a, match a with
            | ANumber s => match ParseInt s with
                           | Some z => inr (Some (mkValue (GBasic "int") (AInt z)))
                           | None => inl (ErrorString "cannot parse as int")
                           end
            | _ => inl (ErrorString "expected int")
            end)
  (λ _ v, inr match v with Some v => rv_data v | None => ANil end).

Definition fifo_heap : @Heap fifo_world unit unit string Schema :=
  match fifoActor (λ _, []) error_text int_ms (λ _, mkValue GRPCRequest ANil) (λ _, mkValue GContext ANil) with
  | Ret actor => {[0%nat := actor]}
  | Panic _ => ∅
  end.

Definition fifo_request (method : string) (params : list any) : RPCRequest unit unit string :=
  WithSession "s1" (NewRPCRequest tt
    (MRequest (mkRequest (mkBase MKRequest "") (AInt 1) method params true)) "tcp").

(** The results of requests made one after the other, and the world after them. *)
Fixpoint fifo_feed (reqs : list (string * list any)) (w : fifo_world) : list (option any) * fifo_world :=
  match reqs with
  | [] => ([], w)
  | (method, params) :: reqs =>
      match @Feed fifo_world unit unit string Schema fifo_heap _ struct_decoder 1 0
              (fifo_request method params) w with
      | Some (Ret (Some (MResult m), None), w) =>
          let '(rs, w) := fifo_feed reqs w in (Some (res_Result m) :: rs, w)
      | Some (Ret _, w) => let '(rs, w) := fifo_feed reqs w in (None :: rs, w)
      | _ => ([], w)
      end
  end.

(** The service through its actor: the subscriber hears of both values, the
    last one is popped, and a parameter for [fifo_count] is refused by its
    schema. *)
Example fifo_session :
  let '(results, w) := fifo_feed
    [("fifo_subscribe", []); ("fifo_push", [ANumber "7"; AString "b"]); ("fifo_pop", []); ("fifo_list", []);
     ("fifo_get", [ANumber "0"]); ("fifo_get", [ANumber "1"]); ("fifo_get", [AString "0"]);
     ("fifo_count", []); ("fifo_count", [ANumber "1"]); ("example_echo", [])]
    (mkFifo [] [] ∅) in
  results = [Some (AString "ok"); Some (AString "ok"); Some (AString "ok"); Some (AList [ANumber "7"]);
             Some (ANumber "7"); None; None; Some (AInt 1); None; Some (AString "")] ∧
  channel w "s1" = [ntf_of (ANumber "7"); ntf_of (AString "b")].
Proof. by vm_compute. Qed.

(** ** The service on a TCP server *)

(** The id of the n-th session. *)
Definition fifo_session_id (n : nat) : string := "session-" +:+ Itoa (Z.of_nat n).

Definition fifo_server_feed (n : nat) (msg : Message) : act fifo_world panic feed_result :=
  @Feed fifo_world unit unit string Schema fifo_heap _ struct_decoder 1 0
    (session_request TCPSession tt None (fifo_session_id n) msg).

Definition fifo_server_close (n : nat) : act fifo_world panic unit :=
  HandleClose fifo_heap 1 0 (Some (fifo_session_id n)).

Definition fifo_server := server_run TCPSession "tcp.Accept" fifo_server_feed fifo_server_close.

Definition fifo_call (method : string) (params : list json) : label :=
  LRead (ReadStream
    [ScanValue (JObj [("jsonrpc", JStr "2.0"); ("id", JNum "1"); ("method", JStr method); ("params", JArr params)])]).

(** Two clients connect; the first subscribes and hangs up at once, so that its
    session ends before the goroutine of the request has run; the other then
    pushes. *)
Definition hang_up : list (server_label fifo_world) :=
  [SStart None; STest 0; SAccept 0 None; STest 0; SAccept 0 None] ++
  (SSession 0 <$> [fifo_call "fifo_subscribe" []; LRead (ReadStream []); LTask 1; LDone; LClose; LTask 0]) ++
  [SSession 1 (fifo_call "fifo_push" (replicate 101 (JNum "7")))].

