(* ===== verification/Flags.v ===== *)
(** * Command-line flags: the package flag as the tools use it

    Each tool declares flags, strings, integers, truth values and repeated
    headers, and lets [FlagSet.Parse] take them from the front of its
    arguments.  [Set] of a flag reads its text as strconv does with base 0:
    prefixes for other bases and underscores between digits.  Messages of
    errors are left out, which go to the standard error. *)

From Stdlib Require Import Ascii.
From S2P Require Import Prelude GoMap Strconv Values Messages Parse JsonText WireText.
From S2P Require Import StreamingClient Http Auth Session Clients.
From stdpp Require Import options.
#[local] Open Scope Z_scope.

(** ** Numbers in any base: strconv with base 0 *)

Definition any_digit (c : ascii) : option Z :=
  if is_digit c then Some (digit_val c)
  else if is_lower (to_lower c) then Some (Z.of_N (code (to_lower c)) - 87)
  else None.

(** The digits, and underscores among them. *)
Fixpoint digits_in (base acc : Z) (s : string) : option Z :=
  match s with
  | EmptyString => Some acc
  | String c r =>
      if (c =? "_")%char then digits_in base acc r
      else d ← any_digit c; if d <? base then digits_in base (acc * base + d) r else None
  end.

Definition prefix_base (c : ascii) : option Z :=
  match to_lower c with
  | "b" => Some 2
  | "o" => Some 8
  | "x" => Some 16
  | _ => None
  end%char.

(** The base, and the digits after its prefix. *)
Definition base_of (s : string) : Z * string :=
  match s with
  | String "0" r =>
      match r with
      | String c (String _ _ as r') =>
          match prefix_base c with Some base => (base, r') | None => (8, r) end
      | _ => (8, r)
      end
  | _ => (10, s)
  end%char.

Definition underscoreOK (s : string) : bool :=
  match s with
  | String "0" (String c r) =>
      match prefix_base c with
      | Some base => underscore_ok (base =? 16)%Z "0" r
      | None => underscore_ok false "^" s
      end
  | _ => underscore_ok false "^" s
  end%char.

(** [strconv.ParseUint(s, 0, 64)]; [None] stands for every error. *)
Definition ParseUint0 (s : string) : option Z :=
  if bool_decide (s = "") then None else
  let '(base, digits) := base_of s in
  n ← digits_in base 0 digits;
  if underscoreOK s && (n <? 2 ^ 64) then Some n else None.

(** [strconv.ParseInt(s, 0, 64)] *)
Definition ParseInt0 (s : string) : option Z :=
  let '(neg, r) := strip_sign s in
  un ← ParseUint0 r;
  let n := if (neg : bool) then - un else un in
  if is_int64 n then Some n else None.

Definition ParseBool (s : string) : option bool :=
  if bool_decide (s ∈ ["1"; "t"; "T"; "TRUE"; "true"; "True"]) then Some true
  else if bool_decide (s ∈ ["0"; "f"; "F"; "FALSE"; "false"; "False"]) then Some false
  else None.

Example numbers_of_flags :
  ParseInt0 "10" = Some 10 ∧ ParseInt0 "-0x1F" = Some (-31) ∧ ParseInt0 "010" = Some 8 ∧
  ParseInt0 "1_000" = Some 1000 ∧ ParseInt0 "1__0" = None ∧ ParseInt0 "_1" = None ∧ ParseInt0 "0x" = None ∧
  ParseInt0 "0b102" = None ∧ ParseUint0 "+1" = None ∧ ParseUint0 "18446744073709551616" = None ∧
  ParseInt0 "9223372036854775808" = None ∧ ParseInt0 "0" = Some 0 ∧ ParseInt0 "" = None.
Proof. by vm_compute. Qed.

(** Decimal texts mean what they say. *)
Lemma pretty_N_go_digits x s :
  string_forallb is_digit s = true → string_forallb is_digit (pretty_N_go x s) = true.
Proof.
  revert s. induction (N.lt_wf_0 x) as [x _ IH]. intros s Hs. destruct (decide (x = 0)%N) as [->|Hx].
  { by rewrite pretty_N_go_0. }
  rewrite pretty_N_go_step by lia. apply IH; [apply N.div_lt; lia|]. cbn [string_forallb].
  by destruct (pretty_N_char_digit (x `mod` 10) (N.mod_lt x 10 ltac:(done))) as [-> _].
Qed.

Lemma pretty_N_digits x : string_forallb is_digit (pretty_N x) = true.
Proof. unfold pretty_N. case_decide; [done|]. by apply pretty_N_go_digits. Qed.

Lemma digits_in_decimal acc s :
  string_forallb is_digit s = true → digits_in 10 acc s = digits_value acc s.
Proof.
  revert acc. induction s as [|c s IH]; intros acc; [done|]. cbn [string_forallb digits_in digits_value].
  intros [Hc Hs]%andb_true_iff. unfold any_digit. rewrite Hc, <- IH by done.
  assert ((c =? "_")%char = false) as ->
    by (destruct (Ascii.eqb_spec c "_") as [->|]; [by vm_compute in Hc|done]).
  assert (digit_val c <? 10 = true) as Hlt; [|cbn [mbind option_bind]; by rewrite Hlt].
  unfold is_digit, in_range in Hc. apply andb_true_iff in Hc as [_ Hc]. apply N.leb_le in Hc.
  apply Z.ltb_lt. unfold digit_val. lia.
Qed.

Lemma underscore_ok_digits c s :
  (c =? "_")%char = false → string_forallb is_digit s = true → underscore_ok false c s = true.
Proof.
  revert c. induction s as [|d s IH]; intros c Hc; cbn [string_forallb underscore_ok]; [by rewrite Hc|].
  intros [-> Hs]%andb_true_iff. cbn. by apply IH.
Qed.

(** The first digit is not zero. *)
Definition head_ok (s : string) : Prop := match s with String "0" _ => False | EmptyString => False | _ => True end%char.

Lemma pretty_N_go_head x s : x ≠ 0%N → head_ok (pretty_N_go x s).
Proof.
  revert s. induction (N.lt_wf_0 x) as [x _ IH]. intros s Hx. rewrite pretty_N_go_step by lia.
  destruct (decide (x `div` 10 = 0)%N) as [Hd|Hd].
  - rewrite Hd, pretty_N_go_0. assert (x < 10)%N as Hlt by (apply N.div_small_iff in Hd; lia).
    rewrite N.mod_small by done.
    assert (x = 1 ∨ x = 2 ∨ x = 3 ∨ x = 4 ∨ x = 5 ∨ x = 6 ∨ x = 7 ∨ x = 8 ∨ x = 9)%N as Hc by lia.
    destruct_or! Hc; by subst.
  - apply IH; [apply N.div_lt; lia|done].
Qed.

Lemma base_of_decimal s : head_ok s → base_of s = (10, s) ∧ underscoreOK s = underscore_ok false "^" s.
Proof. destruct s as [|c s]; [done|]. by destruct c as [[] [] [] [] [] [] [] []]. Qed.

Lemma ParseUint0_pretty_N x :
  ParseUint0 (pretty_N x) = if Z.of_N x <? 2 ^ 64 then Some (Z.of_N x) else None.
Proof.
  destruct (decide (x = 0)%N) as [->|Hx]; [done|]. unfold ParseUint0.
  rewrite bool_decide_false by apply pretty_N_nonempty.
  pose proof (pretty_N_digits x) as Hd. pose proof (ParseUint_pretty_N x) as Hp.
  assert (head_ok (pretty_N x)) as Hh by (unfold pretty_N; case_decide; [done|by apply pretty_N_go_head]).
  destruct (base_of_decimal _ Hh) as [-> ->]. rewrite digits_in_decimal, underscore_ok_digits by done.
  unfold ParseUint in Hp. destruct (pretty_N x); [done|]. rewrite Hp. done.
Qed.

(** What Itoa prints is read back, if it fits. *)
Lemma ParseInt0_Itoa z : ParseInt0 (Itoa z) = if is_int64 z then Some z else None.
Proof.
  assert (∀ x neg, is_int64 (if (neg : bool) then - Z.of_N x else Z.of_N x) = true → Z.of_N x <? 2 ^ 64 = true) as Hfit.
  { intros x neg H%is_int64_spec. unfold min_int64, max_int64 in H. apply Z.ltb_lt. destruct neg; lia. }
  destruct z as [|p|p]; [done|..].
  - assert (Itoa (Zpos p) = pretty_N (Npos p)) as -> by done.
    assert (strip_sign (pretty_N (Npos p)) = (false, pretty_N (Npos p))) as Hs.
    { pose proof (pretty_N_digits (Npos p)) as Hd. destruct (pretty_N (Npos p)) as [|c s]; [done|].
      cbn [string_forallb] in Hd. apply andb_true_iff in Hd as [Hc _].
      by destruct c as [[] [] [] [] [] [] [] []]. }
    unfold ParseInt0. rewrite Hs, ParseUint0_pretty_N. change (Z.of_N (N.pos p)) with (Zpos p).
    specialize (Hfit (Npos p) false). cbn [Z.of_N] in Hfit.
    destruct (is_int64 (Zpos p)) eqn:Hi; [rewrite Hfit by done; cbn; by rewrite Hi|].
    destruct (Zpos p <? 2 ^ 64); [cbn; by rewrite Hi|done].
  - assert (Itoa (Zneg p) = String "-" (pretty_N (Npos p))) as -> by done.
    unfold ParseInt0. cbn [strip_sign]. rewrite ParseUint0_pretty_N. change (Z.of_N (N.pos p)) with (Zpos p).
    specialize (Hfit (Npos p) true). cbn [Z.of_N Z.opp] in Hfit.
    destruct (is_int64 (Zneg p)) eqn:Hi.
    + rewrite Hfit by done. cbn -[is_int64]. change (- Z.pos p) with (Z.neg p). by rewrite Hi.
    + destruct (Zpos p <? 2 ^ 64); [|done]. cbn -[is_int64]. change (- Z.pos p) with (Z.neg p). by rewrite Hi.
Qed.

(** ** Flags and their values *)

Inductive flag_value : Type :=
  | VString (s : string)
  | VInt (z : Z)
  | VUint (z : Z)
  | VBool (b : bool)
  | VHeaders (l : HeaderFlags).

(** [Set], and [None] for its errors. *)
Definition flag_Set (v : flag_value) (text : string) : option flag_value :=
  match v with
  | VString _ => Some (VString text)
  | VInt _ => VInt <$> ParseInt0 text
  | VUint _ => VUint <$> ParseUint0 text
  | VBool _ => VBool <$> ParseBool text
  | VHeaders l => Some (VHeaders (HeaderFlags_Set text l))
  end.

(** The flags of a set, by name. *)
Abbreviation FlagSet := (gomap flag_value).

(** What [FlagSet.Parse] leaves: the values and [Args()], or the end of the
    process, with the usage text or the message of an error. *)
Inductive flag_end : Type :=
  | Parsed (fs : FlagSet) (args : list string)
  | Usage
  | BadFlag.

(** *** The shape of an argument *)

Inductive flag_token : Type :=
  | NotFlag
  | Terminator
  | BadSyntax
  | FlagToken (name : string) (value : option string).

Definition minus : ascii := "-"%char.
Definition equals : ascii := "="%char.

Definition flag_token_of (s : string) : flag_token :=
  match s with
  | String m (String c r) =>
      if (m =? minus)%char then
        if (c =? minus)%char && bool_decide (r = "") then Terminator else
        let name := if (c =? minus)%char then r else String c r in
        match name with
        | EmptyString => BadSyntax
        | String c' _ =>
            if (c' =? minus)%char || (c' =? equals)%char then BadSyntax else
            match cut equals name with
            | Some (name, value) => FlagToken name (Some value)
            | None => FlagToken name None
            end
        end
      else NotFlag
  | _ => NotFlag
  end.

Example tokens_of_arguments :
  flag_token_of "-c=http://h/?a=b" = FlagToken "c" (Some "http://h/?a=b") ∧
  flag_token_of "--retry" = FlagToken "retry" None ∧ flag_token_of "-" = NotFlag ∧
  flag_token_of "--" = Terminator ∧ flag_token_of "---x" = BadSyntax ∧ flag_token_of "-=1" = BadSyntax ∧
  flag_token_of "-5" = FlagToken "5" None ∧ flag_token_of "get" = NotFlag.
Proof. by vm_compute. Qed.

(** [parseOne], as long as it finds flags. *)
Fixpoint flag_Parse (fs : FlagSet) (args : list string) : flag_end :=
  match args with
  | [] => Parsed fs []
  | s :: rest =>
      match flag_token_of s with
      | NotFlag => Parsed fs args
      | Terminator => Parsed fs rest
      | BadSyntax => BadFlag
      | FlagToken name value =>
          match map_get name fs with
          | None => if bool_decide (name ∈ ["help"; "h"]) then Usage else BadFlag
          | Some v =>
              match v, value, rest with
              | VBool _, None, _ => flag_Parse (map_set name (VBool true) fs) rest
              | _, Some text, _ =>
                  match flag_Set v text with Some v => flag_Parse (map_set name v fs) rest | None => BadFlag end
              | _, None, text :: rest =>
                  match flag_Set v text with Some v => flag_Parse (map_set name v fs) rest | None => BadFlag end
              | _, None, [] => BadFlag
              end
          end
      end
  end.

Definition demo_flags : FlagSet :=
  [("c", VString ""); ("retry", VInt 1); ("header", VHeaders []); ("dumpheader", VBool false)].

Example flags_of_arguments :
  flag_Parse demo_flags ["-c"; "ws://h"; "-header"; "a: 1"; "--header=b: 2"; "-dumpheader"; "get"; "-5"] =
    Parsed [("c", VString "ws://h"); ("retry", VInt 1); ("header", VHeaders ["a: 1"; "b: 2"]);
            ("dumpheader", VBool true)] ["get"; "-5"] ∧
  flag_Parse demo_flags ["-retry"; "-2"; "--"; "-c"] =
    Parsed (map_set "retry" (VInt (-2)) demo_flags) ["-c"] ∧
  flag_Parse demo_flags ["-retry"; "two"] = BadFlag ∧ flag_Parse demo_flags ["-c"] = BadFlag ∧
  flag_Parse demo_flags ["-dumpheader=maybe"] = BadFlag ∧ flag_Parse demo_flags ["-h"] = Usage ∧
  flag_Parse demo_flags ["-5"] = BadFlag.
Proof. by vm_compute. Qed.

(** ** What parsing keeps *)

Definition same_kind (v w : flag_value) : Prop :=
  match v, w with
  | VString _, VString _ | VInt _, VInt _ | VUint _, VUint _ | VBool _, VBool _ | VHeaders _, VHeaders _ => True
  | _, _ => False
  end.

Lemma same_kind_refl v : same_kind v v.
Proof. by destruct v. Qed.

Lemma same_kind_trans v1 v2 v3 : same_kind v1 v2 → same_kind v2 v3 → same_kind v1 v3.
Proof. by destruct v1, v2, v3. Qed.

Lemma flag_Set_kind v text v' : flag_Set v text = Some v' → same_kind v v'.
Proof.
  destruct v; cbn [flag_Set]; [by intros [= <-]|..|by intros [= <-]];
    by intros (x & _ & ->)%fmap_Some.
Qed.

(** The same flags, with values of the same types. *)
Definition same_flags (fs fs' : FlagSet) : Prop := ∀ name,
  match map_get name fs, map_get name fs' with
  | Some v, Some v' => same_kind v v'
  | None, None => True
  | _, _ => False
  end.

Lemma same_flags_refl fs : same_flags fs fs.
Proof. intros name. destruct (map_get name fs); [apply same_kind_refl|done]. Qed.

Lemma same_flags_set name v v' fs fs' :
  map_get name fs = Some v → same_kind v v' → same_flags (map_set name v' fs) fs' → same_flags fs fs'.
Proof.
  intros Hv Hk H name'. specialize (H name'). destruct (decide (name' = name)) as [->|Hne].
  - rewrite map_get_set_eq in H. rewrite Hv. destruct (map_get name fs'); [|done]. by eapply same_kind_trans.
  - by rewrite map_get_set_ne in H.
Qed.

Lemma flag_Parse_keeps_at n fs args fs' rest :
  (length args ≤ n)%nat → flag_Parse fs args = Parsed fs' rest → same_flags fs fs' ∧ rest `suffix_of` args.
Proof.
  revert fs args. induction n as [|n IH]; intros fs [|s args]; cbn [length]; intros Hn;
    try lia; try (cbn; intros [= <- <-]; split; [apply same_flags_refl|done]).
  cbn [flag_Parse]. destruct (flag_token_of s) as [| | |name value].
  - intros [= <- <-]. split; [apply same_flags_refl|done].
  - intros [= <- <-]. split; [apply same_flags_refl|by apply suffix_cons_r].
  - done.
  - destruct (map_get name fs) as [v|] eqn:Hv; [|by case_bool_decide].
    assert (∀ v' args', (length args' ≤ n)%nat → args' `suffix_of` args → same_kind v v' →
      flag_Parse (map_set name v' fs) args' = Parsed fs' rest → same_flags fs fs' ∧ rest `suffix_of` s :: args) as Hgo.
    { intros v' args' Hlen Hsuf Hk H. destruct (IH _ _ Hlen H) as [Hs Hr].
      split; [by eapply same_flags_set|]. apply suffix_cons_r. by etrans. }
    assert (∀ text args', (length args' ≤ n)%nat → args' `suffix_of` args →
      match flag_Set v text with Some v => flag_Parse (map_set name v fs) args' | None => BadFlag end
        = Parsed fs' rest → same_flags fs fs' ∧ rest `suffix_of` s :: args) as Hset.
    { intros text args' Hlen Hsuf. destruct (flag_Set v text) as [v'|] eqn:Hset; [|done].
      apply Hgo; [done|done|by eapply flag_Set_kind]. }
    destruct value as [text|]; [destruct v; apply Hset; (done || lia)|].
    destruct args as [|text args]; [destruct v; [done..|apply (Hgo (VBool true)); (done || lia)|done]|].
    simpl in Hn.
    destruct v; [..|apply (Hgo (VBool true)); (done || (simpl; lia))|];
      apply Hset; (lia || by apply suffix_cons_r).
Qed.

(** Parsing keeps the flags and their types, and leaves the end of the
    arguments. *)
Lemma flag_Parse_keeps fs args fs' rest :
  flag_Parse fs args = Parsed fs' rest → same_flags fs fs' ∧ rest `suffix_of` args.
Proof. by apply (flag_Parse_keeps_at (length args)). Qed.

(** ** Writing flags, and reading them back *)

(** One way of giving a flag on a command line: [-name=text], [-name text], or
    [-name] alone for a truth value; each with one minus or two. *)
Inductive spelling : Type := Joined | Separate | Bare.

Record flag_arg := mkFlagArg {
  fa_name : string;
  fa_text : string;
  fa_spelling : spelling;
  fa_double : bool }.

Definition flag_args_of (a : flag_arg) : list string :=
  let word := (if fa_double a then "--" else "-") +:+ fa_name a in
  match fa_spelling a with
  | Joined => [word +:+ "=" +:+ fa_text a]
  | Separate => [word; fa_text a]
  | Bare => [word]
  end.

(** The names that flags can have. *)
Definition flag_name_ok (name : string) : Prop :=
  match name with
  | EmptyString => False
  | String c _ => c ≠ minus
  end ∧ string_forallb (λ c, negb (c =? equals)%char) name = true.

Definition is_bool_flag (v : flag_value) : bool := match v with VBool _ => true | _ => false end.

(** The value that the flag is to have. *)
Definition flag_assign (fs : FlagSet) (a : flag_arg) : option FlagSet :=
  v ← map_get (fa_name a) fs;
  match fa_spelling a with
  | Bare => if is_bool_flag v then Some (map_set (fa_name a) (VBool true) fs) else None
  | Separate =>
      if is_bool_flag v then None else
      v' ← flag_Set v (fa_text a); Some (map_set (fa_name a) v' fs)
  | Joined => v' ← flag_Set v (fa_text a); Some (map_set (fa_name a) v' fs)
  end.

Fixpoint flag_assigns (fs : FlagSet) (l : list flag_arg) : option FlagSet :=
  match l with
  | [] => Some fs
  | a :: l => fs ← flag_assign fs a; flag_assigns fs l
  end.

Lemma cut_None sep s : string_forallb (λ c, negb (c =? sep)%char) s = true → cut sep s = None.
Proof.
  induction s as [|c s IH]; [done|]. cbn [string_forallb cut]. intros [Hc Hs]%andb_true_iff.
  rewrite decide_False by (intros ->; by rewrite Ascii.eqb_refl in Hc). by rewrite IH.
Qed.

Lemma cut_Some sep s t :
  string_forallb (λ c, negb (c =? sep)%char) s = true → cut sep (s +:+ String sep t) = Some (s, t).
Proof.
  induction s as [|c s IH].
  - intros _. change ("" +:+ String sep t) with (String sep t). cbn [cut]. by rewrite decide_True.
  - cbn [string_forallb]. intros [Hc Hs]%andb_true_iff. rewrite string_app_cons. cbn [cut].
    rewrite decide_False by (intros ->; by rewrite Ascii.eqb_refl in Hc). by rewrite IH.
Qed.

Lemma flag_token_word (double : bool) name tail :
  flag_name_ok name → (tail = "" ∨ ∃ text, tail = "=" +:+ text) →
  flag_token_of ((if double then "--" else "-") +:+ name +:+ tail) =
    FlagToken name (match tail with EmptyString => None | String _ text => Some text end).
Proof.
  intros [Hname Heq] Htail. destruct name as [|c name]; [done|].
  assert ((c =? minus)%char = false) as Hm by by apply Ascii.eqb_neq.
  assert ((c =? equals)%char = false) as He.
  { cbn [string_forallb] in Heq. apply andb_true_iff in Heq as [Heq _]. by apply negb_true_iff. }
  assert (cut equals (String c name) = None) as Hnone by by apply cut_None.
  destruct double; rewrite !string_app_cons; change ("" +:+ ?x) with x;
    rewrite ?string_app_cons; change ("" +:+ ?x) with x; cbn [flag_token_of].
  - change ("-" =? minus)%char with true. cbn [andb]. rewrite bool_decide_false by done.
    rewrite Hm, He. cbn [orb]. rewrite <- string_app_cons.
    destruct Htail as [->|(text & ->)]; [by rewrite string_app_nil_r, Hnone|].
    change ("=" +:+ text) with (String equals text). by rewrite cut_Some.
  - change ("-" =? minus)%char with true. rewrite Hm, He. cbn [andb orb]. rewrite Hm. cbn [orb]. rewrite <- string_app_cons.
    destruct Htail as [->|(text & ->)]; [by rewrite string_app_nil_r, Hnone|].
    change ("=" +:+ text) with (String equals text). by rewrite cut_Some.
Qed.

(** One flag is taken from the front. *)
Lemma flag_Parse_arg fs a fs' rest :
  flag_name_ok (fa_name a) → flag_assign fs a = Some fs' →
  flag_Parse fs (flag_args_of a ++ rest) = flag_Parse fs' rest.
Proof.
  intros Hname. unfold flag_assign. intros (v & Hv & H)%bind_Some.
  pose proof (flag_token_word (fa_double a) (fa_name a)) as Htok.
  unfold flag_args_of. destruct (fa_spelling a).
  - apply bind_Some in H as (v' & Hset & [= <-]). cbn [app flag_Parse].
    rewrite string_app_assoc, Htok, Hv by (done || (right; eauto)).
    change ("=" +:+ fa_text a) with (String equals (fa_text a)).
    cbn iota. rewrite Hset. by destruct v.
  - destruct (is_bool_flag v) eqn:Hb; [done|]. apply bind_Some in H as (v' & Hset & [= <-]). cbn [app flag_Parse].
    rewrite <- (string_app_nil_r (fa_name a)) at 1. rewrite Htok, Hv by (done || by left). rewrite Hset.
    by destruct v.
  - destruct (is_bool_flag v) eqn:Hb; [|done]. injection H as <-. cbn [app flag_Parse].
    rewrite <- (string_app_nil_r (fa_name a)) at 1. rewrite Htok, Hv by (done || by left).
    by destruct v.
Qed.

Lemma flag_Parse_args fs l fs' rest :
  Forall (λ a, flag_name_ok (fa_name a)) l → flag_assigns fs l = Some fs' →
  flag_Parse fs ((l ≫= flag_args_of) ++ rest) = flag_Parse fs' rest.
Proof.
  intros Hl. revert fs. induction Hl as [|a l Ha _ IH]; intros fs; cbn [flag_assigns]; [by intros [= <-]|].
  intros (fs1 & H1 & H2)%bind_Some. cbn [mbind list_bind]. rewrite <- app_assoc.
  by rewrite (flag_Parse_arg fs a fs1), IH.
Qed.

(** What follows the flags: arguments of which the first does not look like
    one, or any after the terminator. *)
Definition plain_args (args : list string) : Prop :=
  match args with [] => True | s :: _ => flag_token_of s = NotFlag end.

Lemma flag_Parse_plain fs args : plain_args args → flag_Parse fs args = Parsed fs args.
Proof. destruct args as [|s args]; [done|]. cbn. by intros ->. Qed.

(** Flags are read back.  Whatever flags are given, in whatever order, how
    often and in which of the spellings, they get the values of their texts, the
    later one counting if a flag repeats, headers being collected; and the tool
    gets exactly the arguments that follow. *)
Theorem flag_Parse_reads fs l fs' args :
  Forall (λ a, flag_name_ok (fa_name a)) l → flag_assigns fs l = Some fs' →
  flag_Parse fs ((l ≫= flag_args_of) ++ "--" :: args) = Parsed fs' args ∧
  (plain_args args → flag_Parse fs ((l ≫= flag_args_of) ++ args) = Parsed fs' args).
Proof.
  intros Hl Hfs. split; [by rewrite (flag_Parse_args fs l fs')|].
  intros Hp. rewrite (flag_Parse_args fs l fs') by done. by apply flag_Parse_plain.
Qed.

Lemma flag_Parse_reads_witness :
  let l := [mkFlagArg "retry" (Itoa (-3)) Separate true; mkFlagArg "header" "a: 1" Joined false;
            mkFlagArg "dumpheader" "" Bare false] in
  let fs' := [("c", VString ""); ("retry", VInt (-3)); ("header", VHeaders ["a: 1"]); ("dumpheader", VBool true)] in
  flag_Parse demo_flags ((l ≫= flag_args_of) ++ ["get"; "-c"]) = Parsed fs' ["get"; "-c"].
Proof.
  intros l fs'. apply (flag_Parse_reads demo_flags l fs' ["get"; "-c"]); [|by vm_compute|done].
  by repeat constructor.
Defined.
