(* ===== verification/Cli.v ===== *)
(** * The command-line tools: cli/call, cli/notify, cli/watch, cli/benchmark

    What each main function does once Flags.v has read its flags (Programs.v has
    both parts together): the values of the flags, the environment, files, the
    client made from a URL and what its calls give are arguments; the result is
    what is printed and the exit code.  Log entries and messages to the standard
    error are left out. *)

From Stdlib Require Import SpecFloat.
From S2P Require Import Prelude GoMap Strconv Values Messages Parse JsonText WireText Pretty.
From S2P Require Import StreamingClient Http Http1 Session Utils Clients.
From stdpp Require Import list sorting.
From stdpp Require Import options.
#[local] Open Scope Z_scope.

(** ** What the tools have in common *)

Record cli_flags := mkFlags {
  flag_c : string;              (** the server URL *)
  flag_headers : HeaderFlags;
  flag_args : list string }.

(** The flag, the environment or the default. *)
Definition server_url (flag env default : string) : string :=
  let serverUrl := flag in
  let serverUrl := if bool_decide (serverUrl = "") then env else serverUrl in
  if bool_decide (serverUrl = "") then default else serverUrl.

(** How a tool ends: the lines printed and the exit code. *)
Record cli_end := mkEnd { printed : list string; exit_code : Z }.

Definition exit_1 : cli_end := mkEnd [] 1.

Section cli.
Context (os_Open : string → error + string).
Context (new_client : string → result (error + any_client)).   (** NewClient of a URL *)
Context (env : string).                                        (** JSONRPC_CONNECT *)

(** The method, the parameters, the URL and the headers of a command. *)
Definition parse_command (flags : cli_flags) : option (string * list any * string * http_header) :=
  match flag_args flags with
  | [] => None
  | method :: clParams =>
      match GuessJsonArray os_Open clParams with
      | (_, Some _) => None
      | (params, None) =>
          match HeaderFlags_Parse (flag_headers flags) with
          | inl _ => None
          | inr header => Some (method, params, server_url (flag_c flags) env "http://127.0.0.1:9990", header)
          end
      end
  end.

(** The lines of [-dumpheader]. *)
Definition header_lines (header : http_header) : list string :=
  kvs ← header; (λ value, "  " +:+ kvs.1 +:+ ": " +:+ value) <$> kvs.2.

Definition dump_header (resmsg : Message) : list string :=
  if HasResponseHeader resmsg then "Response header:" :: header_lines (ResponseHeader resmsg) else [].

(** [call]: the client sends a request with these headers. *)
Definition call_main (call : any_client → http_header → RequestMessage → error + Message)
    (flags : cli_flags) (dumpHeader : bool) (reqId : string) : result cli_end :=
  match parse_command flags with
  | None => Ret exit_1
  | Some (method, params, serverUrl, header) =>
      c ← new_client serverUrl;
      match c with
      | inl _ => Ret exit_1
      | inr c =>
          reqmsg ← NewRequestMessage (AString reqId) method (AList params);
          match call c header reqmsg with
          | inl _ => Ret exit_1
          | inr resmsg =>
              match EncodePretty resmsg with
              | inl err => Panic (PanicError err)
              | inr repr => Ret (mkEnd (repr :: if dumpHeader then dump_header resmsg else []) 0)
              end
          end
      end
  end.

Definition notify_main (send : any_client → http_header → Message → option error) (flags : cli_flags)
    : result cli_end :=
  match parse_command flags with
  | None => Ret exit_1
  | Some (method, params, serverUrl, header) =>
      c ← new_client serverUrl;
      match c with
      | inl _ => Ret exit_1
      | inr c =>
          ntfmsg ← NewNotifyMessage method (AList params);
          match send c header (MNotify ntfmsg) with
          | Some _ => Ret exit_1
          | None => Ret (mkEnd [] 0)
          end
      end
  end.

(** What [call] prints is the answer: the text parses back to it. *)
Lemma call_main_prints call flags dumpHeader reqId method params serverUrl header c resmsg :
  parse_command flags = Some (method, params, serverUrl, header) → method ≠ "" →
  new_client serverUrl = Ret (inr c) →
  call c header (mkRequest (mkBase MKRequest "") (AString reqId) method params true) = inr resmsg →
  message_wire resmsg → shallow resmsg →
  ∃ text, call_main call flags dumpHeader reqId =
      Ret (mkEnd (text :: if dumpHeader then dump_header resmsg else []) 0) ∧
    ParseBytes (scan_text text) [] = Ret (inr (message_norm resmsg)).
Proof using Type.
  intros Hcmd Hm Hc Hcall Hw Hs. destruct (pretty_roundtrip resmsg Hw Hs) as (text & Ht & Hp).
  exists text. split; [|exact Hp]. unfold call_main. rewrite Hcmd, Hc.
  cbn [mbind outcome_mbind outcome_bind]. unfold NewRequestMessage. rewrite bool_decide_false by done.
  cbn [mbind outcome_mbind outcome_bind init_params]. rewrite Hcall, Ht. done.
Qed.

(** ** jsonrpc-watch *)

(** All clients but the one for HTTP/1 are Streamable. *)
Definition Streamable (c : any_client) : bool := match c with HTTP1 _ _ => false | _ => true end.

Lemma Streamable_IsStreaming c : Streamable c = IsStreaming c.
Proof. by destruct c. Qed.

Definition watch_command (flags : cli_flags) : option (string * list any * string * http_header) :=
  match HeaderFlags_Parse (flag_headers flags) with
  | inl _ => None
  | inr header =>
      let serverUrl := server_url (flag_c flags) env "ws://127.0.0.1:9990" in
      match flag_args flags with
      | [] => Some ("", [], serverUrl, header)
      | method :: clParams =>
          match GuessJsonArray os_Open clParams with
          | (_, Some _) => None
          | (params, None) => Some (method, params, serverUrl, header)
          end
      end
  end.

(** What [OnMessage] prints; it panics on a message without JSON. *)
Definition watch_message (msg : Message) : result string :=
  match EncodePretty msg with inl _ => Panic (log_panic "on message") | inr repr => Ret repr end.

(** [watch]: with a client that is not Streamable it panics; otherwise the
    watcher runs, which [run] stands for. *)
Definition watch_main {A} (run : any_client → http_header → string → list any → result A) (flags : cli_flags)
    : result (cli_end + A) :=
  match watch_command flags with
  | None => Ret (inl exit_1)
  | Some (method, params, serverUrl, header) =>
      c ← new_client serverUrl;
      match c with
      | inl _ => Ret (inl exit_1)
      | inr c =>
          if Streamable c then inr <$> run c header method params
          else Panic (log_panic "streaming client required")
      end
  end.

(** [benchmark]: what [RunCallBenchmark] is called with. *)
Definition benchmark_main (flags : cli_flags) (concurrency num : Z)
    : cli_end + (string * string * list any * http_header * Z * Z) :=
  match parse_command flags with
  | None => inl exit_1
  | Some (method, params, serverUrl, header) => inr (serverUrl, method, params, header, concurrency, num)
  end.
End cli.

(** What the network gives to one round of the watcher: the connection fails,
    or is made, a call of the method has an outcome and [Wait] returns. *)
Inductive attempt : Type :=
  | ConnectFails (err : error)
  | Connected (reqId : string) (call : RequestMessage → error + Message) (wait : option error).

(** [errors.Is(err, target)] for a target made by errors.New. *)
Fixpoint error_Is (target : string) (err : error) : bool :=
  match err with
  | ErrorString text => bool_decide (text = target)
  | ErrorWithMessage _ cause => error_Is target cause
  | _ => false
  end.

Definition retriable (err : error) : bool :=
  error_Is "connect refused" err || error_Is "streaming closed" err || is_EOF err.

Example retriable_errors :
  retriable TransportConnectFailed = true ∧ retriable TransportClosed = true ∧
  retriable (ErrorWithMessage "RPC(m)" TransportClosed) = true ∧ retriable marshal_error = false.
Proof. done. Qed.

Section watcher.
Context (method : string) (params : list any).

(** [connect]: the counter, reset once connected, the lines printed and the
    error. *)
Definition watcher_connect (connectretry : Z) (a : attempt) : result (Z * list string * option error) :=
  match a with
  | ConnectFails err => Ret (connectretry, [], Some err)
  | Connected reqId call wait =>
      if bool_decide (method = "") then Ret (0, [], wait) else
      reqmsg ← NewRequestMessage (AString reqId) method (AList params);
      match call reqmsg with
      | inl _ => Panic (log_panic "rpc error")
      | inr resmsg =>
          match EncodePretty resmsg with
          | inl _ => Panic (log_panic "encode pretty error")
          | inr repr => Ret (0, [repr], wait)
          end
      end
  end.

(** [run], on the rounds the network has in store: the lines printed and how
    many rounds it goes through, none if it would go on after them. *)
Fixpoint watcher_run (retrylimit connectretry : Z) (attempts : list attempt)
    : result (list string * option nat) :=
  match attempts with
  | [] => Ret ([], None)
  | a :: attempts =>
      r ← watcher_connect connectretry a;
      let '(connectretry, lines, err) := r in
      match err with
      | None => Ret (lines, Some 1%nat)
      | Some err =>
          if retriable err then
            let connectretry := connectretry + 1 in
            if retrylimit <=? connectretry then Ret (lines, Some 1%nat)
            else
              r ← watcher_run retrylimit connectretry attempts;
              Ret (lines ++ r.1, option_map S r.2)
          else Ret (lines, Some 1%nat)
      end
  end.

(** A server that cannot be reached is tried as often as the limit says. *)
Lemma watcher_gives_up retrylimit connectretry attempts :
  Forall (λ a, ∃ err, a = ConnectFails err ∧ retriable err = true) attempts →
  0 ≤ connectretry < retrylimit → retrylimit - connectretry ≤ Z.of_nat (length attempts) →
  watcher_run retrylimit connectretry attempts =
    Ret ([], Some (Z.to_nat (retrylimit - connectretry))).
Proof using Type.
  intros Hall. revert connectretry. induction Hall as [|a attempts (err & -> & He) _ IH];
    intros n Hn Hlen; [simpl in Hlen; lia|].
  cbn. rewrite He. cbn [length] in Hlen. destruct (Z.leb_spec retrylimit (n + 1)).
  - replace (retrylimit - n) with 1 by lia. done.
  - rewrite IH by lia. cbn. do 3 f_equal. lia.
Qed.

(** A round that connects, prints the answer to the call and loses the
    connection. *)
Definition round_lost (line : string) (a : attempt) : Prop :=
  ∃ reqId call resmsg err, a = Connected reqId call (Some err) ∧ retriable err = true ∧
    (∀ reqmsg, call reqmsg = inr resmsg) ∧ EncodePretty resmsg = inr line.

(** With a limit of two or more the watcher connects again whenever the
    connection it had is lost, and calls its method again. *)
Lemma watcher_reconnects retrylimit connectretry attempts lines :
  method ≠ "" → 2 ≤ retrylimit → Forall2 round_lost lines attempts →
  watcher_run retrylimit connectretry attempts = Ret (lines, None).
Proof using Type.
  intros Hm Hlim Hall. revert connectretry.
  induction Hall as [|line a lines attempts (reqId & call & resmsg & err & -> & He & Hc & Hp) _ IH];
    intros n; [done|].
  cbn [watcher_run watcher_connect]. rewrite bool_decide_false by done.
  unfold NewRequestMessage. rewrite bool_decide_false by done. cbn. rewrite Hc, Hp. cbn. rewrite He.
  rewrite (proj2 (Z.leb_gt _ _)) by lia. by rewrite IH.
Qed.

(** With the default limit of one it does not: it ends with the connection. *)
Lemma default_limit connectretry attempts line a :
  method ≠ "" → round_lost line a →
  watcher_run 1 connectretry (a :: attempts) = Ret ([line], Some 1%nat).
Proof using Type.
  intros Hm (reqId & call & resmsg & err & -> & He & Hc & Hp).
  cbn [watcher_run watcher_connect]. rewrite bool_decide_false by done.
  unfold NewRequestMessage. rewrite bool_decide_false by done. cbn. rewrite Hc, Hp. cbn. by rewrite He.
Qed.
End watcher.

(** ** jsonrpc-benchmark *)

Definition uint (n : Z) : Z := n mod 2 ^ 64.

(** [int(0.95 * float64(n))] *)
Definition float_trunc (f : float64) : Z :=
  match f with
  | S754_finite s m e => (if s then -1 else 1) * Z.shiftl (Zpos m) e
  | _ => 0
  end.

Definition pos95 (n : Z) : Z := float_trunc (SFmul prec64 emax64 (ParseFloat "0.95").1 (float_of_Z n)).

(** [toS]: nanoseconds in seconds. *)
Definition toS (ns : Z) : float64 := SFdiv prec64 emax64 (float_of_Z ns) (float_of_Z 1000000000).

Record statistics := mkStatistics { avg : Z; minv : Z; t95 : Z; maxv : Z }.

Definition divide_by_zero : panic := PanicError (ErrorRuntime "integer divide by zero").

(** What [RunCallBenchmark] prints of the times received. *)
Definition RunCallBenchmark (times : list Z) : result statistics :=
  let results := merge_sort Z.le times in
  let sum := fold_left (λ sum usedTime, uint (sum + usedTime)) times 0 in
  match results with
  | [] => Panic divide_by_zero
  | r0 :: _ =>
      match results !! Z.to_nat (pos95 (Z.of_nat (length results))) with
      | None => Panic out_of_range
      | Some t => Ret (mkStatistics (sum / Z.of_nat (length results)) r0 t (List.last results 0))
      end
  end.

(** The line that it prints. *)
Definition benchmark_line (st : statistics) : string :=
  "avg=" +:+ FormatG (toS (avg st)) +:+ "s, min=" +:+ FormatG (toS (minv st)) +:+
  "s, p95=" +:+ FormatG (toS (t95 st)) +:+ "s, max=" +:+ FormatG (toS (maxv st)) +:+ "s".

Example benchmark_lines :
  benchmark_line <$> RunCallBenchmark [3000000; 1500000; 2000000000] =
    Ret "avg=0.668166666s, min=0.0015s, p95=2s, max=2s".
Proof. by vm_compute. Qed.

(** The place of the 95th percentile is in range. *)
Definition max_times : nat := 1000.

Lemma pos95_range n : (0 < n ≤ max_times)%nat → 0 ≤ pos95 (Z.of_nat n) < Z.of_nat n.
Proof.
  intros Hn.
  assert (Forall (λ n, 0 ≤ pos95 (Z.of_nat n) < Z.of_nat n) (seq 1 max_times)) as Hall.
  { apply (bool_decide_unpack _). by vm_compute. }
  rewrite Forall_forall in Hall. apply Hall, elem_of_seq. lia.
Qed.

Lemma fold_sum (times : list Z) acc :
  Forall (λ t, 0 ≤ t) times → 0 ≤ acc → acc + foldr Z.add 0 times < 2 ^ 64 →
  fold_left (λ sum usedTime, uint (sum + usedTime)) times acc = acc + foldr Z.add 0 times.
Proof.
  intros Ht. revert acc. induction Ht as [|t times Ht Hts IH]; intros acc Ha Hlt; simpl in *; [lia|].
  assert (0 ≤ foldr Z.add 0 times) as Hsum by (clear -Hts; induction Hts; simpl; lia).
  unfold uint at 2. rewrite Z.mod_small by lia. rewrite IH by lia. lia.
Qed.

Lemma sum_bounds lo hi (l : list Z) :
  Forall (λ t, lo ≤ t ≤ hi) l →
  lo * Z.of_nat (length l) ≤ foldr Z.add 0 l ≤ hi * Z.of_nat (length l).
Proof. induction 1; simpl; lia. Qed.

Lemma sorted_bounds r0 l :
  StronglySorted Z.le (r0 :: l) → Forall (λ t, r0 ≤ t ≤ List.last (r0 :: l) 0) (r0 :: l).
Proof.
  revert r0. induction l as [|r1 l IH]; intros r0 Hs; [by repeat constructor; simpl; lia|].
  apply StronglySorted_inv in Hs as [Hs H0]. pose proof (IH r1 Hs) as H1.
  change (List.last (r0 :: r1 :: l) 0) with (List.last (r1 :: l) 0).
  apply Forall_cons in H0 as [H01 H0]. constructor.
  - apply Forall_cons in H1 as [H1 _]. lia.
  - eapply Forall_impl; [exact H1|]. simpl. lia.
Qed.

(** The figures of a benchmark: the extremes are those of the times, and the
    average and the percentile lie between them. *)
Theorem RunCallBenchmark_spec times :
  (0 < length times ≤ max_times)%nat → Forall (λ t, 0 ≤ t) times → foldr Z.add 0 times < 2 ^ 64 →
  ∃ st, RunCallBenchmark times = Ret st ∧
    Forall (λ t, minv st ≤ t ≤ maxv st) times ∧ minv st ∈ times ∧ t95 st ∈ times ∧
    minv st ≤ avg st ≤ maxv st.
Proof.
  intros Hlen Hpos Hsum. unfold RunCallBenchmark.
  pose proof (merge_sort_Permutation Z.le times) as Hperm.
  pose proof (StronglySorted_merge_sort Z.le times) as Hsorted.
  pose proof (Permutation_length Hperm) as Hl. rewrite Hl.
  destruct (merge_sort Z.le times) as [|r0 l] eqn:Hr; [simpl in Hl; lia|].
  destruct (pos95_range (length times) Hlen) as [Hp0 Hp1].
  destruct (lookup_lt_is_Some_2 (r0 :: l) (Z.to_nat (pos95 (Z.of_nat (length times))))) as [t Ht];
    [rewrite Hl; lia|].
  rewrite Ht. eexists. split; [done|]. cbn [minv maxv avg t95].
  pose proof (sorted_bounds r0 l Hsorted) as Hb. rewrite fold_sum by done. rewrite Z.add_0_l.
  assert (Forall (λ t, r0 ≤ t ≤ List.last (r0 :: l) 0) times) as Hb' by by rewrite <- Hperm.
  split_and!; [done|rewrite <- Hperm; by left|rewrite <- Hperm; by eapply list_elem_of_lookup_2|..].
  - apply sum_bounds in Hb'. apply Z.div_le_lower_bound; lia.
  - apply sum_bounds in Hb'. apply Z.div_le_upper_bound; lia.
Qed.

(** The workers of [RunCallBenchmark] make their calls at the same time and put
    the time of each into a channel, from which it takes as many times as there
    are calls.  [workers] holds the calls left to each.  The error of a call is
    printed only. *)
Record benchmark := mkBenchmark {
  workers : list nat;
  chResults : list Z;
  collected : list Z }.

Inductive bench_label : Type :=
  | BCall (a : nat) (usedTime : Z)   (** a round of [callNTimes] *)
  | BCollect.

(** What a worker does before its first call: without a client, or without a
    method, it panics, and with it the process. *)
Definition worker_start (new_client : string → result (error + any_client)) (NewUuid serverUrl method : string)
    (params : list any) (num : nat) : result unit :=
  c ← new_client serverUrl;
  match c with
  | inl err => Panic (PanicError err)
  | inr _ =>
      match num with
      | O => Ret tt
      | S _ => _ ← NewRequestMessage (AString NewUuid) method (AList params); Ret tt
      end
  end.

Definition start_benchmark (new_client : string → result (error + any_client)) (NewUuid serverUrl method : string)
    (params : list any) (concurrency num : nat) : result benchmark :=
  let s := mkBenchmark (replicate concurrency num) [] [] in
  match concurrency with
  | O => Ret s
  | S _ => _ ← worker_start new_client NewUuid serverUrl method params num; Ret s
  end.

Lemma start_benchmark_inv new_client NewUuid serverUrl method params concurrency num s :
  start_benchmark new_client NewUuid serverUrl method params concurrency num = Ret s →
  s = mkBenchmark (replicate concurrency num) [] [].
Proof.
  unfold start_benchmark. destruct concurrency as [|k]; [by intros [= <-]|].
  destruct (worker_start _ _ _ _ _ _); [|done]. by intros [= <-].
Qed.

(** [total] is the room in the channel, and the number of times taken. *)
Definition bench_step (total : nat) (l : bench_label) (s : benchmark) : option benchmark :=
  match l with
  | BCall a usedTime =>
      match workers s !! a with
      | Some (S n) =>
          if (length (chResults s) <? total)%nat then
            Some (mkBenchmark (<[a := n]> (workers s)) (chResults s ++ [usedTime]) (collected s))
          else None
      | _ => None
      end
  | BCollect =>
      match chResults s with
      | usedTime :: q =>
          if (length (collected s) <? total)%nat then
            Some (mkBenchmark (workers s) q (collected s ++ [usedTime]))
          else None
      | [] => None
      end
  end.

Fixpoint bench_run (total : nat) (ls : list bench_label) (s : benchmark) : option benchmark :=
  match ls with
  | [] => Some s
  | l :: ls => s ← bench_step total l s; bench_run total ls s
  end.

Definition bench_times : list bench_label → list Z :=
  omap (λ l, match l with BCall _ usedTime => Some usedTime | BCollect => None end).

(** Each call is left, in the channel or collected. *)
Definition bench_count (total : nat) (s : benchmark) : Prop :=
  (sum_list (workers s) + length (chResults s) + length (collected s) = total)%nat.

Lemma sum_list_insert (l : list nat) a n :
  l !! a = Some (S n) → sum_list l = S (sum_list (<[a := n]> l)).
Proof.
  revert a. induction l as [|k l IH]; intros [|a]; try done.
  - by intros [= ->].
  - intros H. change (sum_list (k :: l) = S (k + sum_list (<[a := n]> l))).
    cbn. rewrite (IH a H). unfold id. lia.
Qed.

Lemma bench_step_count total l s s' :
  bench_count total s → bench_step total l s = Some s' →
  bench_count total s' ∧ collected s' ++ chResults s' = (collected s ++ chResults s) ++ bench_times [l] ∧
  (length (chResults s') + 2 * length (collected s') = S (length (chResults s) + 2 * length (collected s)))%nat.
Proof.
  unfold bench_count. intros Hc. destruct l as [a t|]; cbn [bench_step].
  - destruct (workers s !! a) as [[|n]|] eqn:Ha; try done. destruct (_ <? _)%nat; [|done]. intros [= <-]. simpl.
    rewrite length_app, app_assoc. apply sum_list_insert in Ha. rewrite Ha in Hc. split_and!; [simpl; lia|done|simpl; lia].
  - destruct (chResults s) as [|t q]; [done|]. destruct (_ <? _)%nat; [|done]. intros [= <-]. simpl in *.
    rewrite length_app, app_nil_r, <- app_assoc. split_and!; [simpl; lia|done|simpl; lia].
Qed.

Lemma bench_run_count total ls s s' :
  bench_run total ls s = Some s' → bench_count total s →
  bench_count total s' ∧ collected s' ++ chResults s' = (collected s ++ chResults s) ++ bench_times ls ∧
  (length (chResults s') + 2 * length (collected s')
    = length ls + (length (chResults s) + 2 * length (collected s)))%nat.
Proof.
  revert s. induction ls as [|l ls IH]; intros s; cbn [bench_run].
  { intros [= <-] ?. by rewrite app_nil_r. }
  intros (s1 & H1 & H2)%bind_Some Hc. destruct (bench_step_count _ _ _ _ Hc H1) as (Hc1 & Ht1 & Hl1).
  destruct (IH s1 H2 Hc1) as (? & -> & Hl). rewrite Ht1, <- app_assoc. split_and!; [done| |simpl; lia].
  by destruct l.
Qed.


Definition demo_client : result (error + any_client) :=
  Ret (inr (HTTP1 (mkURL "http" "127.0.0.1" "9990") (mkClientOptions 0))).

