(* ===== verification/Programs.v ===== *)
(** * The programs: main of the tools and of the example

    From the arguments of a command line to what a tool does.  Each program
    declares its flags, takes them from its arguments (Flags.v) and goes on
    with their values (Cli.v).  An unknown or malformed flag ends it with code 2,
    a request for help with code 0. *)

From S2P Require Import Prelude GoMap Strconv Values Messages Parse JsonText WireText Pretty.
From S2P Require Import StreamingClient Http Http1 Session Utils Clients Flags Cli.
From stdpp Require Import options.
#[local] Open Scope Z_scope.

(** ** The values of flags *)

Definition string_flag (name : string) (fs : FlagSet) : string :=
  match map_get name fs with Some (VString s) => s | _ => "" end.
Definition int_flag (name : string) (fs : FlagSet) : Z :=
  match map_get name fs with Some (VInt z) | Some (VUint z) => z | _ => 0 end.
Definition bool_flag (name : string) (fs : FlagSet) : bool :=
  match map_get name fs with Some (VBool b) => b | _ => false end.
Definition headers_flag (name : string) (fs : FlagSet) : HeaderFlags :=
  match map_get name fs with Some (VHeaders l) => l | _ => [] end.

(** [Parse] with flag.ExitOnError. *)
Definition with_flags {A} (fs : FlagSet) (args : list string) (os_Exit : Z → A) (main : FlagSet → list string → A)
    : A :=
  match flag_Parse fs args with
  | Parsed fs rest => main fs rest
  | Usage => os_Exit 0
  | BadFlag => os_Exit 2
  end.

Definition tool_flags (fs : FlagSet) (args : list string) : cli_flags :=
  mkFlags (string_flag "c" fs) (headers_flag "header" fs) args.

(** ** The tools *)

Section programs.
Context (os_Open : string → error + string).
Context (new_client : string → result (error + any_client)).
Context (env : string).

Definition call_flags : FlagSet := [("c", VString ""); ("header", VHeaders []); ("dumpheader", VBool false)].

Definition call_program (call : any_client → http_header → RequestMessage → error + Message) (args : list string)
    (reqId : string) : result cli_end :=
  with_flags call_flags args (λ code, Ret (mkEnd [] code)) (λ fs args,
    call_main os_Open new_client env call (tool_flags fs args) (bool_flag "dumpheader" fs) reqId).

Definition notify_flags : FlagSet := [("c", VString ""); ("header", VHeaders [])].

Definition notify_program (send : any_client → http_header → Message → option error) (args : list string)
    : result cli_end :=
  with_flags notify_flags args (λ code, Ret (mkEnd [] code)) (λ fs args,
    notify_main os_Open new_client env send (tool_flags fs args)).

Definition watch_flags : FlagSet := [("c", VString ""); ("retry", VInt 1); ("header", VHeaders [])].

(** The rounds of the watcher are what the network gives to this client. *)
Definition watch_program (rounds : any_client → http_header → list attempt) (args : list string)
    : result (cli_end + (list string * option nat)) :=
  with_flags watch_flags args (λ code, Ret (inl (mkEnd [] code))) (λ fs args,
    watch_main os_Open new_client env (λ c header method params,
      watcher_run method params (int_flag "retry" fs) 0 (rounds c header)) (tool_flags fs args)).

Definition benchmark_flags : FlagSet :=
  [("c", VString ""); ("m", VUint 10); ("n", VUint 10); ("header", VHeaders [])].

Definition benchmark_program (args : list string)
    : cli_end + (string * string * list any * http_header * Z * Z) :=
  with_flags benchmark_flags args (λ code, inl (mkEnd [] code)) (λ fs args,
    benchmark_main os_Open env (tool_flags fs args) (int_flag "m" fs) (int_flag "n" fs)).

(** ** What a command line does *)

(** The flags of a command line: a server and headers. *)
Definition server_args (url : string) (headers : HeaderFlags) : list flag_arg :=
  mkFlagArg "c" url Separate false :: ((λ h, mkFlagArg "header" h Separate false) <$> headers).

Lemma server_args_ok url headers : Forall (λ a, flag_name_ok (fa_name a)) (server_args url headers).
Proof using Type. constructor; [done|]. apply Forall_fmap, Forall_true. done. Qed.

Lemma headers_assigned url l headers (rest : FlagSet) :
  flag_assigns (("c", VString url) :: ("header", VHeaders l) :: rest)
    ((λ h, mkFlagArg "header" h Separate false) <$> headers) =
  Some (("c", VString url) :: ("header", VHeaders (l ++ headers)) :: rest).
Proof using Type.
  revert l. induction headers as [|h headers IH]; intros l; [by rewrite app_nil_r|].
  rewrite fmap_cons. cbn [flag_assigns].
  assert (flag_assign (("c", VString url) :: ("header", VHeaders l) :: rest) (mkFlagArg "header" h Separate false)
    = Some (("c", VString url) :: ("header", VHeaders (l ++ [h])) :: rest)) as -> by done.
  cbn [mbind option_bind]. by rewrite IH, <- app_assoc.
Qed.

(** C31. A call from the shell.  [jsonrpc-call -c url -header h ... method word ...]
    sends the request for this method with the parameters that the words are
    taken for, with these headers, to this server; and what it prints, before it
    ends with code 0, is a text of the response: parsing it gives the response
    back. *)
Theorem call_program_prints call url headers method words reqId params header c resmsg :
  url ≠ "" → method ≠ "" → flag_token_of method = NotFlag →
  HeaderFlags_Parse headers = inr header → GuessJsonArray os_Open words = (params, None) →
  new_client url = Ret (inr c) →
  call c header (mkRequest (mkBase MKRequest "") (AString reqId) method params true) = inr resmsg →
  message_wire resmsg → shallow resmsg →
  ∃ text, call_program call ((server_args url headers ≫= flag_args_of) ++ method :: words) reqId
      = Ret (mkEnd [text] 0) ∧
    ParseBytes (scan_text text) [] = Ret (inr (message_norm resmsg)).
Proof using Type.
  intros Hurl Hm Hplain Hh Hg Hc Hcall Hw Hs.
  destruct (call_main_prints os_Open new_client env call (mkFlags url headers (method :: words)) false reqId
    method params url header c resmsg) as (text & Ht & Hp); try done.
  { unfold parse_command. cbn [flag_args flag_headers flag_c]. rewrite Hg, Hh. unfold server_url.
    by rewrite !(bool_decide_false (url = "")). }
  exists text. split; [|done]. unfold call_program, with_flags.
  assert (flag_assigns call_flags (server_args url headers) =
    Some [("c", VString url); ("header", VHeaders headers); ("dumpheader", VBool false)]) as Hfs
    by by apply (headers_assigned url [] headers).
  rewrite (flag_Parse_args _ _ _ _ (server_args_ok url headers) Hfs), flag_Parse_plain by done.
  by rewrite <- Ht.
Qed.

(** [jsonrpc-watch -c url -retry n] tries a server that cannot be reached [n]
    times, whatever the number, and ends. *)
Theorem watch_program_gives_up rounds url n c :
  url ≠ "" → is_int64 n = true → 0 < n → new_client url = Ret (inr c) → Streamable c = true →
  n ≤ Z.of_nat (length (rounds c [])) →
  Forall (λ a, ∃ err, a = ConnectFails err ∧ retriable err = true) (rounds c []) →
  watch_program rounds ["-c"; url; "-retry"; Itoa n] = Ret (inr ([], Some (Z.to_nat n))).
Proof using Type.
  intros Hurl Hn Hpos Hc Hs Hlen Hall. unfold watch_program, with_flags.
  pose (l := [mkFlagArg "c" url Separate false; mkFlagArg "retry" (Itoa n) Separate false]).
  assert (flag_assigns watch_flags l =
    Some [("c", VString url); ("retry", VInt n); ("header", VHeaders [])]) as Hfs.
  { transitivity (fs ← (v' ← flag_Set (VInt 1) (Itoa n);
      Some [("c", VString url); ("retry", v'); ("header", VHeaders [])]); Some fs); [done|].
    cbn [flag_Set]. by rewrite ParseInt0_Itoa, Hn. }
  assert (Forall (λ a, flag_name_ok (fa_name a)) l) as Hl by by repeat constructor.
  change ["-c"; url; "-retry"; Itoa n] with ((l ≫= flag_args_of) ++ []).
  rewrite (flag_Parse_args _ l _ [] Hl Hfs). cbn [flag_Parse].
  unfold watch_main, watch_command, tool_flags. cbn [flag_headers flag_c flag_args].
  change (headers_flag "header" _) with ([] : HeaderFlags). change (string_flag "c" _) with url.
  change (int_flag "retry" _) with n. change (HeaderFlags_Parse []) with (inr [] : error + http_header).
  cbn iota. unfold server_url. rewrite !(bool_decide_false (url = "")) by done. rewrite Hc.
  cbn [mbind outcome_mbind outcome_bind]. rewrite Hs, watcher_gives_up by (done || lia).
  cbn. do 4 f_equal. lia.
Qed.
End programs.

(** ** The example service *)

Inductive service_start : Type :=
  | StartTCP (bind : string)                         (** NewTCPServer and Start *)
  | ListenGateway (bind : string) (insecure : bool). (** NewGatewayHandler and ListenAndServe *)

Definition fifo_flags : FlagSet := [("tcp", VString ""); ("bind", VString "")].

(** main of examples/fifo, up to the server it starts. *)
Definition fifo_program (args : list string) : cli_end + service_start :=
  with_flags fifo_flags args (λ code, inl (mkEnd [] code)) (λ fs _,
    let pTcp := string_flag "tcp" fs in
    if bool_decide (pTcp ≠ "") then inr (StartTCP pTcp) else
    let bind := string_flag "bind" fs in
    let bind := if bool_decide (bind = "") then "127.0.0.1:6000" else bind in
    inr (ListenGateway bind true)).

Example services_started :
  fifo_program [] = inr (ListenGateway "127.0.0.1:6000" true) ∧
  fifo_program ["-tcp=:7000"; "-bind"; ":80"] = inr (StartTCP ":7000") ∧
  fifo_program ["-bind"; ":80"] = inr (ListenGateway ":80" true) ∧
  fifo_program ["-help"] = inl (mkEnd [] 0) ∧ fifo_program ["-udp"] = inl (mkEnd [] 2).
Proof. by vm_compute. Qed.

Lemma call_program_prints_witness :
  ∃ text, call_program (λ _, inl (ErrorString "no such file")) (λ _, demo_client) "" (λ _ _ _, inr echo_reply)
      ["-c"; "http://127.0.0.1:9990"; "-header"; "X-Id: 7"; "get"; "5"; "yes"] "u" = Ret (mkEnd [text] 0) ∧
    ParseBytes (scan_text text) [] = Ret (inr (message_norm echo_reply)).
Proof.
  apply (call_program_prints (λ _, inl (ErrorString "no such file")) (λ _, demo_client) ""
    (λ _ _ _, inr echo_reply) "http://127.0.0.1:9990" ["X-Id: 7"] "get" ["5"; "yes"] "u"
    [AInt64 5; AString "yes"] [("X-Id", ["7"])] (HTTP1 (mkURL "http" "127.0.0.1" "9990") (mkClientOptions 0)));
    first [done | by vm_compute | by repeat split | by apply is_shallow_spec].
Defined.
